(* ===== verification/_CoqProject ===== *)
-Q . S2P
Prelude.v
StateMonad.v
CLib.v
CString.v
FloatBounds.v
FloatRound.v
FloatText.v
StdMap.v
JsonText.v
FloatLength.v
JsonValue.v
JsonValueFacts.v
JsonArray.v
JsonReader.v
JsonReaderWp.v
JsonReaderFacts.v
JsonWriter.v
JsonGrammar.v
JsonScan.v
JsonReals.v
JsonLayout.v
JsonFields.v
JsonRoundtrip.v
JsonStyled.v
JsonBuilder.v
JsonStyledWalk.v
JsonStyledFacts.v
JsonBuilderFacts.v
JsonOurReader.v
JsonOurReaderWp.v
JsonOurReaderFacts.v
JsonReaderBuilder.v
JsonReaderBuilderFacts.v
JsonReaderRel.v
JsonReaderTokens.v
JsonReaderAgree.v
JsonReaderDocs.v
JsonStream.v
JsonMembers.v
JsonMembersFacts.v
JsonPath.v
JsonPathFacts.v
JsonConvertFacts.v
Memory.v
JsonMemory.v
HeapLogic.v
JsonMemoryKeys.v
JsonMemoryMaps.v
JsonMemoryOps.v
JsonMemoryArrays.v
JsonMemoryFacts.v
Esp.v
FirebaseApp.v
FirebaseAppFacts.v
Rtdb.v
RtdbFacts.v
Sensors.v
SensorsFacts.v
Modem.v
ModemFacts.v
Calendar.v
Main.v
BatchFacts.v
BatchJson.v
MainFacts.v
AppMain.v
AppMainFacts.v
