(* ===== verification/Prelude.v ===== *)
(** * ESP32-WROVER-PPP-AMB: the air-quality firmware, modelled and verified

    The firmware of an ESP32 with a SIM7600 modem.  At power-on [app_main]
    brings PPP up over the modem, waits for the clock, asks a service for the
    city of its cell, starts the sensors and creates [sensor_task]; the task
    reads an SCD4x and a SEN5x every minute, averages five readings and writes
    the average as JSON into a Firebase realtime database over HTTPS, with
    token handling, retries and a retention rule.  The JSON library is the copy
    of jsoncpp under components/jsoncpp.

    ** Files

    The development is a library; each file requires the ones it builds on.

    - Prelude (this file): results of C code ([outcome]: a value, a process that
      stops, undefined behaviour, a model out of fuel), machine-width integers,
      bytes, lemmas on lists; StateMonad: programs with state over it; StdMap:
      [std::map] as a sorted list.
    - CLib, CString, Calendar: the functions of the C and C++ standard library
      the sources call: decimal text, [printf] conversions, IEEE formats (over
      [SpecFloat]), strings in buffers, [localtime_r] and [strftime].
      FloatBounds: bounds of rounded results; FloatRound: what rounding to nearest
      gives near a representable number; FloatText: the digits [printf] prints of a
      double and their reading; FloatLength: how long the text of a number is.
    - JsonText, JsonValue, JsonReader, JsonWriter: json_tool.h, json_value.cpp
      with value.h, json_reader.cpp with reader.h, json_writer.cpp.  A [Value]
      is a tree; a [Value&] or [Value*] the parser keeps is a path from the
      root; [Reader] is the record of the parser's members.
    - JsonOurReader: [OurReader] of json_reader.cpp, the configurable parser.  It
      repeats much of [Reader]: its record holds a [Reader] and what [OurReader]
      adds, and a method with the same body is [core] of the method of [Reader].
      JsonReaderBuilder: the interface of parsers and of their factories as type
      classes, [CharReaderBuilder], [parseFromStream], [operator>>].
    - JsonMembers, JsonPath: the rest of json_value.cpp and value.h: overloads,
      the iterators of json_valueiterator.inl, [Path].
    - JsonStyled, JsonBuilder: the rest of json_writer.cpp.  [StyledWriter],
      [StyledStreamWriter] and [BuiltStyledStreamWriter] repeat one walk over the
      tree; it is written once over the class [Style] of their methods.
    - Memory, JsonMemory: the heap of the C library, and json_value.cpp over it:
      string buffers with their length in front, [CZString] with its policy bits,
      maps as objects, copies and destructors.  HeapLogic is a linear separation
      logic for such programs, an instance of the BI of Iris; JsonMemoryKeys (the
      interface [KeyRep] of keys), JsonMemoryMaps (nodes), JsonMemoryOps,
      JsonMemoryArrays and JsonMemoryFacts prove with it that JsonMemory refines
      JsonValue.
    - JsonValueFacts, JsonArray, JsonConvertFacts, JsonMembersFacts, JsonPathFacts:
      theorems on values.  JsonReaderWp: weakest preconditions for the methods of
      [Reader], over the class [Stops] of the stops that are allowed;
      JsonReaderFacts: theorems on the parser.  JsonOurReaderWp lifts this calculus
      to [OurReader]; JsonOurReaderFacts, JsonReaderBuilderFacts: its theorems.
      JsonReaderRel is a relational calculus for runs of both readers side by side;
      JsonReaderTokens, JsonReaderAgree, JsonReaderDocs compare their tokens, values
      and documents with it.  JsonStream: [operator<<], then [operator>>].
    - JsonGrammar, JsonScan, JsonReals, JsonLayout, JsonRoundtrip: the grammar of
      the texts of a tree ([layout]: its tokens in order, blanks between them), the
      parser run on such texts (JsonReals: on doubles), writing and parsing.
      JsonFields: objects printed by hand, with members in any order and numbers of
      a fixed count of decimals.  JsonStyledWalk, JsonStyledFacts,
      JsonBuilderFacts: the walk against the laws [StyleLaws], the three classes as
      instances of them, and what the readable writers promise.
    - Esp: ESP-IDF and FreeRTOS as the class [Platform], a parameter: every
      answer is an arbitrary function of the history of calls, so nothing is
      assumed of the network, the modem, the sensors or the clock except where
      a theorem names it.
    - FirebaseApp, Rtdb: components/esp_firebase: app.cpp ([http_event_handler],
      [performRequest], tokens); rtdb.cpp and firebase_c_shim.cpp (reads,
      writes, deletions, retention, the C functions and their two globals).
    - Sensors: main/sensors.c, the I2C drivers and the measurement text.
    - Modem: main/modem_ppp.c, AT texts, registration, PPP, geolocation.
    - Main: [sensor_task] of main/main.c; AppMain: [app_main] and its helpers.
    - FirebaseAppFacts, RtdbFacts, SensorsFacts, ModemFacts, BatchFacts, BatchJson,
      MainFacts, AppMainFacts: their theorems.

    ** How the parts interact

    Components are composed as the code composes them, with the history of
    calls threaded through: [Net] is a [FirebaseApp] with the handler's global
    [output_len]; [Shim] holds the two global objects of the C interface;
    [Sens] and [Modem] hold the statics of their files; [World] is what
    [sensor_task] sees (shim, sensors, its own variables), [Boot] what
    [app_main] sees.  [AppMainFacts.world_of] hands the state of a start-up to
    the task, and the theorem on [app_main] gives the hypothesis on the initial
    state in the theorem on [sensor_task].  The response buffer connects HTTP
    and JSON: [FirebaseAppFacts.response_is_prefix] says what it holds,
    [JsonReaderFacts.parse_safe] what the parser makes of any bytes.

    ** What the theorems show

    - The task (MainFacts, BatchFacts, BatchJson): it is a queue of readings served
      in fives, each batch uploaded whole under a key that sorts by time; with
      working sensors the next batch comes; every text fits its buffer and is JSON
      for the averages rounded to the printed decimals; the floating point of the
      retention converts within range.  [MainFacts.rounds] runs the task along the
      trace of its calls: a reading is the one the sensors' answers of its own round
      give ([SensorsFacts.reading]), and a batch carries the time the clock told
      right after its fifth reading.
    - Start-up (AppMainFacts): it ends in one of five ways - a restart, a failed
      [ESP_ERROR_CHECK], an [atoi] out of range on the codes of the cell, sensors
      that do not start, or the task - and the task is created only with everything
      in place.  The answers of the modem are texts below 128 bytes ([answers_fit]).
    - The modem (ModemFacts): the cell line is read back exactly; only a valid
      cell is used; the waits and the geolocation end after a known number of
      commands; both receive buffers hold what fits.
    - The database client (FirebaseAppFacts, RtdbFacts): the requests each
      operation sends, in order, and the verdict it derives from the replies;
      termination and memory safety for arbitrary replies; the retention patch
      is JSON that deletes exactly the listed keys.  The calculus [wpn F] is over
      the set [F] of texts a run may stop on: with [no_text] the replies can all be
      read (objects or null, scalar tokens, lifetimes within [int]) and a program
      always returns; with [text_of_run] they are arbitrary, and a stop comes with
      the text that caused it ([reply_aborts], [reply_overflows]).  What a reply
      brings is tied to the buffer after it ([holds_reply], [response]): the tokens
      a login stores are fields of the replies to its two requests.
    - The sensors (SensorsFacts): the polling loop ends; the record read is computed
      from the bytes the bus delivered in the same call ([reading], [fetched],
      [polled]: relations on the trace); decoding accepts exactly the encodings
      with right checksums, and the checksum detects every error of up to three
      bits in a word.
    - jsoncpp: [Reader::parse] is safe and total on every document up to the
      nesting limit; writing, with each of the four writers, and parsing are
      inverse, doubles included: seventeen digits determine every double, and only
      NaN is not read back; the builder's writer, without indentation, prints what
      [FastWriter] prints; arrays refine lists, objects refine finite maps; every
      operation keeps a tree well formed; the integer branch of the number reader
      is exact.  [OurReader::parse] is safe with every combination of features and
      total below its nesting limit and names of 2^30 bytes, [operator>>] gives its tree or its error
      report.  What [Reader] accepts [OurReader], its extensions off, accepts as the
      same tree, and
      [operator>>] reads back what [operator<<] writes.  Over the heap, programs on
      values are free of use after free, double free and leaks, for every allocator.  [isConvertibleTo] decides which
      conversions stop the process; the iterators meet every node once; paths are
      read back from their text, and [resolve] finds what [make] made.

    Behaviour that differs from a comment, a document or an evident intention is
    proved as it is, in lemmas that the findings of the manifest name,
    such as [BatchFacts.clock_unset_key] or [ModemFacts.cereg_accepts_denied].

    ** Bounds and fuel

    - Recursive descent: [parse] and [our_parse] run with fuel [3 * length + 1] of
      the document; [JsonReaderFacts] and [JsonOurReaderFacts] prove that it does
      not run out for any document.
    - [makePath] has one step per character, enough for every text without a NUL
      ([JsonPathFacts.path_text_read]; with one the code does not end).  The loops
      over iterators have one step per node ([JsonMembersFacts.iteration_complete]).
    - HTTP requests: [MAX_ATTEMPTS] = 5 and [UL_ATTEMPTS] = 5 are the constants of
      the code; [sensors_read] polls 30 times, [wait_time] 100 times, as written.
    - [cereg_loop] has fuel for [timeout / poll + 1] rounds; [esperar_cereg_spec]
      proves that this is enough for a positive period.  [cpsi_tokens] has one
      step per character, enough since a token takes at least one.
    - [sensor_task] loops for ever: [task_loop rounds] is its first [rounds]
      rounds and the theorems hold for every number of them.

    ** Not modelled

    - Memory: the nodes of a map, comments and [std::string]s belong to the library;
      the secure allocator and the branches for other compilers are not compiled in
      this configuration, and neither are C++ exceptions.
    - Logging: the calls are left out, but a string a call reads with [%s] is read
      in the model where the read can go wrong ([log_response], the answers of
      the modem).
    - The SDK: HTTP client, TLS, PPP, the scheduler; they are [Platform].  The IP
      event handler is modelled, but not the moment the SDK calls it: a restart
      that interrupts another operation ends the device, not that operation.
    - [setenv] and [tzset]: the zone is UTC-6 throughout.
    - Destructors of [FirebaseApp] and [RTDB]: nothing runs them; the first is the
      definition [FirebaseApp_delete].
    - A text that strtod of another locale would read: the decimal point is a point.
    - Files without code of their own: configuration headers, certificates, build
      files, the credentials template. *)
From stdpp Require Export base decidable option list numbers strings sets relations.
From Stdlib Require Export ZArith Lia.
From Stdlib Require Ascii String.
Export (notations) Stdlib.Strings.Ascii.

#[export] Set Default Goal Selector "!".
Open Scope Z_scope.

(** ** Results of C and C++ code *)

(** [Ret a]: normal return.  [Abort m]: the process is stopped by [abort()],
    which is what [JSON_FAIL_MESSAGE], [throwRuntimeError] and a failed
    [assert] come to in this build ([JSON_USE_EXCEPTION=0]).  [Undef m]: the
    code performs an operation the language leaves undefined.  [Fuel]: a
    bounded loop of the model ran out of steps; every component proves that
    this never happens for the bounds it uses. *)
Inductive outcome (A : Type) : Type :=
  | Ret (a : A)
  | Abort (msg : string)
  | Undef (msg : string)
  | Fuel.
Arguments Ret {A} a.
Arguments Abort {A} msg.
Arguments Undef {A} msg.
Arguments Fuel {A}.

#[export] Instance outcome_ret : MRet outcome := fun A a => Ret a.
#[export] Instance outcome_bind : MBind outcome := fun A B f m =>
  match m with
  | Ret a => f a
  | Abort s => Abort s
  | Undef s => Undef s
  | Fuel => Fuel
  end.
#[export] Instance outcome_fmap : FMap outcome := fun A B f m =>
  match m with
  | Ret a => Ret (f a)
  | Abort s => Abort s
  | Undef s => Undef s
  | Fuel => Fuel
  end.

(** [JSON_ASSERT_MESSAGE(cond, message)]. *)
Definition json_assert (cond : bool) (msg : string) : outcome unit :=
  if cond then Ret tt else Abort msg.

Definition is_ret {A} (m : outcome A) : bool :=
  match m with Ret _ => true | _ => false end.

Definition is_abort {A} (m : outcome A) : bool :=
  match m with Abort _ => true | _ => false end.

(** ** Bytes and strings *)

(** A [char] is its code 0..255; a string is the list of its characters. *)
Abbreviation bytes := (list Z).

Definition byte_ok (c : Z) : Prop := 0 <= c < 256.

Definition z_of_ascii (a : Ascii.ascii) : Z := Z.of_N (Ascii.N_of_ascii a).

Definition bytes_of_string (s : string) : bytes :=
  map z_of_ascii (String.list_ascii_of_string s).

(** [CH "x"] is the code of the character x, [STR "xyz"] the list of codes;
    both are evaluated when the term is read. *)
Abbreviation CH x :=
  (ltac:(let v := eval vm_compute in (z_of_ascii x%char) in exact v))
  (only parsing).
Abbreviation STR x :=
  (ltac:(let v := eval vm_compute in (bytes_of_string x%string) in exact v))
  (only parsing).

(** The double quote, which string literals here do not hold. *)
Definition dquote : Z := 34.

Definition is_digit (c : Z) : bool := (CH "0" <=? c) && (c <=? CH "9").

Definition bytes_eqb (a b : bytes) : bool := bool_decide (a = b).

(** ** Machine integers *)

Definition u8 (z : Z) : Z := z mod 2 ^ 8.
Definition u16 (z : Z) : Z := z mod 2 ^ 16.
Definition u32 (z : Z) : Z := z mod 2 ^ 32.
Definition u64 (z : Z) : Z := z mod 2 ^ 64.
(** Two's complement reading of the low [w] bits. *)
Definition signed (w : Z) (z : Z) : Z :=
  let m := z mod 2 ^ w in if m <? 2 ^ (w - 1) then m else m - 2 ^ w.
Definition i32 (z : Z) : Z := signed 32 z.
Definition i64 (z : Z) : Z := signed 64 z.

Definition in_u (w z : Z) : Prop := 0 <= z < 2 ^ w.
Definition in_s (w z : Z) : Prop := - 2 ^ (w - 1) <= z < 2 ^ (w - 1).

(** ** Tactics *)

Ltac destruct_match :=
  match goal with
  | |- context [match ?e with _ => _ end] => destruct e eqn:?
  end.

Ltac destruct_match_in H :=
  match type of H with
  | context [match ?e with _ => _ end] => destruct e eqn:?
  end.

(** Turn the boolean tests in the context into propositions. *)
Ltac bool_to_prop :=
  repeat match goal with
  | H : andb _ _ = true |- _ => apply andb_true_iff in H as [? ?]
  | H : andb _ _ = false |- _ => apply andb_false_iff in H
  | H : orb _ _ = true |- _ => apply orb_true_iff in H
  | H : orb _ _ = false |- _ => apply orb_false_iff in H as [? ?]
  | H : negb _ = true |- _ => apply negb_true_iff in H
  | H : negb _ = false |- _ => apply negb_false_iff in H
  | H : (_ =? _) = true |- _ => apply Z.eqb_eq in H
  | H : (_ =? _) = false |- _ => apply Z.eqb_neq in H
  | H : (_ <? _) = true |- _ => apply Z.ltb_lt in H
  | H : (_ <? _) = false |- _ => apply Z.ltb_ge in H
  | H : (_ <=? _) = true |- _ => apply Z.leb_le in H
  | H : (_ <=? _) = false |- _ => apply Z.leb_gt in H
  end.

(** Evaluate a closed comparison of integers in the goal. *)
Ltac zbool :=
  repeat match goal with
  | |- context [Z.eqb ?a ?b] =>
      first [ replace (Z.eqb a b) with true by (symmetry; apply Z.eqb_eq; lia)
            | replace (Z.eqb a b) with false by (symmetry; apply Z.eqb_neq; lia) ]
  | |- context [Z.leb ?a ?b] =>
      first [ replace (Z.leb a b) with true by (symmetry; apply Z.leb_le; lia)
            | replace (Z.leb a b) with false by (symmetry; apply Z.leb_gt; lia) ]
  | |- context [Z.ltb ?a ?b] =>
      first [ replace (Z.ltb a b) with true by (symmetry; apply Z.ltb_lt; lia)
            | replace (Z.ltb a b) with false by (symmetry; apply Z.ltb_ge; lia) ]
  end.

Create HintDb esp discriminated.
Create Rewrite HintDb esp_rw.

(** ** The result monad *)

Section outcome_lemmas.
Context {A B : Type}.

Lemma Ret_bind (a : A) (f : A -> outcome B) : Ret a ≫= f = f a.
Proof. done. Qed.

Lemma bind_Ret_inv (m : outcome A) (f : A -> outcome B) b :
  m ≫= f = Ret b <-> exists a, m = Ret a /\ f a = Ret b.
Proof.
  split; [destruct m; simpl; try discriminate; eauto|].
  intros (a & -> & H). exact H.
Qed.

Lemma json_assert_Ret c msg u : json_assert c msg = Ret u <-> c = true.
Proof. unfold json_assert. destruct c, u; split; congruence. Qed.

Lemma json_assert_bind (c : bool) msg (f : unit -> outcome B) b :
  (json_assert c msg ≫= f) = Ret b <-> c = true /\ f tt = Ret b.
Proof. unfold json_assert. destruct c; simpl; intuition congruence. Qed.
End outcome_lemmas.

(** [inv_ret H]: take apart every bind that returned normally. *)
Ltac inv_ret H :=
  repeat match type of H with
  | (mbind _ _) = Ret _ =>
      let a := fresh "a" in let Ha := fresh "Ha" in
      apply bind_Ret_inv in H as (a & Ha & H)
  end.

(** ** Lists *)

Section list_lemmas.
Context {A : Type}.

(** Reading a list from a position: the tail seen from [i]. *)
Lemma drop_cons_lookup (l : list A) i c tl :
  drop i l = c :: tl -> l !! i = Some c /\ drop (S i) l = tl /\ (i < length l)%nat.
Proof.
  intros H.
  destruct (lookup_lt_is_Some_2 l i) as [x Hx].
  { destruct (decide (i < length l)%nat) as [|Hn]; [done|].
    rewrite drop_ge in H by lia. discriminate. }
  rewrite (drop_S l x i Hx) in H. injection H as -> ->.
  split_and!; [done|done|by eapply lookup_lt_Some].
Qed.

Lemma drop_nil_ge (l : list A) i : drop i l = [] <-> (length l <= i)%nat.
Proof.
  split; [|apply drop_ge].
  intros H. apply (f_equal length) in H. rewrite length_drop in H. simpl in H. lia.
Qed.

Lemma drop_app_step (l : list A) i x y :
  drop i l = x ++ y -> drop (i + length x) l = y.
Proof. intros H. rewrite <- drop_drop, H. apply drop_app_length. Qed.
End list_lemmas.

(** ** Bit operations as arithmetic *)

Lemma land_mask x k : 0 <= k -> Z.land x (Z.ones k) = x mod 2 ^ k.
Proof. apply Z.land_ones. Qed.

Lemma lor_disjoint k a b :
  0 <= k -> a mod 2 ^ k = 0 -> 0 <= b < 2 ^ k -> Z.lor a b = a + b.
Proof.
  intros Hk Ha Hb. symmetry. apply Z.add_nocarry_lor.
  apply Z.bits_inj'. intros i Hi. rewrite Z.land_spec, Z.bits_0.
  destruct (Z.lt_ge_cases i k).
  - rewrite <- (Z.mod_pow2_bits_low a k i), Ha, Z.bits_0 by lia. done.
  - rewrite <- (Z.mod_small b (2 ^ k)), Z.mod_pow2_bits_high by lia. apply andb_false_r.
Qed.

(** [Z.lor] of a constant, or of a shifted value, with a value below it. *)
Lemma lor_shiftl k a b : 0 <= k -> 0 <= b < 2 ^ k -> Z.lor (Z.shiftl a k) b = a * 2 ^ k + b.
Proof.
  intros Hk Hb. rewrite Z.shiftl_mul_pow2 by done. apply (lor_disjoint k); [done| |done].
  apply Z.mod_mul. lia.
Qed.

(** Rewrite the masks, shifts and disjunctions of a goal into [mod], [/], [*]
    and [+]. *)
Ltac masks_to_mod :=
  repeat match goal with
  | |- context [Z.land ?m ?x] =>
      lazymatch m with Zpos _ => rewrite (Z.land_comm m x) end
  end;
  change 0x1f with (Z.ones 5) in *; change 0xf with (Z.ones 4) in *;
  change 0x7 with (Z.ones 3) in *; change 0x3f with (Z.ones 6) in *;
  change 0x3ff with (Z.ones 10) in *; change 0xff with (Z.ones 8) in *;
  rewrite ?Z.land_ones, ?Z.shiftr_div_pow2 by lia.
