(* ===== verification/StateMonad.v ===== *)
(** * Programs with state

    [ST S A]: programs over a state of type [S], which return, stop or fail as
    [outcome] says; used by the writers and by the firmware. *)
From S2P Require Export Prelude.
Open Scope Z_scope.


Definition ST (S A : Type) : Type := S -> outcome (A * S).
#[export] Instance ST_ret S : MRet (ST S) := fun A a s => Ret (a, s).
#[export] Instance ST_bind S : MBind (ST S) := fun A B f m s => '(a, s') ← m s; f a s'.

Definition get {S A} (f : S -> A) : ST S A := fun s => Ret (f s, s).
Definition put {S} (f : S -> S) : ST S unit := fun s => Ret (tt, f s).
Definition run {S A} (o : outcome A) : ST S A := fun s => a ← o; Ret (a, s).

Section ST_lemmas.
Context {S A B : Type}.

Lemma ST_bind_Ret (m : ST S A) (f : A -> ST S B) s a s' :
  m s = Ret (a, s') -> (m ≫= f) s = f a s'.
Proof. intros H. unfold mbind, ST_bind. by rewrite H. Qed.

Lemma ST_bind_inv (m : ST S A) (f : A -> ST S B) s r :
  (m ≫= f) s = Ret r -> exists a s', m s = Ret (a, s') /\ f a s' = Ret r.
Proof.
  unfold mbind at 1, ST_bind. intros ([a s'] & H & Hf)%bind_Ret_inv. by exists a, s'.
Qed.

Lemma get_bind {C} (g : S -> C) (f : C -> ST S B) s : (get g ≫= f) s = f (g s) s.
Proof. done. Qed.

Lemma put_bind (g : S -> S) (f : unit -> ST S B) s : (put g ≫= f) s = f tt (g s).
Proof. done. Qed.
End ST_lemmas.
