(* ===== verification/CLib.v ===== *)
(** * The C and C++ standard library functions the firmware uses

    Decimal conversion of integers ([%d], [%u]), C strings ([strlen],
    [strncpy], [strstr], ...), binary floating point (the IEEE formats of
    [SpecFloat]), the [%f] and [%g] conversions of [printf] and the extraction
    of a [double] from a stream.  Nothing here models a file under src/: these
    are the library calls the other files need. *)
From S2P Require Export Prelude.
From Stdlib Require Export SpecFloat.
Open Scope Z_scope.

(** ** Decimal digits *)

(** The digits of [n >= 0], most significant first; [fuel] bounds their number. *)
Fixpoint dec_aux (fuel : nat) (n : Z) (acc : bytes) : bytes :=
  match fuel with
  | O => acc
  | S f => let acc' := (CH "0" + n mod 10) :: acc in
           if n / 10 =? 0 then acc' else dec_aux f (n / 10) acc'
  end.

(** [%u]: one more step than the number of binary digits always suffices. *)
Definition dec_digits (n : Z) : bytes := dec_aux (S (Z.to_nat (Z.log2 n))) n [].

(** [%d]. *)
Definition dec_signed (n : Z) : bytes :=
  if n <? 0 then CH "-" :: dec_digits (- n) else dec_digits n.

(** The number a string of digits denotes, starting from [acc]. *)
Fixpoint digits_val (acc : Z) (s : bytes) : Z :=
  match s with
  | [] => acc
  | c :: s' => digits_val (acc * 10 + (c - CH "0")) s'
  end.

(** The longest prefix of digits, its value (from [acc]), its length, the rest. *)
Fixpoint take_digits (acc : Z) (cnt : nat) (s : bytes) : Z * nat * bytes :=
  match s with
  | c :: s' => if is_digit c then take_digits (acc * 10 + (c - CH "0")) (S cnt) s'
               else (acc, cnt, s)
  | [] => (acc, cnt, [])
  end.

(** Zero padding on the left to width [w]. *)
Definition pad0 (w : nat) (s : bytes) : bytes := repeat (CH "0") (w - length s) ++ s.

(** ** C strings *)

(** The C string stored in a buffer: everything before the first NUL.  [None]:
    the buffer holds no NUL, so reading it as a string leaves its bounds. *)
Fixpoint cstr (buf : bytes) : option bytes :=
  match buf with
  | [] => None
  | c :: b => if c =? 0 then Some [] else (cons c) <$> cstr b
  end.

(** The string seen through [c_str()] by a C function: cut at the first NUL. *)
Fixpoint c_str (s : bytes) : bytes :=
  match s with
  | [] => []
  | c :: s' => if c =? 0 then [] else c :: c_str s'
  end.

(** [memcpy(buf + off, data, n)]: a write that leaves the buffer is undefined. *)
Definition mem_write (off : Z) (data buf : bytes) : outcome bytes :=
  if (0 <=? off) && (off + Z.of_nat (length data) <=? Z.of_nat (length buf)) then
    Ret (take (Z.to_nat off) buf ++ data ++ drop (Z.to_nat off + length data) buf)
  else Undef "write outside a buffer".

Lemma cstr_app_nul a b : 0 ∉ a -> cstr (a ++ 0 :: b) = Some a.
Proof.
  induction a as [|c a IH]; [done|]. intros [Hc Ha]%not_elem_of_cons. simpl.
  rewrite (proj2 (Z.eqb_neq c 0)) by congruence. by rewrite IH.
Qed.

Lemma mem_write_ok off data buf :
  0 <= off -> off + Z.of_nat (length data) <= Z.of_nat (length buf) ->
  exists b, mem_write off data buf = Ret b /\ length b = length buf /\
            b = take (Z.to_nat off) buf ++ data ++ drop (Z.to_nat off + length data) buf.
Proof.
  intros H1 H2. unfold mem_write. rewrite (proj2 (Z.leb_le _ _)), (proj2 (Z.leb_le _ _)) by done.
  eexists. split_and!; [done| |done]. rewrite !length_app, length_take, length_drop. lia.
Qed.

(** What [memset(buf, 0, n)] writes. *)
Definition zeros (n : Z) : bytes := repeat 0 (Z.to_nat n).
Arguments zeros : simpl never.

Lemma length_zeros n : length (zeros n) = Z.to_nat n.
Proof. apply repeat_length. Qed.

(** [isspace] in the C locale. *)
Definition isspace (c : Z) : bool := (c =? 32) || ((9 <=? c) && (c <=? 13)).

Fixpoint drop_spaces (s : bytes) : bytes :=
  match s with
  | c :: s' => if isspace c then drop_spaces s' else s
  | [] => []
  end.

(** [atoi]: a number outside [int] is undefined. *)
Definition atoi (s : bytes) : outcome Z :=
  let s := drop_spaces (c_str s) in
  let '(neg, s) := match s with
                   | c :: s' => if c =? CH "-" then (true, s') else if c =? CH "+" then (false, s')
                                else (false, s)
                   | [] => (false, [])
                   end in
  let '(v, _, _) := take_digits 0 0 s in
  let v := if neg : bool then - v else v in
  if (- 2 ^ 31 <=? v) && (v <? 2 ^ 31) then Ret v else Undef "atoi: out of range".

(** ** Binary floating point *)

Abbreviation float64 := spec_float.
Abbreviation float32 := spec_float.

Definition b64_of_Z (z : Z) : float64 := binary_normalize 53 1024 z 0 false.
Definition b64_add : float64 -> float64 -> float64 := SFadd 53 1024.
Definition b64_mul : float64 -> float64 -> float64 := SFmul 53 1024.
Definition b64_div : float64 -> float64 -> float64 := SFdiv 53 1024.
Definition b32_add : float32 -> float32 -> float32 := SFadd 24 128.
Definition b32_mul : float32 -> float32 -> float32 := SFmul 24 128.
Definition b32_div : float32 -> float32 -> float32 := SFdiv 24 128.
Definition b32_of_Z (z : Z) : float32 := binary_normalize 24 128 z 0 false.

(** Rounding to [float], and the exact conversion back to [double]. *)
Definition b64_to_b32 (x : float64) : float32 :=
  match x with S754_finite s m e => binary_round 24 128 s m e | _ => x end.
Definition b32_to_b64 (x : float32) : float64 :=
  match x with S754_finite s m e => binary_round 53 1024 s m e | _ => x end.

Definition b64_max : float64 := SFmax_float 53 1024.

Definition sf_isnan (x : spec_float) : bool :=
  match x with S754_nan => true | _ => false end.
Definition sf_isinf (x : spec_float) : bool :=
  match x with S754_infinity _ => true | _ => false end.
Definition sf_isfinite (x : spec_float) : bool := negb (sf_isnan x || sf_isinf x).
Definition sf_iszero (x : spec_float) : bool :=
  match x with S754_zero _ => true | _ => false end.
Definition sf_sign (x : spec_float) : bool :=
  match x with
  | S754_zero s | S754_infinity s | S754_finite s _ _ => s
  | S754_nan => false
  end.

(** The integer part, rounding toward zero, of a finite number. *)
Definition sf_trunc (x : spec_float) : Z :=
  match x with
  | S754_finite s m e => cond_Zopp s (Z.shiftl (Zpos m) e)
  | _ => 0
  end.

(** [modf(d, &i) == 0.0]: infinities have a zero fraction, NaN does not. *)
Definition sf_is_integral (x : spec_float) : bool :=
  match x with
  | S754_nan => false
  | S754_finite _ m e => Z.shiftl (Z.shiftl (Zpos m) e) (- e) =? Zpos m
  | _ => true
  end.

(** A finite magnitude as a fraction. *)
Definition sf_ratio (m : positive) (e : Z) : Z * Z :=
  if 0 <=? e then (Z.shiftl (Zpos m) e, 1) else (Zpos m, Z.shiftl 1 (- e)).

(** Division of integers rounding to nearest, ties to even. *)
Definition div_rne (n d : Z) : Z :=
  let q := n / d in
  let r := n mod d in
  match Z.compare (2 * r) d with
  | Lt => q
  | Gt => q + 1
  | Eq => if Z.even q then q else q + 1
  end.

(** [printf("%.<p>f", x)]. *)
Definition fmt_f (p : nat) (x : spec_float) : bytes :=
  let sign := if sf_sign x then [CH "-"] else [] in
  let body (k : Z) :=
    let s := pad0 (S p) (dec_digits k) in
    let ip := take (length s - p) s in
    let fp := drop (length s - p) s in
    ip ++ match p with O => [] | _ => CH "." :: fp end in
  match x with
  | S754_nan => STR "nan"
  | S754_infinity _ => sign ++ STR "inf"
  | S754_zero _ => sign ++ body 0
  | S754_finite _ m e =>
      let '(n, d) := sf_ratio m e in
      sign ++ body (div_rne (n * 10 ^ Z.of_nat p) d)
  end.

(** The largest [x] with [10^x <= n/d], found by stepping from an estimate. *)
Definition pow10_le (n d x : Z) : bool :=
  if 0 <=? x then d * 10 ^ x <=? n else d <=? n * 10 ^ (- x).

Fixpoint dec_exponent (fuel : nat) (n d x : Z) : Z :=
  match fuel with
  | O => x
  | S f => if pow10_le n d (x + 1) then dec_exponent f n d (x + 1)
           else if pow10_le n d x then x
           else dec_exponent f n d (x - 1)
  end.

Definition dec_exp_of (n d : Z) : Z :=
  dec_exponent 8 n d ((Z.log2 n - Z.log2 d) * 30103 / 100000).

(** [n/d * 10^k], rounded. *)
Definition scale_rne (n d k : Z) : Z :=
  if 0 <=? k then div_rne (n * 10 ^ k) d else div_rne n (d * 10 ^ (- k)).

Definition strip_zeros (s : bytes) : bytes :=
  reverse ((fix go (l : bytes) := match l with
                                  | c :: l' => if c =? CH "0" then go l' else l
                                  | [] => []
                                  end) (reverse s)).

(** [printf("%.<p>g", x)], with [p >= 1] significant digits. *)
Definition fmt_g (p : nat) (x : spec_float) : bytes :=
  let sign := if sf_sign x then [CH "-"] else [] in
  let frac (s : bytes) := match strip_zeros s with [] => [] | t => CH "." :: t end in
  match x with
  | S754_nan => STR "nan"
  | S754_infinity _ => sign ++ STR "inf"
  | S754_zero _ => sign ++ STR "0"
  | S754_finite _ m e =>
      let '(n, d) := sf_ratio m e in
      let x0 := dec_exp_of n d in
      let k0 := scale_rne n d (Z.of_nat p - 1 - x0) in
      let '(k, x1) := if k0 =? 10 ^ Z.of_nat p then (k0 / 10, x0 + 1) else (k0, x0) in
      let ds := pad0 p (dec_digits k) in
      sign ++
      if (x1 <? -4) || (Z.of_nat p <=? x1) then
        take 1 ds ++ frac (drop 1 ds) ++ [CH "e"; if x1 <? 0 then CH "-" else CH "+"] ++
        pad0 2 (dec_digits (Z.abs x1))
      else if x1 <? 0 then
        STR "0" ++ frac (repeat (CH "0") (Z.to_nat (- x1 - 1)) ++ ds)
      else
        take (S (Z.to_nat x1)) ds ++ frac (drop (S (Z.to_nat x1)) ds)
  end.

(** ** Reading a [double] from a stream *)

(** The double nearest to [m * 10^e].  Exponents far outside the range of the
    format give infinity or zero without computing the power. *)
Definition b64_of_decimal (neg : bool) (m : Z) (ndigits : nat) (e : Z) : float64 :=
  match m with
  | Zpos p =>
      if 400 <? e + Z.of_nat ndigits then S754_infinity neg
      else if e + Z.of_nat ndigits <? -400 then S754_zero neg
      else if 0 <=? e then
        match m * 10 ^ e with
        | Zpos q => binary_round 53 1024 neg q 0
        | _ => S754_zero neg
        end
      else match 10 ^ (- e) with
           | Zpos q => SFdiv 53 1024 (S754_finite neg p 0) (S754_finite false q 0)
           | _ => S754_zero neg
           end
  | _ => S754_zero neg
  end.

(** What follows the sign: digits, a point, an exponent. *)
Definition istream_unsigned (neg : bool) (s1 : bytes) : float64 * bool :=
  let '(m1, n1, s2) := take_digits 0 0 s1 in
  let '(m, n, s3) := match s2 with
                     | c :: t => if c =? CH "." then take_digits m1 n1 t else (m1, n1, s2)
                     | [] => (m1, n1, s2)
                     end in
  let finish (e : Z) :=
    match b64_of_decimal neg m n (e - (Z.of_nat n - Z.of_nat n1)) with
    | S754_infinity true => (SFopp b64_max, false)
    | S754_infinity false => (b64_max, false)
    | v => (v, true)
    end in
  if (n =? 0)%nat then (S754_zero false, false)
  else match s3 with
       | c :: t =>
           if (c =? CH "e") || (c =? CH "E") then
             let '(eneg, t1) := match t with
                                | c1 :: t' => if c1 =? CH "-" then (true, t')
                                              else if c1 =? CH "+" then (false, t')
                                              else (false, t)
                                | [] => (false, t)
                                end in
             let '(ev, en, _) := take_digits 0 0 t1 in
             if (en =? 0)%nat then (S754_zero false, false)
             else finish (if eneg then - ev else ev)
           else finish 0
       | [] => finish 0
       end.

(** [is >> value] on the text [s]: the value left in [value] and whether the
    stream is still good.  A conversion that overflows stores the largest finite
    number and fails, one that finds no number, or an exponent without digits,
    stores zero and fails. *)
Definition istream_double (s : bytes) : float64 * bool :=
  match s with
  | c :: t => if c =? CH "-" then istream_unsigned true t
              else if c =? CH "+" then istream_unsigned false t else istream_unsigned false s
  | [] => istream_unsigned false s
  end.

(** ** Lemmas: decimal digits *)

Lemma digits_val_app acc s t : digits_val acc (s ++ t) = digits_val (digits_val acc s) t.
Proof. revert acc. induction s as [|c s IH]; intros acc; [done|apply IH]. Qed.

(** Linearity in the starting value. *)
Lemma digits_val_shift acc s :
  digits_val acc s = acc * 10 ^ Z.of_nat (length s) + digits_val 0 s.
Proof.
  revert acc. induction s as [|c s IH]; intros acc; simpl length.
  { simpl. lia. }
  cbn [digits_val]. rewrite IH, (IH (0 * 10 + _)), Nat2Z.inj_succ, Z.pow_succ_r by lia. ring.
Qed.

Lemma digits_val_zeros n s : digits_val 0 (repeat (CH "0") n ++ s) = digits_val 0 s.
Proof. induction n as [|n IH]; [done|apply IH]. Qed.

Lemma dec_aux_spec fuel n acc :
  0 <= n < 2 ^ Z.of_nat fuel ->
  fuel <> O ->
  exists ds, dec_aux fuel n acc = ds ++ acc /\ ds <> [] /\ Forall (fun c => is_digit c = true) ds /\
    digits_val 0 ds = n /\ (0 < n -> head ds <> Some (CH "0")).
Proof.
  revert n acc. induction fuel as [|f IH]; intros n acc Hn Hf; [done|].
  cbn [dec_aux].
  assert (Hd : is_digit (CH "0" + n mod 10) = true).
  { unfold is_digit. pose proof (Z.mod_pos_bound n 10). apply andb_true_iff.
    split; apply Z.leb_le; lia. }
  destruct (n / 10 =? 0) eqn:E; bool_to_prop.
  - exists [CH "0" + n mod 10]. assert (n < 10) by (apply Z.div_small_iff in E; lia).
    rewrite Z.mod_small in * by lia. split_and!; [done|done|by repeat constructor|simpl; lia|].
    simpl. intros ? [= ?]. lia.
  - assert (n / 10 < 2 ^ Z.of_nat f).
    { rewrite Nat2Z.inj_succ, Z.pow_succ_r in Hn by lia.
      apply Z.div_lt_upper_bound; lia. }
    assert (0 < n / 10) by (pose proof (Z.div_pos n 10); lia).
    destruct (IH (n / 10) ((CH "0" + n mod 10) :: acc)) as (ds & -> & Hne & Hall & Hv & Hh).
    { lia. } { intros ->. simpl in *. lia. }
    exists (ds ++ [CH "0" + n mod 10]). split_and!.
    + rewrite <- app_assoc. done.
    + by destruct ds.
    + apply Forall_app. split; [done|by repeat constructor].
    + rewrite digits_val_app, Hv. simpl. pose proof (Z.div_mod n 10). lia.
    + intros _. destruct ds as [|c ds]; [done|]. simpl in *. apply Hh. lia.
Qed.

Lemma dec_digits_spec n :
  0 <= n ->
  dec_digits n <> [] /\ Forall (fun c => is_digit c = true) (dec_digits n) /\
  digits_val 0 (dec_digits n) = n /\ (0 < n -> head (dec_digits n) <> Some (CH "0")).
Proof.
  intros Hn. unfold dec_digits.
  destruct (dec_aux_spec (S (Z.to_nat (Z.log2 n))) n []) as (ds & -> & H).
  - split; [done|]. rewrite Nat2Z.inj_succ, Z2Nat.id by apply Z.log2_nonneg.
    destruct (decide (n = 0)) as [->|]; [done|]. apply Z.log2_spec. lia.
  - done.
  - rewrite app_nil_r. naive_solver.
Qed.

Lemma take_digits_app ds acc cnt tl :
  Forall (fun c => is_digit c = true) ds ->
  (forall c, head tl = Some c -> is_digit c = false) ->
  take_digits acc cnt (ds ++ tl) = (digits_val acc ds, (cnt + length ds)%nat, tl).
Proof.
  intros Hds Ht. revert acc cnt. induction Hds as [|c ds Hc _ IH]; intros acc cnt.
  - simpl. rewrite Nat.add_0_r. destruct tl as [|c tl]; [done|]. simpl. by rewrite Ht.
  - simpl. rewrite Hc, IH. do 2 f_equal. lia.
Qed.

(** ** Lemmas: C strings *)

Lemma cstr_Some buf s : cstr buf = Some s <-> exists tl, buf = s ++ 0 :: tl /\ 0 ∉ s.
Proof.
  revert s. induction buf as [|c buf IH]; intros s; simpl.
  { split; [done|]. intros (tl & H & _). by destruct s. }
  destruct (c =? 0) eqn:E; bool_to_prop.
  - subst. split.
    + intros [= <-]. exists buf. split; [done|apply not_elem_of_nil].
    + intros (tl & H & Hn). destruct s as [|c s]; [done|].
      apply not_elem_of_cons in Hn as [Hn _]. injection H as <-. done.
  - rewrite fmap_Some. setoid_rewrite IH. split.
    + intros (s' & (tl & -> & Hn) & ->). exists tl.
      split; [done|]. apply not_elem_of_cons. done.
    + intros (tl & H & Hn). destruct s as [|c' s]; simpl in H; [congruence|].
      injection H as <- ->. apply not_elem_of_cons in Hn as [_ Hn]. eauto.
Qed.

Lemma c_str_no_nul s : 0 ∉ s -> c_str s = s.
Proof.
  induction s as [|c s IH]; [done|]. intros [Hc Hs]%not_elem_of_cons. simpl.
  rewrite IH by done. destruct (c =? 0) eqn:E; bool_to_prop; congruence.
Qed.

(** ** Lemmas: rounding *)

(** [div_rne] is within half a unit. *)
Lemma div_rne_nearest n d : 0 < d -> Z.abs (2 * (n - d * div_rne n d)) <= d.
Proof.
  intros Hd. unfold div_rne. pose proof (Z.div_mod n d). pose proof (Z.mod_pos_bound n d Hd).
  destruct (Z.compare_spec (2 * (n mod d)) d); [destruct (Z.even _)|..]; nia.
Qed.

Lemma div_rne_nonneg n d : 0 < d -> 0 <= n -> 0 <= div_rne n d.
Proof.
  intros Hd Hn. unfold div_rne. pose proof (Z.div_pos n d).
  destruct (_ ?= _); [destruct (Z.even _)|..]; lia.
Qed.
