(* ===== verification/CString.v ===== *)
(** * C strings: the functions of string.h, stdio.h and stdlib.h

    A C string is the list of its characters, without NUL; a buffer is the list
    of its bytes.  The functions that write take the buffer and return it, with
    [mem_write] refusing a write outside of it; the functions that only read
    take the string.  Nothing here models a file under src/. *)
From S2P Require Export CLib.
Open Scope Z_scope.

(** ** Reading and writing buffers *)

(** A buffer passed where a C string is expected. *)
Definition c_string (buf : bytes) : outcome bytes :=
  match cstr buf with Some s => Ret s | None => Undef "string without terminator" end.

(** [snprintf(buf, size, ...)] of a text: what the buffer holds then. *)
Definition snprintf (size : Z) (text buf : bytes) : outcome bytes :=
  if size =? 0 then Ret buf
  else mem_write 0 (take (Z.to_nat (size - 1)) text ++ [0]) buf.

(** [strlcpy(buf, src, size)]. *)
Definition strlcpy (size : Z) (src buf : bytes) : outcome bytes := snprintf size src buf.

(** [strncpy(buf, src, n)]: pads with NULs, and puts none when [src] is long. *)
Definition strncpy (n : Z) (src buf : bytes) : outcome bytes :=
  mem_write 0 (take (Z.to_nat n) (src ++ zeros n)) buf.

(** ** Comparing and searching *)

Fixpoint strncmp (n : nat) (a b : bytes) : Z :=
  match n with
  | O => 0
  | S n =>
      match a, b with
      | [], [] => 0
      | [], y :: _ => - y
      | x :: _, [] => x
      | x :: a, y :: b => if x =? y then strncmp n a b else x - y
      end
  end.

Definition tolower (c : Z) : Z := if (CH "A" <=? c) && (c <=? CH "Z") then c + 32 else c.
(** [strcasecmp(a, b) == 0]. *)
Definition strcase_eq (a b : bytes) : bool := bytes_eqb (map tolower a) (map tolower b).

Fixpoint prefix_of (p s : bytes) : bool :=
  match p, s with
  | [], _ => true
  | x :: p, y :: s => (x =? y) && prefix_of p s
  | _ :: _, [] => false
  end.

(** [strstr]: the text from the first occurrence on. *)
Fixpoint strstr (s p : bytes) : option bytes :=
  if prefix_of p s then Some s
  else match s with [] => None | _ :: s => strstr s p end.

Definition contains (s p : bytes) : bool := match strstr s p with Some _ => true | None => false end.

(** [strchr]: what is before the first [c], and what follows it. *)
Fixpoint strchr (s : bytes) (c : Z) : option (bytes * bytes) :=
  match s with
  | [] => None
  | x :: s => if x =? c then Some ([], s)
              else '(before, after) ← strchr s c; Some (x :: before, after)
  end.

(** [strtok_r] with the one delimiter [c]: the token and the text after it; runs
    of delimiters count as one. *)
Fixpoint drop_delims (c : Z) (s : bytes) : bytes :=
  match s with x :: s' => if x =? c then drop_delims c s' else s | [] => [] end.

Definition strtok (c : Z) (s : bytes) : option (bytes * bytes) :=
  match drop_delims c s with
  | [] => None
  | s => match strchr s c with Some (tok, rest) => Some (tok, rest) | None => Some (s, []) end
  end.

(** ** Numbers *)

(** The value of a character as a digit, 99 for none. *)
Definition digit_value (c : Z) : Z :=
  if is_digit c then c - CH "0"
  else if (CH "a" <=? c) && (c <=? CH "z") then c - CH "a" + 10
  else if (CH "A" <=? c) && (c <=? CH "Z") then c - CH "A" + 10
  else 99.

Fixpoint base_digits (base acc : Z) (s : bytes) : Z :=
  match s with
  | c :: s => if digit_value c <? base then base_digits base (acc * base + digit_value c) s else acc
  | [] => acc
  end.

Definition hex_prefix (s : bytes) : bool :=
  match s with
  | z :: x :: c :: _ => (z =? CH "0") && ((x =? CH "x") || (x =? CH "X")) && (digit_value c <? 16)
  | _ => false
  end.

(** [strtoul(s, NULL, 0)] where [unsigned long] has 32 bits: the base is read off
    the prefix; a number that does not fit gives [ULONG_MAX], a minus sign
    negates modulo 2^32. *)
Definition strtoul0 (s : bytes) : Z :=
  let s := drop_spaces s in
  let '(neg, s) := match s with
                   | c :: s' => if c =? CH "-" then (true, s') else if c =? CH "+" then (false, s')
                                else (false, s)
                   | [] => (false, [])
                   end in
  let v := if hex_prefix s then base_digits 16 0 (drop 2 s)
           else match s with
                | c :: _ => if c =? CH "0" then base_digits 8 0 s else base_digits 10 0 s
                | [] => 0
                end in
  if 2 ^ 32 <=? v then 2 ^ 32 - 1 else if neg : bool then u32 (- v) else v.

(** [(uint32_t)x] of a [double]: a value outside the type is undefined. *)
Definition b64_to_u32 (x : float64) : outcome Z :=
  if sf_isfinite x && (-1 <? sf_trunc x) && (sf_trunc x <? 2 ^ 32) then Ret (sf_trunc x)
  else Undef "conversion of a double to uint32_t".

(** ** Texts without NUL *)

Definition no_nul (s : bytes) : Prop := Forall (fun c => c <> 0) s.
Ltac nul_tac := unfold no_nul; cbn; repeat constructor; discriminate.

Lemma no_nul_elem s : no_nul s <-> 0 ∉ s.
Proof.
  unfold no_nul. rewrite Forall_forall. split; [intros Hs Hin; by apply (Hs 0 Hin)|].
  intros Hs c Hc ->. done.
Qed.

Lemma no_nul_dec_digits n : no_nul (dec_digits n).
Proof.
  unfold dec_digits. generalize (S (Z.to_nat (Z.log2 n))). intros fuel.
  assert (forall acc, no_nul acc -> no_nul (dec_aux fuel n acc)) as Ha; [|by apply Ha; constructor].
  revert n. induction fuel as [|fuel IH]; intros n acc Ha; [done|]. cbn [dec_aux].
  assert (no_nul (CH "0" + n mod 10 :: acc)) as Hc.
  { constructor; [|done]. pose proof (Z.mod_pos_bound n 10 ltac:(done)). lia. }
  destruct (_ =? 0); [done|by apply IH].
Qed.

Lemma no_nul_app s t : no_nul s -> no_nul t -> no_nul (s ++ t).
Proof. intros. by apply Forall_app. Qed.

Lemma no_nul_fmt_f p x : no_nul (fmt_f p x).
Proof.
  assert (forall k, no_nul (pad0 (S p) (dec_digits k))) as Hpad.
  { intros k. apply no_nul_app; [|apply no_nul_dec_digits].
    apply Forall_forall. intros c Hc%list_elem_of_In%repeat_spec. subst. done. }
  assert (forall k, no_nul (let s := pad0 (S p) (dec_digits k) in
    take (length s - p) s ++ match p with O => [] | _ => CH "." :: drop (length s - p) s end)) as Hbody.
  { intros k. cbv zeta. apply no_nul_app; [apply Forall_take, Hpad|].
    destruct p as [|p]; [constructor|]. apply Forall_cons. split; [done|]. apply Forall_drop, Hpad. }
  unfold fmt_f. destruct x as [b|b| |b m e]; cbn [sf_sign].
  - apply no_nul_app; [destruct b; nul_tac|apply Hbody].
  - destruct b; nul_tac.
  - nul_tac.
  - destruct (sf_ratio m e) as [n d]. apply no_nul_app; [destruct b; nul_tac|apply Hbody].
Qed.

(** A terminated text written at the start of a buffer is read back. *)
Lemma write_text text buf :
  0 ∉ text -> (length text < length buf)%nat ->
  exists b, mem_write 0 (text ++ [0]) buf = Ret b /\ length b = length buf /\ cstr b = Some text.
Proof.
  intros H0 Hl. destruct (mem_write_ok 0 (text ++ [0]) buf) as (b & E & Hb & ->); [lia| |].
  { rewrite length_app. simpl. lia. }
  exists (text ++ 0 :: drop (S (length text)) buf).
  assert (take (Z.to_nat 0) buf ++ (text ++ [0]) ++ drop (Z.to_nat 0 + length (text ++ [0])) buf =
          text ++ 0 :: drop (S (length text)) buf) as Heq.
  { change (Z.to_nat 0) with 0%nat. rewrite length_app, Nat.add_comm. simpl take. simpl app at 1.
    rewrite <- app_assoc. simpl. do 3 f_equal. lia. }
  rewrite <- Heq. split; [done|]. split; [done|]. rewrite Heq. by apply cstr_app_nul.
Qed.

Lemma not_elem_take {A} (x : A) n l : x ∉ l -> x ∉ take n l.
Proof. intros Hx Hin. by apply elem_of_take in Hin as (i & Hi%list_elem_of_lookup_2 & _). Qed.

(** ** Lemmas: comparing and copying *)

Lemma strncmp_eq n a b :
  no_nul a -> no_nul b -> (length a < n)%nat -> (length b < n)%nat -> (strncmp n a b = 0 <-> a = b).
Proof.
  intros Ha. revert n b. induction Ha as [|x a Hx _ IH]; intros n b Hb Hla Hlb.
  - destruct n; [simpl in Hla; lia|]. destruct Hb as [|y b Hy _]; [done|]. simpl. split; [lia|discriminate].
  - destruct n; [simpl in Hla; lia|]. destruct Hb as [|y b Hy Hb]; [simpl; split; [lia|discriminate]|].
    cbn [strncmp]. simpl in Hla, Hlb. destruct (Z.eqb_spec x y) as [->|Hne].
    + rewrite IH by (done || lia). split; [by intros ->|by intros [= ->]].
    + split; [lia|]. intros [= ? _]. done.
Qed.

(** A text that fits is written whole. *)
Lemma snprintf_ok text buf :
  no_nul text -> (0 < length buf)%nat ->
  exists b, snprintf (Z.of_nat (length buf)) text buf = Ret b /\ length b = length buf /\
            cstr b = Some (take (length buf - 1) text).
Proof.
  intros Ht%no_nul_elem Hb. unfold snprintf. rewrite (proj2 (Z.eqb_neq _ _)) by lia.
  replace (Z.to_nat (Z.of_nat (length buf) - 1)) with (length buf - 1)%nat by lia.
  apply write_text; [by apply not_elem_take|]. rewrite length_take. lia.
Qed.

(** [strncpy] of a shorter text: the text, NULs up to [n], then what was there. *)
Lemma strncpy_ok n src buf :
  no_nul src -> Z.of_nat (length src) < n -> n <= Z.of_nat (length buf) ->
  exists b, strncpy n src buf = Ret b /\ length b = length buf /\
            exists tl, b = src ++ 0 :: tl.
Proof.
  intros Hs Hl Hn. unfold strncpy.
  assert (length (take (Z.to_nat n) (src ++ zeros n)) = Z.to_nat n) as Hlen.
  { rewrite length_take, length_app, length_zeros. lia. }
  destruct (mem_write_ok 0 (take (Z.to_nat n) (src ++ zeros n)) buf) as (b & -> & Hb & E); [lia..|].
  exists b. split; [done|]. split; [done|]. rewrite E. change (Z.to_nat 0) with 0%nat. cbn [take app].
  rewrite take_app_ge by lia. unfold zeros. rewrite <- app_assoc.
  destruct (Z.to_nat n - length src)%nat as [|k] eqn:Ek; [lia|].
  destruct (Z.to_nat n) as [|m]; [lia|]. cbn [repeat take app]. by eexists.
Qed.

(** ** Lemmas: sums *)

Lemma sum_app a b : foldr Nat.add 0%nat (a ++ b) = (foldr Nat.add 0 a + foldr Nat.add 0 b)%nat.
Proof. induction a as [|x a IH]; [done|]. cbn [app foldr]. lia. Qed.
