(* ===== verification/FloatBounds.v ===== *)
(** * Bounds of floating-point results

    Rounding to nearest keeps a result on its side of every power of two that
    the format represents.  The lemmas follow the operations of [SpecFloat] with
    two predicates, a magnitude of at most [2^k] and a value of at least [2^j],
    and bound the length of the [%f] text of a number. *)
From S2P Require Export CString.
Open Scope Z_scope.

(** [Zpos m * 2^e <= 2^k] and [2^j <= Zpos m * 2^e]. *)
Definition mant_le (k m e : Z) : Prop := e <= k /\ m <= 2 ^ (k - e).
Definition mant_ge (j m e : Z) : Prop := if j <=? e then 1 <= m else 2 ^ (j - e) <= m.

Definition le_pow (k : Z) (x : spec_float) : Prop :=
  match x with
  | S754_zero _ => True
  | S754_finite _ m e => mant_le k (Zpos m) e
  | _ => False
  end.

Definition ge_pow (j : Z) (x : spec_float) : Prop :=
  match x with
  | S754_infinity false => True
  | S754_finite false m e => mant_ge j (Zpos m) e
  | _ => False
  end.

Definition nonneg (x : spec_float) : Prop :=
  match x with S754_nan => False | _ => sf_sign x = false end.

Lemma ge_pow_nonneg j x : ge_pow j x -> nonneg x.
Proof. by destruct x as [|[]| |[]]. Qed.

(** ** Digits *)

Lemma digits2_bounds p : 2 ^ (Zpos (digits2_pos p) - 1) <= Zpos p < 2 ^ Zpos (digits2_pos p).
Proof.
  induction p as [p IH|p IH|]; simpl digits2_pos; [| |done];
    rewrite Pos2Z.inj_succ; replace (Z.succ (Zpos (digits2_pos p)) - 1) with (Z.succ (Zpos (digits2_pos p) - 1)) by lia;
    rewrite !Z.pow_succ_r by lia; lia.
Qed.

Lemma digits2_le p k : 0 <= k -> Zpos p <= 2 ^ k -> Zpos (digits2_pos p) <= k + 1.
Proof.
  intros Hk Hp. pose proof (digits2_bounds p) as [Hl _].
  destruct (Z.le_gt_cases (Zpos (digits2_pos p)) (k + 1)) as [|Hgt]; [done|].
  assert (2 ^ k < 2 ^ (Zpos (digits2_pos p) - 1)) by (apply Z.pow_lt_mono_r; lia). lia.
Qed.

Lemma digits2_ge p k : 2 ^ k <= Zpos p -> k + 1 <= Zpos (digits2_pos p).
Proof.
  intros Hp. pose proof (digits2_bounds p) as [_ Hu].
  destruct (Z.le_gt_cases (k + 1) (Zpos (digits2_pos p))) as [|Hgt]; [done|].
  assert (2 ^ Zpos (digits2_pos p) <= 2 ^ k) by (apply Z.pow_le_mono_r; lia). lia.
Qed.

(** ** Shifting *)

Lemma shr_1_div m r s :
  0 <= m -> shr_1 (Build_shr_record m r s) = Build_shr_record (m / 2) (Z.odd m) (r || s).
Proof.
  intros Hm. destruct m as [|[p|p|]|p]; [done|..|lia]; unfold shr_1; simpl Z.odd;
    f_equal; try done.
  - replace (Zpos p~1) with (1 + Zpos p * 2) by lia. by rewrite Z.div_add.
  - replace (Zpos p~0) with (Zpos p * 2) by lia. by rewrite Z.div_mul.
Qed.

(** A mantissa under shifting: at most [2^d], and exactly so only without a
    remainder. *)
Definition below (d : Z) (x : shr_record) : Prop :=
  0 <= shr_m x < 2 ^ d \/ shr_m x = 2 ^ d /\ shr_r x = false /\ shr_s x = false.

Lemma shr_1_below d x : 1 <= d -> below d x -> below (d - 1) (shr_1 x).
Proof.
  intros Hd Hb. destruct x as [m r s].
  assert (2 ^ d = 2 * 2 ^ (d - 1)) as Hp by (rewrite <- Z.pow_succ_r by lia; f_equal; lia).
  assert (0 < 2 ^ (d - 1)) by (apply Z.pow_pos_nonneg; lia).
  unfold below in *. cbn [shr_m shr_r shr_s] in *. rewrite shr_1_div by lia. cbn [shr_m shr_r shr_s].
  destruct Hb as [Hb|(-> & -> & ->)].
  - left. split; [apply Z.div_pos; lia|]. apply Z.div_lt_upper_bound; lia.
  - right. rewrite Hp, Z.mul_comm, Z.div_mul by lia. split; [done|]. split; [|done].
    by rewrite Z.odd_mul, andb_false_r.
Qed.

Lemma iter_shr (P : Z -> shr_record -> Prop) n x e :
  P e x -> (forall i y, e <= i < e + Zpos n -> P i y -> P (i + 1) (shr_1 y)) ->
  P (e + Zpos n) (iter_pos shr_1 n x).
Proof.
  revert x e. induction n as [n IH|n IH|]; intros x e Hx Hs; cbn [iter_pos].
  - replace (e + Zpos n~1) with (e + 1 + Zpos n + Zpos n) by lia.
    apply IH; [apply IH|]; [apply Hs; [lia|done]|..]; intros i y Hi; apply Hs; lia.
  - replace (e + Zpos n~0) with (e + Zpos n + Zpos n) by lia.
    apply IH; [apply IH; [done|]|]; intros i y Hi; apply Hs; lia.
  - by apply Hs; [lia|].
Qed.

(** The lower bound: the leading digit stays at or above [2^c]. *)
Lemma iter_shr_ge c n x e :
  e + Zpos n <= c -> 2 ^ (c - e) <= shr_m x -> 2 ^ (c - (e + Zpos n)) <= shr_m (iter_pos shr_1 n x).
Proof.
  intros Hc Hx. apply (iter_shr (fun i y => 2 ^ (c - i) <= shr_m y)); [done|].
  intros i [m r s'] Hi Hy. cbn [shr_m] in Hy.
  assert (2 ^ (c - i) = 2 ^ (c - (i + 1)) * 2) as Hp by (rewrite Z.mul_comm, <- Z.pow_succ_r by lia; f_equal; lia).
  assert (0 < 2 ^ (c - (i + 1))) by (apply Z.pow_pos_nonneg; lia).
  rewrite shr_1_div by lia. cbn [shr_m]. apply Z.div_le_lower_bound; lia.
Qed.

Lemma mant_ge_pos j m e : mant_ge j m e -> 0 < m.
Proof. unfold mant_ge. destruct (Z.leb_spec j e); [lia|]. pose proof (Z.pow_pos_nonneg 2 (j - e)). lia. Qed.

Lemma round_nearest_ge m l : m <= round_nearest_even m l.
Proof. unfold round_nearest_even. destruct l as [|[]]; try destruct (Z.even m); lia. Qed.

Lemma mant_ge_mono j m m' e : mant_ge j m e -> m <= m' -> mant_ge j m' e.
Proof. unfold mant_ge. destruct (j <=? e); lia. Qed.

Section format.
Context (prec emax : Z) (Hprec : 1 < prec) (Hemax : prec < emax).

Let aux := binary_round_aux prec emax.
Let fexp := fexp prec emax.
Let emin := emin prec emax.

(** The exponent after [shr_fexp]. *)
Lemma shr_fexp_below k m e l x e' :
  shr_fexp prec emax m e l = (x, e') ->
  emin <= k -> e <= k -> below (k - e) (shr_record_of_loc m l) -> e' <= k /\ below (k - e') x.
Proof.
  unfold shr_fexp, shr. intros E Hk He Hb. fold fexp in E.
  assert (0 <= m <= 2 ^ (k - e)) as Hm.
  { destruct Hb as [Hb|[Hb _]]; destruct l as [|[]]; cbn [shr_record_of_loc shr_m] in Hb;
      assert (0 < 2 ^ (k - e)) by (apply Z.pow_pos_nonneg; lia); lia. }
  assert (fexp (Zdigits2 m + e) <= k) as Hf.
  { unfold fexp, SpecFloat.fexp. fold emin. apply Z.max_lub; [|done].
    destruct m as [|p|p]; cbn [Zdigits2]; [lia| |lia].
    pose proof (digits2_le p (k - e) ltac:(lia) ltac:(lia)). lia. }
  set (n := fexp (Zdigits2 m + e) - e) in *. destruct n as [|p|p] eqn:En; [by injection E as <- <-| |by injection E as <- <-].
  injection E as <- <-. split; [lia|].
  apply (iter_shr (fun i y => below (k - i) y)); [done|].
  intros i y Hi Hy. replace (k - (i + 1)) with (k - i - 1) by lia. apply shr_1_below; [lia|done].
Qed.

Lemma round_nearest_le d x : below d x -> 0 <= round_nearest_even (shr_m x) (loc_of_shr_record x) <= 2 ^ d.
Proof.
  unfold below. destruct x as [m r s]. cbn [shr_m shr_r shr_s]. intros [Hb|(-> & -> & ->)].
  - unfold round_nearest_even, loc_of_shr_record. destruct r, s; try destruct (Z.even m); lia.
  - simpl. pose proof (Z.pow_nonneg 2 d ltac:(lia)). lia.
Qed.

Lemma aux_le k s m e l :
  emin <= k <= emax - prec -> e <= k -> below (k - e) (shr_record_of_loc m l) -> le_pow k (aux s m e l).
Proof.
  intros Hk He Hb. unfold aux, binary_round_aux.
  destruct (shr_fexp prec emax m e l) as [x e'] eqn:E1. apply shr_fexp_below with (k := k) in E1 as [He' Hx]; [|lia..|done].
  pose proof (round_nearest_le _ _ Hx) as Hr. set (m' := round_nearest_even _ _) in *.
  destruct (shr_fexp prec emax m' e' loc_Exact) as [y e''] eqn:E2.
  apply shr_fexp_below with (k := k) in E2 as [He'' Hy]; [|lia|lia|].
  2: { unfold below. cbn [shr_record_of_loc shr_m shr_r shr_s].
       destruct (Z.eq_dec m' (2 ^ (k - e'))); [by right|left; lia]. }
  assert (0 <= shr_m y <= 2 ^ (k - e'')) as Hm.
  { pose proof (Z.pow_nonneg 2 (k - e'') ltac:(lia)). destruct Hy as [|(-> & _)]; lia. }
  destruct (shr_m y) as [|p|p]; [done| |lia]. rewrite (proj2 (Z.leb_le _ _)) by lia. split; lia.
Qed.

Lemma shr_fexp_ge j m e l x e' :
  shr_fexp prec emax m e l = (x, e') -> emin <= j -> mant_ge j m e -> mant_ge j (shr_m x) e'.
Proof.
  unfold shr_fexp, shr. intros E Hj Hm. fold fexp in E.
  assert (shr_m (shr_record_of_loc m l) = m) as Hl by by destruct l as [|[]].
  set (n := fexp (Zdigits2 m + e) - e) in *.
  destruct n as [|q|q] eqn:En; [injection E as <- <-; by rewrite Hl| |injection E as <- <-; by rewrite Hl].
  injection E as <- <-. destruct (Z.le_gt_cases (e + Zpos q) j) as [Hle|Hgt].
  - pose proof (iter_shr_ge j q (shr_record_of_loc m l) e Hle) as Hi. rewrite Hl in Hi.
    unfold mant_ge in *. rewrite (proj2 (Z.leb_gt j e)) in Hm by lia. specialize (Hi Hm).
    destruct (Z.leb_spec j (e + Zpos q)); [|done]. replace (j - (e + Zpos q)) with 0 in Hi by lia. done.
  - pose proof (iter_shr_ge (e + Zpos q) q (shr_record_of_loc m l) e ltac:(lia)) as Hi. rewrite Hl in Hi.
    unfold mant_ge. rewrite (proj2 (Z.leb_le _ _)) by lia.
    rewrite Z.sub_diag in Hi. apply Hi. pose proof (mant_ge_pos _ _ _ Hm). destruct m as [|p|p]; try lia.
    pose proof (digits2_bounds p) as [Hb _]. etransitivity; [|exact Hb]. apply Z.pow_le_mono_r; [lia|].
    unfold n, fexp, SpecFloat.fexp in En. fold emin in En. cbn [Zdigits2] in En. lia.
Qed.

Lemma aux_ge j m e l : emin <= j -> mant_ge j m e -> ge_pow j (aux false m e l).
Proof.
  intros Hj Hm. unfold aux, binary_round_aux. destruct (shr_fexp prec emax m e l) as [x e'] eqn:E1.
  apply (shr_fexp_ge j) in E1; [|done..]. set (m' := round_nearest_even _ _).
  assert (mant_ge j m' e') as Hm' by (eapply mant_ge_mono; [exact E1|apply round_nearest_ge]).
  destruct (shr_fexp prec emax m' e' loc_Exact) as [y e''] eqn:E2. apply (shr_fexp_ge j) in E2; [|done..].
  pose proof (mant_ge_pos _ _ _ E2). destruct (shr_m y); [lia| |lia]. by destruct (_ <=? _).
Qed.
End format.

(** ** Operations *)

Lemma iter_xO m d : Zpos (Pos.iter xO m d) = Zpos m * 2 ^ Zpos d.
Proof.
  revert m. induction d as [|d IH] using Pos.peano_ind; intros m; [simpl; lia|].
  rewrite Pos.iter_succ, Pos2Z.inj_succ, Z.pow_succ_r by lia. rewrite (Pos2Z.inj_xO (Pos.iter _ _ _)), IH. lia.
Qed.

Lemma shl_align_spec m e e' :
  let '(mz, ez) := shl_align m e e' in ez = Z.min e e' /\ Zpos mz = Zpos m * 2 ^ (e - ez).
Proof.
  unfold shl_align. destruct (e' - e) as [|d|d] eqn:Ed.
  - replace (e - e) with 0 by lia. lia.
  - replace (e - e) with 0 by lia. lia.
  - rewrite iter_xO. replace (e - e') with (Zpos d) by lia. lia.
Qed.

Lemma pow_split k e e' : e' <= e -> e <= k -> 2 ^ (k - e') = 2 ^ (k - e) * 2 ^ (e - e').
Proof. intros. rewrite <- Z.pow_add_r by lia. f_equal. lia. Qed.

Lemma shl_align_le k m e e' :
  mant_le k (Zpos m) e -> let '(mz, ez) := shl_align m e e' in mant_le k (Zpos mz) ez.
Proof.
  intros [He Hm]. pose proof (shl_align_spec m e e') as Hs. destruct (shl_align m e e') as [mz ez].
  destruct Hs as [Hez Hmz]. split; [lia|]. rewrite Hmz, (pow_split k e ez) by lia.
  apply Z.mul_le_mono_nonneg_r; [apply Z.pow_nonneg|]; lia.
Qed.

Lemma shl_align_ge j m e e' :
  mant_ge j (Zpos m) e -> let '(mz, ez) := shl_align m e e' in mant_ge j (Zpos mz) ez.
Proof.
  intros Hm. pose proof (shl_align_spec m e e') as Hs. destruct (shl_align m e e') as [mz ez].
  destruct Hs as [Hez Hmz]. unfold mant_ge in *. destruct (Z.leb_spec j ez); [lia|].
  rewrite Hmz. destruct (Z.leb_spec j e).
  - transitivity (2 ^ (e - ez)); [apply Z.pow_le_mono_r; lia|]. pose proof (Z.pow_nonneg 2 (e - ez) ltac:(lia)). nia.
  - rewrite (pow_split j e ez) by lia. apply Z.mul_le_mono_nonneg_r; [apply Z.pow_nonneg|]; lia.
Qed.

Lemma le_pow_mono j k x : j <= k -> le_pow j x -> le_pow k x.
Proof.
  intros Hjk. destruct x as [s|s| |s m e]; try done. intros [He Hm]. split; [lia|].
  etransitivity; [exact Hm|]. apply Z.pow_le_mono_r; lia.
Qed.

Lemma new_location_exact n r : new_location n r = loc_Exact <-> r = 0.
Proof.
  unfold new_location, new_location_even, new_location_odd.
  destruct (Z.even n), (Z.eqb_spec r 0); split; intros; congruence.
Qed.

Section operations.
Context (prec emax : Z) (Hprec : 1 < prec).

Let emin := emin prec emax.

Lemma aux_exact_le k s m e :
  emin <= k <= emax - prec -> 0 <= m -> mant_le k m e -> le_pow k (binary_round_aux prec emax s m e loc_Exact).
Proof.
  intros Hk H0 [He Hm]. apply aux_le; [done..|]. unfold below. cbn [shr_record_of_loc shr_m shr_r shr_s].
  destruct (Z.eq_dec m (2 ^ (k - e))); [by right|left; lia].
Qed.

Lemma binary_round_le k s m e :
  emin <= k <= emax - prec -> mant_le k (Zpos m) e -> le_pow k (binary_round prec emax s m e).
Proof.
  intros Hk Hm. unfold binary_round.
  pose proof (shl_align_le k m e (fexp prec emax (Zpos (digits2_pos m) + e)) Hm) as Hs.
  destruct (shl_align _ _ _) as [mz ez]. by apply aux_exact_le.
Qed.

Lemma binary_normalize_le k z e b :
  emin <= k <= emax - prec -> mant_le k (Z.abs z) e -> le_pow k (binary_normalize prec emax z e b).
Proof. intros Hk Hz. destruct z as [|p|p]; [done|by apply binary_round_le..]. Qed.

Lemma SFmul_le j k x y :
  emin <= j + k <= emax - prec -> le_pow j x -> le_pow k y -> le_pow (j + k) (SFmul prec emax x y).
Proof.
  intros Hk Hx Hy. destruct x as [s1|s1| |s1 m1 e1]; [by destruct y|done..|].
  destruct y as [s2|s2| |s2 m2 e2]; [done..|]. destruct Hx as [He1 Hm1], Hy as [He2 Hm2].
  cbn [SFmul]. apply aux_exact_le; [done|lia|]. split; [lia|].
  replace (j + k - (e1 + e2)) with (j - e1 + (k - e2)) by lia. rewrite Z.pow_add_r, Pos2Z.inj_mul by lia.
  apply Z.mul_le_mono_nonneg; lia.
Qed.

Lemma SFadd_le k x y :
  emin <= k + 1 <= emax - prec -> le_pow k x -> le_pow k y -> le_pow (k + 1) (SFadd prec emax x y).
Proof.
  intros Hk Hx Hy. destruct x as [s1|s1| |s1 m1 e1]; [|done..|].
  { destruct y as [s2|s2| |s2 m2 e2]; [|done..|exact (le_pow_mono k (k + 1) (S754_finite s2 m2 e2) ltac:(lia) Hy)].
    by destruct s1, s2. }
  destruct y as [s2|s2| |s2 m2 e2]; [exact (le_pow_mono k (k + 1) (S754_finite s1 m1 e1) ltac:(lia) Hx)|done..|].
  cbn [SFadd]. cbv zeta. pose proof (shl_align_le k m1 e1 (Z.min e1 e2) Hx) as K1.
  pose proof (shl_align_le k m2 e2 (Z.min e1 e2) Hy) as K2.
  pose proof (shl_align_spec m1 e1 (Z.min e1 e2)) as S1. pose proof (shl_align_spec m2 e2 (Z.min e1 e2)) as S2.
  destruct (shl_align m1 _ _) as [n1 f1], (shl_align m2 _ _) as [n2 f2]. cbn [fst].
  destruct S1 as [S1 _], S2 as [S2 _]. assert (f1 = Z.min e1 e2) as -> by lia. assert (f2 = Z.min e1 e2) as -> by lia.
  destruct K1 as [K1 L1], K2 as [_ L2]. apply binary_normalize_le; [done|]. split; [lia|].
  replace (k + 1 - Z.min e1 e2) with (Z.succ (k - Z.min e1 e2)) by lia. rewrite Z.pow_succ_r by lia.
  destruct s1, s2; cbn [cond_Zopp]; lia.
Qed.

(** The quotient of magnitudes, rounded. *)
Lemma SFdiv_le j k x s2 m2 e2 :
  emin <= k - j <= emax - prec -> le_pow k x -> mant_ge j (Zpos m2) e2 ->
  le_pow (k - j) (SFdiv prec emax x (S754_finite s2 m2 e2)).
Proof.
  intros Hk Hx Hy. destruct x as [s1|s1| |s1 m1 e1]; [done..|]. destruct Hx as [He1 Hm1].
  cbn [SFdiv]. unfold SFdiv_core_binary. cbn [Zdigits2].
  set (e' := Z.min _ (e1 - e2)). set (s := e1 - e2 - e').
  assert (match s with Zpos _ => Z.shiftl (Zpos m1) s | Z0 => Zpos m1 | Zneg _ => 0 end = Zpos m1 * 2 ^ s) as ->.
  { assert (0 <= s) by lia. destruct s as [|p|p]; [lia|by rewrite Z.shiftl_mul_pow2 by lia|lia]. }
  pose proof (Z.div_mod (Zpos m1 * 2 ^ s) (Zpos m2) ltac:(done)) as Hdm.
  pose proof (Z.mod_pos_bound (Zpos m1 * 2 ^ s) (Zpos m2) ltac:(lia)) as Hmod.
  unfold Z.div, Z.modulo in Hdm, Hmod. pose proof (Z.div_pos (Zpos m1 * 2 ^ s) (Zpos m2)) as Hq0. unfold Z.div in Hq0.
  destruct (Z.div_eucl _ _) as [q r]. specialize (Hq0 ltac:(pose proof (Z.pow_nonneg 2 s); lia) ltac:(lia)).
  assert (j - e2 <= Zpos (digits2_pos m2) - 1) as Hd2.
  { unfold mant_ge in Hy. destruct (Z.leb_spec j e2); [lia|]. pose proof (digits2_ge _ _ Hy). lia. }
  pose proof (digits2_le m1 (k - e1) ltac:(lia) Hm1) as Hd1.
  assert (e' <= k - j) as He'.
  { unfold e', fexp. fold emin. lia. }
  assert (0 < 2 ^ (k - j - e')) as Hpos by (apply Z.pow_pos_nonneg; lia).
  (* the divisor reaches [2^j], the dividend does not exceed [2^k] *)
  assert (q * Zpos m2 + r <= 2 ^ (k - j - e') * Zpos m2) as Hbound.
  { assert (Zpos m1 * 2 ^ s <= 2 ^ (k - e1 + s)).
    { rewrite Z.pow_add_r by lia. apply Z.mul_le_mono_nonneg_r; [apply Z.pow_nonneg|]; lia. }
    replace (k - e1 + s) with (k - e2 - e') in * by lia. rewrite (Z.mul_comm q). rewrite <- Hdm.
    etransitivity; [eassumption|]. unfold mant_ge in Hy. destruct (Z.leb_spec j e2) as [Hj|Hj].
    - transitivity (2 ^ (k - j - e')); [apply Z.pow_le_mono_r; lia|]. nia.
    - replace (k - e2 - e') with (k - j - e' + (j - e2)) by lia. rewrite Z.pow_add_r by lia.
      apply Z.mul_le_mono_nonneg_l; lia. }
  apply aux_le; [done|done|lia|]. unfold below.
  assert (shr_m (shr_record_of_loc q (new_location (Zpos m2) r)) = q) as -> by by destruct (new_location _ r) as [|[]].
  destruct (Z.eq_dec q (2 ^ (k - j - e'))) as [->|Hne].
  - right. assert (r = 0) as Hr by lia. apply (new_location_exact (Zpos m2)) in Hr. by rewrite Hr.
  - left. split; [done|]. apply Z.le_neq. split; [|done]. apply (Zmult_le_reg_r _ _ (Zpos m2)); lia.
Qed.

Lemma aux_nonneg m e l : 0 <= m -> nonneg (binary_round_aux prec emax false m e l).
Proof.
  intros Hm. assert (forall m e l x e', 0 <= m -> shr_fexp prec emax m e l = (x, e') -> 0 <= shr_m x) as Hs.
  { clear. intros m e l x e' Hm. unfold shr_fexp, shr.
    assert (0 <= shr_m (shr_record_of_loc m l)) as Hr by by destruct l as [|[]].
    destruct (_ - e) as [|q|q]; [by intros [= <- _]| |by intros [= <- _]]. intros [= <- _].
    apply (iter_shr (fun _ y => 0 <= shr_m y) q _ 0); [done|]. intros i [m0 r s] _ Hy. cbn [shr_m] in Hy.
    rewrite shr_1_div by done. cbn [shr_m]. apply Z.div_pos; lia. }
  unfold binary_round_aux. destruct (shr_fexp prec emax m e l) as [x e'] eqn:E1. apply Hs in E1; [|done].
  destruct (shr_fexp prec emax _ e' _) as [y e''] eqn:E2.
  apply Hs in E2; [|pose proof (round_nearest_ge (shr_m x) (loc_of_shr_record x)); lia].
  destruct (shr_m y); [done| |lia]. by destruct (_ <=? _).
Qed.

(** A nonnegative number by a finite positive one. *)
Lemma SFmul_nonneg x m e : nonneg x -> nonneg (SFmul prec emax x (S754_finite false m e)).
Proof.
  intros Hx. destruct x as [[]|[]| |[] m1 e1]; try done. cbn [SFmul xorb]. by apply aux_nonneg.
Qed.

Lemma SFdiv_nonneg m1 e1 m2 e2 : nonneg (SFdiv prec emax (S754_finite false m1 e1) (S754_finite false m2 e2)).
Proof.
  cbn [SFdiv]. unfold SFdiv_core_binary. set (m' := match _ with Z0 => _ | Zpos _ => _ | Zneg _ => _ end).
  assert (0 <= m') as Hm'.
  { unfold m'. destruct (_ - _ - _); [done|by apply Z.shiftl_nonneg|done]. }
  clearbody m'. pose proof (Z.div_pos m' (Zpos m2) Hm' ltac:(lia)) as Hq. unfold Z.div in Hq.
  destruct (Z.div_eucl m' (Zpos m2)) as [q r]. by apply aux_nonneg.
Qed.

Lemma SFadd_ge j x y : emin <= j -> nonneg x -> ge_pow j y -> ge_pow j (SFadd prec emax x y).
Proof.
  intros Hj Hx Hy. destruct y as [s|[]| |[] m2 e2]; try done; [by destruct x as [[]|[]| |[] m1 e1]|].
  destruct x as [[]|[]| |[] m1 e1]; try done. cbn [SFadd cond_Zopp]. cbv zeta.
  pose proof (shl_align_spec m2 e2 (Z.min e1 e2)) as S2.
  pose proof (shl_align_ge j m2 e2 (Z.min e1 e2) Hy) as K2.
  destruct (shl_align m2 _ _) as [n2 f2]. destruct S2 as [S2 _]. assert (f2 = Z.min e1 e2) as -> by lia. cbn [fst].
  set (n1 := (shl_align m1 _ _).1). change (ge_pow j (binary_round prec emax false (n1 + n2) (Z.min e1 e2))).
  assert (mant_ge j (Zpos (n1 + n2)) (Z.min e1 e2)) as Hs by (eapply mant_ge_mono; [exact K2|lia]).
  unfold binary_round. set (ef := fexp prec emax _). clearbody n1. pose proof (shl_align_ge j _ _ ef Hs) as K.
  destruct (shl_align (n1 + n2) _ _) as [mz ez]. by apply aux_ge.
Qed.
End operations.

(** ** Integers and texts *)

Lemma le_pow_trunc k x : 0 <= k -> le_pow k x -> Z.abs (sf_trunc x) <= 2 ^ k.
Proof.
  intros Hk. destruct x as [s|s| |s m e]; try done; [intros _; simpl; lia|]. intros [He Hm]. cbn [sf_trunc].
  assert (Z.abs (cond_Zopp s (Z.shiftl (Zpos m) e)) = Z.shiftl (Zpos m) e) as ->.
  { pose proof (proj2 (Z.shiftl_nonneg (Zpos m) e) ltac:(lia)). destruct s; cbn [cond_Zopp]; lia. }
  destruct (Z.le_gt_cases 0 e).
  - rewrite Z.shiftl_mul_pow2 by lia. assert (2 ^ k = 2 ^ (k - e) * 2 ^ e) as ->.
    { rewrite <- Z.pow_add_r by lia. f_equal. lia. }
    apply Z.mul_le_mono_nonneg_r; [apply Z.pow_nonneg; lia|done].
  - replace e with (- - e) by lia. rewrite Z.shiftl_opp_r, Z.shiftr_div_pow2 by lia.
    apply Z.div_le_upper_bound; [apply Z.pow_pos_nonneg; lia|].
    rewrite <- Z.pow_add_r by lia. by replace (- e + k) with (k - e) by lia.
Qed.

Lemma nonneg_trunc x : nonneg x -> 0 <= sf_trunc x.
Proof. destruct x as [s|s| |[] m e]; try done. intros _. cbn [sf_trunc cond_Zopp]. by apply Z.shiftl_nonneg. Qed.

Lemma b64_to_u32_ok k x : 0 <= k <= 31 -> le_pow k x -> nonneg x ->
  exists z, b64_to_u32 x = Ret z /\ 0 <= z <= 2 ^ k.
Proof.
  intros Hk Hx Hn. pose proof (le_pow_trunc k x ltac:(lia) Hx). pose proof (nonneg_trunc x Hn).
  assert (2 ^ k <= 2 ^ 31) by (apply Z.pow_le_mono_r; lia).
  exists (sf_trunc x). split; [|lia]. unfold b64_to_u32.
  assert (sf_isfinite x = true) as -> by by destruct x. zbool. done.
Qed.

Lemma dec_digits_length n L : 0 <= n < 10 ^ Z.of_nat L -> (1 <= L)%nat -> (length (dec_digits n) <= L)%nat.
Proof.
  intros Hn HL. destruct (dec_digits_spec n ltac:(lia)) as (Hne & Hd & Hv & Hh).
  destruct (Z.eq_dec n 0) as [->|Hn0]; [done|]. destruct (dec_digits n) as [|c ds]; [done|].
  destruct (Nat.le_gt_cases (length (c :: ds)) L) as [|Hgt]; [done|]. exfalso. cbn [length] in Hgt.
  apply Forall_cons in Hd as [Hc Hd]. unfold is_digit in Hc. bool_to_prop.
  assert (c <> CH "0") as Hc0 by (intros ->; by apply Hh; [lia|]).
  cbn [digits_val] in Hv. rewrite digits_val_shift in Hv.
  assert (0 <= digits_val 0 ds) as Hds0.
  { clear -Hd. assert (forall acc, 0 <= acc -> 0 <= digits_val acc ds) as Hacc; [|by apply Hacc].
    induction Hd as [|d ds Hd _ IH]; intros acc Ha; [done|]. cbn [digits_val]. apply IH.
    unfold is_digit in Hd. bool_to_prop. lia. }
  assert (10 ^ Z.of_nat L <= 10 ^ Z.of_nat (length ds)) by (apply Z.pow_le_mono_r; lia). nia.
Qed.

Lemma div_rne_le n d c : 0 < d -> n <= c * d -> div_rne n d <= c.
Proof.
  intros Hd Hn. unfold div_rne. pose proof (Z.div_mod n d ltac:(lia)). pose proof (Z.mod_pos_bound n d Hd).
  destruct (Z.compare_spec (2 * (n mod d)) d); [destruct (Z.even _)|..]; nia.
Qed.

(** The text of a number of magnitude at most [2^k] with [p] decimals. *)
Lemma fmt_f_length k p L x :
  0 <= k -> le_pow k x -> 2 ^ k * 10 ^ Z.of_nat p < 10 ^ Z.of_nat L -> (S p <= L)%nat ->
  (length (fmt_f p x) <= 2 + L)%nat.
Proof.
  intros Hk Hx HL Hp.
  assert (forall n, 0 <= n <= 2 ^ k * 10 ^ Z.of_nat p ->
    (length (let s := pad0 (S p) (dec_digits n) in
     take (length s - p) s ++ match p with O => [] | _ => CH "." :: drop (length s - p) s end) <= 1 + L)%nat) as Hbody.
  { intros n Hn. cbv zeta. pose proof (dec_digits_length n L ltac:(lia) ltac:(lia)) as Hl.
    assert (length (pad0 (S p) (dec_digits n)) <= L)%nat as Hpad.
    { unfold pad0. rewrite length_app, repeat_length. lia. }
    set (s := pad0 _ _) in *. rewrite length_app, length_take. destruct p; [simpl; lia|].
    cbn [length]. rewrite length_drop. lia. }
  assert (forall (b : bool) (t : bytes), (length t <= 1 + L)%nat ->
    (length ((if b then [CH "-"] else []) ++ t) <= 2 + L)%nat) as Hsign.
  { intros b t Ht. rewrite length_app. destruct b; cbn [length]; lia. }
  destruct x as [s|s| |s m e]; try done; unfold fmt_f; cbn [sf_sign].
  - apply (Hsign s _ (Hbody 0 ltac:(nia))).
  - destruct Hx as [He Hm]. unfold sf_ratio. destruct (Z.leb_spec 0 e) as [H0|H0]; apply (Hsign s), Hbody.
    + split; [apply div_rne_nonneg; [lia|]|apply div_rne_le; [lia|]]; rewrite Z.shiftl_mul_pow2 by done.
      * apply Z.mul_nonneg_nonneg; [apply Z.mul_nonneg_nonneg; [lia|]|]; apply Z.pow_nonneg; lia.
      * rewrite Z.mul_1_r. apply Z.mul_le_mono_nonneg_r; [apply Z.pow_nonneg; lia|].
        assert (2 ^ k = 2 ^ (k - e) * 2 ^ e) as -> by (rewrite <- Z.pow_add_r by lia; f_equal; lia).
        apply Z.mul_le_mono_nonneg_r; [apply Z.pow_nonneg|]; lia.
    + rewrite Z.shiftl_mul_pow2, Z.mul_1_l by lia. assert (0 < 2 ^ (- e)) by (apply Z.pow_pos_nonneg; lia).
      split; [apply div_rne_nonneg; [done|]|apply div_rne_le; [done|]].
      * apply Z.mul_nonneg_nonneg; [lia|apply Z.pow_nonneg; lia].
      * replace (k - e) with (k + - e) in Hm by lia. rewrite Z.pow_add_r in Hm by lia.
        pose proof (Z.pow_nonneg 10 (Z.of_nat p) ltac:(lia)). nia.
Qed.

(** ** The formats of [float] and [double] *)

Section formats.
Context (k : Z) (Hk : 0 <= k <= 100).

Lemma b32_of_Z_le z : Z.abs z <= 2 ^ k -> le_pow k (b32_of_Z z).
Proof. intros Hz. apply binary_normalize_le; [done|unfold emin; lia|split; [lia|by rewrite Z.sub_0_r]]. Qed.

Lemma b32_to_b64_le x : le_pow k x -> le_pow k (b32_to_b64 x).
Proof. destruct x; try done. intros Hx. apply binary_round_le; [done|unfold emin; lia|done]. Qed.

Lemma b64_to_b32_le x : le_pow k x -> le_pow k (b64_to_b32 x).
Proof. destruct x; try done. intros Hx. apply binary_round_le; [done|unfold emin; lia|done]. Qed.

Lemma b64_add_le x y : le_pow k x -> le_pow k y -> le_pow (k + 1) (b64_add x y).
Proof. apply SFadd_le; [done|]. unfold emin. lia. Qed.

Lemma b32_add_le x y : le_pow k x -> le_pow k y -> le_pow (k + 1) (b32_add x y).
Proof. apply SFadd_le; [done|]. unfold emin. lia. Qed.
End formats.

Lemma b64_div_le j k x s m e :
  0 <= j <= k -> k <= 100 -> le_pow k x -> mant_ge j (Zpos m) e -> le_pow (k - j) (b64_div x (S754_finite s m e)).
Proof. intros Hj Hk. apply SFdiv_le; [done|]. unfold emin. lia. Qed.

Lemma b32_div_le j k x s m e :
  0 <= j <= k -> k <= 100 -> le_pow k x -> mant_ge j (Zpos m) e -> le_pow (k - j) (b32_div x (S754_finite s m e)).
Proof. intros Hj Hk. apply SFdiv_le; [done|]. unfold emin. lia. Qed.

Lemma b32_mul_le j k x y :
  0 <= j -> 0 <= k -> j + k <= 100 -> le_pow j x -> le_pow k y -> le_pow (j + k) (b32_mul x y).
Proof. intros Hj Hk Hs. apply SFmul_le; [done|]. unfold emin. lia. Qed.
