(* ===== verification/FloatRound.v ===== *)
(** * Rounding to the nearest number

    [binary_round_aux] of [SpecFloat] shifts a mantissa with a round and a sticky
    bit.  The bits cut a fraction at a power of two ([cut]), and rounding them is
    the division [div_rne].  A fraction that is close to a number of the format,
    by half a unit in the seventeenth decimal digit, is rounded to that number. *)
From S2P Require Export FloatBounds.
Open Scope Z_scope.

(** ** Definitions *)

(** The fraction [n/u] as a mantissa with its two bits. *)
Definition cut (n u : Z) : shr_record :=
  Build_shr_record (n / u) (u <=? 2 * (n mod u)) (negb ((2 * (n mod u)) mod u =? 0)).

(** [|n/u - m| <= m / (2 * 10^16)]. *)
Definition close (n u m : Z) : Prop := Z.abs (n - m * u) * (2 * 10 ^ 16) <= m * u.

(** ** Fractions *)

Lemma cut_bits n u :
  0 < u -> let r := n mod u in
  cut n u = Build_shr_record (n / u) (u <=? 2 * r) (if u <=? 2 * r then negb (2 * r =? u) else negb (r =? 0)).
Proof.
  intros Hu. cbv zeta. unfold cut. f_equal. pose proof (Z.mod_pos_bound n u Hu) as Hr.
  destruct (Z.leb_spec u (2 * (n mod u))) as [H|H].
  - replace (2 * (n mod u)) with (2 * (n mod u) - u + 1 * u) at 1 by lia. rewrite Z.mod_add, Z.mod_small by lia.
    destruct (Z.eqb_spec (2 * (n mod u) - u) 0), (Z.eqb_spec (2 * (n mod u)) u); lia || done.
  - rewrite Z.mod_small by lia. destruct (Z.eqb_spec (2 * (n mod u)) 0), (Z.eqb_spec (n mod u) 0); lia || done.
Qed.

Lemma shr_1_cut n u : 0 <= n -> 0 < u -> shr_1 (cut n u) = cut n (u * 2).
Proof.
  intros Hn Hu. rewrite !cut_bits by lia. cbv zeta.
  pose proof (Z.div_pos n u Hn Hu). rewrite shr_1_div by done. rewrite Z.div_div by lia.
  pose proof (Z.mod_pos_bound n u Hu) as Hr. rewrite (Z.rem_mul_r n u 2) by lia.
  pose proof (Zmod_odd (n / u)) as Hodd. rewrite Hodd. clear Hodd.
  destruct (Z.odd (n / u)); f_equal; repeat match goal with |- context [?a <=? ?b] => destruct (Z.leb_spec a b) end;
    repeat match goal with |- context [?a =? ?b] => destruct (Z.eqb_spec a b) end; simpl; lia || done.
Qed.

Lemma iter_shr_cut p n u : 0 <= n -> 0 < u -> iter_pos shr_1 p (cut n u) = cut n (u * 2 ^ Zpos p).
Proof.
  intros Hn Hu. apply (iter_shr (fun i y => y = cut n (u * 2 ^ i)) p (cut n u) 0); [by rewrite Z.mul_1_r|].
  intros i y Hi ->. rewrite shr_1_cut; [|done|apply Z.mul_pos_pos; [done|apply Z.pow_pos_nonneg; lia]].
  by rewrite Z.pow_add_r, Z.mul_assoc by lia.
Qed.

Lemma new_location_cut n u :
  0 < u -> shr_record_of_loc (n / u) (new_location u (n mod u)) = cut n u.
Proof.
  intros Hu. rewrite cut_bits by done. cbv zeta. pose proof (Z.mod_pos_bound n u Hu) as Hr. set (r := n mod u) in *.
  unfold new_location, new_location_even, new_location_odd. pose proof (Zmod_even u) as He.
  pose proof (Z.div_mod u 2 ltac:(done)) as Hd.
  destruct (Z.eqb_spec r 0) as [->|Hr0].
  { replace (u <=? 2 * 0) with false by (symmetry; apply Z.leb_gt; lia). by destruct (Z.even u). }
  destruct (Z.even u); [destruct (Z.compare_spec (2 * r) u)|destruct (Z.compare_spec (2 * r + 1) u)];
    cbn [shr_record_of_loc]; destruct (Z.leb_spec u (2 * r)); try lia; f_equal;
    destruct (Z.eqb_spec (2 * r) u), (Z.eqb_spec r 0); lia || done.
Qed.

Lemma round_cut n u :
  0 < u -> round_nearest_even (shr_m (cut n u)) (loc_of_shr_record (cut n u)) = div_rne n u.
Proof.
  intros Hu. rewrite cut_bits by done. cbv zeta. unfold div_rne. pose proof (Z.mod_pos_bound n u Hu) as Hr.
  cbn [shr_m]. destruct (Z.leb_spec u (2 * (n mod u))), (Z.compare_spec (2 * (n mod u)) u); try lia;
    repeat match goal with |- context [?a =? ?b] => destruct (Z.eqb_spec a b) end; simpl; lia || done.
Qed.

Lemma cut_exact n : cut n 1 = Build_shr_record n false false.
Proof. rewrite cut_bits by done. by rewrite Z.mod_1_r, Z.div_1_r. Qed.

(** The nearest integer. *)
Lemma div_rne_unique n u m : 0 < u -> Z.abs (2 * (n - m * u)) < u -> div_rne n u = m.
Proof. intros Hu Hn. pose proof (div_rne_nearest n u Hu). nia. Qed.

(** ** Numbers of the format *)

(** The exponent that a number of [d] binary digits before the point has. *)
Abbreviation fexp64 := (fexp 53 1024).
Abbreviation emin64 := (emin 53 1024).

Lemma fexp64_mono a b : a <= b -> fexp64 a <= fexp64 b.
Proof. unfold fexp. lia. Qed.

Lemma bounded_inv m e :
  bounded 53 1024 m e = true ->
  fexp64 (Zpos (digits2_pos m) + e) = e /\ e <= 971 /\ Zpos (digits2_pos m) <= 53 /\ Zpos m < 2 ^ 53 /\
  (e = emin64 \/ 2 ^ 52 <= Zpos m).
Proof.
  unfold bounded, canonical_mantissa. intros [Hc%Z.eqb_eq He%Z.leb_le]%andb_true_iff.
  pose proof (digits2_bounds m) as [Hl Hu]. assert (Zpos (digits2_pos m) <= 53) as Hd by (unfold fexp in Hc; lia).
  split_and!; [done|lia|done| |].
  - eapply Z.lt_le_trans; [exact Hu|]. by apply Z.pow_le_mono_r.
  - destruct (Z.eq_dec e emin64) as [|Hne]; [by left|right].
    assert (Zpos (digits2_pos m) = 53) as E by (unfold fexp, emin in *; lia). by rewrite E in Hl.
Qed.

Lemma Zdigits2_bounds q : 0 < q -> 2 ^ (Zdigits2 q - 1) <= q < 2 ^ Zdigits2 q.
Proof. destruct q as [|p|p]; [done|intros _; apply digits2_bounds|done]. Qed.

(** The number of digits of a quotient. *)
Lemma Zdigits2_lt_pow n u k : 0 < u -> 0 <= n -> 0 <= k -> n < 2 ^ k * u -> Zdigits2 (n / u) <= k.
Proof.
  intros Hu Hn Hk Hlt. assert (n / u < 2 ^ k) as Hq by (apply Z.div_lt_upper_bound; lia).
  destruct (Z.eq_dec (n / u) 0) as [->|H0]; [done|]. pose proof (Z.div_pos n u Hn Hu).
  pose proof (Zdigits2_bounds (n / u) ltac:(lia)) as [Hl _].
  destruct (Z.le_gt_cases (Zdigits2 (n / u)) k) as [|Hgt]; [done|].
  assert (2 ^ k <= 2 ^ (Zdigits2 (n / u) - 1)) by (apply Z.pow_le_mono_r; lia). lia.
Qed.

Lemma Zdigits2_ge_pow n u k : 0 < u -> 0 <= k -> 2 ^ k * u <= n -> k < Zdigits2 (n / u).
Proof.
  intros Hu Hk Hle. assert (2 ^ k <= n / u) as Hq by (apply Z.div_le_lower_bound; lia).
  assert (0 < 2 ^ k) by (apply Z.pow_pos_nonneg; lia).
  pose proof (Zdigits2_bounds (n / u) ltac:(lia)) as [_ Hu'].
  destruct (Z.lt_ge_cases k (Zdigits2 (n / u))) as [|Hge]; [done|].
  assert (2 ^ Zdigits2 (n / u) <= 2 ^ k) by (apply Z.pow_le_mono_r; lia). lia.
Qed.

(** Shifting a cut to the exponent of the format. *)
Lemma shr_fexp_cut n u e x :
  0 <= n -> 0 < u -> e <= x -> fexp64 (Zdigits2 (n / u) + e) = x ->
  shr_fexp 53 1024 (n / u) e (new_location u (n mod u)) = (cut n (u * 2 ^ (x - e)), x).
Proof.
  intros Hn Hu Hx E. unfold shr_fexp. rewrite E, new_location_cut by done. unfold shr.
  destruct (x - e) as [|p|p] eqn:Ep; [|by rewrite iter_shr_cut by done; f_equal; lia|lia].
  rewrite Z.mul_1_r. f_equal. lia.
Qed.

Lemma shr_fexp_exact m e x :
  0 <= m -> e <= x -> fexp64 (Zdigits2 m + e) = x -> shr_fexp 53 1024 m e loc_Exact = (cut m (2 ^ (x - e)), x).
Proof.
  intros Hm Hx E. pose proof (shr_fexp_cut m 1 e x Hm ltac:(done) Hx) as H.
  rewrite Z.div_1_r, Z.mod_1_r, Z.mul_1_l in H. by apply H.
Qed.

(** A result of the first rounding that is the mantissa [m], or twice a power of
    two at the exponent below. *)
Lemma round_finish s q m e x y l z :
  shr_fexp 53 1024 q z l = (x, y) -> bounded 53 1024 m e = true ->
  let m' := round_nearest_even (shr_m x) (loc_of_shr_record x) in
  (y = e /\ m' = Zpos m) \/ (y = e - 1 /\ emin64 < e /\ Zpos m = 2 ^ 52 /\ m' = 2 ^ 53) ->
  binary_round_aux 53 1024 s q z l = S754_finite s m e.
Proof.
  intros E Hb m' H. unfold binary_round_aux. rewrite E. fold m'.
  destruct (bounded_inv m e Hb) as (Hf & He & _ & _ & _).
  assert (shr_fexp 53 1024 m' y loc_Exact = (cut (Zpos m) 1, e)) as ->.
  { destruct H as [[-> ->]|(-> & Hmin & Hm & ->)].
    - rewrite (shr_fexp_exact _ _ e) by done. by rewrite Z.sub_diag.
    - rewrite (shr_fexp_exact _ _ e); [|done|lia|unfold fexp, emin in *; simpl Zdigits2; lia].
      rewrite Hm. by replace (e - (e - 1)) with 1 by lia. }
  rewrite cut_exact. cbn [shr_m]. by rewrite (proj2 (Z.leb_le _ _)) by lia.
Qed.

(** ** Fractions near a number *)

Section near.
Context (m : positive) (e : Z) (Hb : bounded 53 1024 m e = true).

(** The digits of a fraction close to [m]: those of [m], or one less below a power of two. *)
Lemma close_upper n u k :
  0 < u -> 0 <= k -> close n u (Zpos m * 2 ^ k) -> n < 2 ^ (Zpos (digits2_pos m) + k) * u.
Proof.
  intros Hu Hk Hc. destruct (bounded_inv m e Hb) as (_ & _ & _ & Hm & _).
  pose proof (digits2_bounds m) as [_ Hd]. rewrite Z.pow_add_r by lia. unfold close in Hc.
  assert (0 < 2 ^ k) by (apply Z.pow_pos_nonneg; lia). set (v := 2 ^ k * u) in *.
  assert (0 < v) by (apply Z.mul_pos_pos; lia).
  replace (Zpos m * 2 ^ k * u) with (Zpos m * v) in Hc by (unfold v; ring).
  replace (2 ^ Zpos (digits2_pos m) * 2 ^ k * u) with (2 ^ Zpos (digits2_pos m) * v) by (unfold v; ring). nia.
Qed.

Lemma close_nearest n u k :
  0 < u -> 0 <= k -> close n u (Zpos m * 2 ^ k) -> div_rne n (u * 2 ^ k) = Zpos m.
Proof.
  intros Hu Hk Hc. destruct (bounded_inv m e Hb) as (_ & _ & _ & Hm & _). unfold close in Hc.
  assert (0 < 2 ^ k) by (apply Z.pow_pos_nonneg; lia). apply div_rne_unique; [apply Z.mul_pos_pos; lia|].
  replace (Zpos m * (u * 2 ^ k)) with (Zpos m * 2 ^ k * u) by ring.
  assert (0 < u * 2 ^ k) by (apply Z.mul_pos_pos; lia). nia.
Qed.

(** Below the power of two [m], one binary digit less. *)
Lemma close_below n u k :
  0 < u -> 1 <= k -> 2 ^ 52 <= Zpos m -> n < 2 ^ (52 + k) * u -> close n u (Zpos m * 2 ^ k) ->
  Zpos m = 2 ^ 52 /\ 2 ^ (51 + k) * u <= n /\ div_rne n (u * 2 ^ (k - 1)) = 2 ^ 53.
Proof.
  intros Hu Hk Hm Hn Hc. unfold close in Hc. set (v := u * 2 ^ (k - 1)).
  assert (0 < v) by (apply Z.mul_pos_pos; [done|apply Z.pow_pos_nonneg; lia]).
  assert (2 ^ k * u = 2 * v) as Hv.
  { unfold v. replace k with (Z.succ (k - 1)) at 1 by lia. rewrite Z.pow_succ_r by lia. ring. }
  replace (2 ^ (52 + k) * u) with (2 ^ 52 * (2 ^ k * u)) in Hn by (rewrite Z.pow_add_r by lia; ring).
  replace (2 ^ (51 + k) * u) with (2 ^ 51 * (2 ^ k * u)) by (rewrite (Z.pow_add_r 2 51 k) by lia; ring).
  replace (Zpos m * 2 ^ k * u) with (Zpos m * (2 ^ k * u)) in Hc by ring. rewrite Hv in *.
  assert (Zpos m = 2 ^ 52) as E by nia. rewrite E in *. split_and!; [done|lia|]. apply div_rne_unique; lia.
Qed.

Theorem round_near s n u z :
  0 < u -> 0 <= n -> z <= e -> z <= fexp64 (Zdigits2 (n / u) + z) -> close n u (Zpos m * 2 ^ (e - z)) ->
  binary_round_aux 53 1024 s (n / u) z (new_location u (n mod u)) = S754_finite s m e.
Proof.
  intros Hu Hn Hz Hf Hc. remember (e - z) as k eqn:Ek. destruct (bounded_inv m e Hb) as (Hfe & He & Hd & Hm & Hcan).
  pose proof (close_upper n u k Hu ltac:(lia) Hc) as Hup.
  assert (fexp64 (Zdigits2 (n / u) + z) <= e) as Hle.
  { etransitivity; [apply (fexp64_mono _ (Zpos (digits2_pos m) + e))|lia]. pose proof (Zdigits2_lt_pow n u (Zpos (digits2_pos m) + k) Hu Hn ltac:(lia) Hup). lia. }
  eapply round_finish; [by apply shr_fexp_cut|done|]. cbv zeta.
  assert (forall x, 0 <= x -> 0 < u * 2 ^ x) as Hpos by (intros x Hx; apply Z.mul_pos_pos; [done|by apply Z.pow_pos_nonneg]).
  rewrite !round_cut by (apply Hpos; lia).
  destruct (Z.eq_dec (fexp64 (Zdigits2 (n / u) + z)) e) as [->|Hne].
  { left. split; [done|]. rewrite <- Ek. by apply close_nearest; [|lia|]. }
  right. assert (emin64 < e) as Hmin by (unfold fexp in *; lia).
  assert (2 ^ 52 <= Zpos m) as Hm52 by (destruct Hcan; [lia|done]).
  assert (Zpos (digits2_pos m) = 53) as Hd53 by (unfold fexp, emin in *; lia).
  assert (n < 2 ^ (52 + k) * u) as Hlt.
  { destruct (Z.lt_ge_cases n (2 ^ (52 + k) * u)) as [|Hge]; [done|].
    pose proof (Zdigits2_ge_pow n u (52 + k) Hu ltac:(lia) Hge). unfold fexp, emin in *. lia. }
  assert (1 <= k) as Hk by lia.
  destruct (close_below n u k Hu Hk Hm52 Hlt Hc) as (Hm2 & Hge & Hr).
  pose proof (Zdigits2_ge_pow n u (51 + k) Hu ltac:(lia) Hge).
  pose proof (Zdigits2_lt_pow n u (52 + k) Hu Hn ltac:(lia) Hlt).
  assert (fexp64 (Zdigits2 (n / u) + z) = e - 1) as E by (unfold fexp, emin in *; lia).
  rewrite E. split_and!; [done|done|done|]. by replace (e - 1 - z) with (k - 1) by lia.
Qed.
End near.

(** ** The operations *)

(** [|p/q - m * 2^e| <= m * 2^e / (2 * 10^16)]. *)
Definition near_ratio (p q : Z) (m : positive) (e : Z) : Prop :=
  let '(n, d) := sf_ratio m e in Z.abs (p * d - n * q) * (2 * 10 ^ 16) <= n * q.

Lemma near_ratio_close p q m e s :
  0 <= s -> 0 <= e + s -> near_ratio p q m e -> close (p * 2 ^ s) q (Zpos m * 2 ^ (e + s)).
Proof.
  unfold near_ratio, close, sf_ratio. intros Hs He H.
  assert (forall c d n, 0 <= c -> p * 2 ^ s = c * (p * d) -> Zpos m * 2 ^ (e + s) = c * n ->
    Z.abs (p * d - n * q) * (2 * 10 ^ 16) <= n * q ->
    Z.abs (p * 2 ^ s - Zpos m * 2 ^ (e + s) * q) * (2 * 10 ^ 16) <= Zpos m * 2 ^ (e + s) * q) as Hc.
  { intros c d n Hc -> -> Hn. replace (c * (p * d) - c * n * q) with (c * (p * d - n * q)) by ring.
    rewrite Z.abs_mul, (Z.abs_eq c) by done.
    replace (c * Z.abs (p * d - n * q) * (2 * 10 ^ 16)) with (c * (Z.abs (p * d - n * q) * (2 * 10 ^ 16))) by ring.
    replace (c * n * q) with (c * (n * q)) by ring. by apply Z.mul_le_mono_nonneg_l. }
  destruct (Z.leb_spec 0 e); rewrite Z.shiftl_mul_pow2 in H by lia.
  - apply (Hc (2 ^ s) 1 (Zpos m * 2 ^ e)); [apply Z.pow_nonneg; lia|ring|rewrite Z.pow_add_r by lia; ring|done].
  - rewrite Z.mul_1_l in H.
    apply (Hc (2 ^ (e + s)) (2 ^ (- e)) (Zpos m)); [apply Z.pow_nonneg; lia| |ring|done].
    replace (2 ^ s) with (2 ^ (- e) * 2 ^ (e + s)) by (rewrite <- Z.pow_add_r by lia; f_equal; lia). ring.
Qed.

Section ratio.
Context (m : positive) (e : Z) (Hb : bounded 53 1024 m e = true).

Lemma round_ratio s p q z :
  near_ratio p q m e -> 0 < q -> 0 <= p -> z <= 0 -> z <= e -> z <= fexp64 (Zdigits2 (p * 2 ^ (- z) / q) + z) ->
  binary_round_aux 53 1024 s (p * 2 ^ (- z) / q) z (new_location q (p * 2 ^ (- z) mod q)) = S754_finite s m e.
Proof.
  intros Hn Hq Hp Hz Hze Hf. apply round_near; [done|done| |done|done|].
  - apply Z.mul_nonneg_nonneg; [done|apply Z.pow_nonneg; lia].
  - replace (e - z) with (e + - z) by lia. by apply near_ratio_close; [lia|lia|].
Qed.

(** The digits of the fraction. *)
Lemma near_digits p q :
  e < 0 -> near_ratio (Zpos p) (Zpos q) m e ->
  2 ^ (Zpos (digits2_pos p) - 1) * 2 ^ (- e) < 2 ^ Zpos (digits2_pos m) * Zpos q.
Proof.
  intros He Hn. apply (near_ratio_close _ _ _ _ (- e)) in Hn; [|lia|lia].
  replace (e + - e) with 0 in Hn by lia.
  pose proof (close_upper m e Hb _ _ 0 (Pos2Z.is_pos q) (Z.le_refl 0) Hn) as Hup. rewrite Z.add_0_r in Hup.
  pose proof (digits2_bounds p) as [Hl _]. assert (0 < 2 ^ (- e)) by (apply Z.pow_pos_nonneg; lia). nia.
Qed.

Lemma SFdiv_near s p q :
  near_ratio (Zpos p) (Zpos q) m e -> SFdiv 53 1024 (S754_finite s p 0) (S754_finite false q 0) = S754_finite s m e.
Proof.
  intros Hn. cbn [SFdiv]. rewrite xorb_false_r. unfold SFdiv_core_binary. cbn [Zdigits2]. rewrite !Z.add_0_r.
  change (0 - 0) with 0. set (dp := Zpos (digits2_pos p)). set (dq := Zpos (digits2_pos q)).
  set (z := Z.min (fexp64 (dp - dq)) 0).
  assert (match 0 - z with Z0 => Zpos p | Zpos _ => Z.shiftl (Zpos p) (0 - z) | Zneg _ => 0 end = Zpos p * 2 ^ (- z)) as ->.
  { replace (0 - z) with (- z) by lia. destruct (- z) as [|k|k] eqn:Ek; [lia|by rewrite Z.shiftl_mul_pow2|lia]. }
  pose proof (digits2_bounds p) as [Hp _]. pose proof (digits2_bounds q) as [_ Hq]. fold dp in Hp. fold dq in Hq.
  pose proof (round_ratio s (Zpos p) (Zpos q) z Hn ltac:(done) ltac:(done) ltac:(lia)) as H.
  unfold Z.div, Z.modulo in H. destruct (Z.div_eucl _ _) as [a b] eqn:E. apply H; clear H.
  - destruct (Z.le_gt_cases 0 e); [lia|]. pose proof (near_digits p q ltac:(lia) Hn) as Hd. fold dp in Hd.
    destruct (bounded_inv m e Hb) as (Hfe & _). transitivity (fexp64 (dp - dq)); [lia|]. rewrite <- Hfe. apply fexp64_mono.
    assert (2 ^ (dp - 1 + - e) < 2 ^ (Zpos (digits2_pos m) + dq)) as Hlt.
    { rewrite !Z.pow_add_r by lia. eapply Z.lt_le_trans; [exact Hd|]. apply Z.mul_le_mono_nonneg_l; [apply Z.pow_nonneg|]; lia. }
    apply Z.pow_lt_mono_r_iff in Hlt; lia.
  - replace a with (Zpos p * 2 ^ (- z) / Zpos q) by (unfold Z.div; by rewrite E).
    transitivity (fexp64 (dp - dq)); [lia|]. apply fexp64_mono.
    destruct (Z.lt_ge_cases (dp - 1 - dq - z) 0) as [Hk|Hk].
    + assert (0 <= Zdigits2 (Zpos p * 2 ^ (- z) / Zpos q)) by (destruct (_ / _); simpl; lia). lia.
    + pose proof (Zdigits2_ge_pow (Zpos p * 2 ^ (- z)) (Zpos q) (dp - 1 - dq - z) ltac:(done) Hk) as Hg.
      enough (2 ^ (dp - 1 - dq - z) * Zpos q <= Zpos p * 2 ^ (- z)) by lia.
      transitivity (2 ^ (dp - 1 - dq - z) * 2 ^ dq); [apply Z.mul_le_mono_nonneg_l; [apply Z.pow_nonneg|]; lia|].
      rewrite <- Z.pow_add_r by lia. replace (dp - 1 - dq - z + dq) with (dp - 1 + - z) by lia.
      rewrite Z.pow_add_r by lia. apply Z.mul_le_mono_nonneg_r; [apply Z.pow_nonneg|]; lia.
Qed.

Lemma binary_round_near s p :
  near_ratio (Zpos p) 1 m e -> binary_round 53 1024 s p 0 = S754_finite s m e.
Proof.
  intros Hn. unfold binary_round. set (dp := Zpos (digits2_pos p)).
  pose proof (shl_align_spec p 0 (fexp64 (dp + 0))) as Hs. destruct (shl_align _ _ _) as [mz z]. destruct Hs as [Hz ->].
  rewrite Z.add_0_r in Hz. pose proof (digits2_bounds p) as [Hp _]. fold dp in Hp.
  pose proof (round_ratio s (Zpos p) 1 z Hn ltac:(done) ltac:(done) ltac:(lia)) as H.
  rewrite Z.div_1_r, Z.mod_1_r in H. replace (0 - z) with (- z) by lia. apply H.
  - destruct (Z.le_gt_cases 0 e); [lia|]. pose proof (near_digits p 1 ltac:(lia) Hn) as Hd. fold dp in Hd.
    destruct (bounded_inv m e Hb) as (Hfe & _). transitivity (fexp64 dp); [lia|]. rewrite <- Hfe. apply fexp64_mono.
    rewrite Z.mul_1_r, <- Z.pow_add_r in Hd by lia. apply Z.pow_lt_mono_r_iff in Hd; lia.
  - transitivity (fexp64 dp); [lia|]. apply fexp64_mono.
    pose proof (Zdigits2_ge_pow (Zpos p * 2 ^ (- z)) 1 (dp - 1 - z) ltac:(done) ltac:(lia)) as Hg.
    rewrite Z.div_1_r in Hg. enough (2 ^ (dp - 1 - z) * 1 <= Zpos p * 2 ^ (- z)) by lia.
    replace (dp - 1 - z) with (dp - 1 + - z) by lia. rewrite Z.pow_add_r, Z.mul_1_r by lia.
    apply Z.mul_le_mono_nonneg_r; [apply Z.pow_nonneg|]; lia.
Qed.
End ratio.
