(* ===== verification/FloatText.v ===== *)
(** * Seventeen digits determine a double

    The text of [%.17g] is read back as the same number by the extraction of a
    [double] from a stream: the decimal exponent is found, the seventeen digits
    are within half a unit of the number, every layout of them denotes the same
    fraction, and rounding that fraction gives the number again. *)
From S2P Require Export FloatRound.
Open Scope Z_scope.

(** ** Definitions *)

(** [k * 10^g] is close to [n/d]; [b] makes the exponents nonnegative. *)
Definition near_dec (b k g n d : Z) : Prop :=
  Z.abs (k * 10 ^ (g + b) * d - n * 10 ^ b) * (2 * 10 ^ 16) <= n * 10 ^ b.

(** ** Powers of ten and of two *)

Lemma pow_le_root a b k : 0 <= a -> 0 <= b -> 0 < k -> a ^ k <= b ^ k -> a <= b.
Proof.
  intros Ha Hb Hk Hp. destruct (Z.le_gt_cases a b) as [|Hgt]; [done|].
  pose proof (Z.pow_lt_mono_l b a k Hk ltac:(lia)). lia.
Qed.

Lemma pow10_le_pow2 x y : 0 <= x -> 196 * x <= 59 * y -> 10 ^ x <= 2 ^ y.
Proof.
  intros Hx Hxy. apply (pow_le_root _ _ 59); [apply Z.pow_nonneg; lia..|done|].
  rewrite <- !Z.pow_mul_r by lia. rewrite (Z.mul_comm x), Z.pow_mul_r by lia.
  transitivity ((2 ^ 196) ^ x); [apply Z.pow_le_mono_l; split; [lia|by vm_compute]|].
  rewrite <- Z.pow_mul_r by lia. apply Z.pow_le_mono_r; lia.
Qed.

Lemma pow2_le_pow10 x y : 0 <= y -> 146 * y <= 485 * x -> 2 ^ y <= 10 ^ x.
Proof.
  intros Hy Hxy. apply (pow_le_root _ _ 485); [apply Z.pow_nonneg; lia..|done|].
  rewrite <- !Z.pow_mul_r by lia. rewrite (Z.mul_comm y), Z.pow_mul_r by lia.
  transitivity ((10 ^ 146) ^ y); [apply Z.pow_le_mono_l; split; [lia|by vm_compute]|].
  rewrite <- Z.pow_mul_r by lia. apply Z.pow_le_mono_r; lia.
Qed.

(** ** The decimal exponent *)

Section exponent.
Context (n d : Z) (Hn : 0 < n) (Hd : 0 < d).

Lemma pow10_le_scaled b x : 0 <= b -> 0 <= x + b -> pow10_le n d x = (d * 10 ^ (x + b) <=? n * 10 ^ b).
Proof.
  intros Hb Hx. unfold pow10_le. assert (forall c u v, 0 < c -> (u <=? v) = (u * c <=? v * c)) as Hc.
  { intros c u v Hc. apply eq_true_iff_eq. rewrite !Z.leb_le. nia. }
  destruct (Z.leb_spec 0 x).
  - rewrite (Hc (10 ^ b)) by (apply Z.pow_pos_nonneg; lia). rewrite Z.pow_add_r by lia. f_equal; ring.
  - rewrite (Hc (10 ^ (x + b))) by (apply Z.pow_pos_nonneg; lia). f_equal.
    rewrite <- Z.mul_assoc, <- Z.pow_add_r by lia. by replace (- x + (x + b)) with b by lia.
Qed.

Lemma pow10_le_mono x y : x <= y -> pow10_le n d y = true -> pow10_le n d x = true.
Proof.
  intros Hxy. set (b := Z.max 0 (- x)). rewrite !(pow10_le_scaled b), !Z.leb_le by lia. intros H.
  etransitivity; [|exact H]. apply Z.mul_le_mono_nonneg_l; [lia|]. apply Z.pow_le_mono_r; lia.
Qed.

(** The loop finds [x], starting nearby. *)
Lemma dec_exponent_finds x :
  pow10_le n d x = true -> pow10_le n d (x + 1) = false ->
  forall fuel y, Z.abs (y - x) < Z.of_nat fuel -> dec_exponent fuel n d y = x.
Proof.
  intros Ht Hf fuel. induction fuel as [|fuel IH]; intros y Hy; [lia|]. cbn [dec_exponent].
  assert (forall z, pow10_le n d z = (z <=? x)) as Hz.
  { intros z. destruct (Z.leb_spec z x) as [Hle|Hgt]; [by apply (pow10_le_mono z x)|].
    destruct (pow10_le n d z) eqn:E; [|done]. apply (pow10_le_mono (x + 1)) in E; [congruence|lia]. }
  rewrite !Hz. destruct (Z.leb_spec (y + 1) x); [apply IH; lia|]. destruct (Z.leb_spec y x); [lia|apply IH; lia].
Qed.

(** The estimate from the binary logarithms is at most one off. *)
Let L := Z.log2 n - Z.log2 d.
Let y := L * 30103 / 100000.

Lemma estimate_bounds :
  -1100 <= L <= 1100 ->
  100000 * y <= L * 30103 < 100000 * y + 100000 /\ 0 <= Z.log2 n /\ 0 <= Z.log2 d /\
  2 ^ Z.log2 n <= n < 2 ^ Z.succ (Z.log2 n) /\ 2 ^ Z.log2 d <= d < 2 ^ Z.succ (Z.log2 d).
Proof.
  intros HL. pose proof (Z.div_mod (L * 30103) 100000 ltac:(done)) as Hdm. fold y in Hdm.
  pose proof (Z.mod_pos_bound (L * 30103) 100000 ltac:(done)).
  split; [lia|]. split_and!; try apply Z.log2_nonneg; by apply Z.log2_spec.
Qed.

Lemma estimate_low : -1100 <= L <= 1100 -> pow10_le n d (y - 1) = true.
Proof.
  intros HL. destruct (estimate_bounds HL) as (Hy' & Hln & Hld & [Hn1 Hn2] & [Hd1 Hd2]).
  unfold pow10_le. destruct (Z.leb_spec 0 (y - 1)) as [Hy|Hy]; apply Z.leb_le.
  - pose proof (pow10_le_pow2 (y - 1) (L - 1) Hy ltac:(lia)).
    transitivity (2 ^ Z.succ (Z.log2 d) * 2 ^ (L - 1)); [apply Z.mul_le_mono_nonneg; [lia|lia|apply Z.pow_nonneg; lia|done]|].
    rewrite <- Z.pow_add_r by lia. replace (Z.succ (Z.log2 d) + (L - 1)) with (Z.log2 n) by lia. done.
  - destruct (Z.le_gt_cases 1 L).
    + transitivity n; [|assert (0 < 10 ^ (- (y - 1))) by (apply Z.pow_pos_nonneg; lia); nia].
      transitivity (2 ^ Z.log2 n); [|done]. transitivity (2 ^ Z.succ (Z.log2 d)); [lia|]. apply Z.pow_le_mono_r; lia.
    + pose proof (pow2_le_pow10 (- (y - 1)) (1 - L) ltac:(lia) ltac:(lia)).
      transitivity (2 ^ Z.log2 n * 2 ^ (1 - L)); [|apply Z.mul_le_mono_nonneg; try lia; apply Z.pow_nonneg; lia].
      rewrite <- Z.pow_add_r by lia. replace (Z.log2 n + (1 - L)) with (Z.succ (Z.log2 d)) by lia. lia.
Qed.

Lemma estimate_high : -1100 <= L <= 1100 -> pow10_le n d (y + 2) = false.
Proof.
  intros HL. destruct (estimate_bounds HL) as (Hy' & Hln & Hld & [Hn1 Hn2] & [Hd1 Hd2]).
  unfold pow10_le. destruct (Z.leb_spec 0 (y + 2)) as [Hy|Hy]; apply Z.leb_gt.
  - destruct (Z.le_gt_cases 0 (L + 1)).
    + pose proof (pow2_le_pow10 (y + 2) (L + 1) ltac:(lia) ltac:(lia)).
      apply Z.lt_le_trans with (2 ^ Z.log2 d * 2 ^ (L + 1)).
      * rewrite <- Z.pow_add_r by lia. replace (Z.log2 d + (L + 1)) with (Z.succ (Z.log2 n)) by lia. done.
      * apply Z.mul_le_mono_nonneg; try done; apply Z.pow_nonneg; lia.
    + assert (n < d) by (eapply Z.lt_le_trans; [exact Hn2|]; transitivity (2 ^ Z.log2 d); [apply Z.pow_le_mono_r|]; lia).
      assert (0 < 10 ^ (y + 2)) by (apply Z.pow_pos_nonneg; lia). nia.
  - pose proof (pow10_le_pow2 (- (y + 2)) (- (L + 1)) ltac:(lia) ltac:(lia)) as Hp.
    apply Z.lt_le_trans with (2 ^ Z.succ (Z.log2 n) * 2 ^ (- (L + 1))).
    + assert (0 < 10 ^ (- (y + 2))) by (apply Z.pow_pos_nonneg; lia). nia.
    + rewrite <- Z.pow_add_r by lia. replace (Z.succ (Z.log2 n) + - (L + 1)) with (Z.log2 d) by lia. done.
Qed.

Lemma dec_exp_of_spec :
  -1100 <= L <= 1100 ->
  let x := dec_exp_of n d in
  pow10_le n d x = true /\ pow10_le n d (x + 1) = false /\ Z.abs (x - y) <= 1.
Proof.
  intros HL. cbv zeta. unfold dec_exp_of. fold L. fold y. pose proof (estimate_low HL) as Hlow.
  pose proof (estimate_high HL) as Hhigh.
  assert (exists x, pow10_le n d x = true /\ pow10_le n d (x + 1) = false /\ Z.abs (x - y) <= 1) as (x & Hx1 & Hx2 & Hx3).
  { destruct (pow10_le n d y) eqn:E0; [|exists (y - 1); replace (y - 1 + 1) with y by lia; split_and!; [done|done|lia]].
    destruct (pow10_le n d (y + 1)) eqn:E1; [exists (y + 1); replace (y + 1 + 1) with (y + 2) by lia|exists y];
      split_and!; done || lia. }
  rewrite (dec_exponent_finds x Hx1 Hx2) by lia. done.
Qed.
End exponent.

(** ** The digits *)

Lemma scale_rne_scaled n d k b :
  0 < d -> 0 <= b -> 0 <= b - k ->
  Z.abs (2 * (scale_rne n d k * (d * 10 ^ (b - k)) - n * 10 ^ b)) <= d * 10 ^ (b - k).
Proof.
  intros Hd Hb Hk. assert (forall c p q, 0 < q -> 0 < c ->
    Z.abs (2 * (div_rne p q * (q * c) - p * c)) <= q * c) as H.
  { intros c p q Hq Hc. pose proof (div_rne_nearest p q Hq) as Hr.
    replace (2 * (div_rne p q * (q * c) - p * c)) with (- (c * (2 * (p - q * div_rne p q)))) by ring.
    rewrite Z.abs_opp, Z.abs_mul, (Z.abs_eq c) by lia. rewrite (Z.mul_comm q c). apply Z.mul_le_mono_nonneg_l; lia. }
  unfold scale_rne. destruct (Z.leb_spec 0 k).
  - assert (0 < 10 ^ (b - k)) as Hp by (apply Z.pow_pos_nonneg; lia). specialize (H _ (n * 10 ^ k) d Hd Hp).
    rewrite <- (Z.mul_assoc n), <- Z.pow_add_r in H by lia. by replace (k + (b - k)) with b in H by lia.
  - assert (0 < 10 ^ b) as Hp by (by apply Z.pow_pos_nonneg).
    assert (0 < d * 10 ^ (- k)) as Hq by (apply Z.mul_pos_pos; [done|apply Z.pow_pos_nonneg; lia]).
    specialize (H _ n _ Hq Hp). rewrite <- (Z.mul_assoc d), <- Z.pow_add_r in H by lia.
    by replace (- k + b) with (b - k) in H by lia.
Qed.

(** The seventeen digits of [n/d], at the exponent [x], are close to it. *)
Lemma digits17_near n d x b :
  0 < n -> 0 < d -> 0 <= b -> 0 <= x - 16 + b -> pow10_le n d x = true -> pow10_le n d (x + 1) = false ->
  let k := scale_rne n d (16 - x) in 10 ^ 16 <= k <= 10 ^ 17 /\ near_dec b k (x - 16) n d.
Proof.
  intros Hn Hd Hb Hx Ht Hf k. pose proof (scale_rne_scaled n d (16 - x) b Hd Hb ltac:(lia)) as Hs. fold k in Hs.
  replace (b - (16 - x)) with (x - 16 + b) in Hs by lia.
  rewrite (pow10_le_scaled n d b) in Ht, Hf by lia. apply Z.leb_le in Ht. apply Z.leb_gt in Hf.
  replace (x + b) with (16 + (x - 16 + b)) in Ht by lia. replace (x + 1 + b) with (17 + (x - 16 + b)) in Hf by lia.
  rewrite Z.pow_add_r in Ht, Hf by lia. unfold near_dec.
  assert (0 < 10 ^ (x - 16 + b)) as Hp by (apply Z.pow_pos_nonneg; lia).
  set (p := 10 ^ (x - 16 + b)) in *. set (u := d * p) in *. assert (0 < u) by (by apply Z.mul_pos_pos).
  replace (d * (10 ^ 16 * p)) with (10 ^ 16 * u) in Ht by (unfold u; ring).
  replace (d * (10 ^ 17 * p)) with (10 ^ 17 * u) in Hf by (unfold u; ring).
  replace (k * p * d) with (k * u) by (unfold u; ring). split; [nia|lia].
Qed.

Lemma digits_val_bound ds : Forall (fun c => is_digit c = true) ds -> 0 <= digits_val 0 ds < 10 ^ Z.of_nat (length ds).
Proof.
  induction 1 as [|c ds Hc _ IH]; [done|]. cbn [digits_val length]. rewrite digits_val_shift, Nat2Z.inj_succ, Z.pow_succ_r by lia.
  unfold is_digit in Hc. bool_to_prop. assert (0 < 10 ^ Z.of_nat (length ds)) by (apply Z.pow_pos_nonneg; lia). nia.
Qed.

Lemma digits17 k : 10 ^ 16 <= k < 10 ^ 17 ->
  pad0 17 (dec_digits k) = dec_digits k /\ length (dec_digits k) = 17%nat /\
  Forall (fun c => is_digit c = true) (dec_digits k) /\ digits_val 0 (dec_digits k) = k.
Proof.
  intros Hk. destruct (dec_digits_spec k ltac:(lia)) as (_ & Hd & Hv & _).
  pose proof (dec_digits_length k 17 ltac:(lia) ltac:(lia)) as Hle. pose proof (digits_val_bound _ Hd) as Hb.
  rewrite Hv in Hb. assert (17 <= length (dec_digits k))%nat as Hge.
  { destruct (Nat.le_gt_cases 17 (length (dec_digits k))) as [|Hlt]; [done|].
    assert (10 ^ Z.of_nat (length (dec_digits k)) <= 10 ^ 16) by (apply Z.pow_le_mono_r; lia). lia. }
  split_and!; [|lia|done|done]. unfold pad0. by replace (17 - length (dec_digits k))%nat with O by lia.
Qed.

Lemma strip_zeros_spec s : exists j, s = strip_zeros s ++ repeat (CH "0") j.
Proof.
  unfold strip_zeros. rewrite <- (reverse_involutive s). generalize (reverse s). intros r. rewrite reverse_involutive.
  induction r as [|c r [j Hj]]; [by exists O|]. destruct (Z.eqb_spec c (CH "0")) as [->|].
  - exists (S j). rewrite reverse_cons, Hj, <- app_assoc. f_equal. clear. induction j as [|j IH]; [done|]. simpl. by rewrite IH.
  - exists O. by rewrite app_nil_r.
Qed.

Lemma digits_val_zeros_end a ds j : digits_val a (ds ++ repeat (CH "0") j) = digits_val a ds * 10 ^ Z.of_nat j.
Proof.
  rewrite digits_val_app, digits_val_shift, repeat_length.
  assert (digits_val 0 (repeat (CH "0") j) = 0) as ->; [|lia]. induction j as [|j IH]; [done|apply IH].
Qed.

(** ** Decimal texts *)

Abbreviation digits := (Forall (fun c => is_digit c = true)).

Lemma digits_zeros n : digits (repeat (CH "0") n).
Proof. induction n; by constructor. Qed.

Definition dotted (fp : bytes) : bytes := match fp with [] => [] | c :: l => CH "." :: c :: l end.

Inductive exponent_text : bytes -> Z -> Prop :=
  | exponent_none : exponent_text [] 0
  | exponent_some (neg : bool) ds : ds <> [] -> digits ds ->
      exponent_text (CH "e" :: (if neg then CH "-" else CH "+") :: ds)
        (if neg then - digits_val 0 ds else digits_val 0 ds).

(** [decimal t m f k]: the text [t] denotes [m * 10^f] with [k] digits. *)
Inductive decimal : bytes -> Z -> Z -> nat -> Prop :=
  | decimal_text ip fp ex ev : ip <> [] -> digits ip -> digits fp -> exponent_text ex ev ->
      decimal (ip ++ dotted fp ++ ex) (digits_val 0 (ip ++ fp)) (ev - Z.of_nat (length fp)) (length ip + length fp).

(** The decimals near [n/d] that fit the reader. *)
Section near_text.
Context (n d b : Z) (Hn : 0 < n) (Hd : 0 < d) (Hb : 1000 <= b).

Definition near_text (t : bytes) : Prop :=
  exists m f k, decimal t m f k /\ 0 < m /\ -400 < f + Z.of_nat k < 400 /\ -900 <= f /\ near_dec b m f n d.

Lemma near_dec_zeros m j g :
  0 <= j -> 0 <= g + b -> near_dec b (m * 10 ^ j) g n d <-> near_dec b m (g + j) n d.
Proof.
  intros Hj Hg. unfold near_dec. replace (m * 10 ^ (g + j + b)) with (m * 10 ^ j * 10 ^ (g + b)); [done|].
  rewrite <- Z.mul_assoc, <- Z.pow_add_r by lia. do 2 f_equal. lia.
Qed.

Lemma near_strip ip fp ex ev :
  ip <> [] -> digits ip -> digits fp -> exponent_text ex ev -> 0 < digits_val 0 (ip ++ fp) ->
  -400 < ev + Z.of_nat (length ip) < 400 -> (length fp <= 100)%nat -> -800 <= ev ->
  near_dec b (digits_val 0 (ip ++ fp)) (ev - Z.of_nat (length fp)) n d ->
  near_text (ip ++ dotted (strip_zeros fp) ++ ex).
Proof.
  intros Hne Hip Hfp Hex Hpos Hev Hlen Hev' Hnear. destruct (strip_zeros_spec fp) as [j Hj]. set (fp' := strip_zeros fp) in *.
  rewrite Hj in Hfp, Hpos, Hlen, Hnear. apply Forall_app in Hfp as [Hfp _].
  rewrite app_assoc, digits_val_zeros_end in Hpos, Hnear. rewrite length_app, repeat_length in Hnear, Hlen.
  eexists _, _, _. split; [by apply decimal_text|]. split; [nia|]. split_and!; [lia..|].
  apply (near_dec_zeros _ (Z.of_nat j)) in Hnear; [|lia..].
  by replace (ev - Z.of_nat (length fp' + j) + Z.of_nat j) with (ev - Z.of_nat (length fp')) in Hnear by lia.
Qed.

(** The point that [valueToString] puts behind an integer. *)
Lemma near_point t : digits t -> near_text t -> near_text (t ++ STR ".0").
Proof.
  intros Ht (m & f & k & Hdec & Hm & Hf & Hf' & Hnear).
  destruct Hdec as [ip fp ex ev Hne Hip Hfp Hex].
  assert (fp = []) as ->.
  { destruct fp; [done|]. apply Forall_app in Ht as [_ Ht]. apply Forall_app in Ht as [Ht _]. by apply Forall_cons in Ht as [? _]. }
  destruct Hex as [|neg ds]; [|apply Forall_app in Ht as [_ Ht]; by apply Forall_cons in Ht as [? _]].
  rewrite !app_nil_r in *. eexists _, _, _. split.
  { change (STR ".0") with (dotted [CH "0"] ++ []). apply (decimal_text ip [CH "0"] [] 0); [done|done|by repeat constructor|constructor]. }
  rewrite digits_val_app. cbn [digits_val length] in *.
  replace (digits_val 0 ip * 10 + (CH "0" - CH "0")) with (digits_val 0 ip * 10 ^ 1) by lia.
  split; [lia|]. split_and!; [lia..|]. apply (near_dec_zeros _ 1); [lia..|]. by replace (0 - Z.of_nat 1 + 1) with (0 - Z.of_nat 0) by lia.
Qed.

(** The three layouts of [%g]. *)
Definition layout_g (ds : bytes) (x : Z) : bytes :=
  if (x <? -4) || (17 <=? x) then
    take 1 ds ++ dotted (strip_zeros (drop 1 ds)) ++ [CH "e"; if x <? 0 then CH "-" else CH "+"] ++
    pad0 2 (dec_digits (Z.abs x))
  else if x <? 0 then STR "0" ++ dotted (strip_zeros (repeat (CH "0") (Z.to_nat (- x - 1)) ++ ds))
  else take (S (Z.to_nat x)) ds ++ dotted (strip_zeros (drop (S (Z.to_nat x)) ds)).

Lemma layout_g_near ds x :
  digits ds -> length ds = 17%nat -> 0 < digits_val 0 ds -> -390 <= x <= 390 ->
  near_dec b (digits_val 0 ds) (x - 16) n d -> near_text (layout_g ds x).
Proof.
  intros Hds Hlen Hpos Hx Hnear. unfold layout_g.
  assert (forall i, (0 < i)%nat -> take i ds <> []) as Hne by (intros [|i] Hi; [lia|by destruct ds]).
  destruct ((x <? -4) || (17 <=? x)) eqn:E; [|bool_to_prop; destruct (Z.ltb_spec x 0)].
  - destruct (dec_digits_spec (Z.abs x) ltac:(lia)) as (Hn0 & Hd0 & Hv & _).
    apply near_strip with (ev := x); rewrite ?take_drop, ?length_take, ?length_drop, ?Hlen; try done; try lia.
    + apply Hne. lia.
    + by apply Forall_take.
    + by apply Forall_drop.
    + assert (x = if x <? 0 then - digits_val 0 (pad0 2 (dec_digits (Z.abs x)))
                    else digits_val 0 (pad0 2 (dec_digits (Z.abs x)))) as Ex.
      { unfold pad0. rewrite digits_val_zeros, Hv. destruct (Z.ltb_spec x 0); lia. }
      rewrite Ex at 3. apply (exponent_some (x <? 0)); unfold pad0.
      * by intros [_ He]%app_eq_nil.
      * apply Forall_app. split; [apply digits_zeros|done].
  - rewrite <- (app_nil_r (dotted _)). set (z := repeat _ _).
    assert (digits z) as Hz by apply digits_zeros.
    assert (length z = Z.to_nat (- x - 1)) as Hlz by apply repeat_length.
    assert (digits_val 0 (STR "0" ++ z ++ ds) = digits_val 0 ds) as Hv by apply digits_val_zeros.
    apply near_strip with (ev := 0); try done; rewrite ?length_app, ?Hlen, ?Hlz; cbn [length]; try lia.
    + by repeat constructor.
    + by apply Forall_app.
    + constructor.
    + rewrite Hv.
      by replace (0 - Z.of_nat (Z.to_nat (- x - 1) + 17)) with (x - 16) by lia.
  - rewrite <- (app_nil_r (dotted _)).
    apply near_strip with (ev := 0); rewrite ?take_drop, ?length_take, ?length_drop, ?Hlen; try done; try lia.
    + apply Hne. lia.
    + by apply Forall_take.
    + by apply Forall_drop.
    + constructor.
    + by replace (0 - Z.of_nat (17 - S (Z.to_nat x))) with (x - 16) by lia.
Qed.
End near_text.

(** ** Writing and reading a double *)

Definition sign_text (s : bool) : bytes := if s then [CH "-"] else [].

Section double.
Context (m : positive) (e b : Z) (Hbd : bounded 53 1024 m e = true) (Hb : 1000 <= b).

Let n := (sf_ratio m e).1.
Let d := (sf_ratio m e).2.

Lemma ratio_pos : 0 < n /\ 0 < d /\ -1100 <= Z.log2 n - Z.log2 d <= 1100.
Proof.
  destruct (bounded_inv m e Hbd) as (Hf & He & _ & Hm & _). unfold n, d, sf_ratio.
  assert (0 <= Z.log2 (Zpos m) < 53) as Hl by (split; [apply Z.log2_nonneg|by apply Z.log2_lt_pow2]).
  assert (-1074 <= e) by (unfold fexp, emin in Hf; lia). destruct (Z.leb_spec 0 e); cbn [fst snd];
    (rewrite Z.shiftl_mul_pow2 by lia; assert (0 < 2 ^ Z.abs e) by (apply Z.pow_pos_nonneg; lia)).
  - rewrite Z.abs_eq in * by done. rewrite Z.log2_mul_pow2 by lia. change (Z.log2 1) with 0. split; [nia|lia].
  - rewrite Z.abs_neq in * by lia. rewrite Z.mul_1_l, Z.log2_pow2 by lia. split; [done|lia].
Qed.

Lemma fmt_g_near s : exists t, fmt_g 17 (S754_finite s m e) = sign_text s ++ t /\ near_text n d b t.
Proof.
  destruct ratio_pos as (Hn & Hd & HL). destruct (dec_exp_of_spec n d Hn Hd HL) as (Ht & Hf & Hx).
  unfold fmt_g. rewrite (surjective_pairing (sf_ratio m e)). fold n d. set (x := dec_exp_of n d) in *.
  assert (-340 <= x <= 340) as Hx'.
  { pose proof (Z.div_mod ((Z.log2 n - Z.log2 d) * 30103) 100000 ltac:(done)).
    pose proof (Z.mod_pos_bound ((Z.log2 n - Z.log2 d) * 30103) 100000 ltac:(done)). lia. }
  destruct (digits17_near n d x b Hn Hd ltac:(lia) ltac:(lia) Ht Hf) as [Hk Hnear].
  replace (Z.of_nat 17 - 1 - x) with (16 - x) by lia. set (k := scale_rne n d (16 - x)) in *.
  assert (exists k' x', (if k =? 10 ^ Z.of_nat 17 then (k / 10, x + 1) else (k, x)) = (k', x') /\
    10 ^ 16 <= k' < 10 ^ 17 /\ x <= x' <= x + 1 /\ near_dec b k' (x' - 16) n d) as (k' & x' & -> & Hk' & Hxx & Hnear').
  { destruct (Z.eqb_spec k (10 ^ Z.of_nat 17)) as [E|Hne].
    - exists (10 ^ 16), (x + 1). split; [by rewrite E|]. split_and!; [lia..|].
      replace (x + 1 - 16) with (x - 16 + 1) by lia. apply (near_dec_zeros n d b _ 1); [lia..|].
      by rewrite E in Hnear.
    - exists k, x. change (10 ^ Z.of_nat 17) with (10 ^ 17) in Hne. split_and!; [done|lia..|done]. }
  destruct (digits17 k' Hk') as (Hpad & Hlen & Hds & Hv). rewrite Hpad.
  exists (layout_g (dec_digits k') x'). split; [reflexivity|].
  apply layout_g_near; rewrite ?Hv; [done..|lia|lia|done].
Qed.

Lemma b64_of_decimal_near s M k f :
  0 < M -> -400 < f + Z.of_nat k < 400 -> -900 <= f -> near_dec b M f n d -> b64_of_decimal s M k f = S754_finite s m e.
Proof.
  intros HM Hk Hf Hnear. unfold b64_of_decimal. destruct M as [|p|p]; [done| |done].
  rewrite !(proj2 (Z.ltb_ge _ _)) by lia. unfold near_dec in Hnear.
  assert (forall p q c, 0 < c -> Z.abs (p * c * d - n * (q * c)) * (2 * 10 ^ 16) <= n * (q * c) -> near_ratio p q m e) as Hr.
  { intros p' q' c Hc H. unfold near_ratio. rewrite (surjective_pairing (sf_ratio m e)). fold n d.
    replace (p' * c * d - n * (q' * c)) with (c * (p' * d - n * q')) in H by ring. rewrite Z.abs_mul, Z.abs_eq in H by lia. nia. }
  destruct (Z.leb_spec 0 f).
  - assert (near_ratio (Zpos p * 10 ^ f) 1 m e) as Hn.
    { apply (Hr _ _ (10 ^ b)); [apply Z.pow_pos_nonneg; lia|]. by rewrite <- (Z.mul_assoc (Zpos p)), <- Z.pow_add_r, Z.mul_1_l by lia. }
    destruct (Zpos p * 10 ^ f) as [|q|q] eqn:Eq; [|by apply binary_round_near|];
      assert (0 < 10 ^ f) by (by apply Z.pow_pos_nonneg); nia.
  - assert (near_ratio (Zpos p) (10 ^ (- f)) m e) as Hn.
    { apply (Hr _ _ (10 ^ (f + b))); [apply Z.pow_pos_nonneg; lia|]. rewrite <- (Z.pow_add_r 10 (- f)) by lia.
      by replace (- f + (f + b)) with b by lia. }
    assert (0 < 10 ^ (- f)) by (apply Z.pow_pos_nonneg; lia).
    destruct (10 ^ (- f)) as [|q|q]; [done|by apply SFdiv_near|done].
Qed.
End double.

Lemma digit_cases c : is_digit c = true -> c <> CH "-" /\ c <> CH "+" /\ c <> CH "." /\ c <> CH "e" /\ c <> CH "E".
Proof. unfold is_digit. intros H. bool_to_prop. lia. Qed.

Lemma head_dotted fp ex ev c :
  exponent_text ex ev -> head (dotted fp ++ ex) = Some c -> is_digit c = false.
Proof. intros Hex. destruct fp; [destruct Hex; [done|]|]; by intros [= <-]. Qed.

Lemma istream_decimal s t m f k :
  decimal t m f k ->
  istream_double (sign_text s ++ t) =
  match b64_of_decimal s m k f with
  | S754_infinity true => (SFopp b64_max, false)
  | S754_infinity false => (b64_max, false)
  | v => (v, true)
  end.
Proof.
  intros [ip fp ex ev Hne Hip Hfp Hex].
  assert (istream_double (sign_text s ++ ip ++ dotted fp ++ ex) = istream_unsigned s (ip ++ dotted fp ++ ex)) as ->.
  { destruct s; [done|]. destruct ip as [|c ip]; [done|]. simpl.
    apply Forall_cons in Hip as [(H1 & H2 & _)%digit_cases _].
    by rewrite (proj2 (Z.eqb_neq _ _) H1), (proj2 (Z.eqb_neq _ _) H2). }
  unfold istream_unsigned. rewrite (take_digits_app ip 0 0 _ Hip) by (intros c; by eapply head_dotted). cbn [Nat.add].
  assert (match dotted fp ++ ex with
    | c :: t => if c =? CH "." then take_digits (digits_val 0 ip) (length ip) t else (digits_val 0 ip, length ip, dotted fp ++ ex)
    | [] => (digits_val 0 ip, length ip, dotted fp ++ ex) end =
    (digits_val 0 (ip ++ fp), (length ip + length fp)%nat, ex)) as ->.
  { destruct fp as [|c fp].
    - rewrite app_nil_r, Nat.add_0_r. by destruct Hex.
    - change (take_digits (digits_val 0 ip) (length ip) ((c :: fp) ++ ex) = (digits_val 0 (ip ++ c :: fp), (length ip + length (c :: fp))%nat, ex)).
      rewrite take_digits_app, digits_val_app; [done|done|]. intros x. by destruct Hex; intros [= <-]. }
  assert ((length ip + length fp =? 0)%nat = false) as -> by (apply Nat.eqb_neq; destruct ip; [done|simpl; lia]).
  replace (ev - Z.of_nat (length fp)) with (ev - (Z.of_nat (length ip + length fp) - Z.of_nat (length ip))) by lia.
  destruct Hex as [|neg ds Hds Hd]; [done|]. cbn [orb].
  assert (forall t, match (if neg then CH "-" else CH "+") :: t with
    | c1 :: t' => if c1 =? CH "-" then (true, t') else if c1 =? CH "+" then (false, t') else (false, (if neg then CH "-" else CH "+") :: t)
    | [] => (false, (if neg then CH "-" else CH "+") :: t) end = (neg, t)) as E by by destruct neg.
  change (CH "e" =? CH "e") with true. cbn [orb]. rewrite E.
  pose proof (take_digits_app ds 0 0 [] Hd ltac:(done)) as Ht. rewrite app_nil_r in Ht. rewrite Ht.
  by destruct ds.
Qed.

(** ** Doubles *)

(** A text near the number is read as the number. *)
Lemma near_text_read s m e b t :
  bounded 53 1024 m e = true -> 1000 <= b -> near_text (sf_ratio m e).1 (sf_ratio m e).2 b t ->
  istream_double (sign_text s ++ t) = (S754_finite s m e, true).
Proof.
  intros Hbd Hb (M & f & k & Hdec & HM & Hk & Hf & Hnear). rewrite (istream_decimal s t M f k Hdec).
  by rewrite (b64_of_decimal_near m e b Hbd Hb s M k f HM Hk Hf Hnear).
Qed.

(** The text of [%.17g] determines a finite double. *)
Lemma fmt_g_read s m e :
  bounded 53 1024 m e = true -> istream_double (fmt_g 17 (S754_finite s m e)) = (S754_finite s m e, true).
Proof.
  intros Hbd. destruct (fmt_g_near m e 1000 Hbd ltac:(done) s) as (t & -> & Ht). by eapply near_text_read.
Qed.
