(* ===== verification/StdMap.v ===== *)
(** * [std::map] as a strictly sorted association list

    The containers of the JSON tree are [std::map]s whose iteration order is
    seen by the writers, so the model keeps the order: a map is the list of its
    nodes in key order.  The order is the class [KeyOrd]; the operations below
    are the members of [std::map] the sources call, and the lemmas are proved
    for every order that satisfies [KeyOrdLaws]. *)
From S2P Require Export Prelude.
Open Scope Z_scope.

Class KeyOrd (K : Type) := key_ltb : K -> K -> bool.

Class KeyOrdLaws (K : Type) `{KeyOrd K} : Prop := {
  key_ltb_irrefl (k : K) : key_ltb k k = false;
  key_ltb_trans (k1 k2 k3 : K) :
    key_ltb k1 k2 = true -> key_ltb k2 k3 = true -> key_ltb k1 k3 = true;
  key_ltb_total (k1 k2 : K) : key_ltb k1 k2 = false -> key_ltb k2 k1 = false -> k1 = k2;
}.

(** The equivalence [std::map] tests: neither key is before the other. *)
Definition key_eqb {K} `{KeyOrd K} (k1 k2 : K) : bool :=
  negb (key_ltb k1 k2) && negb (key_ltb k2 k1).

#[export] Instance Z_KeyOrd : KeyOrd Z := Z.ltb.
#[export] Instance Z_KeyOrdLaws : KeyOrdLaws Z.
Proof. split; unfold key_ltb, Z_KeyOrd; intros; bool_to_prop; lia. Qed.

Section ops.
Context {K V : Type} `{KeyOrd K}.
Implicit Types m : list (K * V).

(** [find(k)]: the value of the node, [None] for [end()]. *)
Fixpoint om_find (k : K) m : option V :=
  match m with
  | [] => None
  | (k', v) :: m' => if key_eqb k k' then Some v else om_find k m'
  end.

(** [insert(it, {k, v})] after [lower_bound(k)], and [emplace(k, v)]: adds a
    node unless there is one with the key. *)
Fixpoint om_emplace (k : K) (v : V) m : list (K * V) :=
  match m with
  | [] => [(k, v)]
  | (k', v') :: m' => if key_ltb k k' then (k, v) :: m
                      else if key_ltb k' k then (k', v') :: om_emplace k v m'
                      else m
  end.

(** Assigning through a reference to the value of node [k]. *)
Fixpoint om_alter (k : K) (f : V -> V) m : list (K * V) :=
  match m with
  | [] => []
  | (k', v) :: m' => if key_eqb k k' then (k', f v) :: m' else (k', v) :: om_alter k f m'
  end.

(** [erase(k)]. *)
Fixpoint om_erase (k : K) m : list (K * V) :=
  match m with
  | [] => []
  | (k', v) :: m' => if key_eqb k k' then m' else (k', v) :: om_erase k m'
  end.

Definition om_keys m : list K := m.*1.

(** The invariant of the tree: keys strictly increasing. *)
Fixpoint om_sorted m : Prop :=
  match m with
  | [] => True
  | (k, _) :: m' => Forall (fun kv => key_ltb k kv.1 = true) m' /\ om_sorted m'
  end.
End ops.

Section laws.
Context {K V : Type} `{KeyOrdLaws K}.
Implicit Types m : list (K * V).

Lemma key_eqb_spec (k1 k2 : K) : key_eqb k1 k2 = true <-> k1 = k2.
Proof.
  unfold key_eqb. rewrite andb_true_iff, !negb_true_iff. split.
  - intros [? ?]. by apply key_ltb_total.
  - intros ->. by rewrite key_ltb_irrefl.
Qed.

Lemma key_eqb_refl (k : K) : key_eqb k k = true.
Proof. by apply key_eqb_spec. Qed.

Lemma key_eqb_ne (k1 k2 : K) : k1 <> k2 -> key_eqb k1 k2 = false.
Proof. intros Hne. destruct (key_eqb k1 k2) eqn:E; [|done]. by apply key_eqb_spec in E. Qed.

Lemma key_ltb_ne (k1 k2 : K) : key_ltb k1 k2 = true -> k1 <> k2.
Proof. intros Hlt ->. rewrite key_ltb_irrefl in Hlt. done. Qed.

Lemma key_ltb_asym (k1 k2 : K) : key_ltb k1 k2 = true -> key_ltb k2 k1 = false.
Proof.
  intros H12. destruct (key_ltb k2 k1) eqn:H21; [|done].
  pose proof (key_ltb_trans _ _ _ H12 H21) as Hc. rewrite key_ltb_irrefl in Hc. done.
Qed.

#[export] Instance key_eq_dec : EqDecision K.
Proof.
  intros k1 k2. destruct (key_eqb k1 k2) eqn:E.
  - left. by apply key_eqb_spec.
  - right. intros ->. by rewrite key_eqb_refl in E.
Qed.

Lemma om_find_head_lt k k' v m :
  key_ltb k k' = true -> om_sorted ((k', v) :: m) -> om_find k ((k', v) :: m) = None.
Proof.
  intros Hk. revert k' v Hk. induction m as [|[k2 v2] m IH]; intros k' v Hk Hs; simpl.
  - rewrite key_eqb_ne by by apply key_ltb_ne. done.
  - rewrite key_eqb_ne by by apply key_ltb_ne.
    destruct Hs as [Hall Hs]. apply Forall_cons in Hall as [Hk2 _]. simpl in Hk2.
    apply (IH k2 v2); [by eapply key_ltb_trans|done].
Qed.

Lemma om_find_below k m :
  Forall (fun kv => key_ltb k kv.1 = true) m -> om_find k m = None.
Proof.
  induction 1 as [|[k' v] m Hk _ IH]; [done|]. simpl in *.
  by rewrite key_eqb_ne by by apply key_ltb_ne.
Qed.

Lemma om_find_elem k v m : om_find k m = Some v -> (k, v) ∈ m.
Proof.
  induction m as [|[k' v'] m IH]; simpl; [done|].
  destruct (key_eqb k k') eqn:E.
  - intros [= ->]. apply key_eqb_spec in E as ->. by apply list_elem_of_here.
  - intros Hf. apply list_elem_of_further. by apply IH.
Qed.

Lemma om_find_In k v m : om_sorted m -> (k, v) ∈ m -> om_find k m = Some v.
Proof.
  induction m as [|[k' v'] m IH]; [by intros _ ?%not_elem_of_nil|].
  intros [Hall Hs] Hin. simpl. apply elem_of_cons in Hin as [[= -> ->]|Hin].
  - by rewrite key_eqb_refl.
  - rewrite key_eqb_ne; [by apply IH|]. intros ->.
    rewrite Forall_forall in Hall. specialize (Hall _ Hin). simpl in Hall.
    by rewrite key_ltb_irrefl in Hall.
Qed.

(** *** emplace *)
Lemma om_emplace_Forall (P : K * V -> Prop) k v m :
  P (k, v) -> Forall P m -> Forall P (om_emplace k v m).
Proof.
  intros Hp. induction 1 as [|[k' v'] m Hk Hm IH]; simpl; [by repeat constructor|].
  destruct (key_ltb k k'); [by repeat constructor|].
  destruct (key_ltb k' k); by constructor.
Qed.

Lemma om_emplace_sorted k v m : om_sorted m -> om_sorted (om_emplace k v m).
Proof.
  induction m as [|[k' v'] m IH]; simpl; [done|]. intros [Hall Hs].
  destruct (key_ltb k k') eqn:E1; simpl.
  - split; [|done]. constructor; [done|]. eapply Forall_impl; [exact Hall|].
    intros [k2 v2] Hk2. simpl in *. by eapply key_ltb_trans.
  - destruct (key_ltb k' k) eqn:E2; simpl; [|done].
    split; [|by apply IH]. by apply om_emplace_Forall.
Qed.

Lemma om_find_emplace_eq k v m :
  om_sorted m -> om_find k (om_emplace k v m) = Some (default v (om_find k m)).
Proof.
  induction m as [|[k' v'] m IH]; intros Hs.
  { simpl. by rewrite key_eqb_refl. }
  cbn [om_emplace]. destruct (key_ltb k k') eqn:E1.
  - rewrite (om_find_head_lt k k') by done. simpl. by rewrite key_eqb_refl.
  - destruct (key_ltb k' k) eqn:E2; simpl.
    + rewrite key_eqb_ne by (intros ->; by rewrite key_ltb_irrefl in E2).
      apply IH. apply Hs.
    + assert (k = k') as -> by by apply key_ltb_total. by rewrite key_eqb_refl.
Qed.

Lemma om_find_emplace_ne k k2 v m :
  k2 <> k -> om_find k2 (om_emplace k v m) = om_find k2 m.
Proof.
  intros Hne. induction m as [|[k' v'] m IH]; simpl.
  { by rewrite key_eqb_ne. }
  destruct (key_ltb k k'); simpl; [by rewrite (key_eqb_ne k2 k)|].
  destruct (key_ltb k' k); simpl; [by rewrite IH|done].
Qed.

Lemma om_emplace_id k v v' m :
  om_sorted m -> om_find k m = Some v' -> om_emplace k v m = m.
Proof.
  induction m as [|[k2 v2] m IH]; intros Hs Hf; [done|].
  cbn [om_emplace]. destruct (key_ltb k k2) eqn:E1.
  { by rewrite om_find_head_lt in Hf. }
  destruct (key_ltb k2 k) eqn:E2; [|done]. f_equal. apply IH; [apply Hs|].
  simpl in Hf. rewrite key_eqb_ne in Hf; [done|]. intros ->. by rewrite key_ltb_irrefl in E2.
Qed.

(** Appending a key after all the others. *)
Lemma om_emplace_last k v m :
  Forall (fun kv => key_ltb kv.1 k = true) m -> om_emplace k v m = m ++ [(k, v)].
Proof.
  induction 1 as [|[k' v'] m Hk _ IH]; simpl in *; [done|].
  rewrite (key_ltb_asym _ _ Hk), Hk. by rewrite IH.
Qed.

(** *** alter *)
Lemma om_alter_keys k f m : om_keys (om_alter k f m) = om_keys m.
Proof.
  unfold om_keys. induction m as [|[k' v] m IH]; [done|]. cbn [om_alter].
  destruct (key_eqb k k'); [done|]. rewrite !fmap_cons, IH. done.
Qed.

Lemma om_alter_Forall_key (P : K -> Prop) k f m :
  Forall (fun kv => P kv.1) m -> Forall (fun kv => P kv.1) (om_alter k f m).
Proof.
  induction 1 as [|[k' v] m Hk Hm IH]; simpl; [done|].
  destruct (key_eqb k k'); by constructor.
Qed.

Lemma om_alter_sorted k f m : om_sorted m -> om_sorted (om_alter k f m).
Proof.
  induction m as [|[k' v] m IH]; simpl; [done|]. intros [Hall Hs].
  destruct (key_eqb k k'); simpl; [done|].
  split; [|by apply IH]. by apply (om_alter_Forall_key (fun x => key_ltb k' x = true)).
Qed.

Lemma om_find_alter_eq k f m : om_find k (om_alter k f m) = f <$> om_find k m.
Proof.
  induction m as [|[k' v] m IH]; simpl; [done|].
  destruct (key_eqb k k') eqn:E; simpl; rewrite E; [done|apply IH].
Qed.

Lemma om_find_alter_ne k k2 f m : k2 <> k -> om_find k2 (om_alter k f m) = om_find k2 m.
Proof.
  intros Hne. induction m as [|[k' v] m IH]; simpl; [done|].
  destruct (key_eqb k k') eqn:E; simpl.
  - apply key_eqb_spec in E as <-. by rewrite key_eqb_ne.
  - by rewrite IH.
Qed.

Lemma om_alter_app k f m1 m2 :
  Forall (fun kv => kv.1 <> k) m1 -> om_alter k f (m1 ++ m2) = m1 ++ om_alter k f m2.
Proof.
  induction 1 as [|[k' v] m Hk _ IH]; simpl in *; [done|].
  rewrite key_eqb_ne by done. by rewrite IH.
Qed.

Lemma om_alter_compose k f g m : om_alter k f (om_alter k g m) = om_alter k (fun v => f (g v)) m.
Proof.
  induction m as [|[k' v] m IH]; simpl; [done|].
  destruct (key_eqb k k') eqn:E; simpl; rewrite E; [done|by rewrite IH].
Qed.

(** *** erase *)
Lemma om_find_emplace_new k v m : om_find k m = None -> om_find k (om_emplace k v m) = Some v.
Proof.
  induction m as [|[k' x] m IH]; simpl; [by rewrite key_eqb_refl|].
  destruct (key_eqb k k') eqn:E; [done|]. intros Hm. destruct (key_ltb k k') eqn:E1; simpl; [by rewrite key_eqb_refl|].
  destruct (key_ltb k' k) eqn:E2; simpl; [by rewrite E, IH|]. unfold key_eqb in E. by rewrite E1, E2 in E.
Qed.

(** Storing into a node just made. *)
Lemma om_alter_emplace k v w m : om_find k m = None -> om_alter k (fun _ => w) (om_emplace k v m) = om_emplace k w m.
Proof.
  induction m as [|[k' x] m IH]; simpl; [by rewrite key_eqb_refl|].
  destruct (key_eqb k k') eqn:E; [done|]. intros Hm. destruct (key_ltb k k') eqn:E1; simpl; [by rewrite key_eqb_refl|].
  destruct (key_ltb k' k) eqn:E2; simpl; [by rewrite E, IH|].
  unfold key_eqb in E. by rewrite E1, E2 in E.
Qed.

Lemma om_erase_Forall (P : K * V -> Prop) k m : Forall P m -> Forall P (om_erase k m).
Proof.
  induction 1 as [|[k' v'] m Hk Hm IH]; simpl; [done|].
  destruct (key_eqb k k'); [done|]. by constructor.
Qed.

Lemma om_erase_sorted k m : om_sorted m -> om_sorted (om_erase k m).
Proof.
  induction m as [|[k' v] m IH]; simpl; [done|]. intros [Hall Hs].
  destruct (key_eqb k k'); simpl; [done|].
  split; [by apply om_erase_Forall|by apply IH].
Qed.

Lemma om_find_erase_eq k m : om_sorted m -> om_find k (om_erase k m) = None.
Proof.
  induction m as [|[k' v] m IH]; simpl; [done|]. intros [Hall Hs].
  destruct (key_eqb k k') eqn:E; simpl.
  - apply key_eqb_spec in E as ->. by apply om_find_below.
  - rewrite E. by apply IH.
Qed.

Lemma om_find_erase_ne k k2 m : k2 <> k -> om_find k2 (om_erase k m) = om_find k2 m.
Proof.
  intros Hne. induction m as [|[k' v] m IH]; simpl; [done|].
  destruct (key_eqb k k') eqn:E; simpl.
  - apply key_eqb_spec in E as <-. by rewrite key_eqb_ne.
  - by rewrite IH.
Qed.

Lemma om_erase_notin k m : om_find k m = None -> om_erase k m = m.
Proof.
  induction m as [|[k' v] m IH]; simpl; [done|].
  destruct (key_eqb k k'); [done|]. intros Hf. by rewrite IH.
Qed.

(** *** extensionality *)
Lemma om_ext m1 m2 :
  om_sorted m1 -> om_sorted m2 -> (forall k, om_find k m1 = om_find k m2) -> m1 = m2.
Proof.
  revert m2. induction m1 as [|[k1 v1] m1 IH]; intros [|[k2 v2] m2] Hs1 Hs2 Hf.
  - done.
  - specialize (Hf k2). simpl in Hf. by rewrite key_eqb_refl in Hf.
  - specialize (Hf k1). simpl in Hf. by rewrite key_eqb_refl in Hf.
  - assert (key_ltb k1 k2 = false) as E12.
    { destruct (key_ltb k1 k2) eqn:E; [|done]. specialize (Hf k1).
      rewrite (om_find_head_lt k1 k2) in Hf by done. simpl in Hf. by rewrite key_eqb_refl in Hf. }
    assert (key_ltb k2 k1 = false) as E21.
    { destruct (key_ltb k2 k1) eqn:E; [|done]. specialize (Hf k2).
      rewrite (om_find_head_lt k2 k1) in Hf by done. simpl in Hf. by rewrite key_eqb_refl in Hf. }
    assert (k1 = k2) as -> by by apply key_ltb_total.
    pose proof (Hf k2) as Hk. simpl in Hk. rewrite key_eqb_refl in Hk. injection Hk as ->.
    f_equal. destruct Hs1 as [Ha1 Hs1], Hs2 as [Ha2 Hs2]. apply IH; [done..|].
    intros k. specialize (Hf k). simpl in Hf.
    destruct (key_eqb k k2) eqn:E; [|done].
    apply key_eqb_spec in E as ->. by rewrite !om_find_below.
Qed.

Lemma om_sorted_NoDup m : om_sorted m -> NoDup (om_keys m).
Proof.
  unfold om_keys. induction m as [|[k v] m IH]; simpl; [constructor|].
  intros [Hall Hs]. constructor; [|by apply IH].
  intros [[k' v'] [Hk Hin]]%list_elem_of_fmap. simpl in Hk. subst k'.
  rewrite Forall_forall in Hall. specialize (Hall _ Hin). simpl in Hall.
  by rewrite key_ltb_irrefl in Hall.
Qed.

Lemma om_sorted_app m1 m2 :
  om_sorted (m1 ++ m2) <->
  om_sorted m1 /\ om_sorted m2 /\
  Forall (fun kv1 => Forall (fun kv2 => key_ltb kv1.1 kv2.1 = true) m2) m1.
Proof.
  induction m1 as [|[k v] m1 IH]; simpl.
  { split; [by intros|by intros (_ & ? & _)]. }
  rewrite IH, Forall_app, Forall_cons. simpl. tauto.
Qed.
End laws.

#[export] Hint Resolve om_emplace_sorted om_alter_sorted om_erase_sorted : esp.
#[export] Hint Rewrite @om_alter_keys : esp_rw.
