(* ===== verification/JsonText.v ===== *)
(** * Text primitives of jsoncpp: [json_tool.h] and the top of [json_writer.cpp]

    UTF-8 encoding of code points, decimal text of integers and doubles, and
    the quoting of strings. *)
From S2P Require Export CLib.
Open Scope Z_scope.

(** ** json_tool.h *)

Definition codePointToUTF8 (cp : Z) : bytes :=
  if cp <=? 0x7f then [u8 cp]
  else if cp <=? 0x7FF then
    [Z.lor 0xC0 (Z.land 0x1f (Z.shiftr cp 6)); Z.lor 0x80 (Z.land 0x3f cp)]
  else if cp <=? 0xFFFF then
    [Z.lor 0xE0 (Z.land 0xf (Z.shiftr cp 12)); Z.lor 0x80 (Z.land 0x3f (Z.shiftr cp 6));
     Z.lor 0x80 (Z.land 0x3f cp)]
  else if cp <=? 0x10FFFF then
    [Z.lor 0xF0 (Z.land 0x7 (Z.shiftr cp 18)); Z.lor 0x80 (Z.land 0x3f (Z.shiftr cp 12));
     Z.lor 0x80 (Z.land 0x3f (Z.shiftr cp 6)); Z.lor 0x80 (Z.land 0x3f cp)]
  else [].

(** [3 * sizeof(LargestUInt) + 1]. *)
Definition uintToStringBufferSize : nat := 3 * 8 + 1.

(** The buffer is filled backwards: the bytes still free before [current], and
    the text from [current] to the end.  A push with no byte left would write
    before the buffer. *)
Definition UIntToStringBuffer : Type := (nat * bytes)%type.

Definition fresh_buffer : UIntToStringBuffer := (uintToStringBufferSize, []).

Definition buffer_push (c : Z) (b : UIntToStringBuffer) : outcome UIntToStringBuffer :=
  match b with
  | (S room, s) => Ret (room, c :: s)
  | (O, _) => Undef "uintToString: write before the buffer"
  end.

(** The [do ... while (value != 0)] loop; every turn takes one byte. *)
Fixpoint uintToString_digits (room : nat) (value : Z) (s : bytes) : outcome UIntToStringBuffer :=
  match room with
  | O => Undef "uintToString: write before the buffer"
  | S room' => let s' := (value mod 10 + CH "0") :: s in
               if value / 10 =? 0 then Ret (room', s')
               else uintToString_digits room' (value / 10) s'
  end.

Definition uintToString (value : Z) (b : UIntToStringBuffer) : outcome UIntToStringBuffer :=
  '(room, s) ← buffer_push 0 b; uintToString_digits room value s.

(** [*begin == ',' ? '.' : *begin], everywhere. *)
Definition fixNumericLocale (s : bytes) : bytes :=
  map (fun c => if c =? CH "," then CH "." else c) s.

(** [fixNumericLocaleInput], with the decimal point of the locale; nothing calls it. *)
Definition fixNumericLocaleInput (decimalPoint : Z) (s : bytes) : bytes :=
  if (decimalPoint =? 0) || (decimalPoint =? CH ".") then s
  else map (fun c => if c =? CH "." then decimalPoint else c) s.

(** Scans from the end; [r] is the text reversed. *)
Fixpoint fixZeros_rev (precision : Z) (r : bytes) : bytes :=
  match r with
  | [] => []
  | c :: r' =>
      if negb (c =? CH "0") then r
      else match r' with
           | d :: (_ :: _) as r'' =>
               if d =? CH "." then (if precision =? 0 then drop 2 r else r)
               else fixZeros_rev precision r'
           | _ => fixZeros_rev precision r'
           end
  end.

Definition fixZerosInTheEnd (precision : Z) (s : bytes) : bytes :=
  reverse (fixZeros_rev precision (reverse s)).

(** ** json_writer.cpp: text of the scalar values *)

Definition minLargestInt : Z := - 2 ^ 63.
Definition maxLargestInt : Z := 2 ^ 63 - 1.
Definition maxLargestUInt : Z := 2 ^ 64 - 1.
Definition minInt : Z := - 2 ^ 31.
Definition maxInt : Z := 2 ^ 31 - 1.
Definition maxUInt : Z := 2 ^ 32 - 1.

(** [valueToString(LargestInt)]. *)
Definition valueToString_Int (value : Z) : outcome bytes :=
  b ← (if value =? minLargestInt then
         b ← uintToString (maxLargestInt + 1) fresh_buffer; buffer_push (CH "-") b
       else if value <? 0 then
         b ← uintToString (- value) fresh_buffer; buffer_push (CH "-") b
       else uintToString value fresh_buffer);
  Ret (c_str b.2).

(** [valueToString(LargestUInt)]. *)
Definition valueToString_UInt (value : Z) : outcome bytes :=
  b ← uintToString value fresh_buffer; Ret (c_str b.2).

Inductive PrecisionType := significantDigits | decimalPlaces.

(** [valueToString(double, useSpecialFloats, precision, precisionType)].  The
    loop around [snprintf] only grows the buffer until the text fits. *)
Definition valueToString_double (value : float64) (useSpecialFloats : bool)
    (precision : Z) (precisionType : PrecisionType) : bytes :=
  if negb (sf_isfinite value) then
    if useSpecialFloats then
      if sf_isnan value then STR "NaN"
      else if sf_sign value then STR "-Infinity" else STR "Infinity"
    else
      if sf_isnan value then STR "null"
      else if sf_sign value then STR "-1e+9999" else STR "1e+9999"
  else
    let buffer := match precisionType with
                  | significantDigits => fmt_g (Z.to_nat (Z.max 1 precision)) value
                  | decimalPlaces => fmt_f (Z.to_nat precision) value
                  end in
    let buffer := fixNumericLocale buffer in
    let buffer :=
      if negb (existsb (Z.eqb (CH ".")) buffer) && negb (existsb (Z.eqb (CH "e")) buffer)
      then buffer ++ STR ".0" else buffer in
    match precisionType with
    | decimalPlaces => fixZerosInTheEnd precision buffer
    | significantDigits => buffer
    end.

Definition defaultRealPrecision : Z := 17.

(** [valueToString(double)] with the default arguments. *)
Definition valueToString_real (value : float64) : bytes :=
  valueToString_double value false defaultRealPrecision significantDigits.

(** [valueToString(Int)] and [valueToString(UInt)]: the conversion to 64 bits keeps the value. *)
Definition valueToString_Int32 (value : Z) : outcome bytes := valueToString_Int value.
Definition valueToString_UInt32 (value : Z) : outcome bytes := valueToString_UInt value.

Definition valueToString_bool (value : bool) : bytes :=
  if value then STR "true" else STR "false".

(** ** json_writer.cpp: quoted strings *)

Definition char_requires_escaping (c : Z) : bool :=
  (c =? CH "\") || (c =? dquote) || (c <? 0x20) || (0x7F <? c).

Definition doesAnyCharRequireEscaping (s : bytes) : bool := existsb char_requires_escaping s.

Definition REPLACEMENT_CHARACTER : Z := 0xFFFD.

(** [utf8ToCodepoint(s, e)] on the bytes from [s] to [e]: the code point and by
    how much [s] was moved. *)
Definition utf8ToCodepoint (s : bytes) : Z * nat :=
  let at_ i := nth i s 0 in
  let firstByte := at_ 0%nat in
  if firstByte <? 0x80 then (firstByte, 0%nat)
  else if firstByte <? 0xE0 then
    if (length s <? 2)%nat then (REPLACEMENT_CHARACTER, 0%nat)
    else
      let calculated := Z.lor (Z.shiftl (Z.land firstByte 0x1F) 6) (Z.land (at_ 1%nat) 0x3F) in
      (if calculated <? 0x80 then REPLACEMENT_CHARACTER else calculated, 1%nat)
  else if firstByte <? 0xF0 then
    if (length s <? 3)%nat then (REPLACEMENT_CHARACTER, 0%nat)
    else
      let calculated := Z.lor (Z.lor (Z.shiftl (Z.land firstByte 0x0F) 12)
                                     (Z.shiftl (Z.land (at_ 1%nat) 0x3F) 6))
                              (Z.land (at_ 2%nat) 0x3F) in
      (if (0xD800 <=? calculated) && (calculated <=? 0xDFFF) then REPLACEMENT_CHARACTER
       else if calculated <? 0x800 then REPLACEMENT_CHARACTER else calculated, 2%nat)
  else if firstByte <? 0xF8 then
    if (length s <? 4)%nat then (REPLACEMENT_CHARACTER, 0%nat)
    else
      let calculated := Z.lor (Z.lor (Z.lor (Z.shiftl (Z.land firstByte 0x07) 18)
                                            (Z.shiftl (Z.land (at_ 1%nat) 0x3F) 12))
                                     (Z.shiftl (Z.land (at_ 2%nat) 0x3F) 6))
                              (Z.land (at_ 3%nat) 0x3F) in
      (if calculated <? 0x10000 then REPLACEMENT_CHARACTER else calculated, 3%nat)
  else (REPLACEMENT_CHARACTER, 0%nat).

Definition hex2 : bytes :=
  STR "000102030405060708090a0b0c0d0e0f" ++ STR "101112131415161718191a1b1c1d1e1f" ++
  STR "202122232425262728292a2b2c2d2e2f" ++ STR "303132333435363738393a3b3c3d3e3f" ++
  STR "404142434445464748494a4b4c4d4e4f" ++ STR "505152535455565758595a5b5c5d5e5f" ++
  STR "606162636465666768696a6b6c6d6e6f" ++ STR "707172737475767778797a7b7c7d7e7f" ++
  STR "808182838485868788898a8b8c8d8e8f" ++ STR "909192939495969798999a9b9c9d9e9f" ++
  STR "a0a1a2a3a4a5a6a7a8a9aaabacadaeaf" ++ STR "b0b1b2b3b4b5b6b7b8b9babbbcbdbebf" ++
  STR "c0c1c2c3c4c5c6c7c8c9cacbcccdcecf" ++ STR "d0d1d2d3d4d5d6d7d8d9dadbdcdddedf" ++
  STR "e0e1e2e3e4e5e6e7e8e9eaebecedeeef" ++ STR "f0f1f2f3f4f5f6f7f8f9fafbfcfdfeff".

Definition toHex16Bit (x : Z) : bytes :=
  let hi := Z.land (Z.shiftr x 8) 0xff in
  let lo := Z.land x 0xff in
  let at_ i := nth (Z.to_nat i) hex2 0 in
  [at_ (2 * hi); at_ (2 * hi + 1); at_ (2 * lo); at_ (2 * lo + 1)].

Definition appendRaw (result : bytes) (ch : Z) : bytes := result ++ [u8 ch].
Definition appendHex (result : bytes) (ch : Z) : bytes := result ++ STR "\u" ++ toHex16Bit ch.

(** The [default] branch of the loop for a decoded code point. *)
Definition appendCodepoint (result : bytes) (codepoint : Z) : bytes :=
  if codepoint <? 0x20 then appendHex result codepoint
  else if codepoint <? 0x80 then appendRaw result codepoint
  else if codepoint <? 0x10000 then appendHex result codepoint
  else
    let codepoint := codepoint - 0x10000 in
    let result := appendHex result (0xd800 + Z.land (Z.shiftr codepoint 10) 0x3ff) in
    appendHex result (0xdc00 + Z.land codepoint 0x3ff).

(** The loop [for (c = value; c != end; ++c)]; [skip] counts the bytes
    [utf8ToCodepoint] has already moved over. *)
Fixpoint quote_loop (emitUTF8 : bool) (skip : nat) (s : bytes) (result : bytes) : bytes :=
  match s with
  | [] => result
  | c :: s' =>
      match skip with
      | S skip' => quote_loop emitUTF8 skip' s' result
      | O =>
          if c =? dquote then quote_loop emitUTF8 0 s' (result ++ [CH "\"; dquote])
          else if c =? CH "\" then quote_loop emitUTF8 0 s' (result ++ STR "\\")
          else if c =? 8 then quote_loop emitUTF8 0 s' (result ++ STR "\b")
          else if c =? 12 then quote_loop emitUTF8 0 s' (result ++ STR "\f")
          else if c =? 10 then quote_loop emitUTF8 0 s' (result ++ STR "\n")
          else if c =? 13 then quote_loop emitUTF8 0 s' (result ++ STR "\r")
          else if c =? 9 then quote_loop emitUTF8 0 s' (result ++ STR "\t")
          else if emitUTF8 then
            quote_loop emitUTF8 0 s'
              (if c <? 0x20 then appendHex result c else appendRaw result c)
          else
            let '(codepoint, moved) := utf8ToCodepoint s in
            quote_loop emitUTF8 moved s' (appendCodepoint result codepoint)
      end
  end.

Definition valueToQuotedStringN (value : bytes) (emitUTF8 : bool) : bytes :=
  if negb (doesAnyCharRequireEscaping value) then [dquote] ++ c_str value ++ [dquote]
  else quote_loop emitUTF8 0 value [dquote] ++ [dquote].

(** [valueToQuotedString] of a C string: the length is [strlen(value)]. *)
Definition valueToQuotedString (value : bytes) : bytes :=
  valueToQuotedStringN (c_str value) false.

(** ** Lemmas: decimal text *)

Lemma uintToString_digits_dec extra fuel room value acc :
  0 <= value < 10 ^ Z.of_nat room -> value < 2 ^ Z.of_nat fuel -> room <> O -> fuel <> O ->
  exists room', uintToString_digits (room + extra) value acc =
                Ret ((room' + extra)%nat, dec_aux fuel value acc).
Proof.
  revert fuel value acc. induction room as [|room IH]; intros [|fuel] value acc Hv Hf Hr Hn;
    [done..|]. cbn [uintToString_digits dec_aux Nat.add]. rewrite (Z.add_comm (value mod 10)).
  destruct (value / 10 =? 0) eqn:E; [by eexists|]. bool_to_prop.
  assert (0 < value / 10) by (pose proof (Z.div_pos value 10); lia).
  rewrite Nat2Z.inj_succ, Z.pow_succ_r in Hv, Hf by lia.
  apply IH.
  - split; [lia|]. apply Z.div_lt_upper_bound; lia.
  - apply Z.div_lt_upper_bound; lia.
  - intros ->. change (10 ^ Z.of_nat 0) with 1 in Hv. rewrite Z.div_small in E; lia.
  - intros ->. change (2 ^ Z.of_nat 0) with 1 in Hf. rewrite Z.div_small in E; lia.
Qed.

Lemma dec_aux_acc fuel value acc : dec_aux fuel value acc = dec_aux fuel value [] ++ acc.
Proof.
  revert value acc. induction fuel as [|fuel IH]; intros value acc; [done|].
  cbn [dec_aux]. destruct (_ =? 0); [done|]. rewrite (IH _ (_ :: _)), (IH _ [_]), <- app_assoc. done.
Qed.

(** Twenty digits, the NUL and the sign fit the buffer of 25 bytes. *)
Lemma uintToString_u64 value :
  in_u 64 value ->
  exists room, uintToString value fresh_buffer = Ret (S room, dec_digits value ++ [0]).
Proof.
  intros Hv. unfold in_u in Hv.
  destruct (uintToString_digits_dec 1 (S (Z.to_nat (Z.log2 value))) 23 value [0]) as [room Hr].
  - lia.
  - rewrite Nat2Z.inj_succ, Z2Nat.id by apply Z.log2_nonneg.
    destruct (decide (value = 0)) as [->|]; [done|]. apply Z.log2_spec. lia.
  - done.
  - done.
  - exists room. unfold uintToString, fresh_buffer, uintToStringBufferSize.
    cbn [buffer_push mbind outcome_bind Nat.mul Nat.add].
    change 24%nat with (23 + 1)%nat. rewrite Hr, dec_aux_acc.
    rewrite Nat.add_comm. done.
Qed.

Lemma dec_digits_no_nul value : 0 <= value -> 0 ∉ dec_digits value.
Proof.
  intros Hv. destruct (dec_digits_spec value Hv) as (_ & Hd & _).
  rewrite Forall_forall in Hd. intros Hin. by specialize (Hd _ Hin).
Qed.

Lemma c_str_app_nul s : 0 ∉ s -> c_str (s ++ [0]) = s.
Proof.
  induction s as [|c s IH]; [done|]. intros [Hc Hs]%not_elem_of_cons. simpl.
  rewrite IH by done. destruct (c =? 0) eqn:E; bool_to_prop; congruence.
Qed.

Lemma valueToString_UInt_dec value :
  in_u 64 value -> valueToString_UInt value = Ret (dec_digits value).
Proof.
  intros Hv. unfold valueToString_UInt. destruct (uintToString_u64 value Hv) as [room ->].
  simpl. rewrite c_str_app_nul; [done|]. apply dec_digits_no_nul. apply Hv.
Qed.

Lemma valueToString_Int_dec value :
  in_s 64 value -> valueToString_Int value = Ret (dec_signed value).
Proof.
  intros Hv. unfold in_s in Hv. unfold valueToString_Int, dec_signed, minLargestInt.
  destruct (value =? - 2 ^ 63) eqn:E1; bool_to_prop.
  - subst value. done.
  - destruct (value <? 0) eqn:E2; bool_to_prop.
    + destruct (uintToString_u64 (- value)) as [room ->]; [unfold in_u; lia|]. simpl.
      rewrite c_str_app_nul; [done|]. apply dec_digits_no_nul. lia.
    + destruct (uintToString_u64 value) as [room ->]; [unfold in_u; lia|]. simpl.
      rewrite c_str_app_nul; [done|]. apply dec_digits_no_nul. lia.
Qed.

(** ** Lemmas: UTF-8 *)

(** The code points UTF-8 can carry: all but the surrogates. *)
Definition scalar (cp : Z) : Prop := 0 <= cp < 0xD800 \/ 0xE000 <= cp <= 0x10FFFF.

Definition utf8_encode (cps : list Z) : bytes := cps ≫= codePointToUTF8.

Lemma lor_80 y : 0 <= y < 64 -> Z.lor 0x80 y = 128 + y.
Proof. by apply (lor_disjoint 6). Qed.
Lemma lor_c0 y : 0 <= y < 32 -> Z.lor 0xC0 y = 192 + y.
Proof. by apply (lor_disjoint 5). Qed.
Lemma lor_e0 y : 0 <= y < 16 -> Z.lor 0xE0 y = 224 + y.
Proof. by apply (lor_disjoint 4). Qed.
Lemma lor_f0 y : 0 <= y < 8 -> Z.lor 0xF0 y = 240 + y.
Proof. by apply (lor_disjoint 3). Qed.

(** Linear arithmetic with division and remainder by constants. *)
Ltac zdiv_lia :=
  change (2 ^ 3) with 8 in *; change (2 ^ 4) with 16 in *; change (2 ^ 5) with 32 in *;
  change (2 ^ 6) with 64 in *; change (2 ^ 8) with 256 in *; change (2 ^ 10) with 1024 in *;
  change (2 ^ 12) with 4096 in *; change (2 ^ 18) with 262144 in *;
  Z.to_euclidean_division_equations; lia.

(** The encoder as arithmetic. *)
Lemma codePointToUTF8_arith cp :
  0 <= cp <= 0x10FFFF ->
  codePointToUTF8 cp =
    if cp <=? 0x7f then [cp]
    else if cp <=? 0x7FF then [192 + cp / 64; 128 + cp mod 64]
    else if cp <=? 0xFFFF then [224 + cp / 4096; 128 + cp / 64 mod 64; 128 + cp mod 64]
    else [240 + cp / 262144; 128 + cp / 4096 mod 64; 128 + cp / 64 mod 64; 128 + cp mod 64].
Proof.
  intros Hcp. unfold codePointToUTF8.
  destruct (cp <=? 0x7f) eqn:E1; bool_to_prop.
  { unfold u8. rewrite Z.mod_small by lia. done. }
  masks_to_mod.
  destruct (cp <=? 0x7FF) eqn:E2; [|destruct (cp <=? 0xFFFF) eqn:E3]; bool_to_prop;
    [..|rewrite (proj2 (Z.leb_le cp 0x10FFFF)) by lia];
    rewrite ?lor_80, ?lor_c0, ?lor_e0, ?lor_f0 by zdiv_lia;
    repeat (apply (f_equal2 cons); [zdiv_lia|]); done.
Qed.

Lemma utf8ToCodepoint_encode cp tl :
  scalar cp ->
  utf8ToCodepoint (codePointToUTF8 cp ++ tl) = (cp, pred (length (codePointToUTF8 cp))).
Proof.
  unfold scalar. intros Hcp. rewrite codePointToUTF8_arith by lia.
  destruct (cp <=? 0x7f) eqn:E1; [|destruct (cp <=? 0x7FF) eqn:E2;
    [|destruct (cp <=? 0xFFFF) eqn:E3]]; bool_to_prop;
    unfold utf8ToCodepoint; cbn [nth app length Nat.ltb Nat.leb pred];
    masks_to_mod.
  - zbool. done.
  - replace (192 + cp / 64 <? 128) with false by (symmetry; apply Z.ltb_ge; zdiv_lia).
    replace (192 + cp / 64 <? 224) with true by (symmetry; apply Z.ltb_lt; zdiv_lia).
    replace ((192 + cp / 64) mod 2 ^ 5) with (cp / 64) by zdiv_lia.
    replace ((128 + cp mod 64) mod 2 ^ 6) with (cp mod 64) by zdiv_lia.
    rewrite lor_shiftl by zdiv_lia. replace (cp / 64 * 2 ^ 6 + cp mod 64) with cp by zdiv_lia.
    zbool. done.
  - replace (224 + cp / 4096 <? 128) with false by (symmetry; apply Z.ltb_ge; zdiv_lia).
    replace (224 + cp / 4096 <? 224) with false by (symmetry; apply Z.ltb_ge; zdiv_lia).
    replace (224 + cp / 4096 <? 240) with true by (symmetry; apply Z.ltb_lt; zdiv_lia).
    replace ((224 + cp / 4096) mod 2 ^ 4) with (cp / 4096) by zdiv_lia.
    replace ((128 + cp / 64 mod 64) mod 2 ^ 6) with (cp / 64 mod 64) by zdiv_lia.
    replace ((128 + cp mod 64) mod 2 ^ 6) with (cp mod 64) by zdiv_lia.
    rewrite (lor_shiftl 12), (Z.shiftl_mul_pow2 _ 6) by (rewrite ?Z.shiftl_mul_pow2 by lia; zdiv_lia).
    rewrite (lor_disjoint 6) by zdiv_lia.
    replace (cp / 4096 * 2 ^ 12 + cp / 64 mod 64 * 2 ^ 6 + cp mod 64) with cp by zdiv_lia.
    replace ((0xD800 <=? cp) && (cp <=? 0xDFFF)) with false
      by (symmetry; apply andb_false_iff; rewrite !Z.leb_gt; lia).
    zbool. done.
  - replace (240 + cp / 262144 <? 128) with false by (symmetry; apply Z.ltb_ge; zdiv_lia).
    replace (240 + cp / 262144 <? 224) with false by (symmetry; apply Z.ltb_ge; zdiv_lia).
    replace (240 + cp / 262144 <? 240) with false by (symmetry; apply Z.ltb_ge; zdiv_lia).
    replace (240 + cp / 262144 <? 248) with true by (symmetry; apply Z.ltb_lt; zdiv_lia).
    replace ((240 + cp / 262144) mod 2 ^ 3) with (cp / 262144) by zdiv_lia.
    replace ((128 + cp / 4096 mod 64) mod 2 ^ 6) with (cp / 4096 mod 64) by zdiv_lia.
    replace ((128 + cp / 64 mod 64) mod 2 ^ 6) with (cp / 64 mod 64) by zdiv_lia.
    replace ((128 + cp mod 64) mod 2 ^ 6) with (cp mod 64) by zdiv_lia.
    rewrite (lor_shiftl 18), !(Z.shiftl_mul_pow2 _ 12), (Z.shiftl_mul_pow2 _ 6)
      by (rewrite ?Z.shiftl_mul_pow2 by lia; zdiv_lia).
    rewrite (lor_disjoint 12 (_ * _ + _ * _) (_ * _)) by zdiv_lia.
    rewrite (lor_disjoint 6 (_ + _) (_ mod _)) by zdiv_lia.
    replace (cp / 262144 * 2 ^ 18 + cp / 4096 mod 64 * 2 ^ 12 + cp / 64 mod 64 * 2 ^ 6 + cp mod 64)
      with cp by zdiv_lia.
    zbool. done.
Qed.

(** ** Lemmas: quoting *)

(** The escaped form of one code point. *)
Definition quote_cp (cp : Z) : bytes :=
  if cp =? dquote then [CH "\"; dquote]
  else if cp =? CH "\" then STR "\\"
  else if cp =? 8 then STR "\b"
  else if cp =? 12 then STR "\f"
  else if cp =? 10 then STR "\n"
  else if cp =? 13 then STR "\r"
  else if cp =? 9 then STR "\t"
  else appendCodepoint [] cp.

Lemma appendCodepoint_acc result cp : appendCodepoint result cp = result ++ appendCodepoint [] cp.
Proof.
  unfold appendCodepoint, appendHex, appendRaw. repeat destruct (_ <? _); rewrite <- ?app_assoc; done.
Qed.

Lemma quote_loop_skip l tl r : quote_loop false (length l) (l ++ tl) r = quote_loop false 0 tl r.
Proof. induction l as [|c l IH]; [done|apply IH]. Qed.

Lemma utf8_multibyte cp :
  0x80 <= cp <= 0x10FFFF ->
  exists c l, codePointToUTF8 cp = c :: l /\ 0xC0 <= c < 256 /\ Forall (fun b => 0x80 <= b < 0xC0) l.
Proof.
  intros Hcp. rewrite codePointToUTF8_arith by lia.
  replace (cp <=? 0x7f) with false by (symmetry; apply Z.leb_gt; lia).
  destruct (cp <=? 0x7FF) eqn:E2; [|destruct (cp <=? 0xFFFF) eqn:E3]; bool_to_prop;
    do 2 eexists; split_and!; try done; repeat apply Forall_cons_2; try done; zdiv_lia.
Qed.

Lemma quote_loop_cp cp tl r :
  scalar cp ->
  quote_loop false 0 (codePointToUTF8 cp ++ tl) r = quote_loop false 0 tl (r ++ quote_cp cp).
Proof.
  intros Hcp. unfold quote_cp. destruct (decide (cp <= 0x7f)) as [Hs|Hs].
  - assert (He : codePointToUTF8 cp = [cp]).
    { rewrite codePointToUTF8_arith by (unfold scalar in *; lia). zbool. done. }
    pose proof (utf8ToCodepoint_encode cp tl Hcp) as Hd. rewrite He in *. cbn [app quote_loop].
    repeat (destruct (cp =? _); [done|]).
    rewrite <- (app_nil_l tl) in Hd at 1. cbn [app] in Hd. rewrite Hd.
    rewrite appendCodepoint_acc. done.
  - destruct (utf8_multibyte cp) as (c & l & He & Hc & _); [unfold scalar in *; lia|].
    pose proof (utf8ToCodepoint_encode cp tl Hcp) as Hd. rewrite He in *.
    cbn [app quote_loop length pred] in *. unfold dquote. zbool. rewrite Hd.
    rewrite quote_loop_skip. rewrite appendCodepoint_acc. done.
Qed.

Lemma quote_loop_utf8 cps r :
  Forall scalar cps -> quote_loop false 0 (utf8_encode cps) r = r ++ (cps ≫= quote_cp).
Proof.
  intros H. revert r. induction H as [|cp cps Hcp _ IH]; intros r.
  { by rewrite app_nil_r. }
  unfold utf8_encode in *. cbn [mbind list_bind]. rewrite quote_loop_cp, IH, <- app_assoc by done. done.
Qed.

Lemma plain_utf8 cps :
  Forall scalar cps -> doesAnyCharRequireEscaping (utf8_encode cps) = false ->
  utf8_encode cps = (cps ≫= quote_cp) /\ 0 ∉ utf8_encode cps.
Proof.
  unfold doesAnyCharRequireEscaping, utf8_encode.
  induction 1 as [|cp cps Hcp _ IH]; cbn [mbind list_bind].
  { split; [done|apply not_elem_of_nil]. }
  rewrite existsb_app. intros [He Hr]%orb_false_iff. destruct (IH Hr) as [-> Hn].
  destruct (decide (cp <= 0x7f)) as [Hs|Hs].
  - rewrite codePointToUTF8_arith in * by (unfold scalar in *; lia).
    rewrite (proj2 (Z.leb_le cp 0x7f)) in * by lia. cbn [existsb] in He.
    unfold char_requires_escaping, dquote in He. bool_to_prop.
    unfold quote_cp, dquote, appendCodepoint, appendRaw, u8.
    split.
    + zbool. rewrite Z.mod_small by lia. done.
    + cbn [app]. apply not_elem_of_cons. split; [lia|done].
  - exfalso. destruct (utf8_multibyte cp) as (c & l & Hc & ? & _); [unfold scalar in *; lia|].
    rewrite Hc in He. cbn [existsb] in He. unfold char_requires_escaping in He. bool_to_prop. lia.
Qed.

Lemma valueToQuotedStringN_utf8 cps :
  Forall scalar cps ->
  valueToQuotedStringN (utf8_encode cps) false = [dquote] ++ (cps ≫= quote_cp) ++ [dquote].
Proof.
  intros Hcps. unfold valueToQuotedStringN.
  destruct (doesAnyCharRequireEscaping _) eqn:E; cbn [negb].
  - by rewrite quote_loop_utf8, <- app_assoc.
  - destruct (plain_utf8 cps Hcps E) as [Heq Hn].
    by rewrite c_str_no_nul, Heq by done.
Qed.
