(* ===== verification/FloatLength.v ===== *)
(** * How long the text of a number is

    The rounding of [SpecFloat] gives a mantissa of at most 53 bits and an
    exponent of the format ([narrow]); the text [printf] prints for such a
    number, and hence the text of every number a reader decodes, is short. *)
From S2P Require Export FloatText JsonText.
Open Scope Z_scope.

(** ** Definitions *)

(** A finite number whose mantissa and exponent have the sizes of the format. *)
Definition narrow (d : float64) : Prop :=
  match d with
  | S754_finite _ m e => Zpos m <= 2 ^ 53 /\ emin64 <= e <= 971
  | _ => True
  end.

(** ** Rounding gives a number of the format *)

Lemma iter_shr_m p x : 0 <= shr_m x -> shr_m (iter_pos shr_1 p x) = shr_m x / 2 ^ Zpos p.
Proof.
  intros Hx. apply (iter_shr (fun i y => shr_m y = shr_m x / 2 ^ i) p x 0); [by rewrite Z.div_1_r|].
  intros i [m r s] Hi E. cbn [shr_m] in E. subst m.
  rewrite shr_1_div by (apply Z.div_pos; lia). cbn [shr_m].
  by rewrite Z.div_div, Z.pow_add_r by lia.
Qed.

(** A shift to the exponent of the format leaves at most 53 bits. *)
Lemma shr_fexp_narrow m e l y e' :
  0 <= m -> shr_fexp 53 1024 m e l = (y, e') -> 0 <= shr_m y < 2 ^ 53 /\ shr_m y <= m /\ emin64 <= e'.
Proof.
  intros Hm. unfold shr_fexp. set (n := fexp64 (Zdigits2 m + e) - e).
  assert (m < 2 ^ Zdigits2 m) as Hd.
  { destruct (Z.eq_dec m 0) as [->|]; [done|]. apply Zdigits2_bounds. lia. }
  assert (0 <= Zdigits2 m) by (destruct m; simpl; lia).
  assert (shr_m (shr_record_of_loc m l) = m) as Hs by (by destruct l as [|[]]).
  assert (Zdigits2 m - 53 <= n /\ emin64 <= e + n) as [Hn He] by (unfold n, fexp; lia).
  unfold shr. destruct n as [|p|p]; intros [= <- <-].
  - rewrite Hs. split_and!; [done| |lia|lia]. eapply Z.lt_le_trans; [exact Hd|]. apply Z.pow_le_mono_r; lia.
  - rewrite iter_shr_m, Hs by lia. split_and!; [by apply Z.div_pos; [|apply Z.pow_pos_nonneg]| | |lia].
    + apply Z.div_lt_upper_bound; [lia|]. rewrite <- Z.pow_add_r by lia.
      eapply Z.lt_le_trans; [exact Hd|]. apply Z.pow_le_mono_r; lia.
    + apply Z.div_le_upper_bound; [lia|]. assert (1 <= 2 ^ Zpos p) by lia. nia.
  - rewrite Hs. split_and!; [done| |lia|lia]. eapply Z.lt_le_trans; [exact Hd|]. apply Z.pow_le_mono_r; lia.
Qed.

Lemma round_nearest_bounds m l : 0 <= m -> m <= round_nearest_even m l <= m + 1.
Proof. intros Hm. destruct l as [|[]]; simpl; try lia. destruct (Z.even m); lia. Qed.

Lemma binary_round_aux_narrow s m e l : 0 <= m -> narrow (binary_round_aux 53 1024 s m e l).
Proof.
  intros Hm. unfold binary_round_aux. destruct (shr_fexp _ _ m e l) as [y e1] eqn:E1.
  apply shr_fexp_narrow in E1 as ([H1 H2] & _ & _); [|done].
  pose proof (round_nearest_bounds (shr_m y) (loc_of_shr_record y) H1) as Hr.
  destruct (shr_fexp _ _ (round_nearest_even _ _) e1 _) as [z e2] eqn:E2.
  apply shr_fexp_narrow in E2 as (_ & H3 & H4); [|lia].
  destruct (shr_m z) as [|q|q]; [done| |done]. destruct (e2 <=? _) eqn:E; [|done].
  apply Z.leb_le in E. simpl. unfold emin in *. lia.
Qed.

Lemma binary_round_narrow s p e : narrow (binary_round 53 1024 s p e).
Proof. unfold binary_round. destruct (shl_align _ _ _) as [mz ez]. by apply binary_round_aux_narrow. Qed.

Lemma SFdiv_narrow s p q : narrow (SFdiv 53 1024 (S754_finite s p 0) (S754_finite false q 0)).
Proof.
  simpl. unfold SFdiv_core_binary. cbv zeta. set (m' := match _ - _ with Z0 => _ | _ => _ end).
  assert (0 <= m') as Hm by (unfold m'; destruct (_ - _); [done|apply Z.shiftl_nonneg; lia|done]).
  clearbody m'. pose proof (Z.div_pos m' (Zpos q) Hm ltac:(done)) as Hq. unfold Z.div in Hq.
  destruct (Z.div_eucl m' (Zpos q)) as [a r]. by apply binary_round_aux_narrow.
Qed.

Lemma b64_of_decimal_narrow neg m k e : narrow (b64_of_decimal neg m k e).
Proof.
  unfold b64_of_decimal. destruct m as [|p|p]; try done. destruct (400 <? _); [done|]. destruct (_ <? -400); [done|].
  destruct (0 <=? e).
  - destruct (_ * _); try done. apply binary_round_narrow.
  - destruct (10 ^ _); try done. apply SFdiv_narrow.
Qed.

(** What [is >> value] stores. *)
Lemma istream_unsigned_narrow neg s : narrow (istream_unsigned neg s).1.
Proof.
  assert (forall m k e, narrow (match b64_of_decimal neg m k e with
    | S754_infinity true => (SFopp b64_max, false)
    | S754_infinity false => (b64_max, false)
    | v => (v, true)
    end).1) as H.
  { intros m k e. pose proof (b64_of_decimal_narrow neg m k e) as H.
    destruct (b64_of_decimal _ _ _ _) as [|[]| |]; [done|by vm_compute|by vm_compute|done|exact H]. }
  unfold istream_unsigned. destruct (take_digits 0 0 s) as [[m1 n1] s2].
  destruct (match s2 with [] => _ | _ => _ end) as [[m k] s3]. cbv zeta. destruct (k =? 0)%nat; [done|].
  destruct s3 as [|c t]; [apply H|]. destruct (_ || _); [|apply H].
  destruct (match t with [] => _ | _ => _ end) as [eneg t1]. destruct (take_digits 0 0 t1) as [[ev en] ?].
  destruct (en =? 0)%nat; [done|apply H].
Qed.

Lemma istream_double_narrow s : narrow (istream_double s).1.
Proof.
  unfold istream_double. destruct s as [|c s]; [apply istream_unsigned_narrow|].
  destruct (c =? _); [apply istream_unsigned_narrow|]. destruct (c =? _); apply istream_unsigned_narrow.
Qed.

(** ** The length of the text *)

Lemma dec_digits_bits n b : 0 <= b -> n < 2 ^ b -> (length (dec_digits n) <= S (Z.to_nat b))%nat.
Proof.
  intros Hb Hn. assert (forall fuel n acc, (length (dec_aux fuel n acc) <= fuel + length acc)%nat) as H.
  { induction fuel as [|f IH]; intros k acc; [done|]. cbn [dec_aux]. cbv zeta. destruct (_ =? 0); [simpl; lia|].
    etransitivity; [apply IH|]. simpl. lia. }
  unfold dec_digits. etransitivity; [apply H|]. simpl. rewrite Nat.add_0_r. apply le_n_S, Z2Nat.inj_le; [apply Z.log2_nonneg|done|].
  destruct (Z.le_gt_cases n 0); [rewrite Z.log2_nonpos; lia|]. apply Z.log2_lt_pow2 in Hn; lia.
Qed.

Lemma pad0_length w s : length (pad0 w s) = Nat.max w (length s).
Proof. unfold pad0. rewrite length_app, repeat_length. lia. Qed.

Lemma strip_zeros_length s : (length (strip_zeros s) <= length s)%nat.
Proof. destruct (strip_zeros_spec s) as [j E]. rewrite E at 2. rewrite length_app. lia. Qed.

(** The search moves one step for each unit of fuel. *)
Lemma dec_exponent_near fuel n d x : Z.abs (dec_exponent fuel n d x - x) <= Z.of_nat fuel.
Proof.
  revert x. induction fuel as [|f IH]; intros x; [simpl; lia|]. cbn [dec_exponent].
  pose proof (IH (x + 1)). pose proof (IH (x - 1)). repeat case_match; lia.
Qed.

Lemma dec_exp_of_near n d : -1100 <= Z.log2 n - Z.log2 d <= 1100 -> Z.abs (dec_exp_of n d) <= 340.
Proof.
  intros H. unfold dec_exp_of. set (L := Z.log2 n - Z.log2 d) in *.
  pose proof (dec_exponent_near 8 n d (L * 30103 / 100000)).
  pose proof (Z.div_mod (L * 30103) 100000 ltac:(done)). pose proof (Z.mod_pos_bound (L * 30103) 100000 ltac:(done)).
  lia.
Qed.

Lemma pow10_le_pow2_4 k : 0 <= k -> 1 <= 10 ^ k <= 2 ^ (4 * k).
Proof.
  intros Hk. split; [pose proof (Z.pow_pos_nonneg 10 k); lia|]. rewrite Z.pow_mul_r by lia.
  apply Z.pow_le_mono_l. lia.
Qed.

Lemma scale_rne_bound n d k :
  0 < n < 2 ^ 1100 -> 0 < d -> -400 <= k <= 400 -> scale_rne n d k < 2 ^ 2702.
Proof.
  intros Hn Hd Hk. assert (2 ^ 1100 * 2 ^ 1600 + 1 < 2 ^ 2702) as Hbig by (by vm_compute).
  assert (2 ^ 1100 <= 2 ^ 1100 * 2 ^ 1600) as Hle by (by vm_compute).
  unfold scale_rne. destruct (0 <=? k) eqn:E; [apply Z.leb_le in E|apply Z.leb_gt in E].
  - pose proof (pow10_le_pow2_4 k E) as Hp.
    assert (2 ^ (4 * k) <= 2 ^ 1600) by (apply Z.pow_le_mono_r; lia).
    pose proof (div_rne_le (n * 10 ^ k) d (n * 10 ^ k) Hd ltac:(nia)).
    assert (n * 10 ^ k <= 2 ^ 1100 * 2 ^ 1600) by (apply Z.mul_le_mono_nonneg; lia). lia.
  - pose proof (pow10_le_pow2_4 (- k) ltac:(lia)) as Hp.
    assert (0 < d * 10 ^ (- k)) as Hdk by (apply Z.mul_pos_pos; lia).
    pose proof (div_rne_le n (d * 10 ^ (- k)) n Hdk ltac:(nia)). lia.
Qed.

Lemma dec_digits_abs_short x : Z.abs x <= 1000 -> (length (dec_digits (Z.abs x)) <= 11)%nat.
Proof. intros H. by apply (dec_digits_bits (Z.abs x) 10); [|change (2 ^ 10) with 1024; lia]. Qed.

(** A narrow number as a fraction. *)
Lemma ratio_narrow m e :
  narrow (S754_finite false m e) -> let '(n, d) := sf_ratio m e in
  0 < n < 2 ^ 1100 /\ 0 < d /\ -1100 <= Z.log2 n - Z.log2 d <= 1100.
Proof.
  intros (Hm & He1 & He2). unfold sf_ratio, emin in *.
  assert (0 <= Z.log2 (Zpos m) < 54) as Hl.
  { split; [apply Z.log2_nonneg|]. apply Z.log2_lt_pow2; [done|]. change (2 ^ 54) with (2 * 2 ^ 53). lia. }
  assert (2 ^ 53 * 2 ^ 971 < 2 ^ 1100) as Hbig by (by vm_compute).
  destruct (Z.leb_spec 0 e); rewrite Z.shiftl_mul_pow2 by lia.
  - rewrite Z.log2_mul_pow2 by lia. change (Z.log2 1) with 0.
    assert (0 < 2 ^ e) by (apply Z.pow_pos_nonneg; lia). assert (2 ^ e <= 2 ^ 971) by (apply Z.pow_le_mono_r; lia).
    assert (Zpos m * 2 ^ e <= 2 ^ 53 * 2 ^ 971) by (apply Z.mul_le_mono_nonneg; lia).
    split_and!; [nia|lia..].
  - rewrite Z.mul_1_l, Z.log2_pow2 by lia. assert (0 < 2 ^ (- e)) by (apply Z.pow_pos_nonneg; lia).
    assert (2 ^ 53 < 2 ^ 1100) by (by vm_compute). split_and!; [lia..].
Qed.

(** [printf("%.<p>g")] of a narrow number. *)
Lemma fmt_g_length p d : (p <= 17)%nat -> narrow d -> Z.of_nat (length (fmt_g p d)) <= 5700.
Proof.
  intros Hp. destruct d as [s|s| |s m e]; intros Hd; [destruct s; by vm_compute..|by vm_compute|].
  unfold fmt_g. pose proof (ratio_narrow m e Hd) as Hr. destruct (sf_ratio m e) as [n q]. destruct Hr as (Hn & Hq & HL).
  pose proof (dec_exp_of_near n q HL) as Hx. set (x := dec_exp_of n q) in *. clearbody x.
  pose proof (scale_rne_bound n q (Z.of_nat p - 1 - x) Hn Hq ltac:(lia)) as Hk.
  set (k := scale_rne _ _ _) in *. clearbody k.
  assert (exists k' x', (if k =? 10 ^ Z.of_nat p then (k / 10, x + 1) else (k, x)) = (k', x') /\
    k' < 2 ^ 2702 /\ Z.abs x' <= 400) as (k' & x' & -> & Hk' & Hx').
  { destruct (Z.eqb_spec k (10 ^ Z.of_nat p)) as [E|Hne].
    - do 2 eexists. split; [done|]. split; [|lia]. apply Z.div_lt_upper_bound; lia.
    - do 2 eexists. split; [done|]. split; [done|lia]. }
  pose proof (dec_digits_bits k' 2702 ltac:(done) Hk') as Hds.
  pose proof (pad0_length p (dec_digits k')) as Hpad. set (ds := pad0 p _) in *. clearbody ds.
  assert (Z.of_nat (length ds) <= 2703) as Hlen by lia.
  pose proof (dec_digits_abs_short x' ltac:(lia)) as Hab.
  assert (forall t, (length (match strip_zeros t with [] => [] | u => CH "." :: u end) <= S (length t))%nat) as Hfrac.
  { intros t. pose proof (strip_zeros_length t). destruct (strip_zeros t); simpl in *; lia. }
  cbn [sf_sign]. rewrite length_app. assert (length (if s then [CH "-"] else []) <= 1)%nat by (destruct s; simpl; lia).
  destruct (_ || _); [|destruct (x' <? 0) eqn:E].
  - rewrite !length_app, length_take, pad0_length. pose proof (Hfrac (drop 1 ds)). rewrite length_drop in *. simpl length. lia.
  - rewrite length_app. pose proof (Hfrac (repeat (CH "0") (Z.to_nat (- x' - 1)) ++ ds)).
    rewrite length_app, repeat_length in *. simpl length. lia.
  - rewrite length_app, length_take. pose proof (Hfrac (drop (S (Z.to_nat x')) ds)). rewrite length_drop in *. lia.
Qed.

(** [valueToString] of a narrow number. *)
Lemma valueToString_real_length d : narrow d -> Z.of_nat (length (valueToString_real d)) <= 5800.
Proof.
  intros Hd. unfold valueToString_real, valueToString_double. destruct (negb _).
  { destruct (sf_isnan d); [by vm_compute|]. destruct (sf_sign d); by vm_compute. }
  set (p := Z.to_nat (Z.max 1 defaultRealPrecision)).
  pose proof (fmt_g_length p d ltac:(by apply Nat.leb_le) Hd) as H.
  assert (Z.of_nat (length (fixNumericLocale (fmt_g p d))) <= 5700) as H2 by (unfold fixNumericLocale; by rewrite length_map).
  cbv zeta. destruct (_ && _); [rewrite length_app; simpl length; lia|lia].
Qed.
