(* ===== verification/JsonValue.v ===== *)
(** * [Json::Value] (json_value.cpp, value.h)

    The tree of JSON values and the operations on it: comparison, conversion,
    the array and object interfaces, comments and offsets.  A [Value] owns its
    payload, so copying is the identity on the model; references into a tree
    are paths, in JsonReader.v. *)
From S2P Require Export JsonText StdMap.
Open Scope Z_scope.

(** ** Data *)

Inductive ValueType :=
  | nullValue | intValue | uintValue | realValue | stringValue | booleanValue
  | arrayValue | objectValue.

#[export] Instance ValueType_eq_dec : EqDecision ValueType.
Proof. solve_decision. Defined.

Definition type_num (t : ValueType) : Z :=
  match t with
  | nullValue => 0 | intValue => 1 | uintValue => 2 | realValue => 3
  | stringValue => 4 | booleanValue => 5 | arrayValue => 6 | objectValue => 7
  end.

Inductive CommentPlacement := commentBefore | commentAfterOnSameLine | commentAfter.

(** The array of [numberOfCommentPlacement] strings. *)
Record CommentArray := {
  c_before : bytes;
  c_sameLine : bytes;
  c_after : bytes;
}.

(** [Value::Comments]: a pointer, null until a comment is set. *)
Definition Comments : Type := option CommentArray.

(** The discriminated union: [bits_.value_type_] with the member of
    [ValueHolder] it selects.  Arrays are maps keyed by index, objects are maps
    keyed by name; both are [ObjectValues]. *)
Inductive payload (V : Type) : Type :=
  | PNull
  | PInt (int_ : Z)
  | PUInt (uint_ : Z)
  | PReal (real_ : float64)
  | PString (string_ : bytes)
  | PBool (bool_ : bool)
  | PArray (map_ : list (Z * V))
  | PObject (map_ : list (bytes * V)).
Arguments PNull {V}.
Arguments PInt {V} int_.
Arguments PUInt {V} uint_.
Arguments PReal {V} real_.
Arguments PString {V} string_.
Arguments PBool {V} bool_.
Arguments PArray {V} map_.
Arguments PObject {V} map_.

Unset Elimination Schemes.
Inductive Value : Type := mkValue {
  value_ : payload Value;
  comments_ : Comments;
  start_ : Z;
  limit_ : Z;
}.
Set Elimination Schemes.

(** Assignment to one member. *)
Definition set_payload (p : payload Value) (v : Value) : Value :=
  mkValue p (comments_ v) (start_ v) (limit_ v).
Definition set_comments (c : Comments) (v : Value) : Value :=
  mkValue (value_ v) c (start_ v) (limit_ v).
Definition setOffsetStart (s : Z) (v : Value) : Value :=
  mkValue (value_ v) (comments_ v) s (limit_ v).
Definition setOffsetLimit (l : Z) (v : Value) : Value :=
  mkValue (value_ v) (comments_ v) (start_ v) l.
Definition getOffsetStart (v : Value) : Z := start_ v.
Definition getOffsetLimit (v : Value) : Z := limit_ v.

Definition type (v : Value) : ValueType :=
  match value_ v with
  | PNull => nullValue
  | PInt _ => intValue
  | PUInt _ => uintValue
  | PReal _ => realValue
  | PString _ => stringValue
  | PBool _ => booleanValue
  | PArray _ => arrayValue
  | PObject _ => objectValue
  end.

Definition isNull (v : Value) : bool := bool_decide (type v = nullValue).
Definition isBool (v : Value) : bool := bool_decide (type v = booleanValue).
Definition isString (v : Value) : bool := bool_decide (type v = stringValue).
Definition isArray (v : Value) : bool := bool_decide (type v = arrayValue).
Definition isObject (v : Value) : bool := bool_decide (type v = objectValue).
Definition isDouble (v : Value) : bool :=
  bool_decide (type v = intValue) || bool_decide (type v = uintValue) ||
  bool_decide (type v = realValue).
Definition isNumeric (v : Value) : bool := isDouble v.

(** ** Construction, copy and assignment *)

(** [initBasic] leaves no comments and zero offsets. *)
Definition initBasic (p : payload Value) : Value := mkValue p None 0 0.

(** [Value(ValueType)]. *)
Definition Value_ofType (t : ValueType) : Value :=
  initBasic match t with
            | nullValue => PNull
            | intValue => PInt 0
            | uintValue => PUInt 0
            | realValue => PReal (S754_zero false)
            | stringValue => PString []
            | booleanValue => PBool false
            | arrayValue => PArray []
            | objectValue => PObject []
            end.

Definition Value_null : Value := Value_ofType nullValue.
Definition Value_int (z : Z) : Value := initBasic (PInt z).
Definition Value_uint (z : Z) : Value := initBasic (PUInt z).
Definition Value_double (d : float64) : Value := initBasic (PReal d).
Definition Value_bool (b : bool) : Value := initBasic (PBool b).

(** The length test of [duplicateAndPrefixStringValue]: the prefix is a 4-byte
    [unsigned]. *)
Definition duplicateAndPrefixStringValue (s : bytes) : outcome bytes :=
  _ ← json_assert (Z.of_nat (length s) <=? maxInt - 4 - 1)
    "in Json::Value::duplicateAndPrefixStringValue(): length too big for prefixing";
  Ret s.

(** [Value(const String&)], [Value(begin, end)]. *)
Definition Value_string (s : bytes) : outcome Value :=
  s' ← duplicateAndPrefixStringValue s; Ret (initBasic (PString s')).

(** [Value] of a C string copies up to the first NUL. *)
Definition Value_cstring (s : bytes) : outcome Value := Value_string (c_str s).

Definition swapPayload (a b : Value) : Value * Value :=
  (set_payload (value_ b) a, set_payload (value_ a) b).

(** All four members are exchanged. *)
Definition swap (a b : Value) : Value * Value := (b, a).

Definition dupMeta (other this : Value) : Value :=
  mkValue (value_ this) (comments_ other) (start_ other) (limit_ other).
Definition dupPayload (other this : Value) : Value := set_payload (value_ other) this.
Definition copyPayload (other this : Value) : Value := dupPayload other this.
Definition copy (other this : Value) : Value := dupMeta other (copyPayload other this).

(** [Value& operator=(const Value&)]: swap with a copy. *)
Definition assign_copy (this other : Value) : Value := (swap other this).2.
(** [Value& operator=(Value&&)] exchanges the two values. *)
Definition assign_move (this other : Value) : Value * Value :=
  let '(other', this') := swap other this in (this', other').

(** ** Keys *)

(** [memcmp(a, b, n)]: the sign of the first difference. *)
Fixpoint memcmp (n : nat) (a b : bytes) : Z :=
  match n, a, b with
  | S n', x :: a', y :: b' => if x <? y then -1 else if y <? x then 1 else memcmp n' a' b'
  | _, _, _ => 0
  end.

(** [CZString::operator<] on two strings. *)
Definition CZString_lt (a b : bytes) : bool :=
  let this_len := length a in
  let other_len := length b in
  let comp := memcmp (Nat.min this_len other_len) a b in
  if comp <? 0 then true
  else if 0 <? comp then false
  else (this_len <? other_len)%nat.

(** [CZString::operator==] on two strings. *)
Definition CZString_eq (a b : bytes) : bool :=
  if negb (length a =? length b)%nat then false else memcmp (length a) a b =? 0.

#[export] Instance CZString_KeyOrd : KeyOrd bytes := CZString_lt.

(** [CZString(str, length, allocate)] keeps 30 bits of the length. *)
Definition CZString (s : bytes) : bytes :=
  take (Z.to_nat (Z.land (Z.of_nat (length s)) 0x3FFFFFFF)) s.

(** ** Comparison *)

(** [std::lexicographical_compare] on the nodes of two maps, the pairs ordered
    by [std::pair]'s [operator<].  The pair of results is [(x < y, y < x)]. *)
Section lex.
Context {K V : Type} `{KeyOrd K}.
Variable lts : V -> V -> bool * bool.

Definition pair_lts (x y : K * V) : bool * bool :=
  let '(v12, v21) := lts x.2 y.2 in
  (key_ltb x.1 y.1 || (negb (key_ltb y.1 x.1) && v12),
   key_ltb y.1 x.1 || (negb (key_ltb x.1 y.1) && v21)).

Fixpoint lex_lts (m1 m2 : list (K * V)) : bool * bool :=
  match m1, m2 with
  | [], [] => (false, false)
  | [], _ :: _ => (true, false)
  | _ :: _, [] => (false, true)
  | x :: m1', y :: m2' =>
      let '(l12, l21) := pair_lts x y in
      (if l12 then true else if l21 then false else (lex_lts m1' m2').1,
       if l21 then true else if l12 then false else (lex_lts m1' m2').2)
  end.

(** [std::equal] on two maps of the same size. *)
Variable eqv : V -> V -> bool.
Variable eqk : K -> K -> bool.
Fixpoint map_eqb (m1 m2 : list (K * V)) : bool :=
  match m1, m2 with
  | [], [] => true
  | (k1, v1) :: m1', (k2, v2) :: m2' => eqk k1 k2 && eqv v1 v2 && map_eqb m1' m2'
  | _, _ => false
  end.
End lex.

(** First by size, then lexicographically. *)
Definition sized_lts {A} (n1 n2 : nat) (lex : A * A) (t f : A) : A * A :=
  if (n1 =? n2)%nat then lex else if (n1 <? n2)%nat then (t, f) else (f, t).

(** [operator<] in both directions at once: [(a < b, b < a)]. *)
Fixpoint Value_lts (a b : Value) {struct a} : bool * bool :=
  let typeDelta := type_num (type a) - type_num (type b) in
  if negb (typeDelta =? 0) then (typeDelta <? 0, 0 <? typeDelta)
  else
    match value_ a, value_ b with
    | PInt x, PInt y => (x <? y, y <? x)
    | PUInt x, PUInt y => (x <? y, y <? x)
    | PReal x, PReal y => (SFltb x y, SFltb y x)
    | PBool x, PBool y => (negb x && y, negb y && x)
    | PString x, PString y => (CZString_lt x y, CZString_lt y x)
    | PArray m1, PArray m2 =>
        sized_lts (length m1) (length m2) (lex_lts Value_lts m1 m2) true false
    | PObject m1, PObject m2 =>
        sized_lts (length m1) (length m2) (lex_lts Value_lts m1 m2) true false
    | _, _ => (false, false)
    end.

Definition Value_lt (a b : Value) : bool := (Value_lts a b).1.
Definition Value_gt (a b : Value) : bool := Value_lt b a.
Definition Value_le (a b : Value) : bool := negb (Value_lt b a).
Definition Value_ge (a b : Value) : bool := negb (Value_lt a b).

(** [operator==]. *)
Fixpoint Value_eqb (a b : Value) {struct a} : bool :=
  if negb (bool_decide (type a = type b)) then false
  else
    match value_ a, value_ b with
    | PNull, PNull => true
    | PInt x, PInt y => x =? y
    | PUInt x, PUInt y => x =? y
    | PReal x, PReal y => SFeqb x y
    | PBool x, PBool y => Bool.eqb x y
    | PString x, PString y => CZString_eq x y
    | PArray m1, PArray m2 => (length m1 =? length m2)%nat && map_eqb Value_eqb Z.eqb m1 m2
    | PObject m1, PObject m2 => (length m1 =? length m2)%nat && map_eqb Value_eqb CZString_eq m1 m2
    | _, _ => false
    end.

Definition Value_neqb (a b : Value) : bool := negb (Value_eqb a b).

Definition compare (a b : Value) : Z :=
  if Value_lt a b then -1 else if Value_gt a b then 1 else 0.

(** ** Predicates and conversions *)

(** [integerToDouble]: the [UInt64] overload goes through signed halves. *)
Definition integerToDouble_u64 (value : Z) : float64 :=
  b64_add (b64_mul (b64_of_Z (i64 (value / 2))) (b64_of_Z 2)) (b64_of_Z (i64 (Z.land value 1))).
Definition integerToDouble (value : Z) : float64 := b64_of_Z value.

(** [InRange(d, min, max)] with the bounds already converted. *)
Definition InRange (d min max : float64) : bool := SFleb min d && SFleb d max.

Definition IsIntegral (d : float64) : bool := sf_is_integral d.

Definition maxUInt64AsDouble : float64 := b64_of_Z (2 ^ 64).

(** Conversion of a double to an integer type: undefined when the truncated
    value is not representable. *)
Definition double_to_int (lo hi : Z) (d : float64) : outcome Z :=
  if sf_isfinite d && (lo <=? sf_trunc d) && (sf_trunc d <=? hi) then Ret (sf_trunc d)
  else Undef "conversion of a double out of the range of the integer type".

Definition isInt (v : Value) : bool :=
  match value_ v with
  | PInt i => (minInt <=? i) && (i <=? maxInt)
  | PUInt u => u <=? maxInt
  | PReal d => SFleb (b64_of_Z minInt) d && SFleb d (b64_of_Z maxInt) && IsIntegral d
  | _ => false
  end.

Definition isUInt (v : Value) : bool :=
  match value_ v with
  | PInt i => (0 <=? i) && (u64 i <=? maxUInt)
  | PUInt u => u <=? maxUInt
  | PReal d => SFleb (b64_of_Z 0) d && SFleb d (b64_of_Z maxUInt) && IsIntegral d
  | _ => false
  end.

Definition isInt64 (v : Value) : bool :=
  match value_ v with
  | PInt _ => true
  | PUInt u => u <=? maxLargestInt
  | PReal d => SFleb (b64_of_Z minLargestInt) d && SFltb d (b64_of_Z maxLargestInt) && IsIntegral d
  | _ => false
  end.

Definition isUInt64 (v : Value) : bool :=
  match value_ v with
  | PInt i => 0 <=? i
  | PUInt _ => true
  | PReal d => SFleb (b64_of_Z 0) d && SFltb d maxUInt64AsDouble && IsIntegral d
  | _ => false
  end.

Definition isIntegral (v : Value) : bool :=
  match value_ v with
  | PInt _ | PUInt _ => true
  | PReal d => SFleb (b64_of_Z minLargestInt) d && SFltb d maxUInt64AsDouble && IsIntegral d
  | _ => false
  end.

Definition asCString (v : Value) : outcome bytes :=
  match value_ v with
  | PString s => Ret s
  | _ => Abort "in Json::Value::asCString(): requires stringValue"
  end.

Definition getString (v : Value) : option bytes :=
  match value_ v with PString s => Some s | _ => None end.

Definition asString (v : Value) : outcome bytes :=
  match value_ v with
  | PNull => Ret []
  | PString s => Ret s
  | PBool b => Ret (valueToString_bool b)
  | PInt i => valueToString_Int i
  | PUInt u => valueToString_UInt u
  | PReal d => Ret (valueToString_real d)
  | PArray _ | PObject _ => Abort "Type is not convertible to string"
  end.

Definition asInt (v : Value) : outcome Z :=
  match value_ v with
  | PInt i => _ ← json_assert (isInt v) "LargestInt out of Int range"; Ret (i32 i)
  | PUInt u => _ ← json_assert (isInt v) "LargestUInt out of Int range"; Ret (i32 u)
  | PReal d =>
      _ ← json_assert (InRange d (integerToDouble minInt) (integerToDouble maxInt))
        "double out of Int range";
      double_to_int minInt maxInt d
  | PNull => Ret 0
  | PBool b => Ret (if b then 1 else 0)
  | _ => Abort "Value is not convertible to Int."
  end.

Definition asUInt (v : Value) : outcome Z :=
  match value_ v with
  | PInt i => _ ← json_assert (isUInt v) "LargestInt out of UInt range"; Ret (u32 i)
  | PUInt u => _ ← json_assert (isUInt v) "LargestUInt out of UInt range"; Ret (u32 u)
  | PReal d =>
      _ ← json_assert (InRange d (integerToDouble 0) (integerToDouble maxUInt))
        "double out of UInt range";
      double_to_int 0 maxUInt d
  | PNull => Ret 0
  | PBool b => Ret (if b then 1 else 0)
  | _ => Abort "Value is not convertible to UInt."
  end.

Definition asInt64 (v : Value) : outcome Z :=
  match value_ v with
  | PInt i => Ret i
  | PUInt u => _ ← json_assert (isInt64 v) "LargestUInt out of Int64 range"; Ret (i64 u)
  | PReal d =>
      _ ← json_assert (InRange d (integerToDouble minLargestInt) (integerToDouble maxLargestInt))
        "double out of Int64 range";
      double_to_int minLargestInt maxLargestInt d
  | PNull => Ret 0
  | PBool b => Ret (if b then 1 else 0)
  | _ => Abort "Value is not convertible to Int64."
  end.

Definition asUInt64 (v : Value) : outcome Z :=
  match value_ v with
  | PInt i => _ ← json_assert (isUInt64 v) "LargestInt out of UInt64 range"; Ret (u64 i)
  | PUInt u => Ret u
  | PReal d =>
      _ ← json_assert (InRange d (integerToDouble 0) (integerToDouble_u64 maxLargestUInt))
        "double out of UInt64 range";
      double_to_int 0 maxLargestUInt d
  | PNull => Ret 0
  | PBool b => Ret (if b then 1 else 0)
  | _ => Abort "Value is not convertible to UInt64."
  end.

Definition asLargestInt (v : Value) : outcome Z := asInt64 v.
Definition asLargestUInt (v : Value) : outcome Z := asUInt64 v.

Definition asDouble (v : Value) : outcome float64 :=
  match value_ v with
  | PInt i => Ret (b64_of_Z i)
  | PUInt u => Ret (integerToDouble_u64 u)
  | PReal d => Ret d
  | PNull => Ret (S754_zero false)
  | PBool b => Ret (b64_of_Z (if b then 1 else 0))
  | _ => Abort "Value is not convertible to double."
  end.

Definition asFloat (v : Value) : outcome float32 :=
  match value_ v with
  | PInt i => Ret (b32_of_Z i)
  | PUInt u => Ret (b64_to_b32 (integerToDouble_u64 u))
  | PReal d => Ret (b64_to_b32 d)
  | PNull => Ret (S754_zero false)
  | PBool b => Ret (b32_of_Z (if b then 1 else 0))
  | _ => Abort "Value is not convertible to float."
  end.

Definition asBool (v : Value) : outcome bool :=
  match value_ v with
  | PBool b => Ret b
  | PNull => Ret false
  | PInt i => Ret (negb (i =? 0))
  | PUInt u => Ret (negb (u =? 0))
  | PReal d => Ret (negb (sf_iszero d) && negb (sf_isnan d))
  | _ => Abort "Value is not convertible to bool."
  end.

Definition is_type (v : Value) (t : ValueType) : bool := bool_decide (type v = t).

Definition map_empty (v : Value) : bool :=
  match value_ v with PArray [] | PObject [] => true | _ => false end.

(** The conversions inside are reached on numeric, boolean or string values
    only, where they return. *)
Definition isConvertibleTo (v : Value) (other : ValueType) : outcome bool :=
  let in_range min max :=
    match value_ v with
    | PReal d => InRange d (integerToDouble min) (integerToDouble max)
    | _ => false
    end in
  match other with
  | nullValue =>
      zero ← (if isNumeric v then d ← asDouble v; Ret (SFeqb d (b64_of_Z 0)) else Ret false);
      emp ← (if is_type v stringValue then s ← asString v; Ret (bool_decide (s = []))
             else Ret false);
      Ret (zero ||
           match value_ v with PBool b => negb b | _ => false end ||
           emp ||
           (is_type v arrayValue && map_empty v) ||
           (is_type v objectValue && map_empty v) ||
           is_type v nullValue)
  | intValue =>
      Ret (isInt v || in_range minInt maxInt || is_type v booleanValue || is_type v nullValue)
  | uintValue =>
      Ret (isUInt v || in_range 0 maxUInt || is_type v booleanValue || is_type v nullValue)
  | realValue | booleanValue =>
      Ret (isNumeric v || is_type v booleanValue || is_type v nullValue)
  | stringValue =>
      Ret (isNumeric v || is_type v booleanValue || is_type v stringValue || is_type v nullValue)
  | arrayValue => Ret (is_type v arrayValue || is_type v nullValue)
  | objectValue => Ret (is_type v objectValue || is_type v nullValue)
  end.

(** ** Arrays and objects *)

(** The last node of a map. *)
Definition om_last {K V} (m : list (K * V)) : option (K * V) := last m.

Definition size (v : Value) : Z :=
  match value_ v with
  | PArray m => match om_last m with Some (i, _) => u32 (i + 1) | None => 0 end
  | PObject m => u32 (Z.of_nat (length m))
  | _ => 0
  end.

Definition empty (v : Value) : bool :=
  if isNull v || isArray v || isObject v then size v =? 0 else false.

Definition clear (v : Value) : outcome Value :=
  _ ← json_assert (isNull v || isArray v || isObject v)
    "in Json::Value::clear(): requires complex value";
  let v := setOffsetLimit 0 (setOffsetStart 0 v) in
  Ret match value_ v with
      | PArray _ => set_payload (PArray []) v
      | PObject _ => set_payload (PObject []) v
      | _ => v
      end.

(** The receiver of an array operation: null becomes an empty array. *)
Definition as_array (v : Value) : Value :=
  if isNull v then Value_ofType arrayValue else v.
Definition as_object (v : Value) : Value :=
  if isNull v then Value_ofType objectValue else v.

Definition array_map (v : Value) : list (Z * Value) :=
  match value_ v with PArray m => m | _ => [] end.
Definition object_map (v : Value) : list (bytes * Value) :=
  match value_ v with PObject m => m | _ => [] end.

(** [operator[](ArrayIndex)]: the container after the call; the reference it
    returns designates node [index] of it. *)
Definition index_ref (index : Z) (v : Value) : outcome Value :=
  _ ← json_assert (isNull v || isArray v)
    "in Json::Value::operator[](ArrayIndex): requires arrayValue";
  let v := as_array v in
  Ret (set_payload (PArray (om_emplace index Value_null (array_map v))) v).

(** [operator[](int)]. *)
Definition index_ref_int (index : Z) (v : Value) : outcome Value :=
  _ ← json_assert (0 <=? index)
    "in Json::Value::operator[](int index): index cannot be negative";
  index_ref (u32 index) v.

(** Writing through a reference to node [index] or [key]. *)
Definition write_index (index : Z) (f : Value -> Value) (v : Value) : Value :=
  match value_ v with PArray m => set_payload (PArray (om_alter index f m)) v | _ => v end.
Definition write_key (key : bytes) (f : Value -> Value) (v : Value) : Value :=
  match value_ v with PObject m => set_payload (PObject (om_alter key f m)) v | _ => v end.

(** [operator[](ArrayIndex) const]: [None] is the address of [nullSingleton()]. *)
Definition index_const_opt (index : Z) (v : Value) : outcome (option Value) :=
  _ ← json_assert (isNull v || isArray v)
    "in Json::Value::operator[](ArrayIndex)const: requires arrayValue";
  if isNull v then Ret None else Ret (om_find index (array_map v)).

Definition index_const (index : Z) (v : Value) : outcome Value :=
  o ← index_const_opt index v; Ret (default Value_null o).

(** [get(ArrayIndex, defaultValue)] compares addresses. *)
Definition get_index (index : Z) (defaultValue v : Value) : outcome Value :=
  o ← index_const_opt index v; Ret (default defaultValue o).

Definition isValidIndex (index : Z) (v : Value) : bool := index <? size v.

(** The loops of [resize]. *)
Fixpoint resize_grow (n : nat) (i : Z) (v : Value) : outcome Value :=
  match n with
  | O => Ret v
  | S n' => v' ← index_ref i v; resize_grow n' (i + 1) v'
  end.

Fixpoint erase_range (n : nat) (i : Z) (m : list (Z * Value)) : list (Z * Value) :=
  match n with
  | O => m
  | S n' => erase_range n' (i + 1) (om_erase i m)
  end.

Definition resize (newSize : Z) (v : Value) : outcome Value :=
  _ ← json_assert (isNull v || isArray v)
    "in Json::Value::resize(): requires arrayValue";
  let v := as_array v in
  let oldSize := size v in
  if newSize =? 0 then clear v
  else if oldSize <? newSize then resize_grow (Z.to_nat (newSize - oldSize)) oldSize v
  else
    let v' := set_payload (PArray (erase_range (Z.to_nat (oldSize - newSize)) newSize
                                               (array_map v))) v in
    _ ← json_assert (size v' =? newSize) "assert(size() == newSize)";
    Ret v'.

(** [append(Value&&)]: the container after the call. *)
Definition append (value v : Value) : outcome Value :=
  _ ← json_assert (isNull v || isArray v) "in Json::Value::append: requires arrayValue";
  let v := as_array v in
  Ret (set_payload (PArray (om_emplace (size v) value (array_map v))) v).

(** [( *this)[dst] = std::move(( *this)[src])]: both nodes are created if
    missing, then exchanged. *)
Definition move_node (dst src : Z) (v : Value) : outcome Value :=
  v ← index_ref src v;
  v ← index_ref dst v;
  let m := array_map v in
  let a := default Value_null (om_find dst m) in
  let b := default Value_null (om_find src m) in
  let '(a', b') := assign_move a b in
  Ret (write_index src (fun _ => b') (write_index dst (fun _ => a') v)).

(** [for (i = length; i > index; i--)], [n] turns from [i]. *)
Fixpoint insert_shift (n : nat) (i : Z) (v : Value) : outcome Value :=
  match n with
  | O => Ret v
  | S n' => v' ← move_node i (i - 1) v; insert_shift n' (i - 1) v'
  end.

Definition insert (index : Z) (newValue v : Value) : outcome (bool * Value) :=
  _ ← json_assert (isNull v || isArray v) "in Json::Value::insert: requires arrayValue";
  let length := size v in
  if length <? index then Ret (false, v)
  else
    v ← insert_shift (Z.to_nat (length - index)) length v;
    v ← index_ref index v;
    Ret (true, write_index index (fun old => (assign_move old newValue).1) v).

(** [for (i = index; i < oldSize - 1; ++i) map[i] = ( *this)[i + 1]], copying. *)
Fixpoint remove_shift (n : nat) (i : Z) (v : Value) : outcome Value :=
  match n with
  | O => Ret v
  | S n' =>
      v ← index_ref (i + 1) v;
      v ← index_ref i v;
      let src := default Value_null (om_find (i + 1) (array_map v)) in
      remove_shift n' (i + 1) (write_index i (fun old => assign_copy old src) v)
  end.

(** [removeIndex(index, removed)]: whether it removed, what, the container. *)
Definition removeIndex (index : Z) (v : Value) : outcome (bool * option Value * Value) :=
  match value_ v with
  | PArray m =>
      match om_find index m with
      | None => Ret (false, None, v)
      | Some removed =>
          let oldSize := size v in
          v' ← remove_shift (Z.to_nat (oldSize - 1 - index)) index v;
          match om_find (oldSize - 1) (array_map v') with
          | None => Undef "erase(end())"
          | Some _ => Ret (true, Some removed,
                           set_payload (PArray (om_erase (oldSize - 1) (array_map v'))) v')
          end
      end
  | _ => Ret (false, None, v)
  end.

(** [resolveReference(key, end)], also [operator[](key)] and [demand]: the
    container after the call; the reference designates node [CZString key]. *)
Definition resolveReference (key : bytes) (v : Value) : outcome Value :=
  _ ← json_assert (isNull v || isObject v)
    "in Json::Value::resolveReference(key, end): requires objectValue";
  let v := as_object v in
  Ret (set_payload (PObject (om_emplace (CZString key) Value_null (object_map v))) v).

Definition find (key : bytes) (v : Value) : outcome (option Value) :=
  _ ← json_assert (isNull v || isObject v)
    "in Json::Value::find(begin, end): requires objectValue or nullValue";
  if isNull v then Ret None else Ret (om_find (CZString key) (object_map v)).

Definition isMember (key : bytes) (v : Value) : outcome bool :=
  o ← find key v; Ret (match o with Some _ => true | None => false end).

(** [operator[](key) const]. *)
Definition key_const (key : bytes) (v : Value) : outcome Value :=
  o ← find key v; Ret (default Value_null o).

(** [operator[](key)] and the value it refers to. *)
Definition key_ref (key : bytes) (v : Value) : outcome (Value * Value) :=
  v' ← resolveReference key v;
  Ret (default Value_null (om_find (CZString key) (object_map v')), v').

(** [get(key, defaultValue)]. *)
Definition get_key (key : bytes) (defaultValue v : Value) : outcome Value :=
  o ← find key v; Ret (default defaultValue o).

(** [v[key] = value] with a value of the right-hand side's own. *)
Definition set_key (key : bytes) (value v : Value) : outcome Value :=
  v' ← resolveReference key v;
  Ret (write_key (CZString key) (fun old => (assign_move old value).1) v').

(** [removeMember(begin, end, removed)]. *)
Definition removeMember (key : bytes) (v : Value) : bool * option Value * Value :=
  match value_ v with
  | PObject m =>
      match om_find (CZString key) m with
      | None => (false, None, v)
      | Some removed => (true, Some removed, set_payload (PObject (om_erase (CZString key) m)) v)
      end
  | _ => (false, None, v)
  end.

(** [void removeMember(key)]. *)
Definition removeMember_void (key : bytes) (v : Value) : outcome Value :=
  _ ← json_assert (isNull v || isObject v)
    "in Json::Value::removeMember(): requires objectValue";
  if isNull v then Ret v
  else Ret (set_payload (PObject (om_erase (CZString (c_str key)) (object_map v))) v).

Definition getMemberNames (v : Value) : outcome (list bytes) :=
  _ ← json_assert (isNull v || isObject v)
    "in Json::Value::getMemberNames(), value must be objectValue";
  Ret (if isNull v then [] else om_keys (object_map v)).

(** ** Comments *)

Definition comment_slot (c : CommentArray) (slot : CommentPlacement) : bytes :=
  match slot with
  | commentBefore => c_before c
  | commentAfterOnSameLine => c_sameLine c
  | commentAfter => c_after c
  end.

Definition Comments_has (slot : CommentPlacement) (c : Comments) : bool :=
  match c with
  | Some a => negb (bool_decide (comment_slot a slot = []))
  | None => false
  end.

Definition Comments_get (slot : CommentPlacement) (c : Comments) : bytes :=
  match c with Some a => comment_slot a slot | None => [] end.

Definition Comments_set (slot : CommentPlacement) (comment : bytes) (c : Comments) : Comments :=
  let a := default {| c_before := []; c_sameLine := []; c_after := [] |} c in
  Some match slot with
       | commentBefore => {| c_before := comment; c_sameLine := c_sameLine a; c_after := c_after a |}
       | commentAfterOnSameLine =>
           {| c_before := c_before a; c_sameLine := comment; c_after := c_after a |}
       | commentAfter => {| c_before := c_before a; c_sameLine := c_sameLine a; c_after := comment |}
       end.

Definition setComment (comment : bytes) (placement : CommentPlacement) (v : Value) : outcome Value :=
  let comment := match last comment with
                 | Some c => if c =? 10 then removelast comment else comment
                 | None => comment
                 end in
  _ ← json_assert (negb (bool_decide (comment = []))) "assert(!comment.empty())";
  _ ← json_assert ((nth 0 comment 0 =? 0) || (nth 0 comment 0 =? CH "/"))
    "in Json::Value::setComment(): Comments must start with /";
  Ret (set_comments (Comments_set placement comment (comments_ v)) v).

Definition hasComment (placement : CommentPlacement) (v : Value) : bool :=
  Comments_has placement (comments_ v).

Definition getComment (placement : CommentPlacement) (v : Value) : bytes :=
  Comments_get placement (comments_ v).
