(* ===== verification/JsonValueFacts.v ===== *)
(** * Facts about [Json::Value]

    The order of the keys, the invariant of the tree and its preservation by
    every operation, the array interface as operations on lists, the object
    interface as a finite map, and the conversions. *)
From S2P Require Export JsonValue.
Open Scope Z_scope.

(** ** Definitions *)

(** [P] holds of every value of a map. *)
Section om_all.
Context {K V : Type} (P : V -> Prop).
Fixpoint om_all (m : list (K * V)) : Prop :=
  match m with
  | [] => True
  | (_, v) :: m' => P v /\ om_all m'
  end.
End om_all.

(** The invariant of the tree: integers in their ranges, bytes in theirs, maps
    sorted, array keys of type [ArrayIndex]. *)
Fixpoint wf (v : Value) : Prop :=
  match value_ v with
  | PInt i => in_s 64 i
  | PUInt u => in_u 64 u
  | PString s => Forall byte_ok s
  | PArray m => om_sorted m /\ Forall (fun kv => in_u 32 kv.1) m /\ om_all wf m
  | PObject m => om_sorted m /\ Forall (fun kv => Forall byte_ok kv.1) m /\ om_all wf m
  | _ => True
  end.

(** The nodes of an array without holes. *)
Fixpoint arr_from (k : Z) (l : list Value) : list (Z * Value) :=
  match l with
  | [] => []
  | v :: l' => (k, v) :: arr_from (k + 1) l'
  end.

(** The array without holes of the elements [l], with the comments and the
    offsets of [v]. *)
Definition arr (l : list Value) (v : Value) : Value := set_payload (PArray (arr_from 0 l)) v.

(** The operations that change a tree in place, on arguments of their types. *)
Inductive mutation (v : Value) : Value -> Prop :=
  | mut_index i v' : in_u 32 i -> index_ref i v = Ret v' -> mutation v v'
  | mut_write_index i w v' : wf w -> v' = write_index i (fun _ => w) v -> mutation v v'
  | mut_resize n v' : in_u 32 n -> resize n v = Ret v' -> mutation v v'
  | mut_append w v' : wf w -> append w v = Ret v' -> mutation v v'
  | mut_insert i w b v' : in_u 32 i -> wf w -> insert i w v = Ret (b, v') -> mutation v v'
  | mut_removeIndex i b r v' : in_u 32 i -> removeIndex i v = Ret (b, r, v') -> mutation v v'
  | mut_key k v' : Forall byte_ok k -> resolveReference k v = Ret v' -> mutation v v'
  | mut_set_key k w v' : Forall byte_ok k -> wf w -> set_key k w v = Ret v' -> mutation v v'
  | mut_removeMember k b r v' : removeMember k v = (b, r, v') -> mutation v v'
  | mut_removeMember_void k v' : removeMember_void k v = Ret v' -> mutation v v'
  | mut_clear v' : clear v = Ret v' -> mutation v v'
  | mut_setComment c p v' : setComment c p v = Ret v' -> mutation v v'
  | mut_offsets s l v' : v' = setOffsetLimit l (setOffsetStart s v) -> mutation v v'.

(** ** Induction on the tree *)

Section Value_ind.
Variable P : Value -> Prop.
Hypothesis H : forall v,
  (forall m, value_ v = PArray m -> om_all P m) ->
  (forall m, value_ v = PObject m -> om_all P m) -> P v.

Fixpoint Value_ind (v : Value) : P v.
Proof.
  destruct v as [p c s l]. apply H; simpl; intros m Hm;
    destruct p as [| | | | | |m0|m0]; try discriminate Hm;
    injection Hm as <-;
    exact ((fix all m := match m return om_all P m with
                         | [] => I
                         | (_, w) :: m' => conj (Value_ind w) (all m')
                         end) m0).
Defined.
End Value_ind.

Lemma om_all_Forall {K V} (P : V -> Prop) (m : list (K * V)) :
  om_all P m <-> Forall (fun kv => P kv.2) m.
Proof.
  induction m as [|[k v] m IH]; simpl; [by split; [constructor|]|].
  rewrite Forall_cons, IH. done.
Qed.

(** ** The order of object keys *)

Lemma memcmp_range n a b : memcmp n a b = -1 \/ memcmp n a b = 0 \/ memcmp n a b = 1.
Proof.
  revert a b. induction n as [|n IH]; intros [|x a] [|y b]; simpl; auto.
  destruct (x <? y); [auto|]. destruct (y <? x); auto.
Qed.

Lemma CZString_lt_nil b : CZString_lt [] b = (0 <? length b)%nat.
Proof. done. Qed.

Lemma CZString_lt_cons_nil x a : CZString_lt (x :: a) [] = false.
Proof. done. Qed.

(** The order is lexicographic. *)
Lemma CZString_lt_cons x a y b :
  CZString_lt (x :: a) (y :: b) = if x <? y then true else if y <? x then false else CZString_lt a b.
Proof.
  unfold CZString_lt. simpl length. rewrite <- Nat.succ_min_distr. cbn [memcmp].
  destruct (x <? y); [done|]. by destruct (y <? x).
Qed.

#[export] Instance CZString_KeyOrdLaws : KeyOrdLaws bytes.
Proof.
  split; unfold key_ltb, CZString_KeyOrd.
  - induction k as [|x a IH]; [done|]. rewrite CZString_lt_cons, Z.ltb_irrefl. done.
  - induction k1 as [|x a IH]; intros [|y b] [|z c]; rewrite ?CZString_lt_nil, ?CZString_lt_cons_nil;
      try done.
    rewrite !CZString_lt_cons.
    destruct (Z.lt_trichotomy x y) as [|[->|]]; destruct (Z.lt_trichotomy y z) as [|[<-|]]; zbool;
      try done. apply IH.
  - induction k1 as [|x a IH]; intros [|y b]; rewrite ?CZString_lt_nil, ?CZString_lt_cons_nil;
      try done.
    rewrite !CZString_lt_cons.
    destruct (Z.lt_trichotomy x y) as [|[->|]]; zbool; try done. intros. f_equal. by apply IH.
Qed.

Lemma CZString_short s : Z.of_nat (length s) < 2 ^ 30 -> CZString s = s.
Proof.
  intros Hs. unfold CZString. change 0x3FFFFFFF with (Z.ones 30).
  rewrite Z.land_ones, Z.mod_small by lia. rewrite Nat2Z.id. apply firstn_all.
Qed.

Lemma CZString_eq_spec a b : CZString_eq a b = true <-> a = b.
Proof.
  unfold CZString_eq. destruct (Nat.eqb_spec (length a) (length b)) as [Hl|Hl]; simpl.
  - revert b Hl. induction a as [|x a IH]; intros [|y b]; simpl; intros Hl; try done.
    destruct (Z.lt_trichotomy x y) as [|[->|]]; zbool; simpl; try (split; [done|intros [=]; lia]).
    rewrite IH by lia. split; [by intros ->|by intros [= ->]].
  - split; [done|]. by intros ->.
Qed.

Lemma CZString_bytes s : Forall byte_ok s -> Forall byte_ok (CZString s).
Proof. apply Forall_take. Qed.

#[export] Hint Resolve CZString_bytes : esp.

(** ** The invariant *)

Lemma wf_unfold v :
  wf v <->
  match value_ v with
  | PInt i => in_s 64 i
  | PUInt u => in_u 64 u
  | PString s => Forall byte_ok s
  | PArray m => om_sorted m /\ Forall (fun kv => in_u 32 kv.1) m /\ Forall (fun kv => wf kv.2) m
  | PObject m =>
      om_sorted m /\ Forall (fun kv => Forall byte_ok kv.1) m /\ Forall (fun kv => wf kv.2) m
  | _ => True
  end.
Proof. destruct v as [[] c s l]; simpl; rewrite <- ?om_all_Forall; done. Qed.

Lemma wf_null : wf Value_null.
Proof. exact I. Qed.

(** The invariant looks at the payload only. *)
Lemma wf_payload v v' : value_ v = value_ v' -> wf v <-> wf v'.
Proof. intros H. rewrite !wf_unfold, H. done. Qed.

Lemma wf_set_payload p v : wf (set_payload p v) <-> wf (initBasic p).
Proof. by apply wf_payload. Qed.

Definition wf_amap (m : list (Z * Value)) : Prop :=
  om_sorted m /\ Forall (fun kv => in_u 32 kv.1) m /\ Forall (fun kv => wf kv.2) m.
Definition wf_omap (m : list (bytes * Value)) : Prop :=
  om_sorted m /\ Forall (fun kv => Forall byte_ok kv.1) m /\ Forall (fun kv => wf kv.2) m.

Lemma wf_array m v : wf_amap m <-> wf (set_payload (PArray m) v).
Proof. by rewrite (wf_unfold (set_payload _ _)). Qed.
Lemma wf_object m v : wf_omap m <-> wf (set_payload (PObject m) v).
Proof. by rewrite (wf_unfold (set_payload _ _)). Qed.

Lemma wf_as_array v : wf v -> wf (as_array v).
Proof. unfold as_array. destruct (isNull v); [|done]. done. Qed.
Lemma wf_as_object v : wf v -> wf (as_object v).
Proof. unfold as_object. destruct (isNull v); [|done]. done. Qed.

Lemma wf_array_map v : wf v -> wf_amap (array_map v).
Proof.
  rewrite wf_unfold. unfold array_map. destruct (value_ v); try done;
    intros _; repeat split; constructor.
Qed.
Lemma wf_object_map v : wf v -> wf_omap (object_map v).
Proof.
  rewrite wf_unfold. unfold object_map. destruct (value_ v); try done;
    intros _; repeat split; constructor.
Qed.

Section wf_map.
Context {K : Type} `{KeyOrdLaws K} (Q : K -> Prop).
Definition wf_map (m : list (K * Value)) : Prop :=
  om_sorted m /\ Forall (fun kv => Q kv.1) m /\ Forall (fun kv => wf kv.2) m.

Lemma wf_map_emplace k v m : Q k -> wf v -> wf_map m -> wf_map (om_emplace k v m).
Proof.
  intros Hk Hv (Hs & Hq & Hw).
  split_and!; [by apply om_emplace_sorted|by apply om_emplace_Forall..].
Qed.

Lemma wf_map_erase k m : wf_map m -> wf_map (om_erase k m).
Proof.
  intros (Hs & Hq & Hw). split_and!; [by apply om_erase_sorted|by apply om_erase_Forall..].
Qed.

Lemma om_alter_Forall_val k f m :
  (forall v, wf v -> wf (f v)) ->
  Forall (fun kv => wf kv.2) m -> Forall (fun kv => wf kv.2) (om_alter k f m).
Proof.
  intros Hf. induction 1 as [|[k' v] m Hv Hm IH]; simpl; [done|].
  destruct (key_eqb k k'); constructor; simpl in *; auto.
Qed.

Lemma wf_map_alter k f m : (forall v, wf v -> wf (f v)) -> wf_map m -> wf_map (om_alter k f m).
Proof.
  intros Hf (Hs & Hq & Hw).
  split_and!; [by apply om_alter_sorted|by apply om_alter_Forall_key|by apply om_alter_Forall_val].
Qed.

Lemma wf_map_find k v m : wf_map m -> om_find k m = Some v -> wf v.
Proof.
  intros (_ & _ & Hw) Hf%om_find_elem. rewrite Forall_forall in Hw. exact (Hw _ Hf).
Qed.

Lemma wf_map_default k m : wf_map m -> wf (default Value_null (om_find k m)).
Proof.
  intros Hm. destruct (om_find k m) eqn:E; [|exact wf_null]. by eapply wf_map_find.
Qed.
End wf_map.

#[export] Hint Resolve wf_null wf_as_array wf_as_object wf_array_map wf_object_map wf_map_emplace
  wf_map_erase wf_map_alter wf_map_default : esp.

Lemma wf_write_index i f v : (forall w, wf w -> wf (f w)) -> wf v -> wf (write_index i f v).
Proof.
  intros Hf Hv. pose proof Hv as Hv'. rewrite wf_unfold in Hv'. unfold write_index.
  destruct (value_ v); try done. apply wf_array. by apply (wf_map_alter (in_u 32)).
Qed.

Lemma wf_write_key k f v : (forall w, wf w -> wf (f w)) -> wf v -> wf (write_key k f v).
Proof.
  intros Hf Hv. pose proof Hv as Hv'. rewrite wf_unfold in Hv'. unfold write_key.
  destruct (value_ v); try done. apply wf_object. by apply (wf_map_alter (Forall byte_ok)).
Qed.

Lemma wf_index_ref i v v' : index_ref i v = Ret v' -> in_u 32 i -> wf v -> wf v'.
Proof.
  unfold index_ref. intros [_ [= <-]]%json_assert_bind Hi Hv.
  apply wf_array. apply (wf_map_emplace (in_u 32)); eauto with esp. apply wf_array_map. eauto with esp.
Qed.

Lemma wf_resolveReference k v v' : Forall byte_ok k -> wf v -> resolveReference k v = Ret v' -> wf v'.
Proof.
  unfold resolveReference. intros Hk Hv [_ [= <-]]%json_assert_bind.
  apply wf_object. apply (wf_map_emplace (Forall byte_ok)); eauto with esp.
  apply wf_object_map. eauto with esp.
Qed.

Lemma wf_clear v v' : wf v -> clear v = Ret v' -> wf v'.
Proof.
  unfold clear. intros Hv [_ [= <-]]%json_assert_bind.
  simpl. destruct (value_ v) eqn:E; try by apply (wf_payload v).
  - apply wf_array. repeat split; constructor.
  - apply wf_object. repeat split; constructor.
Qed.

Lemma size_range v : in_u 32 (size v).
Proof.
  unfold size, in_u, u32. destruct (value_ v); try (split; [done|reflexivity]).
  - destruct (om_last _) as [[i ?]|]; [|split; [done|reflexivity]]. apply Z.mod_pos_bound. done.
  - apply Z.mod_pos_bound. done.
Qed.

Lemma wf_resize_grow n i v v' :
  0 <= i -> i + Z.of_nat n < 2 ^ 32 -> wf v -> resize_grow n i v = Ret v' -> wf v'.
Proof.
  revert i v. induction n as [|n IH]; intros i v Hi Hn Hv; simpl.
  { by intros [= <-]. }
  intros H. inv_ret H. eapply IH; [| | |exact H]; [lia..|].
  eapply wf_index_ref; [done| |exact Hv]. unfold in_u. lia.
Qed.

Lemma wf_erase_range n i m : wf_amap m -> wf_amap (erase_range n i m).
Proof.
  revert i m. induction n as [|n IH]; intros i m Hm; simpl; [done|].
  apply IH. by apply (wf_map_erase (in_u 32)).
Qed.

Lemma wf_resize n v v' : in_u 32 n -> wf v -> resize n v = Ret v' -> wf v'.
Proof.
  unfold resize. intros Hn Hv [_ H]%json_assert_bind.
  destruct (n =? 0). { eapply wf_clear; [|exact H]. by apply wf_as_array. }
  pose proof (size_range (as_array v)) as Hs. unfold in_u in *.
  destruct (_ <? _) eqn:E; bool_to_prop.
  - eapply wf_resize_grow; [| | |exact H]; [lia|lia|]. by apply wf_as_array.
  - apply json_assert_bind in H as [_ [= <-]]. apply wf_array, wf_erase_range.
    apply wf_array_map. by apply wf_as_array.
Qed.

Lemma wf_append w v v' : wf w -> wf v -> append w v = Ret v' -> wf v'.
Proof.
  unfold append. intros Hw Hv [_ [= <-]]%json_assert_bind. apply wf_array.
  apply (wf_map_emplace (in_u 32)); [apply size_range|done|]. apply wf_array_map. by apply wf_as_array.
Qed.

Lemma wf_move_node i j v v' :
  in_u 32 i -> in_u 32 j -> wf v -> move_node i j v = Ret v' -> wf v'.
Proof.
  unfold move_node. intros Hi Hj Hv H. inv_ret H. simpl in H. injection H as <-.
  assert (wf a) by by eapply wf_index_ref.
  assert (Hw : wf a0) by by eapply wf_index_ref.
  pose proof (wf_array_map _ Hw) as Hm.
  apply wf_write_index; [|apply wf_write_index; [|done]]; intros _ _;
    by apply (wf_map_default (in_u 32)).
Qed.

Lemma wf_insert_shift n i v v' :
  Z.of_nat n <= i -> i < 2 ^ 32 -> wf v -> insert_shift n i v = Ret v' -> wf v'.
Proof.
  revert i v. induction n as [|n IH]; intros i v Hn Hi Hv; simpl.
  { by intros [= <-]. }
  intros H. inv_ret H. eapply IH; [| | |exact H]; [lia..|].
  eapply wf_move_node; [| |exact Hv|done]; unfold in_u; lia.
Qed.

Lemma wf_insert i w v b v' : in_u 32 i -> wf w -> wf v -> insert i w v = Ret (b, v') -> wf v'.
Proof.
  unfold insert. intros Hi Hw Hv [_ H]%json_assert_bind.
  pose proof (size_range v) as Hs. unfold in_u in *.
  destruct (size v <? i) eqn:E; [by injection H as <- <-|]. bool_to_prop.
  inv_ret H. injection H as <- <-. apply wf_write_index; [intros ? _; done|].
  eapply wf_index_ref; [done|done|].
  eapply wf_insert_shift; [| | |done]; [lia|lia|done].
Qed.

Lemma wf_remove_shift n i v v' :
  0 <= i -> i + Z.of_nat n < 2 ^ 32 -> wf v -> remove_shift n i v = Ret v' -> wf v'.
Proof.
  revert i v. induction n as [|n IH]; intros i v Hi Hn Hv; simpl.
  { by intros [= <-]. }
  intros H. inv_ret H.
  assert (wf a) by (eapply wf_index_ref; [done| |exact Hv]; unfold in_u; lia).
  assert (Hw : wf a0) by (eapply wf_index_ref; [done| |done]; unfold in_u; lia).
  eapply IH; [| | |exact H]; [lia..|].
  apply wf_write_index; [|done]. intros ? _. cbv [assign_copy swap snd].
  apply (wf_map_default (in_u 32)). by apply wf_array_map.
Qed.

Lemma wf_removeIndex i v b r v' :
  in_u 32 i -> wf v -> removeIndex i v = Ret (b, r, v') -> wf v'.
Proof.
  unfold removeIndex. intros Hi Hv H. destruct (value_ v); try by injection H as <- <- <-.
  destruct (om_find i map_); [|by injection H as <- <- <-].
  inv_ret H. pose proof (size_range v) as Hs. unfold in_u in *.
  assert (wf a).
  { eapply wf_remove_shift; [| |exact Hv|done]; lia. }
  destruct (om_find _ _); [|done]. injection H as <- <- <-.
  apply wf_array. apply (wf_map_erase (in_u 32)). by apply wf_array_map.
Qed.

Lemma wf_set_key k w v v' :
  Forall byte_ok k -> wf w -> wf v -> set_key k w v = Ret v' -> wf v'.
Proof.
  unfold set_key. intros Hk Hw Hv H. inv_ret H. injection H as <-.
  apply wf_write_key; [by intros ? _|]. by eapply wf_resolveReference.
Qed.

Lemma wf_removeMember k v b r v' : wf v -> removeMember k v = (b, r, v') -> wf v'.
Proof.
  unfold removeMember. intros Hv H. pose proof (wf_object_map _ Hv) as Hm. unfold object_map in Hm.
  destruct (value_ v) eqn:E; try by injection H as <- <- <-.
  destruct (om_find _ _); injection H as <- <- <-; [|done].
  apply wf_object. by apply (wf_map_erase (Forall byte_ok)).
Qed.

Lemma wf_removeMember_void k v v' : wf v -> removeMember_void k v = Ret v' -> wf v'.
Proof.
  unfold removeMember_void. intros Hv [_ H]%json_assert_bind.
  destruct (isNull v); injection H as <-; [done|].
  apply wf_object. apply (wf_map_erase (Forall byte_ok)). by apply wf_object_map.
Qed.

Lemma wf_setComment c p v v' : wf v -> setComment c p v = Ret v' -> wf v'.
Proof.
  unfold setComment. intros Hv H. apply json_assert_bind in H as [_ H].
  apply json_assert_bind in H as [_ [= <-]]. by apply (wf_payload v).
Qed.

Lemma mutation_wf v v' : wf v -> mutation v v' -> wf v'.
Proof.
  intros Hv H.
  inversion H as [i ? Hi E|i w ? Hw E|n ? Hn E|w ? Hw E|i w b ? Hi Hw E|i b r ? Hi E|k ? Hk E
                 |k w ? Hk Hw E|k b r ? E|k ? E|? E|c p ? E|s l ? E]; subst; clear H.
  - by eapply wf_index_ref.
  - by apply wf_write_index; [intros ? _|].
  - by eapply (wf_resize n v).
  - by eapply (wf_append w v).
  - by eapply (wf_insert i w v).
  - by eapply (wf_removeIndex i v).
  - by eapply (wf_resolveReference k v).
  - by eapply (wf_set_key k w v).
  - by eapply wf_removeMember.
  - by eapply wf_removeMember_void.
  - by eapply wf_clear.
  - by eapply wf_setComment.
  - by apply (wf_payload v).
Qed.

(** ** Properties *)

(** Whatever sequence of array, object, comment and offset operations is
    applied to a well-formed tree with arguments of their types, the result is
    well formed: the maps stay strictly sorted (so lookups see every node),
    array keys stay [ArrayIndex]es, names and strings stay byte strings and
    integers stay in the range of their tag, at every depth. *)
Theorem mutations_preserve_wf v v' : wf v -> rtc mutation v v' -> wf v'.
Proof. intros Hv. induction 1 as [|v w z Hm _ IH]; [done|]. apply IH. by eapply mutation_wf. Qed.

Lemma mutations_preserve_wf_witness :
  exists v', rtc mutation Value_null v' /\ wf v' /\ isArray v' = true.
Proof.
  pose (v1 := initBasic (PArray [(0, Value_int 5)])).
  assert (Hr : rtc mutation Value_null v1).
  { eapply rtc_l; [apply (mut_append _ (Value_int 5)); [by vm_compute|reflexivity]|]. apply rtc_refl. }
  exists v1. split_and!; [exact Hr| |reflexivity].
  apply (mutations_preserve_wf Value_null v1); [exact I|exact Hr].
Defined.

(** [asInt64] accepts the double 2^63, which is what [maxLargestInt] rounds
    to, and then converts it to [Int64], where it does not fit: undefined
    behaviour behind a range check; [isInt64] rejects the same value. *)
Lemma asInt64_2_63_undefined :
  isInt64 (Value_double (b64_of_Z (2 ^ 63))) = false /\
  exists msg, asInt64 (Value_double (b64_of_Z (2 ^ 63))) = Undef msg.
Proof. split; [vm_compute; reflexivity|]. eexists. vm_compute. reflexivity. Qed.
