(* ===== verification/JsonArray.v ===== *)
(** * The array and object interfaces of [Json::Value] as lists and finite maps

    On arrays without holes ([arr l v], the nodes [0 .. length l - 1]) the
    operations are those of lists; on objects they are those of a finite map
    from names, and both come with the aliasing and the missing-node creation
    of the code.  The operations on an array with holes are in the examples at
    the end. *)
From stdpp Require Import gmap.
From Stdlib Require Import ZifyBool.
From S2P Require Export JsonValueFacts.
Open Scope Z_scope.

(** ** Definitions *)

(** The operations on an array, as a client of the class calls them. *)
Inductive array_op :=
  | OAppend (w : Value)
  | OInsert (i : nat) (w : Value)
  | ORemove (i : nat)
  | OResize (n : nat)
  | OSet (i : nat) (w : Value)
  | OGet (i : nat).

(** What a call reports, and the array after it. *)
Definition array_run (o : array_op) (v : Value) : outcome ((bool * option Value) * Value) :=
  match o with
  | OAppend w => v' ← append w v; Ret ((true, None), v')
  | OInsert i w => '(b, v') ← insert (Z.of_nat i) w v; Ret ((b, None), v')
  | ORemove i => removeIndex (Z.of_nat i) v
  | OResize n => v' ← resize (Z.of_nat n) v; Ret ((true, None), v')
  | OSet i w =>
      v' ← index_ref (Z.of_nat i) v;
      Ret ((true, None), write_index (Z.of_nat i) (fun _ => w) v')
  | OGet i => r ← index_const (Z.of_nat i) v; Ret ((true, Some r), v)
  end.

(** The same on lists. *)
Definition list_run (o : array_op) (l : list Value) : (bool * option Value) * list Value :=
  match o with
  | OAppend w => ((true, None), l ++ [w])
  | OInsert i w =>
      if decide (i <= length l)%nat then ((true, None), take i l ++ w :: drop i l)
      else ((false, None), l)
  | ORemove i =>
      match l !! i with
      | Some x => ((true, Some x), take i l ++ drop (S i) l)
      | None => ((false, None), l)
      end
  | OResize n => ((true, None), take n l ++ replicate (n - length l) Value_null)
  | OSet i w => ((true, None), take i l ++ w :: drop (S i) l)
  | OGet i => ((true, Some (default Value_null (l !! i))), l)
  end.

(** Indices are of type [ArrayIndex], and no hole is made. *)
Definition op_ok (o : array_op) (l : list Value) : Prop :=
  Z.of_nat (length (list_run o l).2) < 2 ^ 32 /\
  match o with OSet i _ => (i <= length l)%nat | _ => True end.

Fixpoint array_runs (os : list array_op) (v : Value) : outcome (list (bool * option Value) * Value) :=
  match os with
  | [] => Ret ([], v)
  | o :: os' =>
      '(r, v') ← array_run o v;
      '(rs, v'') ← array_runs os' v';
      Ret (r :: rs, v'')
  end.

Fixpoint list_runs (os : list array_op) (l : list Value) : list (bool * option Value) * list Value :=
  match os with
  | [] => ([], l)
  | o :: os' =>
      let '(r, l') := list_run o l in
      let '(rs, l'') := list_runs os' l' in
      (r :: rs, l'')
  end.

Fixpoint ops_ok (os : list array_op) (l : list Value) : Prop :=
  match os with
  | [] => True
  | o :: os' => op_ok o l /\ ops_ok os' (list_run o l).2
  end.

(** The object as a finite map. *)
Definition obj_view (v : Value) : gmap bytes Value := list_to_map (object_map v).

(** ** The nodes of an array *)

Lemma arr_from_app k l1 l2 :
  arr_from k (l1 ++ l2) = arr_from k l1 ++ arr_from (k + Z.of_nat (length l1)) l2.
Proof.
  revert k. induction l1 as [|x l1 IH]; intros k; simpl; [by rewrite Z.add_0_r|].
  rewrite IH. do 2 f_equal. f_equal. lia.
Qed.

Lemma arr_from_keys k l : Forall (fun kv => k <= kv.1 < k + Z.of_nat (length l)) (arr_from k l).
Proof.
  revert k. induction l as [|x l IH]; intros k; simpl; constructor; simpl; [lia|].
  eapply Forall_impl; [apply IH|]. simpl. lia.
Qed.

Lemma arr_from_sorted k l : om_sorted (arr_from k l).
Proof.
  revert k. induction l as [|x l IH]; intros k; simpl; [done|]. split; [|apply IH].
  eapply Forall_impl; [apply (arr_from_keys (k + 1))|]. intros [j v]. cbv [key_ltb Z_KeyOrd fst].
  intros. apply Z.ltb_lt. lia.
Qed.

Lemma om_find_arr_from k l j :
  om_find j (arr_from k l) = if k <=? j then l !! Z.to_nat (j - k) else None.
Proof.
  revert k. induction l as [|x l IH]; intros k; simpl.
  { by destruct (k <=? j). }
  destruct (Z.lt_trichotomy j k) as [|[->|]].
  - rewrite key_eqb_ne by lia. rewrite IH. by zbool.
  - rewrite key_eqb_refl. zbool. by rewrite Z.sub_diag.
  - rewrite key_eqb_ne by lia. rewrite IH. zbool.
    replace (Z.to_nat (j - k)) with (S (Z.to_nat (j - (k + 1)))) by lia. done.
Qed.

Lemma om_find_arr l (i : nat) : om_find (Z.of_nat i) (arr_from 0 l) = l !! i.
Proof. rewrite om_find_arr_from. zbool. by rewrite Z.sub_0_r, Nat2Z.id. Qed.

Lemma om_emplace_arr_end w l : om_emplace (Z.of_nat (length l)) w (arr_from 0 l) = arr_from 0 (l ++ [w]).
Proof.
  rewrite om_emplace_last; [by rewrite arr_from_app|].
  eapply Forall_impl; [apply arr_from_keys|]. intros [j v]. cbv [key_ltb Z_KeyOrd fst].
  intros. apply Z.ltb_lt. lia.
Qed.

Lemma om_emplace_arr_in (i : nat) w l :
  (i < length l)%nat -> om_emplace (Z.of_nat i) w (arr_from 0 l) = arr_from 0 l.
Proof.
  intros [x Hx]%lookup_lt_is_Some_2. apply (om_emplace_id _ _ x); [apply arr_from_sorted|].
  by rewrite om_find_arr.
Qed.

Lemma om_alter_arr_mid f l1 x l2 :
  om_alter (Z.of_nat (length l1)) f (arr_from 0 (l1 ++ x :: l2)) = arr_from 0 (l1 ++ f x :: l2).
Proof.
  rewrite !arr_from_app, om_alter_app.
  - simpl. by rewrite key_eqb_refl.
  - eapply Forall_impl; [apply arr_from_keys|]. intros [j v]. simpl. lia.
Qed.

Lemma om_erase_arr_last l x : om_erase (Z.of_nat (length l)) (arr_from 0 (l ++ [x])) = arr_from 0 l.
Proof.
  rewrite arr_from_app. generalize (arr_from_keys 0 l). generalize (arr_from 0 l). intros m Hm.
  induction Hm as [|[j v] m Hj _ IH]; simpl in *.
  - by rewrite key_eqb_refl.
  - rewrite key_eqb_ne by lia. by rewrite IH.
Qed.

Lemma last_arr_from k l :
  om_last (arr_from k l) = (fun x => (k + Z.of_nat (length l) - 1, x)) <$> last l.
Proof.
  revert k. induction l as [|x l IH]; intros k; [done|]. destruct l as [|y l].
  { change (Some (k, x) = Some (k + 1 - 1, x)). by rewrite Z.add_simpl_r. }
  change (om_last (arr_from (k + 1) (y :: l)) = (fun z => (k + Z.of_nat (length (x :: y :: l)) - 1, z)) <$> last (y :: l)).
  rewrite IH. change (length (x :: y :: l)) with (S (length (y :: l))).
  by replace (k + Z.of_nat (S (length (y :: l))) - 1) with (k + 1 + Z.of_nat (length (y :: l)) - 1)
    by lia.
Qed.

(** ** The operations on [arr l v] *)

#[local] Arguments arr : simpl never.
#[local] Arguments index_ref : simpl never.
#[local] Arguments write_index : simpl never.
#[local] Arguments move_node : simpl never.
#[local] Arguments size : simpl never.
#[local] Arguments Z.of_nat : simpl never.
#[local] Arguments Z.add : simpl never.

Lemma isArray_arr l v : isArray (arr l v) = true.
Proof. done. Qed.

Lemma array_map_arr l v : array_map (arr l v) = arr_from 0 l.
Proof. done. Qed.

Lemma arr_arr l1 l2 v : arr l1 (arr l2 v) = arr l1 v.
Proof. done. Qed.

Lemma size_arr l v : Z.of_nat (length l) < 2 ^ 32 -> size (arr l v) = Z.of_nat (length l).
Proof.
  intros Hl. unfold size, arr. simpl value_. cbv iota. rewrite last_arr_from.
  destruct (last l) as [x|] eqn:E; simpl.
  - unfold u32. rewrite Z.mod_small; lia.
  - by apply last_None in E as ->.
Qed.

Lemma index_ref_arr i l v :
  index_ref i (arr l v) = Ret (set_payload (PArray (om_emplace i Value_null (arr_from 0 l))) v).
Proof. reflexivity. Qed.

Lemma index_ref_arr_in (i : nat) l v :
  (i < length l)%nat -> index_ref (Z.of_nat i) (arr l v) = Ret (arr l v).
Proof. intros Hi. by rewrite index_ref_arr, om_emplace_arr_in. Qed.

Lemma index_ref_arr_end l v :
  index_ref (Z.of_nat (length l)) (arr l v) = Ret (arr (l ++ [Value_null]) v).
Proof. by rewrite index_ref_arr, om_emplace_arr_end. Qed.

Lemma write_index_arr f l1 x l2 v :
  write_index (Z.of_nat (length l1)) f (arr (l1 ++ x :: l2) v) = arr (l1 ++ f x :: l2) v.
Proof. unfold write_index, arr, set_payload. simpl. by rewrite om_alter_arr_mid. Qed.

Lemma lookup_mid {A} (l1 : list A) x l2 : (l1 ++ x :: l2) !! length l1 = Some x.
Proof. by rewrite lookup_app_r, Nat.sub_diag by lia. Qed.

(** [move_node] inside the array exchanges two neighbours. *)
Lemma move_node_arr_swap l1 y h l2 v :
  move_node (Z.of_nat (length l1) + 1) (Z.of_nat (length l1)) (arr (l1 ++ y :: h :: l2) v) =
  Ret (arr (l1 ++ h :: y :: l2) v).
Proof.
  replace (Z.of_nat (length l1) + 1) with (Z.of_nat (length (l1 ++ [y]))) by (rewrite length_app; simpl; lia).
  unfold move_node. rewrite index_ref_arr_in, Ret_bind by (rewrite length_app; simpl; lia).
  rewrite index_ref_arr_in, Ret_bind by (rewrite !length_app; simpl; lia).
  rewrite array_map_arr, !om_find_arr, lookup_mid.
  replace (l1 ++ y :: h :: l2) with ((l1 ++ [y]) ++ h :: l2) by by rewrite <- app_assoc.
  rewrite lookup_mid. cbv [assign_move swap default option_rect id]. rewrite write_index_arr.
  rewrite <- app_assoc. simpl app. by rewrite write_index_arr.
Qed.

(** At the end it makes a null node first. *)
Lemma move_node_arr_end l1 y v :
  move_node (Z.of_nat (length l1) + 1) (Z.of_nat (length l1)) (arr (l1 ++ [y]) v) =
  Ret (arr (l1 ++ [Value_null; y]) v).
Proof.
  rewrite <- (move_node_arr_swap l1 y Value_null []).
  replace (Z.of_nat (length l1) + 1) with (Z.of_nat (length (l1 ++ [y]))) by (rewrite length_app; simpl; lia).
  unfold move_node. rewrite !index_ref_arr_in, !Ret_bind by (rewrite length_app; simpl; lia).
  rewrite index_ref_arr_end, index_ref_arr_in, Ret_bind by (rewrite !length_app; simpl; lia).
  by rewrite <- app_assoc.
Qed.

(** The loop carries the hole [h] down to the place of insertion. *)
Lemma insert_shift_arr ys l1 h zs v :
  insert_shift (length ys) (Z.of_nat (length (l1 ++ ys))) (arr (l1 ++ ys ++ h :: zs) v) =
  Ret (arr (l1 ++ h :: ys ++ zs) v).
Proof.
  revert h zs. induction ys as [|y ys IH] using rev_ind; intros h zs; [done|].
  rewrite (length_app ys), Nat.add_comm. cbn [length Nat.add insert_shift].
  replace (Z.of_nat (length (l1 ++ ys ++ [y]))) with (Z.of_nat (length (l1 ++ ys)) + 1)
    by (rewrite !length_app; simpl; lia).
  rewrite Z.add_simpl_r.
  replace (l1 ++ (ys ++ [y]) ++ h :: zs) with ((l1 ++ ys) ++ y :: h :: zs) by by rewrite <- !app_assoc.
  rewrite move_node_arr_swap, Ret_bind, <- app_assoc, IH. by rewrite <- app_assoc.
Qed.

Lemma insert_shift_arr_end ys l1 v : ys <> [] ->
  insert_shift (length ys) (Z.of_nat (length (l1 ++ ys))) (arr (l1 ++ ys) v) =
  Ret (arr (l1 ++ Value_null :: ys) v).
Proof.
  destruct ys as [|y ys _] using rev_ind; [done|]. intros _.
  rewrite (length_app ys), Nat.add_comm. cbn [length Nat.add insert_shift].
  replace (Z.of_nat (length (l1 ++ ys ++ [y]))) with (Z.of_nat (length (l1 ++ ys)) + 1)
    by (rewrite !length_app; simpl; lia).
  rewrite Z.add_simpl_r, (app_assoc l1 ys [y]), move_node_arr_end, Ret_bind, <- app_assoc.
  by rewrite insert_shift_arr.
Qed.

Lemma insert_arr l1 l2 w v :
  Z.of_nat (length (l1 ++ l2)) < 2 ^ 32 ->
  insert (Z.of_nat (length l1)) w (arr (l1 ++ l2) v) = Ret (true, arr (l1 ++ w :: l2) v).
Proof.
  intros Hl. unfold insert. rewrite isArray_arr, orb_true_r. unfold json_assert. rewrite Ret_bind.
  rewrite size_arr by done. rewrite (proj2 (Z.ltb_ge _ _)) by (rewrite length_app; lia).
  replace (Z.to_nat (Z.of_nat (length (l1 ++ l2)) - Z.of_nat (length l1))) with (length l2)
    by (rewrite length_app; lia).
  assert (index_ref (Z.of_nat (length l1)) (arr (l1 ++ Value_null :: l2) v) =
          Ret (arr (l1 ++ Value_null :: l2) v)) as Hin.
  { apply index_ref_arr_in. rewrite length_app. simpl. lia. }
  destruct (decide (l2 = [])) as [->|Hne].
  - rewrite app_nil_r. cbn [insert_shift length]. rewrite Ret_bind, index_ref_arr_end, Ret_bind.
    by rewrite write_index_arr.
  - rewrite insert_shift_arr_end, Ret_bind, Hin, Ret_bind by done. by rewrite write_index_arr.
Qed.

Lemma remove_shift_arr ys l1 x v :
  remove_shift (length ys) (Z.of_nat (length l1)) (arr (l1 ++ x :: ys) v) =
  Ret (arr (l1 ++ ys ++ [default x (last ys)]) v).
Proof.
  revert l1 x. induction ys as [|y ys IH]; intros l1 x; [done|]. cbn [remove_shift length].
  replace (Z.of_nat (length l1) + 1) with (Z.of_nat (length (l1 ++ [x])))
    by (rewrite length_app; simpl; lia).
  rewrite index_ref_arr_in, Ret_bind by (rewrite !length_app; simpl; lia).
  rewrite index_ref_arr_in, Ret_bind by (rewrite !length_app; simpl; lia).
  rewrite array_map_arr, om_find_arr.
  replace (l1 ++ x :: y :: ys) with ((l1 ++ [x]) ++ y :: ys) by by rewrite <- app_assoc.
  rewrite lookup_mid, <- app_assoc. simpl app. rewrite write_index_arr.
  change (assign_copy x (default Value_null (Some y))) with y.
  replace (l1 ++ y :: y :: ys) with ((l1 ++ [y]) ++ y :: ys) by by rewrite <- app_assoc.
  replace (length (l1 ++ [x])) with (length (l1 ++ [y])) by by rewrite !length_app.
  rewrite IH, <- app_assoc. simpl app. do 5 f_equal. rewrite last_cons. by destruct (last ys).
Qed.

Lemma removeIndex_arr l1 x l2 v :
  Z.of_nat (length (l1 ++ x :: l2)) < 2 ^ 32 ->
  removeIndex (Z.of_nat (length l1)) (arr (l1 ++ x :: l2) v) = Ret (true, Some x, arr (l1 ++ l2) v).
Proof.
  intros Hl. unfold removeIndex. change (value_ (arr (l1 ++ x :: l2) v)) with
    (PArray (arr_from 0 (l1 ++ x :: l2))). cbv iota.
  rewrite om_find_arr, lookup_mid, size_arr by done.
  assert (Z.of_nat (length (l1 ++ x :: l2)) - 1 = Z.of_nat (length (l1 ++ l2))) as -> by
    (rewrite !length_app; simpl; lia).
  replace (Z.to_nat (_ - _)) with (length l2) by (rewrite length_app; lia).
  rewrite remove_shift_arr, Ret_bind, array_map_arr, app_assoc, om_find_arr, lookup_mid.
  do 2 f_equal. unfold arr, set_payload. simpl. by rewrite om_erase_arr_last.
Qed.

Lemma append_arr w l v : Z.of_nat (length l) < 2 ^ 32 -> append w (arr l v) = Ret (arr (l ++ [w]) v).
Proof.
  intros Hl. unfold append. rewrite isArray_arr, orb_true_r. unfold json_assert. rewrite Ret_bind.
  change (as_array (arr l v)) with (arr l v). rewrite size_arr, array_map_arr, om_emplace_arr_end by done.
  done.
Qed.

Lemma resize_grow_arr n l v :
  resize_grow n (Z.of_nat (length l)) (arr l v) = Ret (arr (l ++ replicate n Value_null) v).
Proof.
  revert l. induction n as [|n IH]; intros l; [by rewrite app_nil_r|].
  cbn [resize_grow replicate]. rewrite index_ref_arr_end, Ret_bind.
  replace (Z.of_nat (length l) + 1) with (Z.of_nat (length (l ++ [Value_null])))
    by (rewrite length_app; simpl; lia).
  rewrite IH, <- app_assoc. done.
Qed.

Lemma om_erase_app_ne {V} k (m1 m2 : list (Z * V)) :
  Forall (fun kv => kv.1 <> k) m1 -> om_erase k (m1 ++ m2) = m1 ++ om_erase k m2.
Proof.
  induction 1 as [|[k' v] m Hk _ IH]; simpl in *; [done|]. rewrite key_eqb_ne by done. by rewrite IH.
Qed.

Lemma erase_range_arr l2 l1 :
  erase_range (length l2) (Z.of_nat (length l1)) (arr_from 0 (l1 ++ l2)) = arr_from 0 l1.
Proof.
  rewrite arr_from_app. generalize (arr_from_keys 0 l1). rewrite !Z.add_0_l.
  generalize (arr_from 0 l1). intros m. generalize (Z.of_nat (length l1)). intros k Hm.
  revert k Hm. induction l2 as [|x l2 IH]; intros k Hm; simpl; [by rewrite app_nil_r|].
  rewrite om_erase_app_ne.
  - cbn [om_erase]. rewrite key_eqb_refl. apply IH. eapply Forall_impl; [exact Hm|]. simpl. lia.
  - eapply Forall_impl; [exact Hm|]. simpl. lia.
Qed.

(** [resize] to zero is [clear], which also resets the offsets. *)
Lemma resize_arr (n : nat) l v :
  Z.of_nat (length l) < 2 ^ 32 -> Z.of_nat n < 2 ^ 32 ->
  resize (Z.of_nat n) (arr l v) =
  Ret (arr (take n l ++ replicate (n - length l) Value_null)
           (if decide (n = O) then setOffsetLimit 0 (setOffsetStart 0 v) else v)).
Proof.
  intros Hl Hn. unfold resize. rewrite isArray_arr, orb_true_r. unfold json_assert. rewrite Ret_bind.
  change (as_array (arr l v)) with (arr l v). rewrite size_arr by done.
  destruct (decide (n = O)) as [->|Hn0]; [done|].
  rewrite (proj2 (Z.eqb_neq _ _)) by lia. destruct (decide (length l < n)%nat) as [Hlt|Hge].
  - rewrite (proj2 (Z.ltb_lt _ _)), take_ge by lia.
    replace (Z.to_nat _) with (n - length l)%nat by lia. apply resize_grow_arr.
  - rewrite (proj2 (Z.ltb_ge _ _)) by lia. rewrite array_map_arr.
    replace (n - length l)%nat with O by lia. rewrite app_nil_r.
    assert (erase_range (Z.to_nat (Z.of_nat (length l) - Z.of_nat n)) (Z.of_nat n) (arr_from 0 l) =
            arr_from 0 (take n l)) as ->.
    { replace (Z.to_nat _) with (length (drop n l)) by (rewrite length_drop; lia).
      pose proof (erase_range_arr (drop n l) (take n l)) as He.
      rewrite length_take, Nat.min_l, take_drop in He by lia. exact He. }
    change (set_payload (PArray (arr_from 0 (take n l))) (arr l v)) with (arr (take n l) v).
    rewrite size_arr by (rewrite length_take; lia). rewrite length_take, Nat.min_l by lia.
    by rewrite Z.eqb_refl.
Qed.

Lemma index_const_arr (i : nat) l v :
  index_const (Z.of_nat i) (arr l v) = Ret (default Value_null (l !! i)).
Proof. rewrite <- om_find_arr. done. Qed.

Lemma insert_arr_out i w l v :
  Z.of_nat (length l) < 2 ^ 32 -> Z.of_nat (length l) < i -> insert i w (arr l v) = Ret (false, arr l v).
Proof.
  intros Hl Hi. unfold insert. rewrite isArray_arr, orb_true_r. unfold json_assert. rewrite Ret_bind.
  by rewrite size_arr, (proj2 (Z.ltb_lt _ _)) by done.
Qed.

Lemma removeIndex_arr_out (i : nat) l v :
  (length l <= i)%nat -> removeIndex (Z.of_nat i) (arr l v) = Ret (false, None, arr l v).
Proof.
  intros Hi. unfold removeIndex. change (value_ (arr l v)) with (PArray (arr_from 0 l)). cbv iota.
  by rewrite om_find_arr, lookup_ge_None_2.
Qed.

(** One operation: the array and the list step together. *)
Lemma array_run_list o l v : Z.of_nat (length l) < 2 ^ 32 -> op_ok o l ->
  exists v', array_run o (arr l v) = Ret ((list_run o l).1, arr (list_run o l).2 v').
Proof.
  intros Hl [Hlen Ho]. destruct o as [w|i w|i|n|i w|i]; cbn [array_run list_run fst snd] in *.
  - exists v. by rewrite append_arr.
  - exists v. destruct (decide (i <= length l)%nat) as [Hi|Hi].
    + replace (Z.of_nat i) with (Z.of_nat (length (take i l))) by (rewrite length_take; lia).
      rewrite <- (take_drop i l) at 2. by rewrite insert_arr by by rewrite take_drop.
    + by rewrite insert_arr_out by lia.
  - exists v. destruct (l !! i) as [x|] eqn:E.
    + pose proof (take_drop_middle _ _ _ E) as Hm.
      replace (Z.of_nat i) with (Z.of_nat (length (take i l))) by
        (apply lookup_lt_Some in E; rewrite length_take; lia).
      rewrite <- Hm at 2. by rewrite removeIndex_arr by by rewrite Hm.
    + apply removeIndex_arr_out. by apply lookup_ge_None.
  - rewrite length_app, length_take, length_replicate in Hlen.
    assert (Z.of_nat n < 2 ^ 32) as Hn by lia. rewrite resize_arr by done. by eexists.
  - exists v. destruct (decide (i = length l)) as [->|Hne].
    + rewrite index_ref_arr_end, Ret_bind, take_ge, drop_ge by lia. by rewrite write_index_arr.
    + destruct (lookup_lt_is_Some_2 l i) as [x E]; [lia|]. rewrite index_ref_arr_in, Ret_bind by lia.
      rewrite <- (take_drop_middle _ _ _ E) at 1.
      replace (Z.of_nat i) with (Z.of_nat (length (take i l))) by (rewrite length_take; lia).
      by rewrite write_index_arr.
  - exists v. by rewrite index_const_arr.
Qed.

(** ** Objects *)

Lemma obj_view_lookup v k : wf v -> obj_view v !! k = om_find k (object_map v).
Proof.
  intros (Hs & _ & _)%wf_object_map. unfold obj_view.
  pose proof (om_sorted_NoDup _ Hs) as Hnd. unfold om_keys in Hnd.
  destruct (om_find k (object_map v)) as [w|] eqn:E.
  - apply elem_of_list_to_map_1; [done|]. by apply om_find_elem.
  - apply not_elem_of_list_to_map_1. intros [[k' w] [Hk Hin]]%list_elem_of_fmap. simpl in Hk. subst k'.
    rewrite (om_find_In k w) in E by done. discriminate.
Qed.

Lemma resolveReference_view k v v' :
  wf v -> Forall byte_ok k -> Z.of_nat (length k) < 2 ^ 30 -> resolveReference k v = Ret v' ->
  obj_view v' = if decide (is_Some (obj_view v !! k)) then obj_view v else <[k := Value_null]> (obj_view v).
Proof.
  intros Hv Hk Hl Hr. assert (Hw : wf v') by by eapply wf_resolveReference.
  assert (object_map v' = om_emplace k Value_null (object_map v)) as Hm.
  { unfold resolveReference in Hr. rewrite CZString_short in Hr by done.
    apply json_assert_bind in Hr as [Ht [= <-]]. unfold as_object. simpl.
    destruct (isNull v) eqn:En; [|done]. unfold isNull, type in En. unfold object_map.
    by destruct (value_ v). }
  assert (om_sorted (object_map v)) as Hs by by apply wf_object_map in Hv as (? & _ & _).
  apply map_eq. intros j. rewrite (obj_view_lookup v') by done. rewrite Hm.
  destruct (decide (j = k)) as [->|Hne].
  - rewrite om_find_emplace_eq by done. destruct (decide _) as [[w E]|Hn].
    + rewrite E. rewrite obj_view_lookup in E by done. by rewrite E.
    + rewrite lookup_insert_eq. rewrite obj_view_lookup in Hn by done.
      destruct (om_find k (object_map v)); [|done]. destruct Hn. by eexists.
  - rewrite om_find_emplace_ne by done. rewrite <- obj_view_lookup by done.
    destruct (decide _); [done|]. by rewrite lookup_insert_ne.
Qed.

(** Assigning to a member. *)
Lemma set_key_view k w v v' :
  wf v -> wf w -> Forall byte_ok k -> Z.of_nat (length k) < 2 ^ 30 -> set_key k w v = Ret v' ->
  obj_view v' = <[k := w]> (obj_view v).
Proof.
  intros Hv Hw Hk Hl Hs. assert (Hv' : wf v') by by eapply (wf_set_key k w v).
  unfold set_key in Hs. apply bind_Ret_inv in Hs as (u & Hu & Hs).
  assert (v' = write_key (CZString k) (fun _ => w) u) as -> by (by injection Hs).
  assert (Hwu : wf u) by by eapply (wf_resolveReference k v).
  pose proof (resolveReference_view k v u Hv Hk Hl Hu) as Hvu.
  assert (object_map (write_key (CZString k) (fun _ => w) u) =
          om_alter k (fun _ => w) (object_map u)) as Hm.
  { rewrite CZString_short by done. destruct u as [[] ? ? ?]; done. }
  apply map_eq. intros j. rewrite obj_view_lookup by done. rewrite Hm.
  destruct (decide (j = k)) as [->|Hne].
  - rewrite om_find_alter_eq, lookup_insert_eq, <- obj_view_lookup, Hvu by done.
    destruct (decide _) as [[x E]|Hn]; [by rewrite E|by rewrite lookup_insert_eq].
  - rewrite om_find_alter_ne, lookup_insert_ne, <- obj_view_lookup, Hvu by done.
    destruct (decide _); [done|]. by rewrite lookup_insert_ne.
Qed.

Lemma removeMember_view k v b r v' :
  wf v -> Z.of_nat (length k) < 2 ^ 30 -> isObject v = true -> removeMember k v = (b, r, v') ->
  r = obj_view v !! k /\ b = bool_decide (is_Some r) /\ obj_view v' = delete k (obj_view v).
Proof.
  intros Hv Hl Ho Hr. assert (Hv' : wf v') by by eapply wf_removeMember.
  assert (om_sorted (object_map v)) as Hs by by apply wf_object_map in Hv as (? & _ & _).
  rewrite obj_view_lookup by done. unfold removeMember in Hr. rewrite CZString_short in Hr by done.
  assert (exists m, value_ v = PObject m /\ object_map v = m) as (m & Hm & Hm').
  { unfold isObject, type in Ho. unfold object_map. destruct (value_ v); try discriminate. by eexists. }
  rewrite Hm in Hr. rewrite <- Hm' in Hr.
  assert (b = bool_decide (is_Some r) /\ r = om_find k (object_map v) /\
          object_map v' = om_erase k (object_map v)) as (Hb & Hrr & Hmv).
  { destruct (om_find k (object_map v)) eqn:E; injection Hr as <- <- <-; [done|].
    split_and!; [done..|]. by rewrite om_erase_notin. }
  split_and!; [done..|]. apply map_eq. intros j. rewrite obj_view_lookup, Hmv by done.
  destruct (decide (j = k)) as [->|Hne].
  - by rewrite om_find_erase_eq, lookup_delete_eq.
  - by rewrite om_find_erase_ne, lookup_delete_ne, obj_view_lookup.
Qed.

(** ** Properties *)

(** C19: on an array without holes, every sequence of [append], [insert],
    [removeIndex], [resize], [v[i] = w] and [v[i]] that makes no hole runs
    without abort, reports and leaves exactly what the same operations on the
    list of its elements do, at every index, in range or not. *)
Theorem array_refines_list os l v :
  Z.of_nat (length l) < 2 ^ 32 -> ops_ok os l ->
  exists v', array_runs os (arr l v) = Ret ((list_runs os l).1, arr (list_runs os l).2 v').
Proof.
  revert l v. induction os as [|o os IH]; intros l v Hl Hos; [by exists v|].
  destruct Hos as [Ho Hos]. destruct (array_run_list o l v Hl Ho) as [v1 E1].
  destruct (IH (list_run o l).2 v1) as [v2 E2]; [apply Ho|done|].
  exists v2. cbn [array_runs list_runs]. rewrite E1, Ret_bind.
  destruct (list_run o l) as [r l1]. cbn [fst snd] in *. rewrite E2, Ret_bind.
  by destruct (list_runs os l1).
Qed.

Definition demo_ops : list array_op :=
  [OAppend (Value_int 7); OInsert 0 (Value_int 1); OInsert 9 (Value_int 2); OResize 4; ORemove 1;
   OSet 3 (Value_bool true); OGet 0; ORemove 5].

Lemma array_refines_list_witness :
  exists v', array_runs demo_ops (arr [] Value_null) =
    Ret ([(true, None); (true, None); (false, None); (true, None); (true, Some (Value_int 7));
          (true, None); (true, Some (Value_int 1)); (false, None)],
         arr [Value_int 1; Value_null; Value_null; Value_bool true] v').
Proof.
  apply (array_refines_list demo_ops [] Value_null); [done|].
  repeat split; try (vm_compute; lia); exact I.
Defined.

Lemma find_view k v :
  wf v -> Z.of_nat (length k) < 2 ^ 30 -> isObject v = true -> find k v = Ret (obj_view v !! k).
Proof.
  intros Hv Hl Ho. rewrite obj_view_lookup by done. unfold find.
  rewrite Ho, orb_true_r, CZString_short by done. unfold json_assert. rewrite Ret_bind.
  assert (isNull v = false) as ->; [|done].
  unfold isObject, isNull, type in *. by destruct (value_ v).
Qed.

(** C20: on a well-formed object the named interface is that of a finite map:
    [find] looks the name up, [v[k] = w] binds [k] to [w] and leaves the other
    members, [v[k]] on its own binds a missing [k] to null, and [removeMember]
    tells whether [k] was there, gives its value back and unbinds [k] only. *)
Theorem object_refines_map k w v :
  wf v -> wf w -> Forall byte_ok k -> Z.of_nat (length k) < 2 ^ 30 -> isObject v = true ->
  find k v = Ret (obj_view v !! k) /\
  (exists v1, set_key k w v = Ret v1 /\ obj_view v1 = <[k := w]> (obj_view v)) /\
  (exists v2, removeMember k v = (bool_decide (is_Some (obj_view v !! k)), obj_view v !! k, v2) /\
              obj_view v2 = delete k (obj_view v)) /\
  (exists v3, resolveReference k v = Ret v3 /\
              obj_view v3 = if decide (is_Some (obj_view v !! k)) then obj_view v
                            else <[k := Value_null]> (obj_view v)).
Proof.
  intros Hv Hw Hk Hl Ho. assert (exists v3, resolveReference k v = Ret v3) as [v3 H3].
  { unfold resolveReference. rewrite Ho, orb_true_r. by eexists. }
  split_and!; [by apply find_view| | |].
  - assert (exists v1, set_key k w v = Ret v1) as [v1 H1] by (unfold set_key; rewrite H3; by eexists).
    exists v1. split; [done|by eapply (set_key_view k w)].
  - destruct (removeMember k v) as [[b r] v2] eqn:H2.
    destruct (removeMember_view k v b r v2 Hv Hl Ho H2) as (Hr & Hb & Hd).
    exists v2. split; [by rewrite <- Hr, <- Hb|done].
  - exists v3. split; [done|by eapply resolveReference_view].
Qed.

Definition demo_object : Value :=
  initBasic (PObject [(STR "a", Value_int 1); (STR "b", Value_bool true)]).

Lemma demo_object_wf : wf demo_object.
Proof. repeat split; repeat constructor; vm_compute; try done; lia. Qed.

Lemma object_refines_map_witness :
  find (STR "b") demo_object = Ret (Some (Value_bool true)) /\
  exists v2, removeMember (STR "b") demo_object = (true, Some (Value_bool true), v2) /\
             obj_view v2 = delete (STR "b") (obj_view demo_object).
Proof.
  destruct (object_refines_map (STR "b") Value_null demo_object) as (Hf & _ & H2 & _).
  - exact demo_object_wf.
  - exact I.
  - repeat constructor; unfold byte_ok; lia.
  - done.
  - done.
  - split; [exact Hf|exact H2].
Defined.

(** The array operations outside that discipline.  [operator[]] makes the node
    it is asked for and no other, so an index past the end leaves holes. *)
Definition sparse : outcome Value := index_ref 3 (Value_ofType arrayValue).

Lemma sparse_value :
  sparse = Ret (initBasic (PArray [(3, Value_null)])) /\
  size (initBasic (PArray [(3, Value_null)])) = 4.
Proof. done. Qed.

Lemma erase_range_find c i j (m : list (Z * Value)) :
  om_sorted m ->
  om_find j (erase_range c i m) =
  if (i <=? j) && (j <? i + Z.of_nat c) then None else om_find j m.
Proof.
  revert i m. induction c as [|c IH]; intros i m Hs; cbn [erase_range].
  { destruct (_ && _) eqn:E; [|done]. bool_to_prop. lia. }
  rewrite IH by by apply om_erase_sorted. destruct (decide (j = i)) as [->|Hne].
  - rewrite om_find_erase_eq by done. rewrite Z.leb_refl, (proj2 (Z.ltb_lt i (i + Z.of_nat (S c)))) by lia.
    by destruct (_ && _).
  - rewrite om_find_erase_ne by done. destruct (_ && _) eqn:E1, (_ && _) eqn:E2 in |- *; try done; lia.
Qed.

Lemma erase_range_sorted c i m : om_sorted m -> om_sorted (erase_range c i m).
Proof.
  revert i m. induction c as [|c IH]; intros i m Hs; [done|]. apply IH. by apply om_erase_sorted.
Qed.

Lemma last_elem_of {A} (l : list A) x : last l = Some x -> x ∈ l.
Proof.
  intros [l' ->]%last_Some. apply elem_of_app. right. by apply list_elem_of_here.
Qed.

Lemma sorted_last_max (m : list (Z * Value)) k y i x :
  om_sorted m -> om_last m = Some (k, y) -> (i, x) ∈ m -> i <= k.
Proof.
  intros Hs [l' ->]%last_Some Hin. apply om_sorted_app in Hs as (_ & _ & Hall).
  apply elem_of_app in Hin as [Hin|Hin].
  - rewrite Forall_forall in Hall. specialize (Hall _ Hin). apply Forall_cons in Hall as [Hlt _].
    cbv [key_ltb Z_KeyOrd fst] in Hlt. bool_to_prop. lia.
  - apply elem_of_cons in Hin as [[= -> _]|Hin]; [lia|by apply not_elem_of_nil in Hin].
Qed.

(** Shrinking an array whose last remaining index is a hole ends in the
    failed assertion [size() == newSize]: [v[3]] on an empty array, then
    [v.resize(2)], aborts, and so does every shrink to [n] where node [n - 1]
    was never made. *)
Theorem resize_hole_aborts n m v :
  value_ v = PArray m -> om_sorted m -> Forall (fun kv => in_u 32 kv.1) m ->
  0 < n <= size v -> om_find (n - 1) m = None -> is_abort (resize n v) = true.
Proof.
  intros Hv Hs Hr Hn Hf. assert (isArray v = true) as Ha by (unfold isArray, type; by rewrite Hv).
  assert (as_array v = v) as Has by (unfold as_array, isNull, type; by rewrite Hv).
  unfold resize. rewrite Ha, orb_true_r. unfold json_assert. rewrite Ret_bind, Has.
  rewrite (proj2 (Z.eqb_neq _ _)), (proj2 (Z.ltb_ge _ _)) by lia.
  unfold array_map. rewrite Hv.
  set (m' := erase_range _ _ m).
  assert (size (set_payload (PArray m') v) <> n) as Hne%Z.eqb_neq; [|by rewrite Hne].
  unfold size at 1. simpl value_. cbv iota. destruct (om_last m') as [[i x]|] eqn:El; [|lia].
  assert (om_find i m' = Some x) as Hi.
  { apply om_find_In; [by apply erase_range_sorted|]. by apply last_elem_of. }
  subst m'. rewrite erase_range_find in Hi by done.
  destruct (_ && _) eqn:Eb; [done|]. bool_to_prop.
  pose proof (om_find_elem _ _ _ Hi) as Hin. rewrite Forall_forall in Hr. pose proof Hr as Hr'.
  specialize (Hr _ Hin). simpl in Hr. unfold in_u in Hr.
  unfold size in Hn, Eb. rewrite Hv in Hn, Eb. destruct (om_last m) as [[k y]|] eqn:Em; [|lia].
  pose proof (sorted_last_max _ _ _ _ _ Hs Em Hin) as Hle.
  unfold u32 in *. assert (i <> n - 1) by congruence.
  assert (k + 1 = 2 ^ 32 \/ (k + 1) mod 2 ^ 32 = k + 1) as [Hk|Hk].
  { assert (in_u 32 k) as Hk. { apply last_elem_of in Em. apply (Hr' _ Em). }
    unfold in_u in Hk. destruct (Z.eq_dec (k + 1) (2 ^ 32)); [by left|right].
    apply Z.mod_small. lia. }
  - rewrite Hk, Z.mod_same in Hn; lia.
  - assert (k + 1 < 2 ^ 32) by (rewrite <- Hk; by apply Z.mod_pos_bound).
    rewrite Hk in Hn, Eb. rewrite (Z.mod_small (i + 1)) by lia. lia.
Qed.

Lemma resize_hole_aborts_witness :
  is_abort (resize 2 (initBasic (PArray [(3, Value_null)]))) = true.
Proof.
  apply (resize_hole_aborts 2 [(3, Value_null)]).
  - done.
  - by repeat constructor.
  - repeat constructor; vm_compute; done.
  - vm_compute. by split.
  - done.
Defined.
