(* ===== verification/JsonReader.v ===== *)
(** * [Json::Reader] (json_reader.cpp, reader.h, json_features.h)

    The recursive-descent parser, function by function.  A [Location] is an
    offset from [begin_]; the text still to read is [drop current_ document_].
    [Value*] is a path from the root: the nodes of a [std::map] do not move, so
    a pointer taken with [operator[]] designates the same node until it is
    erased, and a path that leads nowhere is a dangling pointer ([Undef]).
    Recursion and the loops that are not structural take fuel;
    JsonReaderFacts.v proves it is enough. *)
From S2P Require Export JsonValue.
Open Scope Z_scope.

(** ** Data *)

Record Features := {
  allowComments_ : bool;
  strictRoot_ : bool;
  allowDroppedNullPlaceholders_ : bool;
  allowNumericKeys_ : bool;
}.

Definition Features_all : Features :=
  {| allowComments_ := true; strictRoot_ := false; allowDroppedNullPlaceholders_ := false;
     allowNumericKeys_ := false |}.

Definition Features_strictMode : Features :=
  {| allowComments_ := false; strictRoot_ := true; allowDroppedNullPlaceholders_ := false;
     allowNumericKeys_ := false |}.

(** The enumerations of both readers: [tokenNaN], [tokenPosInf] and [tokenNegInf]
    are those of [OurReader] only. *)
Inductive TokenType :=
  | tokenEndOfStream | tokenObjectBegin | tokenObjectEnd | tokenArrayBegin | tokenArrayEnd
  | tokenString | tokenNumber | tokenTrue | tokenFalse | tokenNull
  | tokenNaN | tokenPosInf | tokenNegInf
  | tokenArraySeparator | tokenMemberSeparator | tokenComment | tokenError.

#[export] Instance TokenType_eq_dec : EqDecision TokenType.
Proof. solve_decision. Defined.

Definition token_eqb (a b : TokenType) : bool := bool_decide (a = b).

Record Token := mkToken { type_ : TokenType; tok_start_ : nat; tok_end_ : nat }.

Record ErrorInfo := mkError { token_ : Token; message_ : bytes; extra_ : option nat }.

(** One edge of the tree, and a [Value*]. *)
Inductive edge := EIdx (i : Z) | EKey (k : bytes).
Abbreviation path := (list edge).

#[export] Instance edge_eq_dec : EqDecision edge.
Proof. solve_decision. Defined.

Record Reader := mkReader {
  features_ : Features;
  document_ : bytes;
  current_ : nat;
  root_ : Value;
  nodes_ : list path;
  lastValueEnd_ : option nat;
  lastValue_ : option path;
  commentsBefore_ : bytes;
  errors_ : list ErrorInfo;
  collectComments_ : bool;
}.

Definition set_current (c : nat) (s : Reader) : Reader :=
  mkReader (features_ s) (document_ s) c (root_ s) (nodes_ s) (lastValueEnd_ s) (lastValue_ s)
    (commentsBefore_ s) (errors_ s) (collectComments_ s).
Definition set_root (v : Value) (s : Reader) : Reader :=
  mkReader (features_ s) (document_ s) (current_ s) v (nodes_ s) (lastValueEnd_ s) (lastValue_ s)
    (commentsBefore_ s) (errors_ s) (collectComments_ s).
Definition set_nodes (n : list path) (s : Reader) : Reader :=
  mkReader (features_ s) (document_ s) (current_ s) (root_ s) n (lastValueEnd_ s) (lastValue_ s)
    (commentsBefore_ s) (errors_ s) (collectComments_ s).
Definition set_lastValue (e : option nat) (p : option path) (s : Reader) : Reader :=
  mkReader (features_ s) (document_ s) (current_ s) (root_ s) (nodes_ s) e p
    (commentsBefore_ s) (errors_ s) (collectComments_ s).
Definition set_commentsBefore (c : bytes) (s : Reader) : Reader :=
  mkReader (features_ s) (document_ s) (current_ s) (root_ s) (nodes_ s) (lastValueEnd_ s)
    (lastValue_ s) c (errors_ s) (collectComments_ s).
Definition set_errors (e : list ErrorInfo) (s : Reader) : Reader :=
  mkReader (features_ s) (document_ s) (current_ s) (root_ s) (nodes_ s) (lastValueEnd_ s)
    (lastValue_ s) (commentsBefore_ s) e (collectComments_ s).

(** The text from [current_] to [end_]. *)
Definition rest (s : Reader) : bytes := drop (current_ s) (document_ s).

(** The characters of [begin, end). *)
Definition slice (b e : nat) (doc : bytes) : bytes := take (e - b) (drop b doc).

(** ** Methods: state and outcome *)

Definition RM (A : Type) : Type := Reader -> outcome (A * Reader).
#[export] Instance RM_ret : MRet RM := fun A a s => Ret (a, s).
#[export] Instance RM_bind : MBind RM := fun A B f m s => '(a, s') ← m s; f a s'.

Definition gets {A} (f : Reader -> A) : RM A := fun s => Ret (f s, s).
Definition modify (f : Reader -> Reader) : RM unit := fun s => Ret (tt, f s).
Definition lift {A} (o : outcome A) : RM A := fun s => a ← o; Ret (a, s).
Definition out_of_fuel {A} : RM A := fun _ => Fuel.

(** ** Pointers *)

Definition edge_get (e : edge) (v : Value) : option Value :=
  match e with EIdx i => om_find i (array_map v) | EKey k => om_find k (object_map v) end.
Definition edge_write (e : edge) (f : Value -> Value) (v : Value) : Value :=
  match e with EIdx i => write_index i f v | EKey k => write_key k f v end.

Fixpoint at_path (p : path) (v : Value) : option Value :=
  match p with [] => Some v | e :: p' => w ← edge_get e v; at_path p' w end.
Fixpoint alter_path (p : path) (f : Value -> Value) (v : Value) : Value :=
  match p with [] => f v | e :: p' => edge_write e (alter_path p' f) v end.

(** A method call on [*p] that may change it. *)
Definition call_at (p : path) (f : Value -> outcome Value) : RM unit :=
  root ← gets root_;
  match at_path p root with
  | None => lift (Undef "dangling pointer into the tree")
  | Some v => v' ← lift (f v); modify (set_root (alter_path p (fun _ => v') root))
  end.

(** [nodes_.top()]. *)
Definition nodes_top : RM path :=
  ns ← gets nodes_;
  match ns with [] => lift (Undef "top of the empty stack") | p :: _ => mret p end.

(** A method call on [currentValue()]. *)
Definition currentValue (f : Value -> outcome Value) : RM unit :=
  p ← nodes_top; call_at p f.

(** [currentValue().setOffsetStart(a); currentValue().setOffsetLimit(b)]. *)
Definition setOffsets (a b : Z) : RM unit :=
  currentValue (fun v => Ret (setOffsetLimit b (setOffsetStart a v))).

(** [currentValue().swapPayload(v)]. *)
Definition swapPayloadCurrent (w : Value) : RM unit :=
  currentValue (fun v => Ret (swapPayload v w).1).

(** ** Errors *)

Definition addError (message : bytes) (token : Token) (extra : option nat) : RM bool :=
  _ ← modify (fun s => set_errors (errors_ s ++ [mkError token message extra]) s);
  mret false.

(** ** The scanner *)

Definition advance (n : nat) : RM unit := modify (fun s => set_current (current_ s + n) s).

Definition getNextChar : RM Z :=
  r ← gets rest;
  match r with
  | [] => mret 0
  | c :: _ => _ ← advance 1; mret c
  end.

Definition is_space (c : Z) : bool :=
  (c =? CH " ") || (c =? 9) || (c =? 13) || (c =? 10).

(** How many characters the loop of [skipSpaces] skips. *)
Fixpoint count_spaces (r : bytes) : nat :=
  match r with
  | c :: r' => if is_space c then S (count_spaces r') else O
  | [] => O
  end.

Definition skipSpaces : RM unit := r ← gets rest; advance (count_spaces r).

Definition match_ (pattern : bytes) : RM bool :=
  r ← gets rest;
  if (length r <? length pattern)%nat then mret false
  else if bytes_eqb (take (length pattern) r) pattern then
    _ ← advance (length pattern); mret true
  else mret false.

Definition containsNewLine (b e : nat) (doc : bytes) : bool :=
  existsb (fun c => (c =? 10) || (c =? 13)) (slice b e doc).

Fixpoint normalizeEOL (s : bytes) : bytes :=
  match s with
  | [] => []
  | c :: s' =>
      if c =? 13 then
        match s' with
        | d :: s'' => if d =? 10 then 10 :: normalizeEOL s'' else 10 :: normalizeEOL s'
        | [] => [10]
        end
      else c :: normalizeEOL s'
  end.

Definition addComment (b e : nat) (placement : CommentPlacement) : RM unit :=
  collect ← gets collectComments_;
  _ ← lift (json_assert collect "assert(collectComments_)");
  doc ← gets document_;
  let normalized := normalizeEOL (slice b e doc) in
  match placement with
  | commentAfterOnSameLine =>
      lv ← gets lastValue_;
      match lv with
      | None => lift (Abort "assert(lastValue_ != nullptr)")
      | Some p => call_at p (setComment normalized placement)
      end
  | _ => modify (fun s => set_commentsBefore (commentsBefore_ s ++ normalized) s)
  end.

(** How many characters the loop of [readCStyleComment] takes: it needs two. *)
Fixpoint c_comment_scan (r : bytes) : nat :=
  match r with
  | c :: ((d :: _) as r') =>
      if (c =? CH "*") && (d =? CH "/") then 1%nat else S (c_comment_scan r')
  | _ => O
  end.

Definition readCStyleComment : RM bool :=
  r ← gets rest;
  _ ← advance (c_comment_scan r);
  c ← getNextChar;
  mret (c =? CH "/").

Fixpoint cpp_comment_scan (r : bytes) : nat :=
  match r with
  | [] => O
  | c :: r' =>
      if c =? 10 then 1%nat
      else if c =? 13 then
        match r' with d :: _ => if d =? 10 then 2%nat else 1%nat | [] => 1%nat end
      else S (cpp_comment_scan r')
  end.

Definition readCppStyleComment : RM bool :=
  r ← gets rest; _ ← advance (cpp_comment_scan r); mret true.

Definition readComment : RM bool :=
  cur ← gets current_;
  let commentBegin := (cur - 1)%nat in
  c ← getNextChar;
  successful ← (if c =? CH "*" then readCStyleComment
                else if c =? CH "/" then readCppStyleComment
                else mret false);
  if negb successful then mret false
  else
    collect ← gets collectComments_;
    _ ← (if collect : bool then
           lve ← gets lastValueEnd_;
           doc ← gets document_;
           cur ← gets current_;
           let placement :=
             match lve with
             | Some e =>
                 if negb (containsNewLine e commentBegin doc) &&
                    (negb (c =? CH "*") || negb (containsNewLine commentBegin cur doc))
                 then commentAfterOnSameLine else commentBefore
             | None => commentBefore
             end in
           addComment commentBegin cur placement
         else mret tt);
    mret true.

(** [c = (current_ = p) < end_ ? *p++ : 0], repeated while [c] is a digit: the
    last [c], [current_], [p] and the text at [p]. *)
Fixpoint digits_loop (r : bytes) (p : nat) : Z * nat * nat * bytes :=
  match r with
  | [] => (0, p, p, [])
  | c :: r' => if is_digit c then digits_loop r' (S p) else (c, p, S p, r')
  end.

Definition number_end (r : bytes) (p : nat) : nat :=
  let '(c, cur, p, r) := digits_loop r p in
  let '(c, cur, p, r) := if c =? CH "." then digits_loop r p else (c, cur, p, r) in
  if (c =? CH "e") || (c =? CH "E") then
    let '(_, cur, _, _) :=
      match r with
      | s :: r' => if (s =? CH "+") || (s =? CH "-") then digits_loop r' (S p) else digits_loop r p
      | [] => digits_loop r p
      end in
    cur
  else cur.

Definition readNumber : RM unit :=
  s ← gets id; modify (set_current (number_end (rest s) (current_ s))).

(** The loop of [readString]: the characters taken and the last [c]. *)
Fixpoint string_scan (r : bytes) (c : Z) : nat * Z :=
  match r with
  | [] => (O, c)
  | c :: r' =>
      if c =? CH "\" then
        match r' with
        | [] => (1%nat, c)
        | _ :: r'' => let '(n, c') := string_scan r'' c in (S (S n), c')
        end
      else if c =? dquote then (1%nat, c)
      else let '(n, c') := string_scan r' c in (S n, c')
  end.

Definition readString : RM bool :=
  r ← gets rest;
  let '(n, c) := string_scan r 0 in
  _ ← advance n; mret (c =? dquote).

(** The [switch] of [readToken] on the character [c]. *)
Definition token_switch (c : Z) : RM (bool * TokenType) :=
  if c =? CH "{" then mret (true, tokenObjectBegin)
  else if c =? CH "}" then mret (true, tokenObjectEnd)
  else if c =? CH "[" then mret (true, tokenArrayBegin)
  else if c =? CH "]" then mret (true, tokenArrayEnd)
  else if c =? dquote then ok ← readString; mret (ok, tokenString)
  else if c =? CH "/" then ok ← readComment; mret (ok, tokenComment)
  else if is_digit c || (c =? CH "-") then _ ← readNumber; mret (true, tokenNumber)
  else if c =? CH "t" then ok ← match_ (STR "rue"); mret (ok, tokenTrue)
  else if c =? CH "f" then ok ← match_ (STR "alse"); mret (ok, tokenFalse)
  else if c =? CH "n" then ok ← match_ (STR "ull"); mret (ok, tokenNull)
  else if c =? CH "," then mret (true, tokenArraySeparator)
  else if c =? CH ":" then mret (true, tokenMemberSeparator)
  else if c =? 0 then mret (true, tokenEndOfStream)
  else mret (false, tokenError).

Definition readToken : RM (bool * Token) :=
  _ ← skipSpaces;
  start ← gets current_;
  c ← getNextChar;
  '(ok, type) ← token_switch c;
  stop ← gets current_;
  mret (ok, mkToken (if ok : bool then type else tokenError) start stop).

(** [do readToken(token) while (token.type_ == tokenComment)]. *)
Fixpoint skip_comments (fuel : nat) : RM Token :=
  match fuel with
  | O => out_of_fuel
  | S fuel =>
      '(_, token) ← readToken;
      if token_eqb (type_ token) tokenComment then skip_comments fuel else mret token
  end.

Definition skipCommentTokens : RM Token :=
  f ← gets features_;
  r ← gets rest;
  if allowComments_ f then skip_comments (S (length r))
  else '(_, token) ← readToken; mret token.

(** [while (token.type_ == tokenComment && ok) ok = readToken(token)]. *)
Fixpoint comment_loop (fuel : nat) (ok : bool) (token : Token) : RM (bool * Token) :=
  match fuel with
  | O => out_of_fuel
  | S fuel =>
      if token_eqb (type_ token) tokenComment && ok then
        '(ok, token) ← readToken; comment_loop fuel ok token
      else mret (ok, token)
  end.

Definition skipCommentsAfter (ok : bool) (token : Token) : RM (bool * Token) :=
  r ← gets rest; comment_loop (S (S (length r))) ok token.

Fixpoint recover_loop (fuel : nat) (errorCount : nat) (skipUntilToken : TokenType) : RM unit :=
  match fuel with
  | O => out_of_fuel
  | S fuel =>
      '(ok, skip) ← readToken;
      _ ← (if ok : bool then mret tt
           else modify (fun s => set_errors (take errorCount (errors_ s)) s));
      if token_eqb (type_ skip) skipUntilToken || token_eqb (type_ skip) tokenEndOfStream
      then mret tt else recover_loop fuel errorCount skipUntilToken
  end.

Definition recoverFromError (skipUntilToken : TokenType) : RM bool :=
  errorCount ← gets (fun s => length (errors_ s));
  r ← gets rest;
  _ ← recover_loop (S (length r)) errorCount skipUntilToken;
  _ ← modify (fun s => set_errors (take errorCount (errors_ s)) s);
  mret false.

Definition addErrorAndRecover (message : bytes) (token : Token) (skipUntilToken : TokenType) : RM bool :=
  _ ← addError message token None; recoverFromError skipUntilToken.

(** ** Decoding of tokens *)

Definition token_text (token : Token) (doc : bytes) : bytes :=
  slice (tok_start_ token) (tok_end_ token) doc.

Definition decodeDouble (token : Token) : RM (option Value) :=
  buffer ← gets (fun s => token_text token (document_ s));
  let '(value, ok) := istream_double buffer in
  if ok then mret (Some (Value_double value))
  else if SFeqb value b64_max then mret (Some (Value_double (S754_infinity false)))
  else if SFeqb value (SFopp b64_max) then mret (Some (Value_double (S754_infinity true)))
  else if negb (sf_isinf value) then
    _ ← addError (STR "'" ++ buffer ++ STR "' is not a number.") token None; mret None
  else mret (Some (Value_double value)).

(** The digits of an integer; [None] is the call of [decodeDouble]. *)
Fixpoint decode_digits (maxIntegerValue : Z) (s : bytes) (value : Z) : option Z :=
  match s with
  | [] => Some value
  | c :: s' =>
      let threshold := maxIntegerValue / 10 in
      if (c <? CH "0") || (CH "9" <? c) then None
      else
        let digit := c - CH "0" in
        if (threshold <=? value) &&
           ((threshold <? value) || negb (bool_decide (s' = [])) || (maxIntegerValue mod 10 <? digit))
        then None
        else decode_digits maxIntegerValue s' (u64 (value * 10 + digit))
  end.

Definition decodeNumber (token : Token) : RM (option Value) :=
  text ← gets (fun s => token_text token (document_ s));
  let isNegative := nth 0 text 0 =? CH "-" in
  let maxIntegerValue := if isNegative then maxLargestInt + 1 else maxLargestUInt in
  match decode_digits maxIntegerValue (if isNegative then tail text else text) 0 with
  | None => decodeDouble token
  | Some value =>
      mret (Some (if isNegative && (value =? maxIntegerValue) then Value_int minLargestInt
                  else if isNegative then Value_int (- i64 value)
                  else if value <=? maxInt then Value_int (i64 value)
                  else Value_uint value))
  end.

Definition hex_digit (c : Z) : option Z :=
  if (CH "0" <=? c) && (c <=? CH "9") then Some (c - CH "0")
  else if (CH "a" <=? c) && (c <=? CH "f") then Some (c - CH "a" + 10)
  else if (CH "A" <=? c) && (c <=? CH "F") then Some (c - CH "A" + 10)
  else None.

(** A cursor: the offset of [current] and the text from it to [end]. *)
Abbreviation cursor := (nat * bytes)%type.

(** The four turns of the loop. *)
Fixpoint hex4 (n : nat) (token : Token) (unicode : Z) (cur : cursor) : RM (option (Z * cursor)) :=
  match n, cur with
  | O, _ => mret (Some (unicode, cur))
  | S n', (i, []) => lift (Undef "read past the end of the token")
  | S n', (i, c :: s) =>
      match hex_digit c with
      | Some d => hex4 n' token (unicode * 16 + d) (S i, s)
      | None =>
          _ ← addError (STR "Bad unicode escape sequence in string: hexadecimal digit expected.")
                token (Some (S i));
          mret None
      end
  end.

Definition decodeUnicodeEscapeSequence (token : Token) (cur : cursor) : RM (option (Z * cursor)) :=
  if (length cur.2 <? 4)%nat then
    _ ← addError (STR "Bad unicode escape sequence in string: four digits expected.") token
          (Some cur.1);
    mret None
  else hex4 4 token 0 cur.

Definition decodeUnicodeCodePoint (token : Token) (cur : cursor) : RM (option (Z * cursor)) :=
  o ← decodeUnicodeEscapeSequence token cur;
  match o with
  | None => mret None
  | Some (unicode, (i, s)) =>
      if (0xD800 <=? unicode) && (unicode <=? 0xDBFF) then
        if (length s <? 6)%nat then
          _ ← addError (STR "additional six characters expected to parse unicode surrogate pair.")
                token (Some i);
          mret None
        else if negb (nth 0 s 0 =? CH "\") || negb (nth 1 s 0 =? CH "u") then
          _ ← addError (STR "expecting another \u token to begin the second half of a unicode surrogate pair")
                token (Some (i + (if (nth O s 0 =? CH "\")%Z then 2 else 1))%nat);
          mret None
        else
          o ← decodeUnicodeEscapeSequence token ((i + 2)%nat, drop 2 s);
          match o with
          | None => mret None
          | Some (surrogatePair, cur) =>
              mret (Some (0x10000 + Z.shiftl (Z.land unicode 0x3FF) 10 + Z.land surrogatePair 0x3FF,
                          cur))
          end
      else mret (Some (unicode, (i, s)))
  end.

(** The simple escapes. *)
Definition simple_escape (c : Z) : option Z :=
  if c =? dquote then Some dquote
  else if c =? CH "/" then Some (CH "/")
  else if c =? CH "\" then Some (CH "\")
  else if c =? CH "b" then Some 8
  else if c =? CH "f" then Some 12
  else if c =? CH "n" then Some 10
  else if c =? CH "r" then Some 13
  else if c =? CH "t" then Some 9
  else None.

Fixpoint decode_string_loop (fuel : nat) (token : Token) (cur : cursor) (decoded : bytes)
    : RM (option bytes) :=
  match fuel with
  | O => out_of_fuel
  | S fuel =>
      match cur with
      | (_, []) => mret (Some decoded)
      | (i, c :: s) =>
          if c =? dquote then mret (Some decoded)
          else if c =? CH "\" then
            match s with
            | [] => _ ← addError (STR "Empty escape sequence in string") token (Some (S i)); mret None
            | escape :: s =>
                match simple_escape escape with
                | Some d => decode_string_loop fuel token (S (S i), s) (decoded ++ [d])
                | None =>
                    if escape =? CH "u" then
                      o ← decodeUnicodeCodePoint token (S (S i), s);
                      match o with
                      | None => mret None
                      | Some (unicode, cur) =>
                          decode_string_loop fuel token cur (decoded ++ codePointToUTF8 unicode)
                      end
                    else
                      _ ← addError (STR "Bad escape sequence in string") token (Some (S (S i)));
                      mret None
                end
            end
          else decode_string_loop fuel token (S i, s) (decoded ++ [c])
      end
  end.

(** [decodeString(token, decoded)]: the loop tests [current != end], so a token
    without its two quotes would be read past its end. *)
Definition decodeString (token : Token) : RM (option bytes) :=
  doc ← gets document_;
  if (tok_end_ token <? tok_start_ token + 2)%nat then lift (Undef "token without quotes") else
  let s := slice (tok_start_ token + 1) (tok_end_ token - 1) doc in
  decode_string_loop (S (length s)) token ((tok_start_ token + 1)%nat, s) [].

(** [decodeNumber(token)], [decodeString(token)]: into [currentValue()]. *)
Definition store_token (token : Token) (decoded : Value) : RM unit :=
  _ ← swapPayloadCurrent decoded;
  setOffsets (Z.of_nat (tok_start_ token)) (Z.of_nat (tok_end_ token)).

Definition decodeNumberCurrent (token : Token) : RM bool :=
  o ← decodeNumber token;
  match o with
  | None => mret false
  | Some decoded => _ ← store_token token decoded; mret true
  end.

(** [decodeDouble(token)]. *)
Definition decodeDoubleCurrent (token : Token) : RM bool :=
  o ← decodeDouble token;
  match o with
  | None => mret false
  | Some decoded => _ ← store_token token decoded; mret true
  end.

Definition decodeStringCurrent (token : Token) : RM bool :=
  o ← decodeString token;
  match o with
  | None => mret false
  | Some s => decoded ← lift (Value_string s); _ ← store_token token decoded; mret true
  end.

(** ** The parser *)

Definition stackLimit_g : nat := 1000.

Definition push_edge (e : edge) : RM unit :=
  p ← nodes_top; modify (fun s => set_nodes ((p ++ [e]) :: nodes_ s) s).
Definition nodes_pop : RM unit := modify (fun s => set_nodes (tail (nodes_ s)) s).

(** The [switch] of [readValue]; [None] is the early return with an error. *)
Definition value_switch (readObject readArray : Token -> RM bool) (token : Token)
    : RM (option bool) :=
  f ← gets features_;
  let literal (v : Value) : RM (option bool) := _ ← store_token token v; mret (Some true) in
  let syntax_error : RM (option bool) :=
    _ ← setOffsets (Z.of_nat (tok_start_ token)) (Z.of_nat (tok_end_ token));
    _ ← addError (STR "Syntax error: value, object or array expected.") token None;
    mret None in
  match type_ token with
  | tokenObjectBegin =>
      ok ← readObject token;
      cur ← gets current_;
      _ ← currentValue (fun v => Ret (setOffsetLimit (Z.of_nat cur) v));
      mret (Some ok)
  | tokenArrayBegin =>
      ok ← readArray token;
      cur ← gets current_;
      _ ← currentValue (fun v => Ret (setOffsetLimit (Z.of_nat cur) v));
      mret (Some ok)
  | tokenNumber => ok ← decodeNumberCurrent token; mret (Some ok)
  | tokenString => ok ← decodeStringCurrent token; mret (Some ok)
  | tokenTrue => literal (Value_bool true)
  | tokenFalse => literal (Value_bool false)
  | tokenNull => literal Value_null
  | tokenArraySeparator | tokenObjectEnd | tokenArrayEnd =>
      if allowDroppedNullPlaceholders_ f then
        _ ← modify (fun s => set_current (current_ s - 1) s);
        _ ← swapPayloadCurrent Value_null;
        cur ← gets current_;
        _ ← setOffsets (Z.of_nat cur - 1) (Z.of_nat cur);
        mret (Some true)
      else syntax_error
  | _ => syntax_error
  end.

(** [readValue] with the two functions it calls. *)
Definition readValue_body (readObject readArray : Token -> RM bool) : RM bool :=
  depth ← gets (fun s => length (nodes_ s));
  if (stackLimit_g <? depth)%nat then lift (Abort "Exceeded stackLimit in readValue().")
  else
    token ← skipCommentTokens;
    collect ← gets collectComments_;
    before ← gets commentsBefore_;
    _ ← (if collect && negb (bool_decide (before = [])) then
           _ ← currentValue (setComment before commentBefore);
           modify (set_commentsBefore [])
         else mret tt);
    successful ← value_switch readObject readArray token;
    match successful with
    | None => mret false
    | Some ok =>
        _ ← (if collect : bool then
               p ← nodes_top; modify (fun s => set_lastValue (Some (current_ s)) (Some p) s)
             else mret tt);
        mret ok
    end.

(** The name of a member, [None] when [readObject] leaves the loop. *)
Definition object_name (tokenName : Token) : RM (option (option bytes)) :=
  f ← gets features_;
  if token_eqb (type_ tokenName) tokenString then
    o ← decodeString tokenName; mret (Some o)
  else if token_eqb (type_ tokenName) tokenNumber && allowNumericKeys_ f then
    o ← decodeNumber tokenName;
    match o with
    | None => mret (Some None)
    | Some numberName => s ← lift (asString numberName); mret (Some (Some s))
    end
  else mret None.

(** After a member: the separator, then the next turn or the end. *)
Definition object_next (loop : bytes -> RM bool) (name : bytes) : RM bool :=
  '(ok, comma) ← readToken;
  if negb ok || (negb (token_eqb (type_ comma) tokenObjectEnd) &&
                 negb (token_eqb (type_ comma) tokenArraySeparator) &&
                 negb (token_eqb (type_ comma) tokenComment)) then
    addErrorAndRecover (STR "Missing ',' or '}' in object declaration") comma tokenObjectEnd
  else
    '(_, comma) ← skipCommentsAfter true comma;
    if token_eqb (type_ comma) tokenObjectEnd then mret true else loop name.

(** One turn of the loop of [readObject]; [name] is the previous member's. *)
Definition object_body (readValue : RM bool) (loop : bytes -> RM bool) (name : bytes) : RM bool :=
  '(ok, tokenName) ← readToken;
  let missing (token : Token) : RM bool :=
    addErrorAndRecover (STR "Missing '}' or object member name") token tokenObjectEnd in
  if negb ok then missing tokenName
  else
    '(initialTokenOk, tokenName) ← skipCommentsAfter true tokenName;
    if negb initialTokenOk then missing tokenName
    else if token_eqb (type_ tokenName) tokenObjectEnd && bool_decide (name = []) then mret true
    else
      o ← object_name tokenName;
      match o with
      | None => missing tokenName
      | Some None => recoverFromError tokenObjectEnd
      | Some (Some name) =>
          '(ok, colon) ← readToken;
          if negb ok || negb (token_eqb (type_ colon) tokenMemberSeparator) then
            addErrorAndRecover (STR "Missing ':' after object member name") colon tokenObjectEnd
          else
            _ ← currentValue (resolveReference name);
            _ ← push_edge (EKey (CZString name));
            ok ← readValue;
            _ ← nodes_pop;
            if negb ok then recoverFromError tokenObjectEnd else object_next loop name
      end.

Definition readObject_body (loop : bytes -> RM bool) (token : Token) : RM bool :=
  _ ← swapPayloadCurrent (Value_ofType objectValue);
  _ ← currentValue (fun v => Ret (setOffsetStart (Z.of_nat (tok_start_ token)) v));
  loop [].

(** After an element: the separator, then the next turn or the end. *)
Definition array_next (loop : Z -> RM bool) (index : Z) : RM bool :=
  '(ok, currentToken) ← readToken;
  '(ok, currentToken) ← skipCommentsAfter ok currentToken;
  let badTokenType := negb (token_eqb (type_ currentToken) tokenArraySeparator) &&
                      negb (token_eqb (type_ currentToken) tokenArrayEnd) in
  if negb ok || badTokenType then
    addErrorAndRecover (STR "Missing ',' or ']' in array declaration") currentToken tokenArrayEnd
  else if token_eqb (type_ currentToken) tokenArrayEnd then mret true
  else loop (index + 1).

(** One turn of the loop of [readArray]. *)
Definition array_body (readValue : RM bool) (loop : Z -> RM bool) (index : Z) : RM bool :=
  _ ← currentValue (index_ref_int index);
  _ ← push_edge (EIdx (u32 index));
  ok ← readValue;
  _ ← nodes_pop;
  if negb ok then recoverFromError tokenArrayEnd else array_next loop index.

Definition readArray_body (loop : Z -> RM bool) (token : Token) : RM bool :=
  _ ← swapPayloadCurrent (Value_ofType arrayValue);
  _ ← currentValue (fun v => Ret (setOffsetStart (Z.of_nat (tok_start_ token)) v));
  _ ← skipSpaces;
  r ← gets rest;
  if nth 0 r 0 =? CH "]" then _ ← readToken; mret true else loop 0.

Fixpoint readValue (fuel : nat) : RM bool :=
  match fuel with
  | O => out_of_fuel
  | S n => readValue_body (readObject n) (readArray n)
  end
with readObject (fuel : nat) (token : Token) : RM bool :=
  match fuel with
  | O => out_of_fuel
  | S n => readObject_body (object_loop n) token
  end
with object_loop (fuel : nat) (name : bytes) : RM bool :=
  match fuel with
  | O => out_of_fuel
  | S n => object_body (readValue n) (object_loop n) name
  end
with readArray (fuel : nat) (token : Token) : RM bool :=
  match fuel with
  | O => out_of_fuel
  | S n => readArray_body (array_loop n) token
  end
with array_loop (fuel : nat) (index : Z) : RM bool :=
  match fuel with
  | O => out_of_fuel
  | S n => array_body (readValue n) (array_loop n) index
  end.

(** Three steps of fuel for every character, and one. *)
Definition parse_fuel (doc : bytes) : nat := 3 * length doc + 1.

Definition Reader_new (f : Features) : Reader :=
  mkReader f [] 0 Value_null [] None None [] [] false.

(** [parse(beginDoc, endDoc, root, collectComments)]; [root_] is the variable
    the caller passed by reference. *)
Definition parse_init (doc : bytes) (root : Value) (collect : bool) (s : Reader) : Reader :=
  mkReader (features_ s) doc 0 root [[]] None None [] []
    (if allowComments_ (features_ s) then collect else false).

Definition parse (doc : bytes) (root : Value) (collect : bool) : RM bool :=
  _ ← modify (parse_init doc root collect);
  successful ← readValue (parse_fuel doc);
  _ ← skipCommentTokens;
  collect ← gets collectComments_;
  before ← gets commentsBefore_;
  _ ← (if collect && negb (bool_decide (before = [])) then call_at [] (setComment before commentAfter)
       else mret tt);
  f ← gets features_;
  root ← gets root_;
  if strictRoot_ f && negb (isArray root) && negb (isObject root) then
    addError (STR "A valid JSON document must be either an array or an object value.")
      (mkToken tokenError 0 (length doc)) None
  else mret successful.

(** [parse(document, root, collectComments)]: the copy in the member
    [document_] holds the same characters. *)
Definition parse_document (document : bytes) (root : Value) (collectComments : bool) : RM bool :=
  parse document root collectComments.

(** [parse(is, root, collectComments)]: the whole of the stream, which is left
    at its end. *)
Definition parse_istream (is_ : bytes) (root : Value) (collectComments : bool) : RM (bool * bytes) :=
  ok ← parse is_ root collectComments;
  mret (ok, []).

(** ** Reports *)

(** The loop of [getLocationLineAndColumn]: [line] and [lastLineStart].  The code
    looks at the character after a carriage return without a test for the end;
    behind the last character of a [std::string], which is what the parsers of this
    program are given, that is the NUL, no line feed. *)
Fixpoint location_scan (r : bytes) (current location lastLineStart : nat) (line : Z) : Z * nat :=
  match r with
  | [] => (line, lastLineStart)
  | c :: r' =>
      if (location <=? current)%nat then (line, lastLineStart)
      else if c =? 13 then
        match r' with
        | d :: r'' =>
            if d =? 10 then location_scan r'' (current + 2) location (current + 2) (line + 1)
            else location_scan r' (S current) location (S current) (line + 1)
        | [] => (line + 1, S current)
        end
      else if c =? 10 then location_scan r' (S current) location (S current) (line + 1)
      else location_scan r' (S current) location lastLineStart line
  end.

(** Line and column, both from 1. *)
Definition getLocationLineAndColumn (location : nat) (s : Reader) : Z * Z :=
  let '(line, lastLineStart) := location_scan (document_ s) 0 location 0 0 in
  (line + 1, Z.of_nat location - Z.of_nat lastLineStart + 1).

Definition location_text (location : nat) (s : Reader) : bytes :=
  let '(line, column) := getLocationLineAndColumn location s in
  STR "Line " ++ dec_signed line ++ STR ", Column " ++ dec_signed column.

Definition getFormattedErrorMessages (s : Reader) : bytes :=
  concat (map (fun e =>
    STR "* " ++ location_text (tok_start_ (token_ e)) s ++ [10] ++
    STR "  " ++ message_ e ++ [10] ++
    match extra_ e with
    | Some x => STR "See " ++ location_text x s ++ STR " for detail." ++ [10]
    | None => []
    end) (errors_ s)).

(** The deprecated spelling. *)
Definition getFormatedErrorMessages (s : Reader) : bytes := getFormattedErrorMessages s.

(** [StructuredError]: start, limit, message. *)
Definition getStructuredErrors (s : Reader) : list (Z * Z * bytes) :=
  map (fun e => (Z.of_nat (tok_start_ (token_ e)), Z.of_nat (tok_end_ (token_ e)), message_ e))
    (errors_ s).

(** [begin_ + offset]. *)
Definition location_of (offset : Z) : RM nat :=
  if offset <? 0 then lift (Undef "pointer before the document") else mret (Z.to_nat offset).

Definition pushError (value : Value) (message : bytes) : RM bool :=
  len ← gets (fun s => Z.of_nat (length (document_ s)));
  if (len <? getOffsetStart value) || (len <? getOffsetLimit value) then mret false
  else
    start ← location_of (getOffsetStart value);
    stop ← location_of (getOffsetLimit value);
    _ ← addError message (mkToken tokenError start stop) None;
    mret true.

Definition pushError_extra (value : Value) (message : bytes) (extra : Value) : RM bool :=
  len ← gets (fun s => Z.of_nat (length (document_ s)));
  if (len <? getOffsetStart value) || (len <? getOffsetLimit value) ||
     (len <? getOffsetLimit extra) then mret false
  else
    start ← location_of (getOffsetStart value);
    stop ← location_of (getOffsetLimit value);
    x ← location_of (getOffsetStart extra);
    _ ← addError message (mkToken tokenError start stop) (Some x);
    mret true.

Definition good (s : Reader) : bool := bool_decide (errors_ s = []).
