(* ===== verification/JsonReaderWp.v ===== *)
(** * The calculus of the parser

    A weakest-precondition calculus for the parser's methods, the invariant of
    a parse (positions in the document, live pointers, well-formed tree), the
    frame of what reading a token or a value changes, and the specification of
    the scanner and of the decoders, which both readers of jsoncpp use. *)
From S2P Require Export JsonValueFacts JsonReader.
From S2P Require Import FloatLength.
Open Scope Z_scope.

(** ** Definitions *)

(** The number of opening brackets and braces. *)
Definition is_open (c : Z) : bool := (c =? CH "[") || (c =? CH "{").
Fixpoint opens (s : bytes) : nat :=
  match s with
  | [] => O
  | c :: s' => ((if is_open c then 1 else 0) + opens s')%nat
  end.

(** What may stop the process, with which message on which document. *)
Class Stops := stops : string -> bytes -> Prop.

(** [m] returns with [Q], or stops as it may. *)
Definition wp `{Stops} {A} (m : RM A) (s : Reader) (Q : A -> Reader -> Prop) : Prop :=
  match m s with
  | Ret (a, s') => Q a s'
  | Abort msg => stops msg (document_ s)
  | Undef _ | Fuel => False
  end.

(** What a pointer designates, as far as the parser can tell. *)
Definition shape (v : Value) (p : path) : option ValueType := type <$> at_path p v.

(** Text that [setComment] accepts. *)
Definition comment_ok (c : bytes) : Prop := c = [] \/ nth 0 c 0 = CH "/".

(** The parser is ever given documents shorter than [maxInt - 4 - 1] bytes. *)
Record inv (s : Reader) : Prop := {
  inv_doc : Forall byte_ok (document_ s);
  inv_len : Z.of_nat (length (document_ s)) <= maxInt - 4 - 1;
  inv_cur : (current_ s <= length (document_ s))%nat;
  inv_root : wf (root_ s);
  inv_last : lastValueEnd_ s = None \/
             exists p t, lastValue_ s = Some p /\ shape (root_ s) p = Some t;
  inv_comments : comment_ok (commentsBefore_ s);
}.

(** The effect of reading tokens: the position moves forward, comments are
    collected, nothing else changes. *)
Record scans (s s' : Reader) : Prop := {
  sc_inv : inv s';
  sc_features : features_ s' = features_ s;
  sc_doc : document_ s' = document_ s;
  sc_cur : (current_ s <= current_ s')%nat;
  sc_nodes : nodes_ s' = nodes_ s;
  sc_lve : lastValueEnd_ s' = lastValueEnd_ s;
  sc_lv : lastValue_ s' = lastValue_ s;
  sc_errors : errors_ s' = errors_ s;
  sc_collect : collectComments_ s' = collectComments_ s;
  sc_shape : forall p, shape (root_ s') p = shape (root_ s) p;
}.

(** The whole document was read, or up to a NUL. *)
Definition at_end (s : Reader) : Prop :=
  current_ s = length (document_ s) \/ exists i, current_ s = S i /\ document_ s !! i = Some 0.

(** The token read from [s], leaving [s']. *)
Record token_ok (s s' : Reader) (ok : bool) (t : Token) : Prop := {
  tk_ok : ok = false -> type_ t = tokenError;
  tk_start : (current_ s <= tok_start_ t)%nat;
  tk_end : tok_end_ t = current_ s';
  tk_order : (tok_start_ t <= tok_end_ t)%nat;
  tk_progress : type_ t <> tokenEndOfStream -> (tok_start_ t < tok_end_ t)%nat;
  tk_string : type_ t = tokenString -> (tok_start_ t + 2 <= tok_end_ t)%nat;
  tk_single : type_ t = tokenArraySeparator \/ type_ t = tokenObjectEnd \/ type_ t = tokenArrayEnd ->
              tok_end_ t = S (tok_start_ t);
  tk_open : type_ t = tokenObjectBegin \/ type_ t = tokenArrayBegin ->
            (opens (take (current_ s) (document_ s)) <
             opens (take (current_ s') (document_ s')))%nat;
  tk_eos : type_ t = tokenEndOfStream -> at_end s';
}.

(** A token type that is none of those in the disjunctions. *)
Ltac token_neq := repeat split; intros; repeat match goal with H : _ \/ _ |- _ => destruct H end; done.

Section calculus.
Context {St : Stops}.

(** ** The calculus *)

Section wp.
Context {A B : Type}.

Lemma wp_mono (m : RM A) s (Q Q' : A -> Reader -> Prop) :
  wp m s Q -> (forall a s', Q a s' -> Q' a s') -> wp m s Q'.
Proof. unfold wp. destruct (m s) as [[a s']| | |]; auto. Qed.

Lemma wp_ret (a : A) s (Q : A -> Reader -> Prop) : Q a s -> wp (mret a) s Q.
Proof. done. Qed.

(** The continuation runs on the same document. *)
Lemma wp_bind (m : RM A) (k : A -> RM B) s (Q : B -> Reader -> Prop) :
  wp m s (fun a s' => document_ s' = document_ s /\ wp (k a) s' Q) -> wp (m ≫= k) s Q.
Proof.
  unfold wp. cbv [mbind RM_bind outcome_bind]. destruct (m s) as [[a s']| | |]; [|done..].
  intros [Hd Hk]. rewrite <- Hd. exact Hk.
Qed.

Lemma wp_gets (f : Reader -> A) s (Q : A -> Reader -> Prop) : Q (f s) s -> wp (gets f) s Q.
Proof. done. Qed.
Lemma wp_lift_ret (o : outcome A) a s (Q : A -> Reader -> Prop) :
  o = Ret a -> Q a s -> wp (lift o) s Q.
Proof. by intros ->. Qed.
End wp.

Lemma wp_modify f s (Q : unit -> Reader -> Prop) : Q tt (f s) -> wp (modify f) s Q.
Proof. done. Qed.

Lemma wp_gets_bind {A B} (f : Reader -> A) (k : A -> RM B) s Q : wp (k (f s)) s Q -> wp (gets f ≫= k) s Q.
Proof. by intros; apply wp_bind. Qed.

Lemma wp_modify_bind {B} f (k : unit -> RM B) s Q :
  document_ (f s) = document_ s -> wp (k tt) (f s) Q -> wp (modify f ≫= k) s Q.
Proof. by intros; apply wp_bind. Qed.

Lemma wp_ret_bind {A B} (a : A) (k : A -> RM B) s Q : wp (k a) s Q -> wp (mret a ≫= k) s Q.
Proof. by intros; apply wp_bind. Qed.

Lemma wp_bind_scans {A B} (m : RM A) (k : A -> RM B) s P Q :
  wp m s (fun a s' => scans s s' /\ P a s') ->
  (forall a s', scans s s' -> P a s' -> wp (k a) s' Q) -> wp (m ≫= k) s Q.
Proof.
  intros Hm Hk. apply wp_bind. eapply wp_mono; [exact Hm|]. intros a s' [Hs Hp]. simpl.
  split; [apply Hs|by apply Hk].
Qed.

(** ** Pointers *)

Lemma at_path_app p q v : at_path (p ++ q) v = at_path p v ≫= at_path q.
Proof.
  revert v. induction p as [|e p IH]; intros v; simpl; [done|].
  destruct (edge_get e v); simpl; [apply IH|done].
Qed.

Lemma type_edge_write e f v : type (edge_write e f v) = type v.
Proof. destruct v as [[] ? ? ?], e; done. Qed.

Lemma edge_get_write_eq e f v : edge_get e (edge_write e f v) = f <$> edge_get e v.
Proof. destruct v as [[] ? ? ?], e; simpl; try done; apply om_find_alter_eq. Qed.

Lemma edge_get_write_ne e e' f v : e' <> e -> edge_get e' (edge_write e f v) = edge_get e' v.
Proof.
  destruct v as [[] ? ? ?], e, e'; simpl; try done; intros Hne; apply om_find_alter_ne; congruence.
Qed.

Lemma shape_cons e p v : shape v (e :: p) = w ← edge_get e v; shape w p.
Proof. unfold shape. simpl. by destruct (edge_get e v). Qed.

Lemma shape_alter_below p r f v w :
  at_path p v = Some w -> shape (alter_path p f v) (p ++ r) = shape (f w) r.
Proof.
  revert v. induction p as [|e p IH]; intros v; simpl; [by intros [= ->]|].
  rewrite shape_cons, edge_get_write_eq. destruct (edge_get e v) as [x|]; simpl; [|done].
  apply IH.
Qed.

Lemma shape_alter_other p q f v : ~ p `prefix_of` q -> shape (alter_path p f v) q = shape v q.
Proof.
  revert v q. induction p as [|e p IH]; intros v q Hn; simpl.
  { destruct Hn. apply prefix_nil. }
  destruct q as [|e' q].
  { unfold shape. simpl. by rewrite type_edge_write. }
  rewrite !shape_cons. destruct (decide (e' = e)) as [->|Hne].
  - rewrite edge_get_write_eq. destruct (edge_get e v) as [x|]; simpl; [|done].
    apply IH. intros Hp. by apply Hn, prefix_cons.
  - by rewrite edge_get_write_ne.
Qed.

(** Writing a value of the same shape changes no shape. *)
Lemma shape_alter_same p q f v w :
  at_path p v = Some w -> (forall r, shape (f w) r = shape w r) ->
  shape (alter_path p f v) q = shape v q.
Proof.
  intros Hp Hf. destruct (decide (p `prefix_of` q)) as [[r ->]|Hn].
  - rewrite (shape_alter_below _ _ _ _ w), Hf by done. unfold shape. by rewrite at_path_app, Hp.
  - by apply shape_alter_other.
Qed.

(** Writing that keeps the children keeps every live pointer. *)
Lemma shape_alter_live p q f v w t :
  at_path p v = Some w -> (forall r t, shape w r = Some t -> is_Some (shape (f w) r)) ->
  shape v q = Some t -> is_Some (shape (alter_path p f v) q).
Proof.
  intros Hp Hf Hq. destruct (decide (p `prefix_of` q)) as [[r ->]|Hn].
  - rewrite (shape_alter_below _ _ _ _ w) by done. apply (Hf _ t).
    unfold shape in *. by rewrite at_path_app, Hp in Hq.
  - rewrite shape_alter_other by done. by eexists.
Qed.

Lemma wf_edge_write e f v : (forall w, wf w -> wf (f w)) -> wf v -> wf (edge_write e f v).
Proof. destruct e; simpl; [apply wf_write_index|apply wf_write_key]. Qed.

Lemma wf_alter_path p f v : (forall w, wf w -> wf (f w)) -> wf v -> wf (alter_path p f v).
Proof.
  intros Hf. revert v. induction p as [|e p IH]; intros v Hv; simpl; [by apply Hf|].
  by apply wf_edge_write.
Qed.

Lemma wf_edge_get e v w : wf v -> edge_get e v = Some w -> wf w.
Proof.
  intros Hv. destruct e; simpl.
  - eapply (wf_map_find (in_u 32)). by apply wf_array_map.
  - eapply (wf_map_find (Forall byte_ok)). by apply wf_object_map.
Qed.

Lemma wf_at_path p v w : wf v -> at_path p v = Some w -> wf w.
Proof.
  revert v. induction p as [|e p IH]; intros v Hv; simpl; [by intros [= ->]|].
  destruct (edge_get e v) as [x|] eqn:E; simpl; [|done]. apply IH. by eapply wf_edge_get.
Qed.

(** A call on the value a pointer designates. *)
Lemma wp_call_at p f s v v' (Q : unit -> Reader -> Prop) :
  at_path p (root_ s) = Some v -> f v = Ret v' ->
  Q tt (set_root (alter_path p (fun _ => v') (root_ s)) s) -> wp (call_at p f) s Q.
Proof.
  intros Hp Hf HQ. unfold call_at. apply wp_gets_bind. rewrite Hp. unfold wp, lift, modify.
  cbv [mbind RM_bind outcome_bind]. by rewrite Hf.
Qed.

Lemma wp_currentValue f s p ns v v' (Q : unit -> Reader -> Prop) :
  nodes_ s = p :: ns -> at_path p (root_ s) = Some v -> f v = Ret v' ->
  Q tt (set_root (alter_path p (fun _ => v') (root_ s)) s) -> wp (currentValue f) s Q.
Proof.
  intros Hn Hp Hf HQ. unfold currentValue, nodes_top. apply wp_bind. apply wp_gets_bind. rewrite Hn.
  apply wp_ret. split; [done|]. by eapply wp_call_at.
Qed.

(** ** Reading tokens *)

Lemma scans_refl s : inv s -> scans s s.
Proof. by split. Qed.

Lemma scans_trans s1 s2 s3 : scans s1 s2 -> scans s2 s3 -> scans s1 s3.
Proof. intros H1 H2. destruct H1, H2. split; try congruence.
  lia.
Qed.

Lemma scans_advance s n :
  inv s -> (current_ s + n <= length (document_ s))%nat -> scans s (set_current (current_ s + n) s).
Proof. intros Hi Hn. destruct Hi. split; simpl; try done; try lia. Qed.

Lemma length_rest s : length (rest s) = (length (document_ s) - current_ s)%nat.
Proof. apply length_drop. Qed.

Lemma rest_bytes s : inv s -> Forall byte_ok (rest s).
Proof. intros Hi. apply Forall_drop, Hi. Qed.

Lemma rest_advance s n : rest (set_current (current_ s + n) s) = drop n (rest s).
Proof. unfold rest. simpl. by rewrite drop_drop. Qed.

(** Moving the position by at most what is left. *)
Lemma wp_advance n s (Q : unit -> Reader -> Prop) :
  inv s -> (n <= length (rest s))%nat ->
  (forall s', scans s s' -> s' = set_current (current_ s + n) s -> Q tt s') -> wp (advance n) s Q.
Proof.
  intros Hi Hn HQ. apply wp_modify, HQ; [|done]. apply scans_advance; [done|].
  rewrite length_rest in Hn. pose proof (inv_cur _ Hi). lia.
Qed.

Lemma wp_getNextChar s (Q : Z -> Reader -> Prop) :
  inv s ->
  (rest s = [] -> Q 0 s) ->
  (forall c r s', rest s = c :: r -> scans s s' -> s' = set_current (current_ s + 1) s -> Q c s') ->
  wp getNextChar s Q.
Proof.
  intros Hi H0 H1. unfold getNextChar. apply wp_gets_bind. destruct (rest s) as [|c r] eqn:E.
  { by apply wp_ret, H0. }
  apply wp_bind. apply wp_advance; [done|rewrite E; simpl; lia|]. intros s' Hs Heq.
  split; [apply Hs|]. apply wp_ret. by eapply H1.
Qed.

Lemma count_spaces_le r : (count_spaces r <= length r)%nat.
Proof. induction r as [|c r IH]; simpl; [lia|]. destruct (is_space c); simpl; lia. Qed.

Lemma wp_skipSpaces s (Q : unit -> Reader -> Prop) :
  inv s ->
  (forall s', scans s s' -> s' = set_current (current_ s + count_spaces (rest s)) s -> Q tt s') ->
  wp skipSpaces s Q.
Proof.
  intros Hi HQ. unfold skipSpaces. apply wp_gets_bind. apply wp_advance; [done| |done].
  apply count_spaces_le.
Qed.

Lemma wp_match_ pat s (Q : bool -> Reader -> Prop) :
  inv s -> (forall b s', scans s s' -> Q b s') -> wp (match_ pat) s Q.
Proof.
  intros Hi HQ. unfold match_. apply wp_gets_bind.
  destruct (_ <? _)%nat eqn:E; [by apply wp_ret, HQ, scans_refl|]. apply Nat.ltb_ge in E.
  destruct (bytes_eqb _ _); [|by apply wp_ret, HQ, scans_refl].
  apply wp_bind, wp_advance; [done|lia|]. intros s' Hs _. split; [apply Hs|]. by apply wp_ret, HQ.
Qed.

(** ** Comments *)

Lemma shape_payload v v' r : value_ v' = value_ v -> shape v' r = shape v r.
Proof.
  intros H. destruct r as [|e r]; [unfold shape; simpl; unfold type; by rewrite H|].
  rewrite !shape_cons. destruct e; simpl; unfold array_map, object_map; by rewrite H.
Qed.

Lemma setComment_ok c p v :
  nth 0 c 0 = CH "/" -> exists v', setComment c p v = Ret v' /\ value_ v' = value_ v.
Proof.
  destruct c as [|x c]; [done|]. simpl nth. intros ->. unfold setComment.
  assert (exists t, match last (CH "/" :: c) with
                    | Some c0 => if c0 =? 10 then removelast (CH "/" :: c) else CH "/" :: c
                    | None => CH "/" :: c
                    end = CH "/" :: t) as [t ->].
  { destruct c as [|y c]; [by exists []|]. destruct (last _) as [z|]; [|by eexists].
    destruct (z =? 10); by eexists. }
  by eexists.
Qed.

Lemma nth_app_l (a b : bytes) : a <> [] -> nth 0 (a ++ b) 0 = nth 0 a 0.
Proof. by destruct a. Qed.

Lemma comment_ok_app a b : comment_ok a -> nth 0 b 0 = CH "/" -> nth 0 (a ++ b) 0 = CH "/".
Proof. intros [->|Ha] Hb; [done|]. destruct a; [done|]. exact Ha. Qed.

Lemma nth_normalizeEOL s : nth 0 s 0 = CH "/" -> nth 0 (normalizeEOL s) 0 = CH "/".
Proof. destruct s as [|c s]; [done|]. simpl nth. by intros ->. Qed.

Lemma nth_slice b e doc :
  (b < e)%nat -> nth 0 (slice b e doc) 0 = nth 0 (drop b doc) 0.
Proof. intros Hbe. unfold slice. destruct (e - b)%nat eqn:E; [lia|]. by destruct (drop b doc). Qed.

(** A write that keeps the payload of the node. *)
Lemma scans_write s p v v' :
  inv s -> at_path p (root_ s) = Some v -> value_ v' = value_ v ->
  scans s (set_root (alter_path p (fun _ => v') (root_ s)) s).
Proof.
  intros Hi Hp Hv. pose proof (inv_root _ Hi) as Hw.
  assert (forall q, shape (alter_path p (fun _ => v') (root_ s)) q = shape (root_ s) q) as Hsh.
  { intros q. apply (shape_alter_same _ _ _ _ v); [done|]. intros r. by apply shape_payload. }
  split; simpl; try done; try lia. destruct Hi. split; simpl; try done.
  - apply wf_alter_path; [|done]. intros _ _. apply (wf_payload v); [done|]. by eapply wf_at_path.
  - destruct inv_last0 as [|(q & t & Hq & Ht)]; [by left|]. right. exists q, t.
    split; [done|]. by rewrite Hsh.
Qed.

Lemma shape_at_path v p t : shape v p = Some t -> exists w, at_path p v = Some w /\ type w = t.
Proof. unfold shape. intros (w & Hw & ->)%fmap_Some. by exists w. Qed.

Lemma wp_addComment b e pl s (Q : unit -> Reader -> Prop) :
  inv s -> collectComments_ s = true -> (pl = commentAfterOnSameLine -> lastValueEnd_ s <> None) ->
  (b < e)%nat -> nth 0 (drop b (document_ s)) 0 = CH "/" ->
  (forall s', scans s s' -> current_ s' = current_ s -> Q tt s') -> wp (addComment b e pl) s Q.
Proof.
  intros Hi Hc Hpl Hbe Hd HQ. unfold addComment. apply wp_gets_bind. rewrite Hc.
  apply wp_bind, (wp_lift_ret _ tt); [done|]. split; [done|]. apply wp_gets_bind.
  rewrite <- (nth_slice b e) in Hd by done. apply nth_normalizeEOL in Hd.
  assert (Hbefore : wp (modify (fun s0 => set_commentsBefore
            (commentsBefore_ s0 ++ normalizeEOL (slice b e (document_ s))) s0)) s Q).
  { apply wp_modify, HQ; [|done]. split; simpl; try done; try lia. destruct Hi. split; simpl; try done.
    right. by apply comment_ok_app. }
  destruct pl; [exact Hbefore| |exact Hbefore].
  apply wp_gets_bind. destruct (inv_last _ Hi) as [Hn|(p & t & Hp & Ht)]; [by destruct Hpl|].
  rewrite Hp. destruct (shape_at_path _ _ _ Ht) as (v & Hv & _).
  destruct (setComment_ok _ commentAfterOnSameLine v Hd) as (v' & Hv' & Hpay).
  eapply wp_call_at; [done|done|]. apply HQ; [|done]. by apply (scans_write _ _ v).
Qed.

Lemma c_comment_scan_le r : (c_comment_scan r <= length r)%nat.
Proof.
  induction r as [|c r IH]; [done|]. simpl. destruct r as [|d r]; [lia|].
  destruct (_ && _); simpl in *; lia.
Qed.

Lemma cpp_comment_scan_le r : (cpp_comment_scan r <= length r)%nat.
Proof.
  induction r as [|c r IH]; [done|]. simpl. destruct (c =? 10); [lia|].
  destruct (c =? 13); [|simpl in *; lia]. destruct r as [|d r]; simpl; [lia|].
  destruct (d =? 10); lia.
Qed.

Lemma wp_readComment s (Q : bool -> Reader -> Prop) :
  inv s -> (1 <= current_ s)%nat -> nth 0 (drop (current_ s - 1) (document_ s)) 0 = CH "/" ->
  (forall b s', scans s s' -> Q b s') -> wp readComment s Q.
Proof.
  intros Hi Hc Hd HQ. unfold readComment. apply wp_gets_bind.
  eapply (wp_bind_scans _ _ _ (fun _ _ => True)).
  { apply wp_getNextChar; [done|by intros; split; [apply scans_refl|]|]. intros. by split. }
  intros c s1 H1 _. pose proof (sc_inv _ _ H1) as Hi1.
  eapply (wp_bind_scans _ _ _ (fun _ _ => True)).
  { destruct (c =? CH "*"); [|destruct (c =? CH "/")].
    - unfold readCStyleComment. apply wp_gets_bind.
      eapply (wp_bind_scans _ _ _ (fun _ _ => True)).
      { apply wp_advance; [done|apply c_comment_scan_le|]. intros. by split. }
      intros _ s2 H2 _. eapply (wp_bind_scans _ _ _ (fun _ s' => scans s1 s')).
      { apply wp_getNextChar; [apply H2|intros; split; [apply scans_refl, H2|done]|].
        intros ? ? s3 _ H3 _. split; [done|]. by eapply scans_trans. }
      intros c' s3 _ H3. by apply wp_ret.
    - unfold readCppStyleComment. apply wp_gets_bind.
      eapply (wp_bind_scans _ _ _ (fun _ _ => True)).
      { apply wp_advance; [done|apply cpp_comment_scan_le|]. intros. by split. }
      intros _ s2 H2 _. by apply wp_ret.
    - apply wp_ret. split; [by apply scans_refl|done]. }
  intros ok s2 H2 _. pose proof (scans_trans _ _ _ H1 H2) as H12.
  destruct (negb ok); [by apply wp_ret, HQ|]. apply wp_gets_bind.
  eapply (wp_bind_scans _ _ _ (fun _ _ => True)).
  { destruct (collectComments_ s2) eqn:Ecol; [|by apply wp_ret; split; [apply scans_refl, H2|]].
    do 3 apply wp_gets_bind. apply wp_addComment; [apply H2|done| | | |by intros].
    - destruct (lastValueEnd_ s2); [done|]. done.
    - pose proof (sc_cur _ _ H12). lia.
    - rewrite (sc_doc _ _ H12). exact Hd. }
  intros _ s3 H3 _. apply wp_ret, HQ. by eapply scans_trans.
Qed.

(** ** Numbers, strings, tokens *)

Lemma digits_loop_bounds r p c cur p' r' :
  digits_loop r p = (c, cur, p', r') ->
  (p <= cur <= p' /\ p' + length r' = p + length r)%nat.
Proof.
  revert p. induction r as [|d r IH]; intros p; simpl; [intros [= <- <- <- <-]; simpl; lia|].
  destruct (is_digit d); [|intros [= <- <- <- <-]; lia]. intros H%IH. lia.
Qed.

Lemma number_end_bounds r p : (p <= number_end r p <= p + length r)%nat.
Proof.
  unfold number_end. destruct (digits_loop r p) as [[[c1 cur1] p1] r1] eqn:E1.
  apply digits_loop_bounds in E1.
  destruct (if c1 =? CH "." then _ else _) as [[[c2 cur2] p2] r2] eqn:E2.
  assert (p <= cur2 <= p2 /\ p2 + length r2 = p + length r)%nat as H2.
  { destruct (c1 =? CH "."); [apply digits_loop_bounds in E2; lia|injection E2 as <- <- <- <-; lia]. }
  destruct (_ || _); [|lia].
  destruct (match r2 with [] => _ | _ :: _ => _ end) as [[[c3 cur3] p3] r3] eqn:E3.
  destruct r2 as [|d r2]; [apply digits_loop_bounds in E3; simpl in *; lia|].
  destruct (_ || _); apply digits_loop_bounds in E3; simpl in *; lia.
Qed.

Lemma wp_readNumber s (Q : unit -> Reader -> Prop) :
  inv s -> (forall s', scans s s' -> Q tt s') -> wp readNumber s Q.
Proof.
  intros Hi HQ. unfold readNumber. apply wp_gets_bind. unfold id.
  pose proof (number_end_bounds (rest s) (current_ s)) as Hb.
  rewrite length_rest in Hb. pose proof (inv_cur _ Hi).
  set (e := number_end _ _) in *. assert (e = current_ s + (e - current_ s))%nat as -> by lia.
  apply wp_modify, HQ. apply scans_advance; [done|lia].
Qed.

Lemma string_scan_bounds r c0 n c :
  string_scan r c0 = (n, c) -> (n <= length r)%nat /\ (c0 <> dquote -> c = dquote -> 1 <= n)%nat.
Proof.
  remember (length r) as k eqn:Hk. revert r c0 n c Hk.
  induction k as [k IH] using lt_wf_ind; intros r c0 n c ->.
  destruct r as [|d r]; cbn [string_scan]; [by intros [= <- <-]|].
  destruct (d =? CH "\").
  - destruct r as [|d2 r]; [intros [= <- <-]; simpl; lia|].
    destruct (string_scan r d) as [n' c'] eqn:E. intros [= <- <-].
    apply (IH (length r)) in E as [Hn _]; [simpl; lia|simpl; lia|done].
  - destruct (d =? dquote); [intros [= <- <-]; simpl; lia|].
    destruct (string_scan r d) as [n' c'] eqn:E. intros [= <- <-].
    apply (IH (length r)) in E as [Hn _]; [simpl; lia|simpl; lia|done].
Qed.

Lemma wp_readString s (Q : bool -> Reader -> Prop) :
  inv s ->
  (forall b s', scans s s' -> (b = true -> current_ s < current_ s')%nat -> Q b s') -> wp readString s Q.
Proof.
  intros Hi HQ. unfold readString. apply wp_gets_bind.
  destruct (string_scan (rest s) 0) as [n c] eqn:E. apply string_scan_bounds in E as [Hn Hq].
  apply wp_bind, wp_advance; [done|done|]. intros s' Hs Heq. split; [apply Hs|].
  apply wp_ret, HQ; [done|]. intros Hc. apply Z.eqb_eq in Hc.
  assert (1 <= n)%nat by (by apply Hq). subst s'. simpl. lia.
Qed.

Lemma opens_app a b : opens (a ++ b) = (opens a + opens b)%nat.
Proof. induction a as [|c a IH]; simpl; [done|]. rewrite IH. lia. Qed.

Lemma opens_take_le n m s : (n <= m)%nat -> (opens (take n s) <= opens (take m s))%nat.
Proof.
  intros Hnm. replace m with (n + (m - n))%nat by lia. rewrite <- take_take_drop, opens_app. lia.
Qed.

Lemma opens_take_total n s : (opens (take n s) <= opens s)%nat.
Proof. rewrite <- (take_drop n s) at 2. rewrite opens_app. lia. Qed.

(** Reading one opening bracket counts. *)
Lemma opens_take_S n s c r :
  drop n s = c :: r -> is_open c = true -> (opens (take n s) < opens (take (S n) s))%nat.
Proof.
  intros Hd Hc. replace (S n) with (n + 1)%nat by lia.
  rewrite <- take_take_drop, opens_app, Hd. simpl. rewrite Hc. lia.
Qed.

(** What the [switch] of [readToken] does after the character [c]. *)
Definition switch_ok (c : Z) (s s' : Reader) (ok : bool) (t : TokenType) : Prop :=
  (ok = true -> t = tokenString -> (current_ s < current_ s')%nat) /\
  (t = tokenArraySeparator \/ t = tokenObjectEnd \/ t = tokenArrayEnd -> current_ s' = current_ s) /\
  (t = tokenObjectBegin \/ t = tokenArrayBegin -> is_open c = true).

(** A read whose token is none of the special ones. *)
Lemma switch_plain c s s' ok t :
  (ok = true -> t = tokenString -> (current_ s < current_ s')%nat) ->
  t <> tokenArraySeparator -> t <> tokenObjectEnd -> t <> tokenArrayEnd ->
  t <> tokenObjectBegin -> t <> tokenArrayBegin -> switch_ok c s s' ok t.
Proof. intros. split; [done|]. split; [by intros [|[|]]|by intros [|]]. Qed.

(** What [getNextChar] leaves. *)
Definition next_char (s : Reader) (c : Z) (s' : Reader) : Prop :=
  (rest s = [] /\ c = 0 /\ s' = s) \/
  (exists r, rest s = c :: r /\ s' = set_current (current_ s + 1) s).

Lemma wp_next_char s (Q : Z -> Reader -> Prop) :
  inv s -> (forall c s', scans s s' -> next_char s c s' -> Q c s') -> wp getNextChar s Q.
Proof.
  intros Hi HQ. apply wp_getNextChar; [done|intros E; apply HQ; [by apply scans_refl|by left]|].
  intros c r s' E Hs ->. apply HQ; [done|]. right. by exists r.
Qed.

(** The character before the position is the one read. *)
Lemma next_char_at s c s' : next_char s c s' -> c <> 0 ->
  (1 <= current_ s')%nat /\ nth 0 (drop (current_ s' - 1) (document_ s')) 0 = c.
Proof.
  intros [(_ & -> & _)|(r & Hr & ->)] Hc; [done|]. simpl. split; [lia|].
  rewrite Nat.add_sub. unfold rest in Hr. by rewrite Hr.
Qed.

(** The [switch] on the end of the text or on a NUL, and only there. *)
Definition switch_zero (c : Z) (s s' : Reader) (ok : bool) (t : TokenType) : Prop :=
  (c = 0 -> t = tokenEndOfStream /\ ok = true /\ s' = s) /\ (t = tokenEndOfStream -> c = 0).

Lemma next_char_end s c s' : inv s -> next_char s c s' -> c = 0 -> at_end s'.
Proof.
  intros Hi [(Hr & _ & ->)|(r & Hr & ->)] Hc.
  - left. apply drop_nil_ge in Hr. pose proof (inv_cur _ Hi). lia.
  - right. exists (current_ s). split; [simpl; lia|]. apply drop_cons_lookup in Hr as [Hl _].
    by rewrite <- Hc.
Qed.

(** Spaces, a character, the [switch]: a token. *)
Lemma token_ok_switch s s1 s2 s3 c ok t :
  scans s s1 -> next_char s1 c s2 -> scans s1 s2 -> scans s2 s3 ->
  switch_ok c s2 s3 ok t -> switch_zero c s2 s3 ok t ->
  scans s s3 /\ token_ok s s3 ok (mkToken (if ok then t else tokenError) (current_ s1) (current_ s3)).
Proof.
  intros H1 Hc H2 H3 (Hstr & Hsingle & Hopen) [H0 He].
  pose proof (next_char_end s1 c s2 (sc_inv _ _ H1) Hc) as Hend.
  pose proof (scans_trans _ _ _ H1 H2) as H12. pose proof (scans_trans _ _ _ H12 H3) as H13.
  pose proof (sc_cur _ _ H1) as Hc1. pose proof (sc_cur _ _ H3) as Hc3. split; [done|].
  destruct Hc as [(Hr & -> & ->)|(r & Hr & ->)].
  { destruct H0 as (-> & -> & ->); [done|]. split; simpl; try done; intros; try lia; auto;
      repeat match goal with H : _ \/ _ |- _ => destruct H end; done. }
  simpl in Hc3, Hstr, Hsingle. split; simpl.
  - by intros ->.
  - lia.
  - done.
  - lia.
  - lia.
  - destruct ok; [|done]. intros Ht. specialize (Hstr eq_refl Ht). lia.
  - destruct ok; [|intros [|[|]]; done]. intros Ht. specialize (Hsingle Ht). lia.
  - destruct ok; [|intros [|]; done]. intros Ht%Hopen.
    pose proof (opens_take_S _ _ _ _ Hr Ht) as Ho.
    rewrite (sc_doc _ _ H13). rewrite (sc_doc _ _ H1) in Ho.
    eapply Nat.le_lt_trans; [|eapply Nat.lt_le_trans; [exact Ho|]]; apply opens_take_le; lia.
  - destruct ok; [|done]. intros Ht%He. destruct (H0 Ht) as (_ & _ & ->). by apply Hend.
Qed.

(** A branch of the [switch] that reads no further. *)
Lemma switch_here c s ok t :
  (c = 0 -> t = tokenEndOfStream /\ ok = true) -> (t = tokenEndOfStream -> c = 0) -> t <> tokenString ->
  (t = tokenObjectBegin \/ t = tokenArrayBegin -> is_open c = true) ->
  switch_ok c s s ok t /\ switch_zero c s s ok t.
Proof.
  intros H0 He Ht Ho. split; [split; [done|split; [done|exact Ho]]|]. split; [|exact He].
  intros Hc. destruct (H0 Hc). by split_and!.
Qed.

(** A branch that reads on, to a token that is none of the special ones. *)
Lemma switch_on c s s' ok t :
  c <> 0 -> (ok = true -> t = tokenString -> (current_ s < current_ s')%nat) ->
  negb (token_eqb t tokenArraySeparator || token_eqb t tokenObjectEnd || token_eqb t tokenArrayEnd ||
        token_eqb t tokenObjectBegin || token_eqb t tokenArrayBegin ||
        token_eqb t tokenEndOfStream) = true ->
  switch_ok c s s' ok t /\ switch_zero c s s' ok t.
Proof.
  intros Hc Hs Ht. split; [|by split; [|intros ->]]. by apply switch_plain; [|intros ->..].
Qed.

Lemma wp_token_switch c s (Q : bool * TokenType -> Reader -> Prop) :
  inv s -> (c = CH "/" -> (1 <= current_ s)%nat /\ nth 0 (drop (current_ s - 1) (document_ s)) 0 = c) ->
  (forall ok t s', scans s s' -> switch_ok c s s' ok t /\ switch_zero c s s' ok t -> Q (ok, t) s') ->
  wp (token_switch c) s Q.
Proof.
  intros Hi Hslash HQ. unfold token_switch.
  repeat (match goal with |- wp (if ?b then _ else _) _ _ => destruct b eqn:? end;
          [bool_to_prop; subst|]).
  all: try (apply wp_ret, HQ; [by apply scans_refl|]; apply switch_here; [done|done|done|token_neq]; fail).
  - apply wp_bind, wp_readString; [done|]. intros b s3 H3 Hb. split; [apply H3|].
    by apply wp_ret, HQ, switch_on; [|done|auto|].
  - destruct (Hslash eq_refl). apply wp_bind, wp_readComment; [done..|].
    intros b s3 H3. split; [apply H3|]. by apply wp_ret, HQ, switch_on.
  - apply wp_bind, wp_readNumber; [done|]. intros s3 H3. split; [apply H3|].
    apply wp_ret, HQ, switch_on; [done| |done..]. intros ->.
    by match goal with H : _ \/ _ |- _ => destruct H end.
  - apply wp_bind, wp_match_; [done|]. intros b s3 H3. split; [apply H3|].
    by apply wp_ret, HQ, switch_on.
  - apply wp_bind, wp_match_; [done|]. intros b s3 H3. split; [apply H3|].
    by apply wp_ret, HQ, switch_on.
  - apply wp_bind, wp_match_; [done|]. intros b s3 H3. split; [apply H3|].
    by apply wp_ret, HQ, switch_on.
  - bool_to_prop. apply wp_ret, HQ; [by apply scans_refl|]. apply switch_here; [done|done|done|token_neq].
Qed.

Lemma wp_readToken s (Q : bool * Token -> Reader -> Prop) :
  inv s -> (forall ok t s', scans s s' -> token_ok s s' ok t -> Q (ok, t) s') -> wp readToken s Q.
Proof.
  intros Hi HQ. unfold readToken.
  apply wp_bind, wp_skipSpaces; [done|]. intros s1 H1 _. split; [apply H1|]. apply wp_gets_bind.
  apply wp_bind, wp_next_char; [apply H1|]. intros c s2 H2 Hc. split; [apply H2|].
  apply wp_bind, wp_token_switch; [apply H2|intros ->; by eapply next_char_at|].
  intros ok t s3 H3 [Hsw H0]. split; [apply H3|]. apply wp_gets_bind, wp_ret.
  edestruct (token_ok_switch s s1 s2 s3 c ok t) as [H13 Ht]; [done..|]. by apply HQ.
Qed.

Lemma token_ok_weaken s s1 s' ok t : scans s s1 -> token_ok s1 s' ok t -> token_ok s s' ok t.
Proof.
  intros Hs [H1 H2 H3 H4 H5 H6 H7 H8 H9]. pose proof (sc_cur _ _ Hs). split; try done; [lia|].
  intros Ht%H8. rewrite (sc_doc _ _ Hs) in Ht.
  eapply Nat.le_lt_trans; [|exact Ht]. by apply opens_take_le.
Qed.

Lemma token_ok_stay s s1 s2 ok t :
  scans s1 s2 -> current_ s2 = current_ s1 -> token_ok s s1 ok t -> token_ok s s2 ok t.
Proof.
  intros Hs Hc Ht. pose proof (sc_doc _ _ Hs) as Hd.
  destruct Ht as [H1 H2 H3 H4 H5 H6 H7 H8 H9]. unfold at_end in *.
  split; try done; unfold at_end; rewrite ?Hc, ?Hd; done.
Qed.

Lemma token_eqb_spec a b : token_eqb a b = true <-> a = b.
Proof. apply bool_decide_eq_true. Qed.
Lemma token_eqb_ne a b : token_eqb a b = false <-> a <> b.
Proof. apply bool_decide_eq_false. Qed.

(** A token other than the end takes at least a character. *)
Lemma token_shrinks s s' ok t :
  scans s s' -> token_ok s s' ok t -> type_ t <> tokenEndOfStream ->
  (length (rest s') < length (rest s))%nat.
Proof.
  intros Hs Ht Hne. pose proof (tk_progress _ _ _ _ Ht Hne). pose proof (tk_start _ _ _ _ Ht).
  pose proof (tk_end _ _ _ _ Ht). rewrite !length_rest, (sc_doc _ _ Hs).
  pose proof (inv_cur _ (sc_inv _ _ Hs)) as Hc. rewrite (sc_doc _ _ Hs) in Hc. lia.
Qed.

Lemma wp_skip_comments fuel s (Q : Token -> Reader -> Prop) :
  inv s -> (length (rest s) < fuel)%nat ->
  (forall ok t s', scans s s' -> token_ok s s' ok t -> Q t s') -> wp (skip_comments fuel) s Q.
Proof.
  revert s. induction fuel as [|fuel IH]; intros s Hi Hf HQ; [lia|]. cbn [skip_comments].
  apply wp_bind, wp_readToken; [done|]. intros ok t s1 H1 Ht. split; [apply H1|].
  destruct (token_eqb _ _) eqn:E; [|by apply wp_ret, (HQ ok)]. apply token_eqb_spec in E.
  apply IH; [apply H1| |].
  - pose proof (token_shrinks _ _ _ _ H1 Ht) as Hlt. rewrite E in Hlt.
    assert (length (rest s1) < length (rest s))%nat by by apply Hlt. lia.
  - intros ok' t' s2 H2 Ht'. apply (HQ ok'); [by eapply scans_trans|by eapply token_ok_weaken].
Qed.

Lemma wp_skipCommentTokens s (Q : Token -> Reader -> Prop) :
  inv s -> (forall ok t s', scans s s' -> token_ok s s' ok t -> Q t s') -> wp skipCommentTokens s Q.
Proof.
  intros Hi HQ. unfold skipCommentTokens. do 2 apply wp_gets_bind.
  destruct (allowComments_ _); [apply wp_skip_comments; [done|lia|done]|].
  apply wp_bind, wp_readToken; [done|]. intros ok t s1 H1 Ht. split; [apply H1|].
  by apply wp_ret, (HQ ok).
Qed.

Lemma wp_comment_loop fuel ok t s (Q : bool * Token -> Reader -> Prop) :
  inv s -> (S (length (rest s)) < fuel)%nat ->
  (forall s', scans s s' -> s' = s -> Q (ok, t) s') ->
  (forall ok' t' s', scans s s' -> token_ok s s' ok' t' -> Q (ok', t') s') ->
  wp (comment_loop fuel ok t) s Q.
Proof.
  revert ok t s. induction fuel as [|fuel IH]; intros ok t s Hi Hf H0 HQ; [lia|].
  cbn [comment_loop]. destruct (_ && _); [|by apply wp_ret, H0; [apply scans_refl|]].
  apply wp_bind, wp_readToken; [done|]. intros ok1 t1 s1 H1 Ht. split; [apply H1|].
  destruct (decide (type_ t1 = tokenEndOfStream)) as [E|Hne].
  - destruct fuel; [lia|]. cbn [comment_loop]. rewrite E. simpl. by apply wp_ret, HQ.
  - pose proof (token_shrinks _ _ _ _ H1 Ht Hne). apply IH; [apply H1|lia| |].
    + intros s' _ ->. by apply HQ.
    + intros ok' t' s' H2 Ht'. apply HQ; [by eapply scans_trans|by eapply token_ok_weaken].
Qed.

(** The token read before the loop, or a later one. *)
Lemma wp_skipCommentsAfter ok t s0 s (Q : bool * Token -> Reader -> Prop) :
  scans s0 s -> token_ok s0 s ok t ->
  (forall ok' t' s', scans s0 s' -> token_ok s0 s' ok' t' -> (current_ s <= current_ s')%nat ->
                     Q (ok', t') s') ->
  wp (skipCommentsAfter ok t) s Q.
Proof.
  intros Hs Ht HQ. unfold skipCommentsAfter. apply wp_gets_bind.
  apply wp_comment_loop; [apply Hs|lia| |].
  - intros s' _ ->. by apply HQ.
  - intros ok' t' s' H1 Ht1. apply HQ; [by eapply scans_trans|by eapply token_ok_weaken|apply H1].
Qed.

Lemma scans_errors_id s s' : scans s s' -> set_errors (take (length (errors_ s)) (errors_ s')) s' = s'.
Proof. intros Hs. rewrite (sc_errors _ _ Hs), take_ge by lia. rewrite <- (sc_errors _ _ Hs). by destruct s'. Qed.

Lemma wp_recover_loop fuel until s0 s (Q : unit -> Reader -> Prop) :
  scans s0 s -> (length (rest s) < fuel)%nat ->
  (forall s', scans s0 s' -> Q tt s') -> wp (recover_loop fuel (length (errors_ s0)) until) s Q.
Proof.
  revert s. induction fuel as [|fuel IH]; intros s Hs Hf HQ; [lia|]. cbn [recover_loop].
  apply wp_bind, wp_readToken; [apply Hs|]. intros ok t s1 H1 Ht. split; [apply H1|].
  pose proof (scans_trans _ _ _ Hs H1) as H01.
  eapply (wp_bind _ _ _ _). apply (wp_mono _ _ (fun _ s' => s' = s1)).
  - destruct ok; [by apply wp_ret|]. apply wp_modify. by apply scans_errors_id.
  - intros _ s' ->. split; [done|]. destruct (_ || _) eqn:E; [by apply wp_ret, HQ|].
    apply orb_false_iff in E as [_ E]. apply token_eqb_ne in E.
    pose proof (token_shrinks _ _ _ _ H1 Ht E). apply IH; [done|lia|done].
Qed.

Lemma wp_recoverFromError until s (Q : bool -> Reader -> Prop) :
  inv s -> (forall s', scans s s' -> Q false s') -> wp (recoverFromError until) s Q.
Proof.
  intros Hi HQ. unfold recoverFromError. do 2 apply wp_gets_bind.
  apply wp_bind, (wp_recover_loop _ _ s s); [by apply scans_refl|lia|]. intros s' Hs.
  split; [apply Hs|]. apply wp_modify_bind; [done|]. rewrite scans_errors_id by done.
  by apply wp_ret, HQ.
Qed.

(** ** Decoding *)

Lemma inv_set_errors e s : inv s -> inv (set_errors e s).
Proof. intros [? ? ? ? ? ?]. by split. Qed.

Lemma wp_addError_fail {A} msg t x (k : RM A) s (Q : A -> Reader -> Prop) :
  (forall e, wp k (set_errors (errors_ s ++ [e]) s) Q) -> wp (addError msg t x ≫= fun _ => k) s Q.
Proof.
  intros HQ. apply wp_bind. unfold addError. apply wp_modify_bind; [done|]. apply wp_ret.
  split; [done|apply HQ].
Qed.

(** Values without children. *)
Definition leaf (v : Value) : Prop := forall e, edge_get e v = None.

Lemma leaf_shape v p : leaf v -> p <> [] -> shape v p = None.
Proof. intros Hl Hp. destruct p as [|e p]; [done|]. by rewrite shape_cons, Hl. Qed.

Lemma leaf_intro v : isArray v = false -> isObject v = false -> leaf v.
Proof. destruct v as [[] ? ? ?]; try done; intros _ _ []; done. Qed.

Lemma decode_digits_range m s v r :
  0 <= v <= m -> m < 2 ^ 64 -> decode_digits m s v = Some r -> 0 <= r <= m.
Proof.
  revert v. induction s as [|c s IH]; intros v Hv Hm; cbn [decode_digits]; [by intros [= <-]|].
  destruct (_ || _) eqn:E1; [done|]. destruct (_ && _) eqn:E2; [done|]. bool_to_prop.
  assert (0 <= c - CH "0" <= 9) as Hd by lia. remember (c - CH "0") as d eqn:Ed. intros Hr.
  assert (0 <= v * 10 + d <= m) as Hn.
  { pose proof (Z.div_mod m 10 ltac:(done)). pose proof (Z.mod_pos_bound m 10 ltac:(done)).
    destruct E2 as [E2|E2]; bool_to_prop; lia. }
  unfold u64 in Hr. rewrite Z.mod_small in Hr by lia. by eapply IH.
Qed.

Lemma wp_decodeDouble t s (Q : option Value -> Reader -> Prop) :
  (forall d, narrow d -> Q (Some (Value_double d)) s) -> (forall e, Q None (set_errors (errors_ s ++ [e]) s)) ->
  wp (decodeDouble t) s Q.
Proof.
  intros HS HN. unfold decodeDouble. apply wp_gets_bind.
  pose proof (istream_double_narrow (token_text t (document_ s))) as Hv.
  destruct (istream_double _) as [v ok]. cbn [fst] in Hv. destruct ok; [by apply wp_ret, HS|].
  destruct (SFeqb _ _); [by apply wp_ret, HS|]. destruct (SFeqb _ _); [by apply wp_ret, HS|].
  destruct (negb _); [|by apply wp_ret, HS]. by apply wp_addError_fail.
Qed.

Lemma wp_decodeNumber t s (Q : option Value -> Reader -> Prop) :
  (forall v, wf v -> leaf v -> isNumeric v = true -> Q (Some v) s) ->
  (forall e, Q None (set_errors (errors_ s ++ [e]) s)) -> wp (decodeNumber t) s Q.
Proof.
  intros HS HN. unfold decodeNumber. apply wp_gets_bind.
  set (text := token_text t (document_ s)). set (neg := nth 0 text 0 =? CH "-").
  destruct (decode_digits _ _ 0) as [v|] eqn:E.
  - apply decode_digits_range in E; [|by destruct neg|by destruct neg].
    assert (0 <= v < 2 ^ 64) as Hv by (unfold maxLargestInt, maxLargestUInt in E; destruct neg; lia).
    apply wp_ret. destruct (neg && _) eqn:E1.
    { apply HS; [|by apply leaf_intro|done]. change (in_s 64 minLargestInt). unfold in_s, minLargestInt. lia. }
    destruct neg; simpl in E1.
    + bool_to_prop. unfold maxLargestInt in *. apply HS; [|by apply leaf_intro|done].
      change (in_s 64 (- i64 v)). unfold in_s, i64, signed. cbv zeta. rewrite Z.mod_small by lia.
      rewrite (proj2 (Z.ltb_lt _ _)) by lia. lia.
    + destruct (v <=? maxInt) eqn:E2; bool_to_prop; (apply HS; [|by apply leaf_intro|done]); [|done].
      unfold maxInt in *. change (in_s 64 (i64 v)). unfold in_s, i64, signed. cbv zeta.
      rewrite Z.mod_small by lia.
      rewrite (proj2 (Z.ltb_lt _ _)) by lia. lia.
  - apply wp_decodeDouble; [|done]. intros d _. apply HS; [done|by apply leaf_intro|done].
Qed.

Lemma hex_digit_range c d : hex_digit c = Some d -> 0 <= d < 16.
Proof.
  unfold hex_digit. destruct (_ && _) eqn:E1; [intros [= <-]; bool_to_prop; lia|].
  destruct (_ && _) eqn:E2 in |- *; [intros [= <-]; bool_to_prop; lia|].
  destruct (_ && _) eqn:E3 in |- *; [intros [= <-]; bool_to_prop; lia|done].
Qed.

Lemma wp_hex4 n t u cur s k (Q : option (Z * cursor) -> Reader -> Prop) :
  (n <= length cur.2)%nat -> 0 <= u < 16 ^ k -> 0 <= k ->
  (forall u' cur', 0 <= u' < 16 ^ (k + Z.of_nat n) -> cur'.2 = drop n cur.2 -> Q (Some (u', cur')) s) ->
  (forall e, Q None (set_errors (errors_ s ++ [e]) s)) -> wp (hex4 n t u cur) s Q.
Proof.
  revert u cur k. induction n as [|n IH]; intros u [i l] k Hl Hu Hk HS HN; cbn [hex4].
  { apply wp_ret, HS; [|done]. by rewrite Z.add_0_r. }
  destruct l as [|c l]; cbn [length snd drop] in *; [lia|]. destruct (hex_digit c) as [d|] eqn:E.
  - apply hex_digit_range in E. apply (IH _ _ (k + 1)); cbn [snd]; [lia| |lia| |done].
    + rewrite Z.pow_add_r, Z.pow_1_r by lia. lia.
    + intros u' cur' Hu' Hc'. apply HS; [|done]. by replace (k + Z.of_nat (S n)) with (k + 1 + Z.of_nat n) by lia.
  - by apply wp_addError_fail.
Qed.

Lemma wp_decodeUnicodeEscapeSequence t cur s (Q : option (Z * cursor) -> Reader -> Prop) :
  (forall u cur', 0 <= u < 0x10000 -> cur'.2 = drop 4 cur.2 -> (4 <= length cur.2)%nat ->
                  Q (Some (u, cur')) s) ->
  (forall e, Q None (set_errors (errors_ s ++ [e]) s)) -> wp (decodeUnicodeEscapeSequence t cur) s Q.
Proof.
  intros HS HN. unfold decodeUnicodeEscapeSequence. destruct (_ <? _)%nat eqn:E.
  - by apply wp_addError_fail.
  - apply Nat.ltb_ge in E. apply (wp_hex4 _ _ _ _ _ 0); [done|done|done| |done].
    intros u' cur' Hu Hc. by apply HS.
Qed.

(** The code point, and that its UTF-8 is no longer than its escape. *)
Lemma wp_decodeUnicodeCodePoint t cur s (Q : option (Z * cursor) -> Reader -> Prop) :
  (forall u cur', 0 <= u <= 0x10FFFF ->
     (length (codePointToUTF8 u) + length cur'.2 <= length cur.2)%nat ->
     (exists n, cur'.2 = drop n cur.2) -> Q (Some (u, cur')) s) ->
  (forall e, Q None (set_errors (errors_ s ++ [e]) s)) -> wp (decodeUnicodeCodePoint t cur) s Q.
Proof.
  intros HS HN. unfold decodeUnicodeCodePoint. apply wp_bind, wp_decodeUnicodeEscapeSequence.
  2: { intros e. split; [done|]. by apply wp_ret. }
  intros u [i l] Hu Hc Hl. simpl in Hc. split; [done|].
  destruct (_ && _) eqn:E.
  - bool_to_prop. destruct (_ <? _)%nat eqn:E6; [by apply wp_addError_fail|]. apply Nat.ltb_ge in E6.
    destruct (_ || _); [by apply wp_addError_fail|].
    apply wp_bind, wp_decodeUnicodeEscapeSequence.
    2: { intros e. split; [done|]. by apply wp_ret. }
    intros u2 cur' Hu2 Hc2 Hl2. simpl in Hc2, Hl2. split; [done|]. apply wp_ret. masks_to_mod.
    assert (0 <= u mod 2 ^ 10 < 1024 /\ 0 <= u2 mod 2 ^ 10 < 1024) as [? ?]
      by (by split; apply Z.mod_pos_bound).
    rewrite Z.shiftl_mul_pow2 by done. apply HS; [lia| |].
    + rewrite Hc2, !length_drop, Hc, length_drop. rewrite Hc, length_drop in E6.
      assert (length (codePointToUTF8 (0x10000 + u mod 2 ^ 10 * 2 ^ 10 + u2 mod 2 ^ 10)) <= 4)%nat; [|lia].
      rewrite codePointToUTF8_arith by lia. repeat destruct (_ <=? _); simpl; lia.
    + rewrite Hc2, Hc, !drop_drop. by eexists.
  - apply wp_ret, HS; [lia| |by exists 4%nat].
    simpl. rewrite Hc, length_drop.
    assert (length (codePointToUTF8 u) <= 3)%nat; [|lia].
    rewrite codePointToUTF8_arith by lia. destruct (u <=? 0x7f); [simpl; lia|].
    destruct (u <=? 0x7FF); [simpl; lia|].
    rewrite (proj2 (Z.leb_le _ _)) by lia. simpl. lia.
Qed.

Lemma codePointToUTF8_bytes u : 0 <= u <= 0x10FFFF -> Forall byte_ok (codePointToUTF8 u).
Proof.
  intros Hu. rewrite codePointToUTF8_arith by done.
  destruct (u <=? 0x7f) eqn:E1; [|destruct (u <=? 0x7FF) eqn:E2;
    [|destruct (u <=? 0xFFFF) eqn:E3]]; bool_to_prop;
    repeat apply Forall_cons_2; try apply Forall_nil; unfold byte_ok; zdiv_lia.
Qed.

Lemma simple_escape_byte c d : simple_escape c = Some d -> byte_ok d.
Proof.
  unfold simple_escape. repeat destruct (_ =? _); intros [= <-]; unfold byte_ok, dquote; lia.
Qed.

Lemma wp_decode_string_loop fuel t cur acc s (Q : option bytes -> Reader -> Prop) :
  (length cur.2 < fuel)%nat -> Forall byte_ok cur.2 -> Forall byte_ok acc ->
  (forall d, Forall byte_ok d -> (length d <= length acc + length cur.2)%nat -> Q (Some d) s) ->
  (forall e, Q None (set_errors (errors_ s ++ [e]) s)) -> wp (decode_string_loop fuel t cur acc) s Q.
Proof.
  revert cur acc. induction fuel as [|fuel IH]; intros [i l] acc Hf Hb Ha HS HN; [lia|].
  cbn [decode_string_loop]. simpl in *. destruct l as [|c l]; [apply wp_ret, HS; [done|lia]|].
  apply Forall_cons in Hb as [Hc Hb]. simpl in *.
  destruct (c =? dquote); [apply wp_ret, HS; [done|lia]|].
  destruct (c =? CH "\").
  - destruct l as [|e l]; [by apply wp_addError_fail|]. apply Forall_cons in Hb as [_ Hb]. simpl in *.
    destruct (simple_escape e) as [d|] eqn:E.
    + apply IH; simpl; [lia|done| | |done].
      * apply Forall_app. split; [done|]. apply Forall_singleton. by eapply simple_escape_byte.
      * intros d' Hd' Hl. apply HS; [done|]. rewrite length_app in Hl. simpl in Hl. lia.
    + destruct (e =? CH "u"); [|by apply wp_addError_fail].
      apply wp_bind, wp_decodeUnicodeCodePoint.
      2: { intros e'. split; [done|]. by apply wp_ret. }
      intros u cur' Hu Hl [n Hn]. simpl in *. split; [done|]. apply IH; [lia| | | |done].
      * rewrite Hn. by apply Forall_drop.
      * apply Forall_app. split; [done|]. by apply codePointToUTF8_bytes.
      * intros d' Hd' Hl'. apply HS; [done|]. rewrite length_app in Hl'. lia.
  - apply IH; simpl; [lia|done| | |done].
    + apply Forall_app. split; [done|]. by apply Forall_singleton.
    + intros d' Hd' Hl. apply HS; [done|]. rewrite length_app in Hl. simpl in Hl. lia.
Qed.

Lemma wp_decodeString t s (Q : option bytes -> Reader -> Prop) :
  inv s -> (tok_start_ t + 2 <= tok_end_ t)%nat ->
  (forall d, Forall byte_ok d -> (length d <= length (document_ s))%nat -> Q (Some d) s) ->
  (forall e, Q None (set_errors (errors_ s ++ [e]) s)) -> wp (decodeString t) s Q.
Proof.
  intros Hi Ht HS HN. unfold decodeString. apply wp_gets_bind.
  rewrite (proj2 (Nat.ltb_ge _ _)) by done. cbv zeta.
  apply wp_decode_string_loop; simpl; [lia| |constructor| |done].
  - unfold slice. apply Forall_take, Forall_drop, Hi.
  - intros d Hd Hl. apply HS; [done|]. unfold slice in Hl. rewrite length_take, length_drop in Hl. lia.
Qed.

(** ** The text of a number is made of bytes *)

Lemma dec_digits_bytes n : Forall byte_ok (dec_digits n).
Proof.
  unfold dec_digits. generalize (S (Z.to_nat (Z.log2 n))). intros fuel.
  assert (forall acc, Forall byte_ok acc -> Forall byte_ok (dec_aux fuel n acc)) as H; [|by apply H].
  revert n. induction fuel as [|fuel IH]; intros n acc Ha; [done|]. cbn [dec_aux].
  assert (Forall byte_ok (CH "0" + n mod 10 :: acc)) as Hc.
  { constructor; [|done]. pose proof (Z.mod_pos_bound n 10 ltac:(done)). unfold byte_ok. lia. }
  destruct (_ =? 0); [done|]. by apply IH.
Qed.

Lemma dec_signed_bytes n : Forall byte_ok (dec_signed n).
Proof.
  unfold dec_signed. destruct (n <? 0); [|apply dec_digits_bytes].
  constructor; [unfold byte_ok; lia|apply dec_digits_bytes].
Qed.

Lemma repeat_bytes c n : byte_ok c -> Forall byte_ok (repeat c n).
Proof. intros Hc. induction n as [|n IH]; by constructor. Qed.

Lemma pad0_bytes w s : Forall byte_ok s -> Forall byte_ok (pad0 w s).
Proof.
  intros Hs. apply Forall_app. split; [|done]. apply repeat_bytes. unfold byte_ok. lia.
Qed.

Lemma strip_zeros_bytes s : Forall byte_ok s -> Forall byte_ok (strip_zeros s).
Proof.
  intros Hs. unfold strip_zeros. apply Forall_reverse. apply Forall_reverse in Hs.
  induction Hs as [|c l Hc Hl IH]; [constructor|]. simpl. destruct (c =? _); [done|by constructor].
Qed.

Ltac bytes_tac :=
  repeat first
    [ apply Forall_nil_2 | apply Forall_cons_2; [unfold byte_ok; lia|]
    | apply Forall_app; split | apply Forall_take | apply Forall_drop | apply pad0_bytes
    | apply dec_digits_bytes | apply strip_zeros_bytes | apply repeat_bytes; unfold byte_ok; lia ].

Lemma fmt_g_bytes p x : Forall byte_ok (fmt_g p x).
Proof.
  unfold fmt_g. destruct x as [s|s| |s m e]; simpl sf_sign; try (destruct s; bytes_tac; fail); [bytes_tac|].
  destruct (sf_ratio m e) as [n d].
  assert (Hf : forall t, Forall byte_ok t ->
    Forall byte_ok (match strip_zeros t with [] => [] | u => CH "." :: u end)).
  { intros t Ht%strip_zeros_bytes. destruct (strip_zeros t); [constructor|].
    constructor; [unfold byte_ok; lia|done]. }
  destruct (if scale_rne _ _ _ =? _ then _ else _) as [k x1].
  apply Forall_app. split; [destruct s; bytes_tac|].
  destruct (_ || _); [|destruct (x1 <? 0)].
  - apply Forall_app. split; [bytes_tac|]. apply Forall_app. split; [apply Hf; bytes_tac|].
    destruct (x1 <? 0); bytes_tac.
  - apply Forall_app. split; [bytes_tac|]. apply Hf; bytes_tac.
  - apply Forall_app. split; [bytes_tac|]. apply Hf; bytes_tac.
Qed.

Lemma valueToString_real_bytes d : Forall byte_ok (valueToString_real d).
Proof.
  unfold valueToString_real, valueToString_double. destruct (negb _).
  { destruct (sf_isnan d); [bytes_tac|]. destruct (sf_sign d); bytes_tac. }
  assert (Forall byte_ok (fixNumericLocale (fmt_g (Z.to_nat (Z.max 1 defaultRealPrecision)) d))) as H.
  { unfold fixNumericLocale. apply Forall_map. eapply Forall_impl; [apply fmt_g_bytes|].
    intros c Hc. destruct (c =? _); [unfold byte_ok; lia|done]. }
  cbv zeta. destruct (_ && _); [|done]. apply Forall_app. split; [done|bytes_tac].
Qed.

(** [asString] of a number returns. *)
Lemma asString_numeric v :
  wf v -> isNumeric v = true -> exists s, asString v = Ret s /\ Forall byte_ok s.
Proof.
  intros Hw Hn. rewrite wf_unfold in Hw. unfold asString.
  destruct v as [[] ? ? ?]; try discriminate Hn; simpl in *.
  - rewrite valueToString_Int_dec by done. eexists. split; [done|apply dec_signed_bytes].
  - rewrite valueToString_UInt_dec by done. eexists. split; [done|apply dec_digits_bytes].
  - eexists. split; [done|apply valueToString_real_bytes].
Qed.

(** The longest name that a number can give. *)
Lemma asString_length v s :
  wf v -> isNumeric v = true -> (forall d, value_ v = PReal d -> narrow d) -> asString v = Ret s ->
  Z.of_nat (length s) <= 5800.
Proof.
  intros Hw Hn Hr E. rewrite wf_unfold in Hw. unfold asString in E.
  destruct v as [[|i|u|d| | | |] ? ? ?]; try discriminate Hn; simpl in *.
  - rewrite valueToString_Int_dec in E by done. injection E as <-. unfold dec_signed.
    pose proof (dec_digits_bits (- i) 64 ltac:(done)). pose proof (dec_digits_bits i 64 ltac:(done)).
    unfold in_s in Hw. destruct (i <? 0); simpl; lia.
  - rewrite valueToString_UInt_dec in E by done. injection E as <-.
    pose proof (dec_digits_bits u 64 ltac:(done)). unfold in_u in Hw. lia.
  - injection E as <-. by apply valueToString_real_length, Hr.
Qed.

(** ** The frame of the parser *)

(** The effect of reading a value into the node [p] designates: positions move
    forward, only the node and what is below it changes, and it stays there. *)
Record runs (p : path) (s s' : Reader) : Prop := {
  ru_inv : inv s';
  ru_features : features_ s' = features_ s;
  ru_doc : document_ s' = document_ s;
  ru_cur : (current_ s <= current_ s')%nat;
  ru_nodes : nodes_ s' = nodes_ s;
  ru_collect : collectComments_ s' = collectComments_ s;
  ru_other : forall q, ~ p `prefix_of` q -> shape (root_ s') q = shape (root_ s) q;
  ru_live : is_Some (shape (root_ s') p);
  ru_nocollect : collectComments_ s = false -> lastValue_ s' = lastValue_ s;
}.

(** ... without an error, [lastValue_] unchanged. *)
Definition quiet (p : path) (s s' : Reader) : Prop :=
  runs p s s' /\ errors_ s' = errors_ s /\ lastValue_ s' = lastValue_ s.

(** Errors are reported exactly when the method returns false. *)
Definition reported (s s' : Reader) (ok : bool) : Prop :=
  if ok then errors_ s' = errors_ s
  else exists e es, errors_ s' = errors_ s ++ e :: es.

(** [lastValue_] designates nothing below [p]. *)
Definition no_below (p : path) (s : Reader) : Prop :=
  forall r, lastValue_ s = Some (p ++ r) -> r = [].
(** ... nor below a child of it. *)
Definition no_deep (p : path) (s : Reader) : Prop :=
  forall k r, lastValue_ s = Some (p ++ k :: r) -> r = [].

Lemma runs_trans p s1 s2 s3 : runs p s1 s2 -> runs p s2 s3 -> runs p s1 s3.
Proof.
  intros [] []. split; try congruence; [lia|..].
  - intros q Hq. rewrite ru_other1, ru_other0 by done. done.
  - intros Hc. rewrite ru_nocollect1, ru_nocollect0 by congruence. done.
Qed.

Lemma quiet_trans p s1 s2 s3 : quiet p s1 s2 -> quiet p s2 s3 -> quiet p s1 s3.
Proof.
  intros (H1 & E1 & L1) (H2 & E2 & L2). split; [by eapply runs_trans|]. split; congruence.
Qed.

Lemma scans_quiet p s s' : scans s s' -> is_Some (shape (root_ s) p) -> quiet p s s'.
Proof. intros [] Hp. split; [|done]. split; try done. by rewrite sc_shape0. Qed.

Lemma runs_live_trans p q s s' : runs p s s' -> ~ p `prefix_of` q -> is_Some (shape (root_ s) q) ->
  is_Some (shape (root_ s') q).
Proof. intros Hr Hq. by rewrite (ru_other _ _ _ Hr). Qed.

Lemma runs_set_errors p s e : inv s -> is_Some (shape (root_ s) p) -> runs p s (set_errors e s).
Proof. intros Hi Hp. split; simpl; try done. by apply inv_set_errors. Qed.

(** The pointer to the value just read. *)
Lemma runs_set_lastValue p e s0 s :
  runs p s0 s -> collectComments_ s0 = true -> runs p s0 (set_lastValue e (Some p) s).
Proof.
  intros [Hi ? ? ? ? ? ? [t Ht] ?] Hc. split; simpl; try done; [|intros; congruence].
  destruct Hi. split; simpl; try done. right. by exists p, t.
Qed.

(** Un-reading the one character of a token. *)
Lemma runs_unread p s0 s ok token :
  runs p s0 s -> token_ok s0 s ok token -> tok_end_ token = S (tok_start_ token) ->
  runs p s0 (set_current (current_ s - 1) s).
Proof.
  intros [Hi ? ? ? ? ? ? ? ?] Ht Hend. split; simpl; try done.
  - destruct Hi. split; simpl; try done. lia.
  - rewrite <- (tk_end _ _ _ _ Ht). pose proof (tk_start _ _ _ _ Ht). lia.
Qed.

(** Reading a child is reading the parent. *)
Lemma runs_child p k s s' :
  is_Some (shape (root_ s) p) -> runs (p ++ [k]) s s' ->
  runs p s s' /\ shape (root_ s') p = shape (root_ s) p.
Proof.
  intros Hp Hr. assert (~ (p ++ [k]) `prefix_of` p) as Hn.
  { intros H%prefix_length. rewrite length_app in H. simpl in H. lia. }
  pose proof (ru_other _ _ _ Hr _ Hn) as Hsame. split; [|done]. destruct Hr. split; try done.
  - intros q Hq. apply ru_other0. intros H. apply Hq. by eapply prefix_app_l.
  - by rewrite Hsame.
Qed.

Lemma runs_set_nodes p n s s' : runs p (set_nodes n s) s' -> runs p s (set_nodes (nodes_ s) s').
Proof. intros [[] ? ? ? ? ? ? ? ?]. split; try done. Qed.

Lemma inv_set_nodes n s : inv s -> inv (set_nodes n s).
Proof. by intros []. Qed.

(** Replacing the payload of the current value. *)
Lemma wp_swapPayloadCurrent w p ns s (Q : unit -> Reader -> Prop) :
  inv s -> nodes_ s = p :: ns -> is_Some (shape (root_ s) p) -> no_below p s -> wf w -> leaf w ->
  (forall s', quiet p s s' -> shape (root_ s') p = Some (type w) -> current_ s' = current_ s ->
              Q tt s') ->
  wp (swapPayloadCurrent w) s Q.
Proof.
  intros Hi Hn [t Ht] Hb Hw Hl HQ. destruct (shape_at_path _ _ _ Ht) as (v & Hv & _).
  set (v' := (swapPayload v w).1). assert (value_ v' = value_ w) as Hpay by done.
  assert (forall r, shape (alter_path p (fun _ => v') (root_ s)) (p ++ r) = shape w r) as Hbelow.
  { intros r. rewrite (shape_alter_below _ _ _ _ v) by done. by apply shape_payload. }
  assert (forall q, ~ p `prefix_of` q ->
    shape (alter_path p (fun _ => v') (root_ s)) q = shape (root_ s) q) as Hother.
  { intros q Hq. by apply shape_alter_other. }
  pose proof (Hbelow []) as Hp. rewrite app_nil_r in Hp.
  eapply (wp_currentValue _ _ _ _ v v'); [done|done|done|]. apply HQ; [|exact Hp|done].
  split; [|done]. pose proof Hi as Hi'. destruct Hi'. split; simpl; try done.
  - split; simpl; try done.
    + apply wf_alter_path; [|done]. intros _ _. by apply (wf_payload w).
    + destruct inv_last0 as [|(q & t' & Hq & Ht')]; [by left|]. right.
      destruct (decide (p `prefix_of` q)) as [[r ->]|Hnp].
      * specialize (Hb _ Hq). subst r. exists (p ++ []), (type w). split; [done|]. by rewrite Hbelow.
      * exists q, t'. split; [done|]. by rewrite Hother.
  - rewrite Hp. by eexists.
Qed.

(** A call that keeps the payload of the current value. *)
Lemma wp_currentValue_meta f p ns s (Q : unit -> Reader -> Prop) :
  inv s -> nodes_ s = p :: ns -> is_Some (shape (root_ s) p) ->
  (forall v, exists v', f v = Ret v' /\ value_ v' = value_ v) ->
  (forall s', scans s s' -> current_ s' = current_ s -> Q tt s') -> wp (currentValue f) s Q.
Proof.
  intros Hi Hn [t Ht] Hf HQ. destruct (shape_at_path _ _ _ Ht) as (v & Hv & _).
  destruct (Hf v) as (v' & Hfv & Hpay).
  eapply (wp_currentValue _ _ _ _ v v'); [done|done|done|]. apply HQ; [|done].
  by apply (scans_write _ _ v).
Qed.

Lemma wp_setOffsets a b p ns s (Q : unit -> Reader -> Prop) :
  inv s -> nodes_ s = p :: ns -> is_Some (shape (root_ s) p) ->
  (forall s', scans s s' -> current_ s' = current_ s -> Q tt s') -> wp (setOffsets a b) s Q.
Proof.
  intros Hi Hn Hp HQ. eapply wp_currentValue_meta; [done|done|done| |done].
  intros v. by eexists.
Qed.

(** A call that makes the child [k] of the current value. *)
Lemma wp_currentValue_child f k t p ns s (Q : unit -> Reader -> Prop) :
  inv s -> nodes_ s = p :: ns -> shape (root_ s) p = Some t ->
  (forall v, wf v -> type v = t -> exists v', f v = Ret v' /\ wf v' /\ type v' = t /\
     is_Some (edge_get k v') /\ forall e w, edge_get e v = Some w -> edge_get e v' = Some w) ->
  (forall s', quiet p s s' -> current_ s' = current_ s -> shape (root_ s') p = Some t ->
              is_Some (shape (root_ s') (p ++ [k])) -> Q tt s') ->
  wp (currentValue f) s Q.
Proof.
  intros Hi Hn Hp Hf HQ. destruct (shape_at_path _ _ _ Hp) as (v & Hv & Htv).
  pose proof (inv_root _ Hi) as Hw. pose proof (wf_at_path _ _ _ Hw Hv) as Hwv.
  destruct (Hf v Hwv Htv) as (v' & Hfv & Hwv' & Htv' & [c Hk] & Hkeep).
  assert (forall r, shape (alter_path p (fun _ => v') (root_ s)) (p ++ r) = shape v' r) as Hbelow.
  { intros r. by rewrite (shape_alter_below _ _ _ _ v). }
  assert (forall r t', shape v r = Some t' -> is_Some (shape v' r)) as Hlive.
  { intros [|e r] t'; [by eexists|]. rewrite !shape_cons.
    destruct (edge_get e v) as [w|] eqn:E; [|done]. rewrite (Hkeep _ _ E). simpl. intros ->. by eexists. }
  pose proof (Hbelow []) as Hsh. rewrite app_nil_r in Hsh. unfold shape at 2 in Hsh. simpl in Hsh.
  rewrite Htv' in Hsh.
  eapply (wp_currentValue _ _ _ _ v v'); [done|done|done|]. apply HQ; [|done|done|].
  - split; [|done]. pose proof Hi as Hi'. destruct Hi'. split; simpl; try done.
    + split; simpl; try done; [by apply wf_alter_path|].
      destruct inv_last0 as [|(q & t' & Hq & Ht')]; [by left|]. right.
      destruct (shape_alter_live p q (fun _ => v') (root_ s) v t') as [t'' Ht'']; [done..|].
      by exists q, t''.
    + intros q Hq. by apply shape_alter_other.
  - simpl. rewrite Hbelow, shape_cons, Hk. by eexists.
Qed.

Lemma om_find_emplace_keep {K V} `{KeyOrdLaws K} (k j : K) (v w : V) m :
  om_sorted m -> om_find j m = Some w -> om_find j (om_emplace k v m) = Some w.
Proof.
  intros Hs Hj. destruct (decide (j = k)) as [->|Hne].
  - by rewrite om_find_emplace_eq, Hj.
  - by rewrite om_find_emplace_ne.
Qed.

(** [currentValue()[index]] on an array. *)
Lemma index_ref_int_child i v :
  0 <= i < 2 ^ 31 -> wf v -> type v = arrayValue ->
  exists v', index_ref_int i v = Ret v' /\ wf v' /\ type v' = arrayValue /\
    is_Some (edge_get (EIdx (u32 i)) v') /\
    forall e w, edge_get e v = Some w -> edge_get e v' = Some w.
Proof.
  intros Hi Hw Ht. destruct v as [[| | | | | |m|m] c st l]; try discriminate Ht.
  unfold index_ref_int. rewrite (proj2 (Z.leb_le _ _)) by lia. unfold u32.
  rewrite Z.mod_small by lia. simpl.
  eexists. split; [reflexivity|]. split.
  { eapply (wf_index_ref i (mkValue (PArray m) c st l)); [reflexivity| |done]. unfold in_u. lia. }
  apply wf_array_map in Hw as (Hs & _ & _). change (om_sorted m) in Hs. split; [done|]. split.
  - change (is_Some (om_find i (om_emplace i Value_null m))).
    rewrite om_find_emplace_eq by done. by eexists.
  - intros [j|k] w; [|done]. by apply (om_find_emplace_keep i j Value_null w m).
Qed.

(** [currentValue()[name]] on an object. *)
Lemma resolveReference_child k v :
  Forall byte_ok k -> wf v -> type v = objectValue ->
  exists v', resolveReference k v = Ret v' /\ wf v' /\ type v' = objectValue /\
    is_Some (edge_get (EKey (CZString k)) v') /\
    forall e w, edge_get e v = Some w -> edge_get e v' = Some w.
Proof.
  intros Hk Hw Ht. destruct v as [[| | | | | |m|m] c st l]; try discriminate Ht.
  eexists. split; [reflexivity|]. split.
  { by eapply (wf_resolveReference k (mkValue (PObject m) c st l)). }
  apply wf_object_map in Hw as (Hs & _ & _). change (om_sorted m) in Hs. split; [done|]. split.
  - change (is_Some (om_find (CZString k) (om_emplace (CZString k) Value_null m))).
    rewrite om_find_emplace_eq by done. by eexists.
  - intros [j|j] w; [done|]. by apply (om_find_emplace_keep (CZString k) j Value_null w m).
Qed.

(** ** What the parser needs *)

(** The depth of the stack against the brackets read. *)
Definition depth_lt (s : Reader) : Prop :=
  (length (nodes_ s) <= opens (take (current_ s) (document_ s)))%nat.

Lemma depth_runs p s s' : runs p s s' -> depth_lt s -> depth_lt s'.
Proof.
  intros Hr. unfold depth_lt. rewrite (ru_nodes _ _ _ Hr), (ru_doc _ _ _ Hr). intros H.
  etransitivity; [exact H|]. apply opens_take_le, Hr.
Qed.

Lemma no_below_deep p s : no_below p s -> no_deep p s.
Proof. intros H k r Hl. by specialize (H _ Hl). Qed.

Lemma no_below_quiet p p' s s' : quiet p' s s' -> no_below p s -> no_below p s'.
Proof. intros (_ & _ & Hl) H r. rewrite Hl. apply H. Qed.

Lemma no_deep_below p k s : no_deep p s -> no_below (p ++ [k]) s.
Proof. intros H r. rewrite <- app_assoc. apply H. Qed.

Lemma reported_trans s1 s2 s3 ok : errors_ s2 = errors_ s1 -> reported s2 s3 ok -> reported s1 s3 ok.
Proof. unfold reported. by intros ->. Qed.

Lemma reported_scans s1 s2 s3 ok : reported s1 s2 ok -> scans s2 s3 -> reported s1 s3 ok.
Proof. unfold reported. intros H Hs. by rewrite (sc_errors _ _ Hs). Qed.

(** The comment collected before a value. *)
Lemma wp_attach_comment (collect : bool) before p ns s (Q : unit -> Reader -> Prop) :
  inv s -> nodes_ s = p :: ns -> is_Some (shape (root_ s) p) -> before = commentsBefore_ s ->
  (forall s', scans s s' -> current_ s' = current_ s -> Q tt s') ->
  wp (if collect && negb (bool_decide (before = [])) then
        _ ← currentValue (setComment before commentBefore);
        modify (set_commentsBefore [])
      else mret tt) s Q.
Proof.
  intros Hi Hn Hp -> HQ. destruct (_ && _) eqn:E; [|by apply wp_ret, HQ; [apply scans_refl|]].
  apply andb_true_iff in E as [_ E]. apply negb_true_iff, bool_decide_eq_false in E.
  destruct (inv_comments _ Hi) as [|Hc]; [done|].
  apply wp_bind. eapply wp_currentValue_meta; [done..| |].
  { intros v. by apply setComment_ok. }
  intros s1 H1 Hc1. split; [apply H1|]. apply wp_modify, HQ; [|done].
  eapply scans_trans; [done|]. pose proof (sc_inv _ _ H1) as []. split; simpl; try done; try lia.
  split; simpl; try done. by left.
Qed.

Lemma quiet_live p s s' : quiet p s s' -> is_Some (shape (root_ s') p).
Proof. intros (H & _). apply H. Qed.

Lemma quiet_inv p s s' : quiet p s s' -> inv s'.
Proof. intros (H & _). apply H. Qed.

Lemma Value_string_ok s :
  Forall byte_ok s -> Z.of_nat (length s) <= maxInt - 4 - 1 ->
  Value_string s = Ret (initBasic (PString s)).
Proof.
  intros Hs Hl. unfold Value_string, duplicateAndPrefixStringValue.
  by rewrite (proj2 (Z.leb_le _ _)).
Qed.

(** A text decoded from the document fits a string value. *)
Lemma Value_string_inv s d :
  inv s -> Forall byte_ok d -> (length d <= length (document_ s))%nat ->
  Value_string d = Ret (initBasic (PString d)).
Proof. intros Hi Hd Hl. apply Value_string_ok; [done|]. pose proof (inv_len _ Hi). lia. Qed.

Lemma reported_true s s' : errors_ s' = errors_ s -> reported s s' true.
Proof. done. Qed.

Lemma quiet_scans p s0 s s' : quiet p s0 s -> scans s s' -> quiet p s0 s'.
Proof. intros Hq Hs. eapply quiet_trans; [done|]. apply scans_quiet; [done|by eapply quiet_live]. Qed.

Lemma wp_object_name t s0 s ok (Q : option (option bytes) -> Reader -> Prop) :
  inv s -> token_ok s0 s ok t ->
  Q None s ->
  (forall name, type_ t <> tokenEndOfStream -> Forall byte_ok name -> Q (Some (Some name)) s) ->
  (forall e, Q (Some None) (set_errors (errors_ s ++ [e]) s)) ->
  wp (object_name t) s Q.
Proof.
  intros Hi Ht HN HS HE. unfold object_name. apply wp_gets_bind.
  destruct (token_eqb _ _) eqn:E1.
  - apply token_eqb_spec in E1. apply wp_bind, wp_decodeString; [done|by apply (tk_string _ _ _ _ Ht)|..].
    + intros d Hd _. split; [done|]. apply wp_ret, HS; [by rewrite E1|done].
    + intros e. split; [done|]. by apply wp_ret.
  - destruct (_ && _) eqn:E2; [|by apply wp_ret].
    apply andb_true_iff in E2 as [E2%token_eqb_spec _]. apply wp_bind, wp_decodeNumber.
    + intros v Hw _ Hnum. split; [done|]. destruct (asString_numeric v Hw Hnum) as (name & Hname & Hb).
      apply wp_bind, (wp_lift_ret _ name); [done|]. split; [done|]. apply wp_ret, HS; [by rewrite E2|done].
    + intros e. split; [done|]. by apply wp_ret.
Qed.
End calculus.
