(* ===== verification/JsonReaderFacts.v ===== *)
(** * Safety and termination of [Json::Reader]

    Every function of the parser meets its specification with the fuel it asks
    for.  The theorems at the end say that [parse] returns on every document,
    within the fuel, without undefined behaviour, and that it stops the process
    exactly on the nesting limit. *)
From S2P Require Export JsonReaderWp.
Open Scope Z_scope.

(** ** Definitions *)

Definition stack_msg : string := "Exceeded stackLimit in readValue().".

(** The parser may stop on the nesting limit, which takes as many opening
    brackets as the limit. *)
#[local] Instance reader_stops : Stops := fun msg doc => msg = stack_msg /\ (stackLimit_g <= opens doc)%nat.

(** ** The parser *)

(** What a method that reads into [p] is used for. *)
Definition cont (p : path) (s0 : Reader) (Q : bool -> Reader -> Prop) : Prop :=
  forall ok s', runs p s0 s' -> reported s0 s' ok -> Q ok s'.

Lemma wp_fail_recover p s0 s until Q :
  runs p s0 s -> (exists e es, errors_ s = errors_ s0 ++ e :: es) -> cont p s0 Q ->
  wp (recoverFromError until) s Q.
Proof.
  intros Hr (e & es & He) HQ. apply wp_recoverFromError; [apply Hr|]. intros s' Hs. apply HQ.
  - eapply runs_trans; [done|]. apply (scans_quiet p) in Hs as [Hs _]; [done|apply Hr].
  - exists e, es. by rewrite (sc_errors _ _ Hs).
Qed.

Lemma wp_fail_add p s0 s msg t until Q :
  runs p s0 s -> errors_ s = errors_ s0 -> cont p s0 Q -> wp (addErrorAndRecover msg t until) s Q.
Proof.
  intros Hr He HQ. unfold addErrorAndRecover. apply wp_addError_fail. intros e.
  eapply wp_fail_recover; [|exists e, []; simpl; by rewrite He|done].
  eapply runs_trans; [done|]. apply runs_set_errors; apply Hr.
Qed.

Definition value_ok (m : nat) (f : RM bool) : Prop :=
  forall s p ns Q,
    inv s -> nodes_ s = p :: ns -> is_Some (shape (root_ s) p) -> no_below p s ->
    (length (nodes_ s) <= S (opens (take (current_ s) (document_ s))))%nat ->
    (3 * length (rest s) + 1 <= m)%nat ->
    (forall ok s', runs p s s' -> reported s s' ok ->
       (ok = true -> lastValue_ s' = lastValue_ s \/ lastValue_ s' = Some p) -> Q ok s') ->
    wp f s Q.

Definition container_ok (m : nat) (f : Token -> RM bool) : Prop :=
  forall token s p ns Q,
    inv s -> nodes_ s = p :: ns -> is_Some (shape (root_ s) p) -> no_below p s -> depth_lt s ->
    (3 * length (rest s) + 3 <= m)%nat -> cont p s Q -> wp (f token) s Q.

Definition members_ok (m : nat) (t : ValueType) (f : RM bool) (s : Reader) : Prop :=
  forall p ns Q,
    inv s -> nodes_ s = p :: ns -> shape (root_ s) p = Some t -> no_deep p s -> depth_lt s ->
    (3 * length (rest s) + 2 <= m)%nat -> cont p s Q -> wp f s Q.

(** The end of [readValue]. *)
Lemma wp_value_end (collect : bool) p ns s0 s ok (Q : bool -> Reader -> Prop) :
  runs p s0 s -> nodes_ s0 = p :: ns -> collect = collectComments_ s0 -> reported s0 s ok ->
  (forall s', runs p s0 s' -> reported s0 s' ok ->
     (ok = true -> lastValue_ s' = lastValue_ s0 \/ lastValue_ s' = Some p) -> Q ok s') ->
  wp (_ ← (if collect then
             p ← nodes_top; modify (fun s => set_lastValue (Some (current_ s)) (Some p) s)
           else mret tt);
      mret ok) s Q.
Proof.
  intros Hr Hn Hc He HQ. destruct collect.
  - apply wp_bind. unfold nodes_top. apply wp_bind. apply wp_gets_bind.
    rewrite (ru_nodes _ _ _ Hr), Hn. apply wp_ret. split; [done|]. apply wp_modify. split; [done|].
    apply wp_ret. apply HQ; [by apply runs_set_lastValue|done|by right].
  - apply wp_ret_bind, wp_ret, HQ; [done|done|]. intros Ht. left. by apply Hr.
Qed.

(** Storing the value of a token. *)
Lemma wp_store_token token w p ns s (Q : unit -> Reader -> Prop) :
  inv s -> nodes_ s = p :: ns -> is_Some (shape (root_ s) p) -> no_below p s -> wf w -> leaf w ->
  (forall s', quiet p s s' -> current_ s' = current_ s -> Q tt s') -> wp (store_token token w) s Q.
Proof.
  intros Hi Hn Hp Hb Hw Hl HQ. unfold store_token.
  apply wp_bind. eapply wp_swapPayloadCurrent; [done..|]. intros s1 H1 _ Hc1. split; [apply H1|].
  eapply wp_setOffsets; [apply H1|by rewrite (ru_nodes _ _ _ (proj1 H1))|apply H1|].
  intros s2 H2 Hc2. apply HQ; [|congruence]. eapply quiet_trans; [done|].
  apply scans_quiet; [done|apply H1].
Qed.

(** A value that is one token. *)
Lemma wp_token_value (o : RM (option Value)) token p ns s0 s (Q : option bool -> Reader -> Prop) :
  quiet p s0 s -> nodes_ s = p :: ns -> no_below p s ->
  (forall Q', (forall v, wf v -> leaf v -> Q' (Some v) s) ->
              (forall e, Q' None (set_errors (errors_ s ++ [e]) s)) -> wp o s Q') ->
  (forall ok s', runs p s0 s' -> reported s0 s' ok -> Q (Some ok) s') ->
  wp (ok ← (o ← o; match o with
                   | None => mret false
                   | Some decoded => _ ← store_token token decoded; mret true
                   end); mret (Some ok)) s Q.
Proof.
  intros (Hr & He & Hl) Hn Hb Ho HQ. apply wp_bind, wp_bind, Ho.
  - intros v Hw Hlf. split; [done|]. apply wp_bind.
    eapply wp_store_token; [apply Hr|done|apply Hr|done..|]. intros s1 (H1 & E1 & L1) _.
    split; [apply H1|]. apply wp_ret. split; [apply H1|]. apply wp_ret, HQ; [by eapply runs_trans|].
    simpl. congruence.
  - intros e. split; [done|]. apply wp_ret. split; [done|]. apply wp_ret, HQ.
    + eapply runs_trans; [done|]. apply runs_set_errors; apply Hr.
    + exists e, []. simpl. by rewrite He.
Qed.

#[local] Hint Resolve quiet_live quiet_inv : esp.

(** The container branches of [readValue]. *)
Lemma wp_container_value n f token p ns s0 s (Q : option bool -> Reader -> Prop) :
  container_ok n f -> quiet p s0 s -> nodes_ s = p :: ns -> no_below p s -> depth_lt s ->
  (3 * length (rest s) + 3 <= n)%nat ->
  (forall ok s', runs p s0 s' -> reported s0 s' ok -> Q (Some ok) s') ->
  wp (ok ← f token;
      cur ← gets current_;
      _ ← currentValue (fun v => Ret (setOffsetLimit (Z.of_nat cur) v));
      mret (Some ok)) s Q.
Proof.
  intros Hf (Hr & He & Hl) Hn Hb Hd Hfuel HQ. apply wp_bind.
  eapply Hf; [apply Hr|done|apply Hr|done..|]. intros ok s1 H1 E1. split; [apply H1|].
  apply wp_gets_bind, wp_bind.
  eapply wp_currentValue_meta; [apply H1|by rewrite (ru_nodes _ _ _ H1)|apply H1| |].
  { intros v. by eexists. }
  intros s2 H2 _. split; [apply H2|]. apply wp_ret, HQ.
  - eapply runs_trans; [done|]. eapply runs_trans; [done|].
    apply (scans_quiet p) in H2 as [H2 _]; [done|apply H1].
  - eapply reported_scans; [|done]. by eapply reported_trans.
Qed.

Lemma wp_string_value token p ns s0 s (Q : option bool -> Reader -> Prop) :
  quiet p s0 s -> nodes_ s = p :: ns -> no_below p s -> (tok_start_ token + 2 <= tok_end_ token)%nat ->
  (forall ok s', runs p s0 s' -> reported s0 s' ok -> Q (Some ok) s') ->
  wp (ok ← decodeStringCurrent token; mret (Some ok)) s Q.
Proof.
  intros (Hr & He & Hl) Hn Hb Ht HQ. unfold decodeStringCurrent.
  apply wp_bind, wp_bind, wp_decodeString; [apply Hr|done|..].
  - intros d Hd Hlen. split; [done|].
    apply wp_bind. apply (wp_lift_ret _ (initBasic (PString d))); [by eapply Value_string_inv; [apply Hr|..]|].
    split; [done|]. apply wp_bind.
    eapply wp_store_token; [apply Hr|done|apply Hr|done|done|by apply leaf_intro|].
    intros s1 (H1 & E1 & L1) _. split; [apply H1|]. apply wp_ret. split; [apply H1|].
    apply wp_ret, HQ; [by eapply runs_trans|]. simpl. congruence.
  - intros e. split; [done|]. apply wp_ret. split; [done|]. apply wp_ret, HQ.
    + eapply runs_trans; [done|]. apply runs_set_errors; apply Hr.
    + exists e, []. simpl. by rewrite He.
Qed.

Lemma wp_literal token v p ns s0 s (Q : option bool -> Reader -> Prop) :
  quiet p s0 s -> nodes_ s = p :: ns -> no_below p s -> wf v -> leaf v ->
  (forall ok s', runs p s0 s' -> reported s0 s' ok -> Q (Some ok) s') ->
  wp (_ ← store_token token v; mret (Some true)) s Q.
Proof.
  intros (Hr & He & Hl) Hn Hb Hw Hlf HQ. apply wp_bind.
  eapply wp_store_token; [apply Hr|done|apply Hr|done..|]. intros s1 (H1 & E1 & L1) _.
  split; [apply H1|]. apply wp_ret, HQ; [by eapply runs_trans|]. simpl. congruence.
Qed.

Lemma wp_syntax_error {A} a b msg token (r : option A) p ns s0 s (Q : option A -> Reader -> Prop) :
  quiet p s0 s -> nodes_ s = p :: ns ->
  (forall s', runs p s0 s' -> reported s0 s' false -> Q r s') ->
  wp (_ ← setOffsets a b; _ ← addError msg token None; mret r) s Q.
Proof.
  intros (Hr & He & Hl) Hn HQ. apply wp_bind.
  eapply wp_setOffsets; [apply Hr|done|apply Hr|]. intros s1 H1 _. split; [apply H1|].
  apply wp_addError_fail. intros e. pose proof (scans_quiet p _ _ H1 (ru_live _ _ _ Hr)) as (H1r & E1 & _).
  apply wp_ret, HQ.
  - eapply runs_trans; [done|]. eapply runs_trans; [done|]. apply runs_set_errors; apply H1r.
  - exists e, []. simpl. by rewrite E1, He.
Qed.

(** The null put in the place of a dropped value: the separator is read again. *)
Lemma wp_dropped s0 s p ns token ok (Q : option bool -> Reader -> Prop) :
  quiet p s0 s -> nodes_ s = p :: ns -> no_below p s -> token_ok s0 s ok token ->
  tok_end_ token = S (tok_start_ token) ->
  (forall ok s', runs p s0 s' -> reported s0 s' ok -> Q (Some ok) s') ->
  wp (_ ← modify (fun s => set_current (current_ s - 1) s);
      _ ← swapPayloadCurrent Value_null;
      cur ← gets current_;
      _ ← setOffsets (Z.of_nat cur - 1) (Z.of_nat cur);
      mret (Some true)) s Q.
Proof.
  intros (Hr & He & Hl) Hn Hb Ht Hend HQ. apply wp_modify_bind; [done|].
  set (s1 := set_current (current_ s - 1) s).
  assert (runs p s0 s1) as Hr1.
  { by eapply runs_unread. }
  apply wp_bind.
  eapply wp_swapPayloadCurrent; [apply Hr1|done|apply Hr1|done|exact wf_null|by apply leaf_intro|].
  intros s2 (H2 & E2 & L2) _ _. split; [apply H2|]. apply wp_gets_bind, wp_bind.
  eapply wp_setOffsets; [apply H2|by rewrite (ru_nodes _ _ _ H2)|apply H2|].
  intros s3 H3 _. split; [apply H3|]. apply wp_ret, HQ.
  - eapply runs_trans; [done|]. eapply runs_trans; [done|]. by apply scans_quiet; [|apply H2].
  - simpl. rewrite (sc_errors _ _ H3), E2. exact He.
Qed.

Lemma wp_readValue_body n rO rA :
  container_ok n rO -> container_ok n rA -> value_ok (S n) (readValue_body rO rA).
Proof.
  intros HO HA s p ns Q Hi Hn Hp Hb Hd Hf HQ. unfold readValue_body. apply wp_gets_bind.
  destruct (_ <? _)%nat eqn:E.
  { apply Nat.ltb_lt in E. split; [done|]. pose proof (opens_take_total (current_ s) (document_ s)). lia. }
  apply wp_bind, wp_skipCommentTokens; [done|]. intros ok0 t s1 H1 Ht. split; [apply H1|].
  do 2 apply wp_gets_bind. apply wp_bind.
  eapply wp_attach_comment; [apply H1|by rewrite (sc_nodes _ _ H1)|by rewrite (sc_shape _ _ H1)|done|].
  intros s2 H2 Hc2. split; [apply H2|].
  pose proof (scans_trans _ _ _ H1 H2) as H12. pose proof (scans_quiet p _ _ H12 Hp) as Hq.
  assert (Hn2 : nodes_ s2 = p :: ns) by by rewrite (sc_nodes _ _ H12).
  pose proof (no_below_quiet _ _ _ _ Hq Hb) as Hb2.
  assert (Ht2 : token_ok s s2 ok0 t).
  { exact (token_ok_stay _ _ _ _ _ H2 Hc2 Ht). }
  apply wp_bind.
  apply (wp_mono _ _ (fun r s3 => match r with
    | Some ok => runs p s s3 /\ reported s s3 ok
    | None => runs p s s3 /\ reported s s3 false end)).
  2: { intros [ok|] s3 [H3 E3];
         (split; [by rewrite (ru_doc _ _ _ H3), (sc_doc _ _ H12)|]).
       - eapply wp_value_end; [exact H3|exact Hn|by rewrite (sc_collect _ _ H1)|exact E3|exact (HQ ok)].
       - apply wp_ret, HQ; [exact H3|exact E3|done]. }
  assert (Hcont : (type_ t = tokenObjectBegin \/ type_ t = tokenArrayBegin) ->
                  depth_lt s2 /\ (3 * length (rest s2) + 3 <= n)%nat).
  { intros Hty. pose proof (tk_open _ _ _ _ Ht2 Hty) as Ho. split.
    - unfold depth_lt. rewrite (sc_nodes _ _ H12). lia.
    - assert (type_ t <> tokenEndOfStream) as Hne by (by destruct Hty as [->| ->]).
      pose proof (token_shrinks _ _ _ _ H12 Ht2 Hne). lia. }
  unfold value_switch. apply wp_gets_bind. cbv zeta.
  destruct (type_ t) eqn:Ety;
    try (eapply wp_syntax_error; [exact Hq|exact Hn2|by split]);
    try (destruct (allowDroppedNullPlaceholders_ _);
         [|eapply wp_syntax_error; [exact Hq|exact Hn2|by split]];
         eapply wp_dropped; [exact Hq|exact Hn2|exact Hb2|exact Ht2| |by split];
         apply (tk_single _ _ _ _ Ht2); rewrite Ety; tauto);
    try (by eapply wp_literal; [exact Hq|exact Hn2|exact Hb2|exact I|apply leaf_intro|]).
  - destruct Hcont as [Hdl Hfl]; [by left|].
    eapply wp_container_value; [exact HO|exact Hq|exact Hn2|exact Hb2|exact Hdl|exact Hfl|by split].
  - destruct Hcont as [Hdl Hfl]; [by right|].
    eapply wp_container_value; [exact HA|exact Hq|exact Hn2|exact Hb2|exact Hdl|exact Hfl|by split].
  - eapply wp_string_value; [exact Hq|exact Hn2|exact Hb2|by apply (tk_string _ _ _ _ Ht2)|by split].
  - unfold decodeNumberCurrent. eapply wp_token_value; [exact Hq|exact Hn2|exact Hb2| |by split].
    intros Q' HS HN. apply wp_decodeNumber; [|done]. intros v ? ? _. by apply HS.
Qed.

(** One member: push the child, read it, pop. *)
Lemma wp_member {A} n rv k p ns t s0 s (K : bool -> RM A) (Q : A -> Reader -> Prop) :
  value_ok n rv -> quiet p s0 s -> nodes_ s = p :: ns -> shape (root_ s) p = Some t ->
  is_Some (shape (root_ s) (p ++ [k])) -> no_deep p s -> depth_lt s ->
  (3 * length (rest s) + 1 <= n)%nat ->
  (forall ok s', runs p s s' -> runs p s0 s' -> reported s0 s' ok -> nodes_ s' = p :: ns ->
     shape (root_ s') p = Some t -> (ok = true -> no_deep p s') -> wp (K ok) s' Q) ->
  wp (_ ← push_edge k; ok ← rv; _ ← nodes_pop; K ok) s Q.
Proof.
  intros Hrv (Hr & He & Hl) Hn Hp Hk Hnd Hd Hf HQ.
  apply wp_bind. unfold push_edge, nodes_top. apply wp_bind, wp_gets_bind. rewrite Hn.
  apply wp_ret. split; [done|]. apply wp_modify. split; [done|]. rewrite Hn.
  set (s1 := set_nodes _ s). apply wp_bind.
  eapply (Hrv s1 (p ++ [k]) (p :: ns)); [apply inv_set_nodes, Hr|done|exact Hk| | |exact Hf|].
  - apply no_deep_below, Hnd.
  - unfold depth_lt in Hd. rewrite Hn in Hd. simpl in *. lia.
  - intros ok s2 H2 E2 L2. split; [apply H2|]. unfold nodes_pop.
    apply runs_set_nodes in H2 as H3.
    destruct (runs_child p k s (set_nodes (nodes_ s) s2)) as [H4 Hsh]; [by rewrite Hp; eexists|done|].
    assert (set_nodes (nodes_ s) s2 = set_nodes (tail (nodes_ s2)) s2) as Heq.
    { rewrite (ru_nodes _ _ _ H2), Hn. done. }
    rewrite Heq in H4, Hsh. apply wp_modify_bind; [done|]. apply HQ.
    + done.
    + by eapply runs_trans.
    + simpl. eapply reported_trans; [exact He|exact E2].
    + simpl. by rewrite (ru_nodes _ _ _ H2).
    + by rewrite Hsh.
    + intros Hok k' r. simpl. destruct (L2 Hok) as [->| ->]; [apply Hnd|].
      intros [= H%app_inv_head]. by injection H as _ <-.
Qed.

(** What follows a member: a comma or the end. *)
Lemma wp_object_next n loop name p ns s0 s (Q : bool -> Reader -> Prop) :
  (forall name s, members_ok n objectValue (loop name) s) ->
  runs p s0 s -> errors_ s = errors_ s0 -> nodes_ s = p :: ns -> shape (root_ s) p = Some objectValue ->
  no_deep p s -> depth_lt s0 -> (3 * length (rest s) + 2 <= n)%nat -> cont p s0 Q ->
  wp (object_next loop name) s Q.
Proof.
  intros Hloop Hr He Hn Hsh Hnd Hd Hf HQ. unfold object_next.
  assert (is_Some (shape (root_ s) p)) as Hlive by by rewrite Hsh.
  apply wp_bind, wp_readToken; [apply Hr|]. intros ok6 t6 s6 H6 Ht6. split; [apply H6|].
  assert (runs p s0 s6) as Hr6 by (eapply runs_trans; [exact Hr|by apply scans_quiet]).
  assert (errors_ s6 = errors_ s0) as He6 by by rewrite (sc_errors _ _ H6).
  destruct (negb ok6 || _) eqn:E6; [by eapply wp_fail_add|]. apply orb_false_iff in E6 as [E6 _].
  apply negb_false_iff in E6. subst ok6.
  apply wp_bind. eapply (wp_skipCommentsAfter true t6 s s6); [done|done|].
  intros ok7 t7 s7 H7 Ht7 _. split; [by rewrite (sc_doc _ _ H7), (sc_doc _ _ H6)|].
  assert (runs p s0 s7) as Hr7 by (eapply runs_trans; [exact Hr|by apply scans_quiet]).
  assert (errors_ s7 = errors_ s0) as He7 by by rewrite (sc_errors _ _ H7).
  destruct (token_eqb _ _); [by apply wp_ret, HQ|].
  eapply Hloop; [apply H7|by rewrite (sc_nodes _ _ H7)|by rewrite (sc_shape _ _ H7)| | | |].
  - intros k r. rewrite (sc_lv _ _ H7). by apply Hnd.
  - by eapply depth_runs.
  - assert (length (rest s7) <= length (rest s))%nat; [|lia].
    rewrite !length_rest, (sc_doc _ _ H7). pose proof (sc_cur _ _ H7). lia.
  - intros ok s8 H8 E8. apply HQ; [by eapply runs_trans|by eapply reported_trans].
Qed.

Lemma wp_object_body n rv loop name s :
  value_ok n rv -> (forall name s, members_ok n objectValue (loop name) s) ->
  members_ok (S n) objectValue (object_body rv loop name) s.
Proof.
  intros Hrv Hloop p ns Q Hi Hn Hp Hnd Hd Hf HQ. unfold object_body.
  assert (Hlive : is_Some (shape (root_ s) p)) by by rewrite Hp.
  apply wp_bind, wp_readToken; [done|]. intros ok t s1 H1 Ht. split; [apply H1|].
  destruct ok; simpl negb; cbv iota.
  2: { pose proof (scans_quiet p _ _ H1 Hlive) as (? & ? & _). by eapply wp_fail_add. }
  apply wp_bind. eapply (wp_skipCommentsAfter true t s s1); [done|done|].
  intros ok t2 s2 H2 Ht2 Hle. split; [by rewrite (sc_doc _ _ H2), (sc_doc _ _ H1)|].
  pose proof (scans_quiet p _ _ H2 Hlive) as Hq2. pose proof Hq2 as (Hr2 & He2 & Hl2).
  destruct ok; simpl negb; cbv iota; [|by eapply wp_fail_add].
  destruct (_ && bool_decide _); [by apply wp_ret, HQ|].
  apply wp_bind. eapply wp_object_name; [apply H2|exact Ht2|..].
  { split; [done|]. by eapply wp_fail_add. }
  2: { intros e. split; [done|]. eapply wp_fail_recover; [|exists e, []; simpl; by rewrite He2|exact HQ].
       eapply runs_trans; [exact Hr2|]. apply runs_set_errors; apply Hr2. }
  intros nm Hne Hnm. split; [done|].
  pose proof (token_shrinks _ _ _ _ H2 Ht2 Hne) as Hshrink.
  apply wp_bind, wp_readToken; [apply H2|]. intros ok3 t3 s3 H3 Ht3. split; [apply H3|].
  pose proof (quiet_scans _ _ _ _ Hq2 H3) as Hq3. pose proof Hq3 as (Hr3 & He3 & _).
  destruct (_ || _); [by eapply wp_fail_add|].
  apply wp_bind.
  eapply (wp_currentValue_child _ (EKey (CZString nm)) objectValue);
    [apply Hr3|by rewrite (ru_nodes _ _ _ Hr3)| |by intros; apply resolveReference_child|].
  { rewrite (sc_shape _ _ H3), (sc_shape _ _ H2). exact Hp. }
  intros s4 Hq4 Hc4 Hsh4 Hk4. split; [apply Hq4|].
  pose proof (quiet_trans _ _ _ _ Hq3 Hq4) as Hq04. pose proof Hq04 as (Hr4 & He4 & Hl4).
  assert (length (rest s4) <= length (rest s2))%nat as Hrest.
  { rewrite !length_rest, Hc4. rewrite (ru_doc _ _ _ Hr4), (ru_doc _ _ _ Hr2).
    pose proof (sc_cur _ _ H3). lia. }
  eapply wp_member; [exact Hrv|exact Hq04|by rewrite (ru_nodes _ _ _ Hr4)|exact Hsh4|exact Hk4| | |lia|].
  { intros k r. rewrite Hl4. apply Hnd. }
  { by eapply depth_runs. }
  intros ok5 s5 H45 H5 E5 Hn5 Hsh5 Hnd5. destruct ok5; simpl negb; cbv iota.
  2: { by eapply wp_fail_recover. }
  eapply wp_object_next; [exact Hloop|exact H5|exact E5|exact Hn5|exact Hsh5|by apply Hnd5|exact Hd| |exact HQ].
  assert (length (rest s5) <= length (rest s4))%nat; [|lia].
  rewrite !length_rest, (ru_doc _ _ _ H5), (ru_doc _ _ _ Hr4). pose proof (ru_cur _ _ _ H45). lia.
Qed.

Lemma wp_array_body n rv loop index s :
  value_ok n rv ->
  (forall index s, 0 <= index <= Z.of_nat (current_ s) -> members_ok n arrayValue (loop index) s) ->
  0 <= index <= Z.of_nat (current_ s) -> members_ok (S n) arrayValue (array_body rv loop index) s.
Proof.
  intros Hrv Hloop Hix p ns Q Hi Hn Hp Hnd Hd Hf HQ. unfold array_body.
  assert (Hlive : is_Some (shape (root_ s) p)) by by rewrite Hp.
  assert (Hix2 : 0 <= index < 2 ^ 31).
  { pose proof (inv_len _ Hi). pose proof (inv_cur _ Hi). unfold maxInt in *. lia. }
  apply wp_bind.
  eapply (wp_currentValue_child _ (EIdx (u32 index)) arrayValue);
    [exact Hi|exact Hn|exact Hp|by intros; apply index_ref_int_child|].
  intros s4 Hq4 Hc4 Hsh4 Hk4. split; [apply Hq4|]. pose proof Hq4 as (Hr4 & He4 & Hl4).
  assert (length (rest s4) = length (rest s)) as Hrest.
  { by rewrite !length_rest, Hc4, (ru_doc _ _ _ Hr4). }
  eapply wp_member; [exact Hrv|exact Hq4|by rewrite (ru_nodes _ _ _ Hr4)|exact Hsh4|exact Hk4| | |lia|].
  { intros k r. rewrite Hl4. apply Hnd. }
  { by eapply depth_runs. }
  intros ok5 s5 H45 H5 E5 Hn5 Hsh5 Hnd5. destruct ok5; simpl negb; cbv iota.
  2: { by eapply wp_fail_recover. }
  unfold array_next.
  apply wp_bind, wp_readToken; [apply H5|]. intros ok6 t6 s6 H6 Ht6. split; [apply H6|].
  apply wp_bind. eapply (wp_skipCommentsAfter ok6 t6 s5 s6); [done|done|].
  intros ok7 t7 s7 H7 Ht7 _. split; [by rewrite (sc_doc _ _ H7), (sc_doc _ _ H6)|].
  assert (runs p s s7) as Hr7.
  { eapply runs_trans; [exact H5|]. by apply scans_quiet; [|apply H5]. }
  assert (errors_ s7 = errors_ s) as He7 by (rewrite (sc_errors _ _ H7); exact E5).
  cbv zeta. destruct (negb ok7 || _) eqn:E7; [by eapply wp_fail_add|].
  apply orb_false_iff in E7 as [_ E7].
  destruct (token_eqb (type_ t7) tokenArrayEnd) eqn:E8; [by apply wp_ret, HQ|].
  assert (type_ t7 <> tokenEndOfStream) as Hne.
  { intros Heq. rewrite Heq in E7. done. }
  pose proof (token_shrinks _ _ _ _ H7 Ht7 Hne) as Hshrink.
  assert (current_ s < current_ s7)%nat as Hcur.
  { rewrite !length_rest, (sc_doc _ _ H7) in Hshrink. pose proof (ru_cur _ _ _ H5). lia. }
  eapply Hloop; [lia|apply H7|by rewrite (sc_nodes _ _ H7)|by rewrite (sc_shape _ _ H7)| | | |].
  - intros k r. rewrite (sc_lv _ _ H7). by apply Hnd5.
  - by eapply depth_runs.
  - pose proof (inv_cur _ (ru_inv _ _ _ Hr7)) as Hin. rewrite length_rest in Hf |- *.
    rewrite (ru_doc _ _ _ Hr7) in Hin |- *. lia.
  - intros ok s8 H8 E9. apply HQ; [by eapply runs_trans|by eapply reported_trans].
Qed.

(** A container: an empty one in place of the value, then its members. *)
Lemma wp_container_start t w p ns s (K : RM bool) (Q : bool -> Reader -> Prop) :
  inv s -> nodes_ s = p :: ns -> is_Some (shape (root_ s) p) -> no_below p s -> wf w -> leaf w ->
  (forall s', quiet p s s' -> current_ s' = current_ s -> shape (root_ s') p = Some (type w) ->
     wp K s' Q) ->
  wp (_ ← swapPayloadCurrent w;
      _ ← currentValue (fun v => Ret (setOffsetStart (Z.of_nat (tok_start_ t)) v));
      K) s Q.
Proof.
  intros Hi Hn Hp Hb Hw Hl HQ. apply wp_bind.
  eapply wp_swapPayloadCurrent; [done..|]. intros s1 H1 Hsh Hc1. split; [apply H1|]. apply wp_bind.
  eapply wp_currentValue_meta; [apply H1|by rewrite (ru_nodes _ _ _ (proj1 H1))|apply H1| |].
  { intros v. by eexists. }
  intros s2 H2 Hc2. split; [apply H2|]. apply HQ.
  - by eapply quiet_scans.
  - by rewrite Hc2.
  - by rewrite (sc_shape _ _ H2).
Qed.

Lemma wp_readObject_body n loop :
  (forall name s, members_ok n objectValue (loop name) s) ->
  container_ok (S n) (readObject_body loop).
Proof.
  intros Hloop t s p ns Q Hi Hn Hp Hb Hd Hf HQ. unfold readObject_body.
  eapply wp_container_start; [exact Hi|exact Hn|exact Hp|exact Hb|by repeat split; constructor|
    by intros []|].
  intros s1 Hq Hc Hsh. pose proof Hq as (Hr & He & Hl).
  eapply Hloop; [apply Hr|by rewrite (ru_nodes _ _ _ Hr)|exact Hsh| | | |].
  - apply no_below_deep. by eapply no_below_quiet.
  - by eapply depth_runs.
  - rewrite !length_rest in *. rewrite (ru_doc _ _ _ Hr), Hc. lia.
  - intros ok s8 H8 E9. apply HQ; [by eapply runs_trans|by eapply reported_trans].
Qed.

Lemma wp_readArray_body n loop :
  (forall index s, 0 <= index <= Z.of_nat (current_ s) -> members_ok n arrayValue (loop index) s) ->
  container_ok (S n) (readArray_body loop).
Proof.
  intros Hloop t s p ns Q Hi Hn Hp Hb Hd Hf HQ. unfold readArray_body.
  eapply wp_container_start; [exact Hi|exact Hn|exact Hp|exact Hb|by repeat split; constructor|
    by intros []|].
  intros s1 Hq Hc Hsh. pose proof Hq as (Hr & He & Hl).
  apply wp_bind, wp_skipSpaces; [apply Hr|]. intros s2 H2 _. split; [apply H2|]. apply wp_gets_bind.
  pose proof (quiet_scans _ _ _ _ Hq H2) as (Hr2 & He2 & Hl2).
  destruct (_ =? _).
  - apply wp_bind, wp_readToken; [apply H2|]. intros ok t3 s3 H3 _. split; [apply H3|].
    apply wp_ret, HQ.
    + eapply runs_trans; [exact Hr2|]. by apply scans_quiet; [|apply Hr2].
    + simpl. rewrite (sc_errors _ _ H3). exact He2.
  - eapply Hloop; [lia|apply H2|by rewrite (ru_nodes _ _ _ Hr2)|by rewrite (sc_shape _ _ H2)| | | |].
    + intros k r. rewrite Hl2. apply (no_below_deep _ _ Hb).
    + by eapply depth_runs.
    + rewrite !length_rest in *. rewrite (ru_doc _ _ _ Hr2). pose proof (ru_cur _ _ _ Hr2). lia.
    + intros ok s8 H8 E9. apply HQ; [by eapply runs_trans|by eapply reported_trans].
Qed.

(** Every function of the parser meets its specification with the fuel it asks
    for. *)
Lemma parser_ok n :
  value_ok n (readValue n) /\ container_ok n (readObject n) /\ container_ok n (readArray n) /\
  (forall name s, members_ok n objectValue (object_loop n name) s) /\
  (forall index s, 0 <= index <= Z.of_nat (current_ s) ->
                   members_ok n arrayValue (array_loop n index) s).
Proof.
  induction n as [|n (Hv & Ho & Ha & Hol & Hal)].
  { split_and!; repeat intro; lia. }
  cbn [readValue readObject readArray object_loop array_loop]. split_and!.
  - by apply wp_readValue_body.
  - by apply wp_readObject_body.
  - by apply wp_readArray_body.
  - intros. by apply wp_object_body.
  - intros. by apply wp_array_body.
Qed.

Definition doc_ok (doc : bytes) : Prop :=
  Forall byte_ok doc /\ Z.of_nat (length doc) <= maxInt - 4 - 1.

Lemma parse_ok doc root collect s (Q : bool -> Reader -> Prop) :
  doc_ok doc -> wf root ->
  (forall ok s', inv s' -> document_ s' = doc -> (ok = true <-> errors_ s' = []) -> Q ok s') ->
  wp (fun _ => parse doc root collect s) (parse_init doc root collect s) Q.
Proof.
  intros [Hb Hlen] Hw HQ. unfold parse. set (s0 := parse_init doc root collect s).
  assert (inv s0) as Hi.
  { split; simpl; try done; [lia|by left|by left]. }
  change (wp (successful ← readValue (parse_fuel doc); _ ← skipCommentTokens;
    collect ← gets collectComments_; before ← gets commentsBefore_;
    _ ← (if collect && negb (bool_decide (before = [])) then call_at [] (setComment before commentAfter)
         else mret tt);
    f ← gets features_; root ← gets root_;
    if strictRoot_ f && negb (isArray root) && negb (isObject root) then
      addError (STR "A valid JSON document must be either an array or an object value.")
        (mkToken tokenError 0 (length doc)) None
    else mret successful) s0 Q).
  apply wp_bind. destruct (parser_ok (parse_fuel doc)) as (Hv & _).
  eapply (Hv s0 [] []); [done|done|by eexists|by intros r|done| |].
  { unfold parse_fuel, rest. simpl. rewrite drop_0. lia. }
  intros ok s1 H1 E1 _. split; [apply H1|].
  apply wp_bind, wp_skipCommentTokens; [apply H1|]. intros ok2 t s2 H2 _. split; [apply H2|].
  do 2 apply wp_gets_bind.
  apply wp_bind. apply (wp_mono _ _ (fun _ s' => scans s2 s')).
  { destruct (_ && _) eqn:E; [|apply wp_ret, scans_refl, H2].
    apply andb_true_iff in E as [_ E]. apply negb_true_iff, bool_decide_eq_false in E.
    destruct (inv_comments _ (sc_inv _ _ H2)) as [|Hc]; [done|].
    destruct (setComment_ok _ commentAfter (root_ s2) Hc) as (v' & Hv' & Hpay).
    eapply (wp_call_at [] _ _ (root_ s2)); [done|exact Hv'|].
    by apply (scans_write s2 [] (root_ s2)); [apply H2| |]. }
  intros _ s3 H3. split; [apply H3|]. do 2 apply wp_gets_bind.
  assert (document_ s3 = doc) as Hdoc.
  { by rewrite (sc_doc _ _ H3), (sc_doc _ _ H2), (ru_doc _ _ _ H1). }
  assert (errors_ s3 = errors_ s1) as He by by rewrite (sc_errors _ _ H3), (sc_errors _ _ H2).
  destruct (_ && _).
  - unfold addError. apply wp_modify_bind; [done|]. apply wp_ret, HQ; [by apply inv_set_errors, H3|done|].
    simpl. by destruct (errors_ s3).
  - apply wp_ret, HQ; [apply H3|done|]. rewrite He. destruct ok; simpl in E1; [done|].
    destruct E1 as (e & es & ->). done.
Qed.

(** ** Properties *)

(** C6: on every document shorter than 2^31 - 5 bytes, with any features, with
    or without comments, [parse] finishes within its fuel and without undefined
    behaviour (no dangling node pointer, no read outside the document, no
    missing top of stack, every assertion on comments, arrays, objects and
    string lengths holds).  Either it returns, with a well-formed tree, a
    position inside the document, and true exactly when it reported no error;
    or it stops the process on the nesting limit, and then the document holds
    at least 1000 opening brackets. *)
Theorem parse_safe doc root collect s :
  doc_ok doc -> wf root ->
  match parse doc root collect s with
  | Ret (ok, s') =>
      (ok = true <-> good s' = true) /\ wf (root_ s') /\ (current_ s' <= length doc)%nat
  | Abort msg => msg = stack_msg /\ (stackLimit_g <= opens doc)%nat
  | Undef _ | Fuel => False
  end.
Proof.
  intros Hd Hw.
  pose proof (parse_ok doc root collect s (fun ok s' =>
    (ok = true <-> good s' = true) /\ wf (root_ s') /\ (current_ s' <= length doc)%nat) Hd Hw) as H.
  apply H. intros ok s' Hi Hdoc He. rewrite He. unfold good. rewrite bool_decide_eq_true.
  split; [done|]. split; [apply Hi|]. rewrite <- Hdoc. apply Hi.
Qed.

Definition demo_doc : bytes := STR "{ } [1, 2.5, /* c */ {}, nul".

Lemma parse_safe_witness :
  match parse demo_doc Value_null true (Reader_new Features_all) with
  | Ret (ok, s') =>
      (ok = true <-> good s' = true) /\ wf (root_ s') /\ (current_ s' <= length demo_doc)%nat
  | Abort msg => msg = stack_msg /\ (stackLimit_g <= opens demo_doc)%nat
  | Undef _ | Fuel => False
  end.
Proof.
  apply parse_safe; [|exact I]. split; [repeat constructor; by vm_compute|by vm_compute].
Defined.

(** [parse] returns a verdict for every document with fewer than 1000
    opening brackets and braces, however it is malformed: it terminates, and
    nothing in it can stop the process. *)
Theorem parse_returns doc root collect s :
  doc_ok doc -> wf root -> (opens doc < 1000)%nat ->
  exists ok s', parse doc root collect s = Ret (ok, s').
Proof.
  intros Hd Hw Ho. pose proof (parse_ok doc root collect s (fun _ _ => True) Hd Hw) as H.
  unfold wp in H. destruct (parse doc root collect s) as [[ok s']| | |].
  - by exists ok, s'.
  - destruct H as [_ Hl]; [done|]. unfold stackLimit_g, parse_init in Hl. simpl in Hl. lia.
  - by destruct H.
  - by destruct H.
Qed.

Lemma parse_returns_witness :
  exists ok s', parse demo_doc Value_null true (Reader_new Features_all) = Ret (ok, s').
Proof.
  apply parse_returns; [split; [repeat constructor; by vm_compute|by vm_compute]|exact I|].
  vm_compute. lia.
Defined.

(** 1001 opening brackets do stop the process: the parser does not report
    the error, it aborts. *)
Theorem parse_deep_aborts :
  parse (repeat (CH "[") 1001) Value_null true (Reader_new Features_all) = Abort stack_msg.
Proof. vm_compute. reflexivity. Qed.

(** What the reader accepts beyond JSON: a trailing comma after the member
    named by the empty string (and after no other), a lone minus sign for zero,
    a second half of a surrogate pair that is not one, and any text after the
    root value. *)
Lemma parse_lenient :
  let accepts doc v := exists s', parse doc Value_null false (Reader_new Features_all) = Ret (true, s') /\
                                  Value_eqb (root_ s') v = true in
  accepts ([CH "{"; dquote; dquote] ++ STR ":1,}") (initBasic (PObject [([], Value_int 1)])) /\
  (exists s', parse ([CH "{"; dquote; CH "a"; dquote] ++ STR ":1,}") Value_null false
                (Reader_new Features_all) = Ret (false, s')) /\
  accepts (STR "-") (Value_int 0) /\
  accepts ([dquote] ++ STR "\ud800\u0041" ++ [dquote]) (initBasic (PString [0xF0; 0x90; 0x81; 0x81])) /\
  accepts (STR "1 ]]") (Value_int 1).
Proof.
  cbv zeta. split_and!; eexists;
    lazymatch goal with |- _ /\ _ => split | |- _ => idtac end; vm_compute; reflexivity.
Qed.
