(* ===== verification/JsonWriter.v ===== *)
(** * [Json::FastWriter] (json_writer.cpp, writer.h)

    The compact writer.  [writeValue] appends to [document_]; the model returns
    the text appended.  A [const] reference taken with [value[index]] or
    [value[name]] is followed by first writing every child and then looking the
    text up the way the value is looked up. *)
From S2P Require Export JsonValue.
Open Scope Z_scope.

Record FastWriter := {
  yamlCompatibilityEnabled_ : bool;
  dropNullPlaceholders_ : bool;
  omitEndingLineFeed_ : bool;
}.

Definition FastWriter_new : FastWriter :=
  {| yamlCompatibilityEnabled_ := false; dropNullPlaceholders_ := false;
     omitEndingLineFeed_ := false |}.

Definition enableYAMLCompatibility (w : FastWriter) : FastWriter :=
  {| yamlCompatibilityEnabled_ := true; dropNullPlaceholders_ := dropNullPlaceholders_ w;
     omitEndingLineFeed_ := omitEndingLineFeed_ w |}.
Definition dropNullPlaceholders (w : FastWriter) : FastWriter :=
  {| yamlCompatibilityEnabled_ := yamlCompatibilityEnabled_ w; dropNullPlaceholders_ := true;
     omitEndingLineFeed_ := omitEndingLineFeed_ w |}.
Definition omitEndingLineFeed (w : FastWriter) : FastWriter :=
  {| yamlCompatibilityEnabled_ := yamlCompatibilityEnabled_ w;
     dropNullPlaceholders_ := dropNullPlaceholders_ w; omitEndingLineFeed_ := true |}.

(** [f] on the values of a map. *)
Section om_map.
Context {K A B : Type} (f : A -> B).
Fixpoint om_map (m : list (K * A)) : list (K * B) :=
  match m with
  | [] => []
  | (k, v) :: m' => (k, f v) :: om_map m'
  end.
End om_map.

(** What a null value is written as. *)
Definition null_text (w : FastWriter) : bytes :=
  if dropNullPlaceholders_ w then [] else STR "null".

(** The loop over the indices below [size], from [index]. *)
Fixpoint write_elements (w : FastWriter) (texts : list (Z * outcome bytes)) (n : nat) (index : Z)
    : outcome bytes :=
  match n with
  | O => Ret []
  | S n' =>
      t ← default (Ret (null_text w)) (om_find index texts);
      r ← write_elements w texts n' (index + 1);
      Ret ((if 0 <? index then STR "," else []) ++ t ++ r)
  end.

(** The loop over the member names. *)
Fixpoint write_members (w : FastWriter) (texts : list (bytes * outcome bytes)) (first : bool)
    (members : list bytes) : outcome bytes :=
  match members with
  | [] => Ret []
  | name :: members' =>
      t ← default (Ret (null_text w)) (om_find (CZString name) texts);
      r ← write_members w texts false members';
      Ret ((if first then [] else STR ",") ++ valueToQuotedStringN name false ++
           (if yamlCompatibilityEnabled_ w then STR ": " else STR ":") ++ t ++ r)
  end.

(** [FastWriter::writeValue]. *)
Fixpoint writeValue (w : FastWriter) (value : Value) : outcome bytes :=
  match value_ value with
  | PNull => Ret (null_text w)
  | PInt _ => i ← asLargestInt value; valueToString_Int i
  | PUInt _ => u ← asLargestUInt value; valueToString_UInt u
  | PReal _ => d ← asDouble value; Ret (valueToString_real d)
  | PString _ =>
      Ret match getString value with Some s => valueToQuotedStringN s false | None => [] end
  | PBool _ => b ← asBool value; Ret (valueToString_bool b)
  | PArray m =>
      body ← write_elements w (om_map (writeValue w) m) (Z.to_nat (size value)) 0;
      Ret (STR "[" ++ body ++ STR "]")
  | PObject m =>
      members ← getMemberNames value;
      body ← write_members w (om_map (writeValue w) m) true members;
      Ret (STR "{" ++ body ++ STR "}")
  end.

(** [FastWriter::write]. *)
Definition write (w : FastWriter) (root : Value) : outcome bytes :=
  d ← writeValue w root;
  Ret (d ++ if omitEndingLineFeed_ w then [] else [10]).
