(* ===== verification/JsonGrammar.v ===== *)
(** * The grammar of the texts of a tree

    What the writers of jsoncpp have in common: a tree is written as its tokens
    in order, with blank text between them.  [Tokens] says what the tokens look
    like and which text counts as blank; [layout g v text] says that [text] is
    one of the texts of [v].  The elements of an array are those below its size,
    a null for an index without a node; the members of an object are its names
    in order. *)
From S2P Require Export JsonArray JsonWriter.
Open Scope Z_scope.

(** ** Definitions *)

Record Tokens := mkTokens {
  blank : bytes -> Prop;
  null_token : bytes;
  real_token : float64 -> bytes;
  string_token : bytes -> bytes;
  name_token : bytes -> bytes
}.

Definition item (m : list (Z * Value)) (i : Z) : Value := default Value_null (om_find i m).
Definition items (v : Value) : list Value :=
  match value_ v with
  | PArray m => map (fun i => item m (Z.of_nat i)) (seq 0 (Z.to_nat (size v)))
  | _ => []
  end.

Definition field (m : list (bytes * Value)) (name : bytes) : Value := default Value_null (om_find (CZString name) m).
Definition fields (v : Value) : list (bytes * Value) :=
  match value_ v with
  | PObject m => map (fun name => (name, field m name)) (om_keys m)
  | _ => []
  end.

(** [P] at every value of the tree. *)
Fixpoint every (P : Value -> Prop) (v : Value) : Prop :=
  P v /\ match value_ v with
         | PArray m => om_all (every P) m
         | PObject m => om_all (every P) m
         | _ => True
         end.

(** The integers of [v] fit their types. *)
Definition number_ok (v : Value) : Prop :=
  match value_ v with PInt i => in_s 64 i | PUInt u => in_u 64 u | _ => True end.

(** The tokens of [v] itself are the same in both grammars. *)
Definition same_tokens (g g' : Tokens) (v : Value) : Prop :=
  match value_ v with
  | PNull => null_token g' = null_token g
  | PReal d => real_token g' d = real_token g d
  | PString s => string_token g' s = string_token g s
  | PObject m => Forall (fun kv => name_token g' kv.1 = name_token g kv.1) m
  | _ => True
  end.

Section grammar.
Context (g : Tokens).

Definition scalar_text (v : Value) (text : bytes) : Prop :=
  match value_ v with
  | PNull => text = null_token g
  | PInt i => text = dec_signed i
  | PUInt u => text = dec_digits u
  | PReal d => text = real_token g d
  | PString s => text = string_token g s
  | PBool b => text = valueToString_bool b
  | _ => False
  end.

(** [elements l body]: the elements of [l], at least one, and the blanks after
    the last; [members] likewise. *)
Inductive layout : Value -> bytes -> Prop :=
  | layout_scalar v text : scalar_text v text -> layout v text
  | layout_array_nil v sp : isArray v = true -> items v = [] -> blank g sp -> layout v (CH "[" :: sp ++ [CH "]"])
  | layout_array v sp body : blank g sp -> elements (items v) body -> layout v (CH "[" :: (sp ++ body) ++ [CH "]"])
  | layout_object_nil v sp : isObject v = true -> fields v = [] -> blank g sp -> layout v (CH "{" :: sp ++ [CH "}"])
  | layout_object v sp body : blank g sp -> members (fields v) body -> layout v (CH "{" :: (sp ++ body) ++ [CH "}"])
with elements : list Value -> bytes -> Prop :=
  | elements_one x t sp : layout x t -> blank g sp -> elements [x] (t ++ sp)
  | elements_cons x l t sp1 sp2 body : layout x t -> blank g sp1 -> blank g sp2 -> elements l body ->
      elements (x :: l) (t ++ sp1 ++ CH "," :: sp2 ++ body)
with members : list (bytes * Value) -> bytes -> Prop :=
  | members_one k x t spa spb sp : layout x t -> blank g spa -> blank g spb -> blank g sp ->
      members [(k, x)] (name_token g k ++ spa ++ CH ":" :: spb ++ t ++ sp)
  | members_cons k x m t spa spb sp1 sp2 body : layout x t -> blank g spa -> blank g spb ->
      blank g sp1 -> blank g sp2 -> members m body ->
      members ((k, x) :: m) (name_token g k ++ spa ++ CH ":" :: spb ++ t ++ sp1 ++ CH "," :: sp2 ++ body).
End grammar.

Scheme layout_mut := Induction for layout Sort Prop
with elements_mut := Induction for elements Sort Prop
with members_mut := Induction for members Sort Prop.

(** ** The children of a value *)

Lemma Forall_apply {A} (P Q : A -> Prop) l : Forall (fun x => P x -> Q x) l -> Forall P l -> Forall Q l.
Proof. rewrite !Forall_forall. eauto. Qed.

Lemma om_find_om_map {K A B} `{KeyOrd K} (f : A -> B) k (m : list (K * A)) :
  om_find k (om_map f m) = f <$> om_find k m.
Proof. induction m as [|[k' x] m IH]; simpl; [done|]. by destruct (key_eqb k k'). Qed.

Lemma om_find_mid {K V} `{KeyOrdLaws K} (m1 m2 : list (K * V)) k x :
  om_sorted (m1 ++ (k, x) :: m2) -> om_find k (m1 ++ (k, x) :: m2) = Some x.
Proof.
  intros Hs. apply om_find_In; [done|]. apply elem_of_app. right. by apply list_elem_of_here.
Qed.

Lemma items_nonempty v : items v <> [] -> exists m, value_ v = PArray m.
Proof. unfold items. destruct (value_ v); try done. by eexists. Qed.
Lemma fields_nonempty v : fields v <> [] -> exists m, value_ v = PObject m.
Proof. unfold fields. destruct (value_ v); try done. by eexists. Qed.

Lemma items_arr l v : value_ v = PArray (arr_from 0 l) -> Z.of_nat (length l) < 2 ^ 31 -> items v = l.
Proof.
  intros Hv Hl. unfold items. rewrite Hv. destruct v as [pl cm st lm]. simpl in Hv. subst pl.
  change (mkValue (PArray (arr_from 0 l)) cm st lm) with (arr l (mkValue PNull cm st lm)).
  rewrite size_arr, Nat2Z.id by lia. apply list_eq. intros i. rewrite list_lookup_fmap.
  destruct (decide (i < length l)%nat) as [Hi|Hi].
  - rewrite lookup_seq_lt by done. simpl. unfold item. rewrite om_find_arr.
    by destruct (lookup_lt_is_Some_2 l i Hi) as [x ->].
  - rewrite lookup_seq_ge by lia. simpl. symmetry. apply lookup_ge_None. lia.
Qed.

Lemma fields_object m v :
  value_ v = PObject m -> om_sorted m -> Forall (fun kv => Z.of_nat (length kv.1) < 2 ^ 30) m -> fields v = m.
Proof.
  intros Hv Hs Hk. unfold fields. rewrite Hv.
  assert (forall dn m', m = dn ++ m' -> map (fun name => (name, field m name)) (om_keys m') = m') as H; [|by apply (H [])].
  intros dn m'. revert dn. induction m' as [|[k x] m' IH]; intros dn E; [done|].
  change (om_keys ((k, x) :: m')) with (k :: om_keys m'). cbn [map]. f_equal.
  - assert (Z.of_nat (length k) < 2 ^ 30) as Hlen.
    { rewrite E in Hk. apply Forall_app in Hk as [_ Hk]. by apply Forall_cons in Hk as [Hk _]. }
    unfold field. rewrite CZString_short by done. rewrite E in Hs |- *. by rewrite (om_find_mid _ _ _ _ Hs).
  - apply (IH (dn ++ [(k, x)])). by rewrite <- app_assoc.
Qed.

Section children.
Context (P : Value -> Prop).

Lemma item_all m i : P Value_null -> om_all P m -> P (item m i).
Proof.
  intros H0 Hm. apply om_all_Forall in Hm. unfold item. destruct (om_find i m) as [x|] eqn:E; [|done].
  apply om_find_elem in E. rewrite Forall_forall in Hm. apply (Hm _ E).
Qed.
Lemma field_all m name : P Value_null -> om_all P m -> P (field m name).
Proof.
  intros H0 Hm. apply om_all_Forall in Hm. unfold field. destruct (om_find _ m) as [x|] eqn:E; [|done].
  apply om_find_elem in E. rewrite Forall_forall in Hm. apply (Hm _ E).
Qed.

Lemma items_all v m : value_ v = PArray m -> P Value_null -> om_all P m -> Forall P (items v).
Proof.
  intros Hv H0 Hm. unfold items. rewrite Hv. apply Forall_fmap, Forall_forall. intros i _. by apply item_all.
Qed.
Lemma fields_all v m : value_ v = PObject m -> P Value_null -> om_all P m -> Forall (fun kv => P kv.2) (fields v).
Proof.
  intros Hv H0 Hm. unfold fields. rewrite Hv. apply Forall_fmap, Forall_forall. intros i _. by apply field_all.
Qed.

(** Induction on the children. *)
Lemma Value_children_ind :
  (forall v, Forall P (items v) -> Forall (fun kv => P kv.2) (fields v) -> P v) -> forall v, P v.
Proof.
  intros H. assert (P Value_null) as H0 by (apply H; constructor).
  induction v as [v Ha Ho] using Value_ind. apply H.
  - destruct (value_ v) as [| | | | | |m|m] eqn:E; unfold items; rewrite ?E; try constructor.
    pose proof (items_all v m E H0 (Ha m eq_refl)) as Hi. unfold items in Hi. by rewrite E in Hi.
  - destruct (value_ v) as [| | | | | |m|m] eqn:E; unfold fields; rewrite ?E; try constructor.
    pose proof (fields_all v m E H0 (Ho m eq_refl)) as Hi. unfold fields in Hi. by rewrite E in Hi.
Qed.
End children.

Lemma every_here P v : every P v -> P v.
Proof. destruct v as [[] ? ? ?]; simpl; tauto. Qed.

Lemma every_children P v :
  P Value_null -> every P v -> Forall (every P) (items v) /\ Forall (fun kv => every P kv.2) (fields v).
Proof.
  intros H0 Hv. assert (every P Value_null) as H0' by done.
  destruct v as [[| | | | | |m|m] cm st lm]; simpl in Hv; split; try constructor; destruct Hv as [_ Hm].
  - by eapply items_all.
  - by eapply fields_all.
Qed.

(** A property of the trees that goes down to the children. *)
Lemma every_down (T P : Value -> Prop) :
  (forall v, T v -> P v) -> (forall v m, T v -> value_ v = PArray m -> om_all T m) ->
  (forall v m, T v -> value_ v = PObject m -> om_all T m) -> forall v, T v -> every P v.
Proof.
  intros HP HA HO v. induction v as [v IHa IHo] using Value_ind. intros Hv.
  assert (forall K (m : list (K * Value)), om_all (fun x => T x -> every P x) m -> om_all T m -> om_all (every P) m) as H.
  { intros K m. induction m as [|[k x] m IH]; simpl; [done|]. intros [Hx Hm] [Hx' Hm']. auto. }
  pose proof (HP v Hv) as Hp.
  destruct v as [[| | | | | |m|m] cm st lm]; split; try done; [apply H|apply H].
  - by apply IHa.
  - by apply (HA (mkValue (PArray m) cm st lm)).
  - by apply IHo.
  - by apply (HO (mkValue (PObject m) cm st lm)).
Qed.

Lemma every_all (P : Value -> Prop) v : (forall v, P v) -> every P v.
Proof.
  intros HP. apply (every_down (fun _ => True)); try done; intros u m _ _; apply om_all_Forall; by apply Forall_true.
Qed.

Lemma every_impl (P Q : Value -> Prop) v : (forall v, P v -> Q v) -> every P v -> every Q v.
Proof.
  intros HPQ. apply every_down.
  - intros w Hw. by apply HPQ, every_here.
  - intros [pl ? ? ?] m Hw. simpl. intros ->. by destruct Hw.
  - intros [pl ? ? ?] m Hw. simpl. intros ->. by destruct Hw.
Qed.

Lemma wf_numbers v : wf v -> every number_ok v.
Proof.
  apply every_down.
  - intros w Hw. rewrite wf_unfold in Hw. unfold number_ok. by destruct (value_ w).
  - intros [pl ? ? ?] m Hw. simpl. intros ->. simpl in Hw. by destruct Hw as (_ & _ & ?).
  - intros [pl ? ? ?] m Hw. simpl. intros ->. simpl in Hw. by destruct Hw as (_ & _ & ?).
Qed.

(** ** Lemmas on the grammar *)

Section lemmas.
Context (g : Tokens) (blank_app : forall a b, blank g a -> blank g b -> blank g (a ++ b)).

Lemma elements_pad l body sp : elements g l body -> blank g sp -> elements g l (body ++ sp).
Proof.
  intros He Hsp. induction He as [x t sp1 Ht Hsp1|x l t sp1 sp2 body Ht Hsp1 Hsp2 He IH].
  - rewrite <- app_assoc. by apply elements_one; [|apply blank_app].
  - rewrite <- !app_assoc. cbn [app]. rewrite <- app_assoc. by apply elements_cons.
Qed.

Lemma members_pad m body sp : members g m body -> blank g sp -> members g m (body ++ sp).
Proof.
  intros Hm Hsp. induction Hm as [k x t spa spb sp1 Ht Ha Hb Hsp1|k x m t spa spb sp1 sp2 body Ht Ha Hb Hsp1 Hsp2 Hm IH].
  - rewrite <- !app_assoc. cbn [app]. rewrite <- !app_assoc. by apply members_one; [| | |apply blank_app].
  - rewrite <- !app_assoc. cbn [app]. rewrite <- !app_assoc. cbn [app]. rewrite <- app_assoc. by apply members_cons.
Qed.
End lemmas.

(** A text of one grammar is one of another with more blanks and the same
    tokens for the values at hand. *)
Lemma layout_mono g g' v text :
  (forall sp, blank g sp -> blank g' sp) -> null_token g' = null_token g ->
  every (same_tokens g g') v -> layout g v text -> layout g' v text.
Proof.
  intros Hb H0 Hv Hl. revert Hv.
  assert (forall v, every (same_tokens g g') v ->
    Forall (fun kv => name_token g' kv.1 = name_token g kv.1) (fields v)) as Hfields.
  { intros w Hw%every_here. unfold same_tokens in Hw. unfold fields. destruct (value_ w); try constructor.
    unfold om_keys. rewrite map_map. rewrite Forall_fmap. exact Hw. }
  induction Hl as [v text Ht|v sp Hv Hi Hsp|v sp body Hsp He IH|v sp Hv Hi Hsp|v sp body Hsp Hm IH|
    x t sp Ht IHt Hsp|x l t sp1 sp2 body Ht IHt Hsp1 Hsp2 He IH|
    k x t spa spb sp Ht IHt Hspa Hspb Hsp|k x m t spa spb sp1 sp2 body Ht IHt Hspa Hspb Hsp1 Hsp2 Hm IH]
    using layout_mut with
      (P0 := fun l body _ => Forall (every (same_tokens g g')) l -> elements g' l body)
      (P1 := fun m body _ => Forall (fun kv => every (same_tokens g g') kv.2) m ->
               Forall (fun kv => name_token g' kv.1 = name_token g kv.1) m -> members g' m body); intros Hn.
  - apply every_here in Hn. apply layout_scalar. unfold scalar_text, same_tokens in *.
    destruct (value_ v); try done; congruence.
  - by apply layout_array_nil; [| |apply Hb].
  - apply layout_array; [by apply Hb|]. apply IH. by apply every_children.
  - by apply layout_object_nil; [| |apply Hb].
  - apply layout_object; [by apply Hb|]. apply IH; [by apply every_children|by apply Hfields].
  - apply Forall_cons in Hn as [Hx _]. apply elements_one; auto.
  - apply Forall_cons in Hn as [Hx Hl']. apply elements_cons; auto.
  - intros Hk. apply Forall_cons in Hn as [Hx _], Hk as [Hk _]. cbn [fst] in Hk. rewrite <- Hk. apply members_one; auto.
  - intros Hk. apply Forall_cons in Hn as [Hx Hm'], Hk as [Hk Hks]. cbn [fst] in Hk. rewrite <- Hk.
    apply members_cons; auto.
Qed.

(** Which rule a text comes from. *)
Inductive shape := ScalarShape | EmptyArray | FullArray | EmptyObject | FullObject.

Definition shape_of (v : Value) : shape :=
  match value_ v with
  | PArray _ => match items v with [] => EmptyArray | _ => FullArray end
  | PObject _ => match fields v with [] => EmptyObject | _ => FullObject end
  | _ => ScalarShape
  end.

Lemma layout_inv g v text :
  layout g v text ->
  match shape_of v with
  | ScalarShape => scalar_text g v text
  | EmptyArray => exists sp, blank g sp /\ text = CH "[" :: sp ++ [CH "]"]
  | FullArray => exists sp body, blank g sp /\ elements g (items v) body /\ text = CH "[" :: (sp ++ body) ++ [CH "]"]
  | EmptyObject => exists sp, blank g sp /\ text = CH "{" :: sp ++ [CH "}"]
  | FullObject => exists sp body, blank g sp /\ members g (fields v) body /\ text = CH "{" :: (sp ++ body) ++ [CH "}"]
  end.
Proof.
  unfold shape_of. intros Hl. inversion Hl as [? ? Ht|? sp Hv Hi|? sp body Hsp He|? sp Hv Hi|? sp body Hsp Hm]; subst.
  - unfold scalar_text in *. by destruct (value_ v).
  - unfold isArray, is_type, type in Hv. rewrite Hi. destruct (value_ v); try done. by eexists.
  - destruct (items_nonempty v) as [m Hv]; [by inversion He|]. rewrite Hv.
    destruct (items v) eqn:E; [inversion He|]. by eexists _, _.
  - unfold isObject, is_type, type in Hv. rewrite Hi. destruct (value_ v); try done. by eexists.
  - destruct (fields_nonempty v) as [m Hv]; [by inversion Hm|]. rewrite Hv.
    destruct (fields v) eqn:E; [inversion Hm|]. by eexists _, _.
Qed.

(** Without blanks a tree has one text. *)
Lemma layout_unique g v t1 t2 :
  (forall sp, blank g sp -> sp = []) -> layout g v t1 -> layout g v t2 -> t1 = t2.
Proof.
  intros Hb Hl. revert t2.
  induction Hl as [v text Ht|v sp Hv Hi Hsp|v sp body Hsp He IH|v sp Hv Hi Hsp|v sp body Hsp Hm IH|
    x t sp Ht IHt Hsp|x l t sp1 sp2 body Ht IHt Hsp1 Hsp2 He IH|
    k x t spa spb sp Ht IHt Hspa Hspb Hsp|k x m t spa spb sp1 sp2 body Ht IHt Hspa Hspb Hsp1 Hsp2 Hm IH]
    using layout_mut with
      (P0 := fun l body _ => forall b2, elements g l b2 -> body = b2)
      (P1 := fun m body _ => forall b2, members g m b2 -> body = b2); intros t2 H2.
  - apply layout_inv in H2. unfold scalar_text, shape_of in *. destruct (value_ v); try done; congruence.
  - apply layout_inv in H2. unfold shape_of in H2. unfold isArray, is_type, type in Hv. rewrite Hi in H2.
    destruct (value_ v); try done. destruct H2 as (sp2 & Hsp2 & ->). by rewrite (Hb _ Hsp), (Hb _ Hsp2).
  - apply layout_inv in H2. unfold shape_of in H2. destruct (items_nonempty v) as [m Hv]; [by inversion He|].
    rewrite Hv in H2. destruct (items v) eqn:E; [inversion He|].
    destruct H2 as (sp2 & body2 & Hsp2 & He2 & ->). by rewrite (Hb _ Hsp), (Hb _ Hsp2), (IH _ He2).
  - apply layout_inv in H2. unfold shape_of in H2. unfold isObject, is_type, type in Hv. rewrite Hi in H2.
    destruct (value_ v); try done. destruct H2 as (sp2 & Hsp2 & ->). by rewrite (Hb _ Hsp), (Hb _ Hsp2).
  - apply layout_inv in H2. unfold shape_of in H2. destruct (fields_nonempty v) as [m Hv]; [by inversion Hm|].
    rewrite Hv in H2. destruct (fields v) eqn:E; [inversion Hm|].
    destruct H2 as (sp2 & body2 & Hsp2 & He2 & ->). by rewrite (Hb _ Hsp), (Hb _ Hsp2), (IH _ He2).
  - inversion H2 as [? t' sp' Ht' Hsp'|? ? ? ? ? ? ? ? ? He']; subst; [|inversion He'].
    by rewrite (Hb _ Hsp), (Hb _ Hsp'), (IHt _ Ht').
  - inversion H2 as [? ? ? ? ? |? ? t' sp1' sp2' body' Ht' Hsp1' Hsp2' He']; subst; [inversion He|].
    by rewrite (Hb _ Hsp1), (Hb _ Hsp2), (Hb _ Hsp1'), (Hb _ Hsp2'), (IHt _ Ht'), (IH _ He').
  - inversion H2 as [? ? t' spa' spb' sp' Ht' Ha' Hb' Hsp'|? ? ? ? ? ? ? ? ? ? ? ? ? ? Hm']; subst; [|inversion Hm'].
    by rewrite (Hb _ Hspa), (Hb _ Hspb), (Hb _ Hsp), (Hb _ Ha'), (Hb _ Hb'), (Hb _ Hsp'), (IHt _ Ht').
  - inversion H2 as [|? ? ? t' spa' spb' sp1' sp2' body' Ht' Ha' Hb' H1' H2' Hm']; subst; [inversion Hm|].
    by rewrite (Hb _ Hspa), (Hb _ Hspb), (Hb _ Hsp1), (Hb _ Hsp2), (Hb _ Ha'), (Hb _ Hb'), (Hb _ H1'), (Hb _ H2'),
      (IHt _ Ht'), (IH _ Hm').
Qed.
