(* ===== verification/JsonScan.v ===== *)
(** * What the parser does with the text of a token

    The exact effect of the scanner and of the decoders of [Reader] on the text
    of one token, of a stored scalar and of a child, as equations that run the
    methods; and the two maps on trees that compare what was read with what was
    written. *)
From S2P Require Export JsonArray JsonReaderFacts JsonGrammar.
Open Scope Z_scope.

(** ** Definitions *)

(** The payload without comments and offsets, at every depth. *)
Fixpoint strip (v : Value) : Value :=
  initBasic match value_ v with
            | PArray m => PArray (om_map strip m)
            | PObject m => PObject (om_map strip m)
            | PNull => PNull
            | PInt i => PInt i
            | PUInt u => PUInt u
            | PReal d => PReal d
            | PString s => PString s
            | PBool b => PBool b
            end.

(** What the text of a tree stands for: a number up to [maxInt] is read as an
    [intValue], a larger one as a [uintValue], whatever its tag was. *)
Definition norm_number (z : Z) : payload Value := if z <=? maxInt then PInt z else PUInt z.

Fixpoint norm (v : Value) : Value :=
  initBasic match value_ v with
            | PArray m => PArray (om_map norm m)
            | PObject m => PObject (om_map norm m)
            | PNull => PNull
            | PInt i => norm_number i
            | PUInt u => norm_number u
            | PReal d => PReal d
            | PString s => PString s
            | PBool b => PBool b
            end.

Definition utf8_text (s : bytes) : Prop := exists cps, Forall scalar cps /\ s = utf8_encode cps.

(** Trees of numbers other than NaN, UTF-8 strings and names, arrays without
    holes. *)
Fixpoint writable (v : Value) : Prop :=
  match value_ v with
  | PInt i => in_s 64 i
  | PUInt u => in_u 64 u
  | PReal d => valid_binary 53 1024 d = true /\ sf_isnan d = false
  | PString s => utf8_text s
  | PArray m => (exists l, m = arr_from 0 l) /\ Z.of_nat (length m) < 2 ^ 31 /\ om_all writable m
  | PObject m =>
      om_sorted m /\ Forall (fun kv => utf8_text kv.1 /\ Z.of_nat (length kv.1) < 2 ^ 30) m /\
      om_all writable m
  | _ => True
  end.

Section om_depth.
Context {K : Type} (f : Value -> nat).
Fixpoint om_depth (m : list (K * Value)) : nat :=
  match m with [] => O | (_, v) :: m' => Nat.max (f v) (om_depth m') end.
End om_depth.

(** How deep the parser's stack gets. *)
Fixpoint depth (v : Value) : nat :=
  match value_ v with
  | PArray m => S (om_depth depth m)
  | PObject m => S (om_depth depth m)
  | _ => 1%nat
  end.

(** Text after a number that does not continue it. *)
Definition delim (tl : bytes) : Prop :=
  match tl with
  | [] => True
  | c :: _ => is_digit c = false /\ c <> CH "." /\ c <> CH "e" /\ c <> CH "E"
  end.

(** [s'] is [s] with [n] characters read and the value [w] in the node [p]. *)
Definition moved (p : path) (w : Value) (n : nat) (s s' : Reader) : Prop :=
  exists e lv,
    s' = set_lastValue e lv (set_root (alter_path p (fun _ => w) (root_ s))
                               (set_current (current_ s + n) s)).

(** ** Running methods *)

Section exec.
Context {A B : Type}.

Lemma exec_bind (m : RM A) (k : A -> RM B) s a s' : m s = Ret (a, s') -> (m ≫= k) s = k a s'.
Proof. intros H. cbv [mbind RM_bind outcome_bind]. by rewrite H. Qed.

Lemma exec_gets (f : Reader -> A) (k : A -> RM B) s : (gets f ≫= k) s = k (f s) s.
Proof. done. Qed.
Lemma exec_ret (a : A) (k : A -> RM B) s : (mret a ≫= k) s = k a s.
Proof. done. Qed.
End exec.

Lemma exec_modify {B} f (k : unit -> RM B) s : (modify f ≫= k) s = k tt (f s).
Proof. done. Qed.
Lemma exec_advance {B} n (k : unit -> RM B) s : (advance n ≫= k) s = k tt (set_current (current_ s + n) s).
Proof. done. Qed.

Lemma set_current_id s : set_current (current_ s) s = s.
Proof. by destruct s. Qed.

Lemma rest_set_current s a b : rest s = a ++ b -> rest (set_current (current_ s + length a) s) = b.
Proof. intros H. unfold rest. simpl. rewrite <- drop_drop. fold (rest s). by rewrite H, drop_app_length. Qed.

Lemma slice_rest s a b c :
  rest s = a ++ b ++ c ->
  slice (current_ s + length a) (current_ s + length a + length b) (document_ s) = b.
Proof.
  intros H. unfold slice. rewrite <- drop_drop. fold (rest s). rewrite H, drop_app_length.
  replace (_ - _)%nat with (length b) by lia. apply take_app_length.
Qed.

Definition spaces (sp : bytes) : Prop := Forall (fun c => is_space c = true) sp.

Lemma count_spaces_app sp c r : spaces sp -> is_space c = false -> count_spaces (sp ++ c :: r) = length sp.
Proof.
  intros Hsp Hc. induction Hsp as [|x sp Hx _ IH]; simpl; [by rewrite Hc|]. by rewrite Hx, IH.
Qed.

(** Reading the first character of a token. *)
Lemma readToken_first sp c r s :
  spaces sp -> is_space c = false -> rest s = sp ++ c :: r ->
  readToken s =
  ('(ok, type) ← token_switch c;
   stop ← gets current_;
   mret (ok, mkToken (if ok : bool then type else tokenError) (current_ s + length sp) stop) : RM _)
    (set_current (current_ s + length sp + 1) s).
Proof.
  intros Hsp Hc Hr. unfold readToken, skipSpaces. cbv [mbind RM_bind gets advance modify outcome_bind].
  rewrite Hr, count_spaces_app by done. unfold getNextChar.
  cbv [mbind RM_bind gets advance modify outcome_bind].
  rewrite (rest_set_current s sp (c :: r)) by done. done.
Qed.

(** Tokens of one character. *)
Definition char_token (c : Z) : option TokenType :=
  if c =? CH "{" then Some tokenObjectBegin
  else if c =? CH "}" then Some tokenObjectEnd
  else if c =? CH "[" then Some tokenArrayBegin
  else if c =? CH "]" then Some tokenArrayEnd
  else if c =? CH "," then Some tokenArraySeparator
  else if c =? CH ":" then Some tokenMemberSeparator
  else None.

Lemma readToken_char sp c r s t :
  spaces sp -> rest s = sp ++ c :: r -> char_token c = Some t ->
  readToken s = Ret ((true, mkToken t (current_ s + length sp) (current_ s + length sp + 1)),
                     set_current (current_ s + length sp + 1) s).
Proof.
  intros Hsp Hr Hc.
  assert (is_space c = false /\ token_switch c = mret (true, t)) as [Hns Hsw].
  { unfold char_token in Hc.
    repeat (destruct (c =? _) eqn:E in Hc; [injection Hc as <-; bool_to_prop; subst; done|clear E]).
    done. }
  rewrite (readToken_first sp c r) by done. by rewrite Hsw.
Qed.

(** The literals. *)
Lemma match_app pat tl s : rest s = pat ++ tl -> match_ pat s = Ret (true, set_current (current_ s + length pat) s).
Proof.
  intros Hr. unfold match_. rewrite exec_gets, Hr, length_app, take_app_length.
  rewrite (proj2 (Nat.ltb_ge _ _)) by lia. unfold bytes_eqb. by rewrite bool_decide_eq_true_2.
Qed.

Lemma readToken_literal sp pat tl s c t :
  spaces sp -> rest s = sp ++ (c :: pat) ++ tl ->
  (c, pat, t) = (CH "t", STR "rue", tokenTrue) \/ (c, pat, t) = (CH "f", STR "alse", tokenFalse) \/
  (c, pat, t) = (CH "n", STR "ull", tokenNull) ->
  readToken s =
  Ret ((true, mkToken t (current_ s + length sp) (current_ s + length sp + length (c :: pat))),
       set_current (current_ s + length sp + length (c :: pat)) s).
Proof.
  intros Hsp Hr Hc.
  assert (is_space c = false /\ token_switch c = (ok ← match_ pat; mret (ok, t))) as [Hns Hsw].
  { by destruct Hc as [[= -> -> ->]|[[= -> -> ->]|[= -> -> ->]]]. }
  rewrite (readToken_first sp c (pat ++ tl)) by done. rewrite Hsw.
  set (s1 := set_current _ s). assert (rest s1 = pat ++ tl) as Hr1.
  { unfold s1. replace (current_ s + length sp + 1)%nat with (current_ s + length (sp ++ [c]))%nat
      by (rewrite length_app; simpl; lia).
    apply rest_set_current. by rewrite Hr, <- app_assoc. }
  pose proof (match_app _ _ _ Hr1) as Hm. cbv [mbind RM_bind gets outcome_bind mret RM_ret].
  rewrite Hm. simpl.
  by replace (current_ s + length sp + 1 + length pat)%nat
    with (current_ s + length sp + S (length pat))%nat by lia.
Qed.

(** ** Numbers *)

Lemma digits_loop_app ds tl p :
  Forall (fun c => is_digit c = true) ds -> (forall c, head tl = Some c -> is_digit c = false) ->
  digits_loop (ds ++ tl) p =
  match tl with
  | [] => (0, (p + length ds)%nat, (p + length ds)%nat, [])
  | c :: tl' => (c, (p + length ds)%nat, S (p + length ds), tl')
  end.
Proof.
  intros Hds Htl. revert p. induction Hds as [|d ds Hd _ IH]; intros p.
  { rewrite Nat.add_0_r. simpl. destruct tl as [|c tl]; [done|]. simpl. by rewrite (Htl c). }
  simpl. rewrite Hd, IH. by rewrite Nat.add_succ_r.
Qed.

Lemma number_end_digits ds tl p :
  Forall (fun c => is_digit c = true) ds -> delim tl -> number_end (ds ++ tl) p = (p + length ds)%nat.
Proof.
  intros Hds Htl. unfold number_end. rewrite digits_loop_app; [|done|].
  - destruct tl as [|c tl]; [done|]. destruct Htl as (_ & Hdot & He & HE).
    rewrite (proj2 (Z.eqb_neq _ _)) by done.
    by rewrite (proj2 (Z.eqb_neq c (CH "e"))), (proj2 (Z.eqb_neq c (CH "E"))).
  - intros c. destruct tl; [done|]. intros [= ->]. apply Htl.
Qed.

(** A number token: [c] is the first character, a digit or the sign. *)
Lemma readToken_number sp c ds tl s :
  spaces sp -> is_digit c = true \/ c = CH "-" -> (forall p, number_end (ds ++ tl) p = (p + length ds)%nat) ->
  rest s = sp ++ (c :: ds) ++ tl ->
  readToken s =
  Ret ((true, mkToken tokenNumber (current_ s + length sp) (current_ s + length sp + length (c :: ds))),
       set_current (current_ s + length sp + length (c :: ds)) s).
Proof.
  intros Hsp Hc Hds Hr.
  assert (is_space c = false /\ token_switch c = (_ ← readNumber; mret (true, tokenNumber))) as [Hns Hsw].
  { destruct Hc as [Hc| ->]; [|done]. unfold is_digit in Hc. bool_to_prop.
    assert (c ∈ seqZ 48 10) as Hin by (apply elem_of_seqZ; lia). cbv [seqZ seq fmap list_fmap] in Hin.
    repeat (apply elem_of_cons in Hin as [->|Hin]; [done|]). by apply not_elem_of_nil in Hin. }
  rewrite (readToken_first sp c (ds ++ tl)) by done. rewrite Hsw.
  set (s1 := set_current _ s). assert (rest s1 = ds ++ tl) as Hr1.
  { unfold s1. replace (current_ s + length sp + 1)%nat with (current_ s + length (sp ++ [c]))%nat
      by (rewrite length_app; simpl; lia).
    apply rest_set_current. by rewrite Hr, <- app_assoc. }
  cbv [mbind RM_bind gets outcome_bind mret RM_ret readNumber modify id].
  rewrite Hr1, Hds. simpl.
  by replace (current_ s + length sp + 1 + length ds)%nat
    with (current_ s + length sp + S (length ds))%nat by lia.
Qed.

(** A string of digits is decoded exactly when its value fits. *)
Lemma digits_val_mono v ds : 0 <= v -> Forall (fun c => is_digit c = true) ds -> v <= digits_val v ds.
Proof.
  intros Hv Hds. revert v Hv. induction Hds as [|c ds Hc _ IH]; intros v Hv; [done|]. simpl.
  unfold is_digit in Hc. bool_to_prop. etransitivity; [|apply IH]; lia.
Qed.

Lemma decode_digits_spec m ds v :
  Forall (fun c => is_digit c = true) ds -> 10 <= m < 2 ^ 64 -> 0 <= v <= m ->
  decode_digits m ds v = if digits_val v ds <=? m then Some (digits_val v ds) else None.
Proof.
  intros Hds Hm. revert v. induction Hds as [|c ds Hc Hds IH]; intros v Hv.
  { simpl. by rewrite (proj2 (Z.leb_le _ _)) by lia. }
  cbn [decode_digits digits_val]. unfold is_digit in Hc. bool_to_prop.
  rewrite (proj2 (Z.ltb_ge c _)), (proj2 (Z.ltb_ge _ c)) by lia. simpl orb. cbv iota.
  remember (c - CH "0") as d eqn:Ed. assert (0 <= d <= 9) as Hd by lia.
  pose proof (Z.div_mod m 10 ltac:(done)) as Hdm. pose proof (Z.mod_pos_bound m 10 ltac:(done)) as Hmm.
  assert (v * 10 + d <= digits_val (v * 10 + d) ds) as Hmono by (apply digits_val_mono; [lia|done]).
  destruct (_ && _) eqn:E.
  - apply andb_true_iff in E as [E1 E2]. bool_to_prop.
    rewrite (proj2 (Z.leb_gt _ _)); [done|].
    destruct E2 as [[E2|E2]%orb_true_iff|E2]; bool_to_prop; [lia| |lia].
    apply bool_decide_eq_false in E2. destruct ds as [|c2 ds]; [done|].
    apply Forall_cons in Hds as [Hc2 Hds]. unfold is_digit in Hc2. bool_to_prop. simpl in *.
    assert ((v * 10 + d) * 10 + (c2 - CH "0") <= digits_val ((v * 10 + d) * 10 + (c2 - CH "0")) ds)
      by (apply digits_val_mono; [lia|done]). lia.
  - assert (v * 10 + d <= m) as Hle.
    { apply andb_false_iff in E as [E|E]; bool_to_prop; lia. }
    unfold u64. rewrite Z.mod_small by lia. apply IH. lia.
Qed.

(** ** Strings *)

Lemma hex2_digits b :
  0 <= b < 256 ->
  hex_digit (nth (Z.to_nat (2 * b)) hex2 0) = Some (b / 16) /\
  hex_digit (nth (Z.to_nat (2 * b + 1)) hex2 0) = Some (b mod 16).
Proof.
  intros Hb.
  assert (forallb (fun b => bool_decide (hex_digit (nth (Z.to_nat (2 * b)) hex2 0) = Some (b / 16)) &&
                            bool_decide (hex_digit (nth (Z.to_nat (2 * b + 1)) hex2 0) = Some (b mod 16)))
            (seqZ 0 256) = true) as H by (vm_compute; reflexivity).
  rewrite forallb_forall in H. specialize (H b). rewrite <- list_elem_of_In in H.
  apply andb_true_iff in H as [H1 H2]; [|apply elem_of_seqZ; lia].
  split; by eapply bool_decide_eq_true_1.
Qed.

Lemma hex_digit_plain c d : hex_digit c = Some d -> c <> dquote /\ c <> CH "\".
Proof. intros H. split; intros ->; discriminate H. Qed.

(** The four digits of a 16-bit unit. *)
Lemma toHex16Bit_digits x :
  0 <= x < 0x10000 ->
  exists a b c d, toHex16Bit x = [a; b; c; d] /\
    hex_digit a = Some (x / 4096) /\ hex_digit b = Some (x / 256 mod 16) /\
    hex_digit c = Some (x / 16 mod 16) /\ hex_digit d = Some (x mod 16).
Proof.
  intros Hx. unfold toHex16Bit. masks_to_mod.
  assert (0 <= (x / 2 ^ 8) mod 2 ^ 8 < 256) as Hhi by by apply Z.mod_pos_bound.
  assert (0 <= x mod 2 ^ 8 < 256) as Hlo by by apply Z.mod_pos_bound.
  destruct (hex2_digits _ Hhi) as [H1 H2]. destruct (hex2_digits _ Hlo) as [H3 H4].
  eexists _, _, _, _. split; [reflexivity|]. rewrite H1, H2, H3, H4.
  split_and!; f_equal; zdiv_lia.
Qed.

Lemma hex4_toHex16Bit x t i r s :
  0 <= x < 0x10000 -> hex4 4 t 0 (i, toHex16Bit x ++ r) s = Ret (Some (x, ((i + 4)%nat, r)), s).
Proof.
  intros Hx. destruct (toHex16Bit_digits x Hx) as (a & b & c & d & -> & Ha & Hb & Hc & Hd).
  cbn [app hex4]. rewrite Ha, Hb, Hc, Hd.
  replace (((0 * 16 + x / 4096) * 16 + x / 256 mod 16) * 16 + x / 16 mod 16) with (x / 16) by zdiv_lia.
  replace (x / 16 * 16 + x mod 16) with x by zdiv_lia.
  by replace (S (S (S (S i)))) with (i + 4)%nat by lia.
Qed.

Lemma decode_escape x t i r s :
  0 <= x < 0x10000 ->
  decodeUnicodeEscapeSequence t (i, toHex16Bit x ++ r) s = Ret (Some (x, ((i + 4)%nat, r)), s).
Proof.
  intros Hx. unfold decodeUnicodeEscapeSequence.
  rewrite (proj2 (Nat.ltb_ge _ _)); [by apply hex4_toHex16Bit|].
  destruct (toHex16Bit_digits x Hx) as (a & b & c & d & -> & _). simpl. lia.
Qed.

(** The four forms of an escaped code point. *)
Inductive quoted (cp : Z) : bytes -> Prop :=
  | quoted_raw : 0x20 <= cp < 0x80 -> cp <> dquote -> cp <> CH "\" -> quoted cp [cp]
  | quoted_simple e : 0 <= cp < 0x80 -> simple_escape e = Some cp -> quoted cp [CH "\"; e]
  | quoted_bmp : 0 <= cp < 0x10000 -> ~ (0xD800 <= cp <= 0xDBFF) ->
                 quoted cp ([CH "\"; CH "u"] ++ toHex16Bit cp)
  | quoted_pair hi lo : cp = 0x10000 + hi * 1024 + lo -> 0 <= hi < 1024 -> 0 <= lo < 1024 ->
      quoted cp ([CH "\"; CH "u"] ++ toHex16Bit (0xD800 + hi) ++
                 [CH "\"; CH "u"] ++ toHex16Bit (0xDC00 + lo)).

Lemma quote_cp_quoted cp : scalar cp -> quoted cp (quote_cp cp).
Proof.
  intros Hcp. unfold scalar in Hcp. unfold quote_cp.
  repeat (match goal with |- quoted _ (if ?b then _ else _) => destruct b eqn:? end;
          [bool_to_prop; subst cp; apply quoted_simple; [unfold dquote; lia|done]|]).
  unfold appendCodepoint, appendHex, appendRaw.
  destruct (cp <? 0x20) eqn:E1; [bool_to_prop; apply quoted_bmp; lia|].
  destruct (cp <? 0x80) eqn:E2; bool_to_prop.
  { unfold u8. rewrite Z.mod_small by lia. by apply quoted_raw. }
  destruct (cp <? 0x10000) eqn:E3; bool_to_prop; [apply quoted_bmp; lia|].
  cbv zeta. rewrite app_nil_l, <- app_assoc.
  replace (Z.land (Z.shiftr (cp - 0x10000) 10) 0x3ff) with ((cp - 0x10000) / 2 ^ 10 mod 2 ^ 10)
    by (by masks_to_mod).
  replace (Z.land (cp - 0x10000) 0x3ff) with ((cp - 0x10000) mod 2 ^ 10) by (by masks_to_mod).
  apply quoted_pair; zdiv_lia.
Qed.

(** The scanner passes over it, the decoder gives the code point back. *)
Lemma string_scan_plain l r c :
  Forall (fun d => d <> dquote /\ d <> CH "\") l -> l <> [] ->
  exists c', string_scan (l ++ r) c =
             let '(n, x) := string_scan r c' in ((length l + n)%nat, x).
Proof.
  intros Hl. revert c. induction Hl as [|d l [Hq Hb] _ IH]; intros c Hne; [done|].
  cbn [app string_scan]. rewrite (proj2 (Z.eqb_neq _ _)), (proj2 (Z.eqb_neq d dquote)) by done.
  destruct l as [|e l].
  - exists d. simpl. by destruct (string_scan r d).
  - destruct (IH d) as [c' ->]; [done|]. exists c'. by destruct (string_scan r c').
Qed.

Lemma toHex16Bit_plain x :
  0 <= x < 0x10000 -> Forall (fun d => d <> dquote /\ d <> CH "\") (toHex16Bit x).
Proof.
  intros Hx. destruct (toHex16Bit_digits x Hx) as (a & b & c & d & -> & Ha & Hb & Hc & Hd).
  repeat constructor; by eapply hex_digit_plain.
Qed.

Lemma toHex16Bit_length x : length (toHex16Bit x) = 4%nat.
Proof. reflexivity. Qed.

Lemma string_scan_escape e l r c :
  Forall (fun d => d <> dquote /\ d <> CH "\") l ->
  exists c', string_scan ([CH "\"; e] ++ l ++ r) c =
             let '(n, x) := string_scan r c' in ((2 + length l + n)%nat, x).
Proof.
  intros Hl. change ([CH "\"; e] ++ l ++ r) with (CH "\" :: e :: (l ++ r)). cbn [string_scan].
  rewrite Z.eqb_refl. destruct l as [|d l].
  - exists (CH "\"). simpl. by destruct (string_scan r _).
  - destruct (string_scan_plain (d :: l) r (CH "\") Hl) as [c' ->]; [done|]. exists c'.
    by destruct (string_scan r c').
Qed.

Lemma string_scan_quoted cp q r c :
  quoted cp q -> exists c', string_scan (q ++ r) c =
                            let '(n, x) := string_scan r c' in ((length q + n)%nat, x).
Proof.
  intros [Hr Hq Hb|e Hr He|Hr Hs|hi lo -> Hhi Hlo].
  - by apply (string_scan_plain [cp]); [repeat constructor|].
  - apply (string_scan_escape e []). constructor.
  - rewrite <- app_assoc. apply (string_scan_escape _ (toHex16Bit cp)). by apply toHex16Bit_plain.
  - rewrite <- !app_assoc.
    destruct (string_scan_escape (CH "u") (toHex16Bit (0xD800 + hi))
      ([CH "\"; CH "u"] ++ toHex16Bit (0xDC00 + lo) ++ r) c) as [c1 ->]; [apply toHex16Bit_plain; lia|].
    destruct (string_scan_escape (CH "u") (toHex16Bit (0xDC00 + lo)) r c1) as [c2 ->];
      [apply toHex16Bit_plain; lia|].
    exists c2. rewrite !length_app, !toHex16Bit_length. by destruct (string_scan r c2).
Qed.

Lemma decode_loop_quoted fuel t cp q i r acc s :
  quoted cp q ->
  decode_string_loop (S fuel) t (i, q ++ r) acc s =
  decode_string_loop fuel t ((i + length q)%nat, r) (acc ++ codePointToUTF8 cp) s.
Proof.
  assert (Hlow : 0 <= cp < 0x80 -> codePointToUTF8 cp = [cp]).
  { intros H. rewrite codePointToUTF8_arith by lia. by rewrite (proj2 (Z.leb_le _ _)) by lia. }
  intros [Hr Hq Hb|e Hr He|Hr Hs|hi lo -> Hhi Hlo].
  - rewrite Hlow by lia. cbn [app decode_string_loop].
    rewrite (proj2 (Z.eqb_neq _ _)), (proj2 (Z.eqb_neq cp (CH "\"))) by done.
    by replace (S i) with (i + length [cp])%nat by (simpl; lia).
  - rewrite Hlow by lia. cbn [app decode_string_loop]. change (CH "\" =? dquote) with false.
    rewrite Z.eqb_refl, He. by replace (S (S i)) with (i + length [CH "\"; e])%nat by (simpl; lia).
  - rewrite <- app_assoc. cbn [app decode_string_loop]. change (CH "\" =? dquote) with false.
    rewrite Z.eqb_refl. change (simple_escape (CH "u")) with (@None Z). rewrite Z.eqb_refl.
    unfold decodeUnicodeCodePoint.
    rewrite (exec_bind _ _ s (Some (cp, ((S (S i) + 4)%nat, r))) s).
    { by replace (S (S i) + 4)%nat with (i + length ([CH "\"; CH "u"] ++ toHex16Bit cp))%nat
        by (rewrite length_app, toHex16Bit_length; simpl; lia). }
    rewrite (exec_bind _ _ s _ s (decode_escape cp t (S (S i)) r s Hr)).
    destruct (_ && _) eqn:E; [bool_to_prop; lia|done].
  - rewrite <- !app_assoc. cbn [app decode_string_loop]. change (CH "\" =? dquote) with false.
    rewrite Z.eqb_refl. change (simple_escape (CH "u")) with (@None Z). rewrite Z.eqb_refl.
    set (cp := 0x10000 + hi * 1024 + lo) in *. unfold decodeUnicodeCodePoint.
    set (r2 := CH "\" :: CH "u" :: toHex16Bit (0xDC00 + lo) ++ r).
    rewrite (exec_bind _ _ s (Some (cp, ((S (S i) + 4 + 2 + 4)%nat, r))) s).
    { by replace (S (S i) + 4 + 2 + 4)%nat with
        (i + length ([CH "\"; CH "u"] ++ toHex16Bit (0xD800 + hi) ++
                     [CH "\"; CH "u"] ++ toHex16Bit (0xDC00 + lo)))%nat
        by (rewrite !length_app, !toHex16Bit_length; simpl; lia). }
    rewrite (exec_bind _ _ s _ s (decode_escape (0xD800 + hi) t (S (S i)) r2 s ltac:(lia))).
    rewrite (proj2 (Z.leb_le _ _)), (proj2 (Z.leb_le _ _)) by lia. cbv iota beta delta [andb].
    assert (length r2 = 6 + length r)%nat as Hr2 by reflexivity.
    rewrite (proj2 (Nat.ltb_ge _ _)) by (rewrite Hr2; lia).
    change (negb (nth 0 r2 0 =? CH "\") || negb (nth 1 r2 0 =? CH "u")) with false. cbv iota.
    change (drop 2 r2) with (toHex16Bit (0xDC00 + lo) ++ r).
    rewrite (exec_bind _ _ s _ s
      (decode_escape (0xDC00 + lo) t (S (S i) + 4 + 2)%nat r s ltac:(lia))).
    unfold mret, RM_ret. do 4 f_equal. masks_to_mod. unfold cp.
    rewrite Z.shiftl_mul_pow2 by done. zdiv_lia.
Qed.

Lemma string_scan_text cps r c :
  Forall scalar cps ->
  string_scan ((cps ≫= quote_cp) ++ dquote :: r) c = (S (length (cps ≫= quote_cp)), dquote).
Proof.
  intros Hcps. revert c. induction Hcps as [|cp cps Hcp _ IH]; intros c; [done|].
  cbn [mbind list_bind]. rewrite <- app_assoc.
  destruct (string_scan_quoted cp (quote_cp cp) ((cps ≫= quote_cp) ++ dquote :: r) c) as [c' ->];
    [by apply quote_cp_quoted|].
  rewrite IH, length_app. f_equal. lia.
Qed.

Lemma decode_loop_text fuel t cps i acc s :
  Forall scalar cps -> (length (cps ≫= quote_cp) < fuel)%nat ->
  decode_string_loop fuel t (i, cps ≫= quote_cp) acc s = Ret (Some (acc ++ utf8_encode cps), s).
Proof.
  intros Hcps. revert fuel i acc. induction Hcps as [|cp cps Hcp _ IH]; intros fuel i acc Hf.
  { destruct fuel; [simpl in Hf; lia|]. by rewrite app_nil_r. }
  cbn [mbind list_bind] in *. rewrite length_app in Hf.
  pose proof (quote_cp_quoted cp Hcp) as Hq. destruct fuel as [|fuel]; [lia|].
  rewrite (decode_loop_quoted _ _ cp) by done. unfold utf8_encode in *. cbn [mbind list_bind].
  rewrite IH, <- app_assoc; [done|].
  assert (1 <= length (quote_cp cp))%nat; [|lia]. destruct Hq; simpl; lia.
Qed.

Lemma quoted_text cps :
  Forall scalar cps ->
  valueToQuotedStringN (utf8_encode cps) false = dquote :: (cps ≫= quote_cp) ++ [dquote].
Proof. intros H. by rewrite valueToQuotedStringN_utf8. Qed.

(** Between its quotes a text [body] that the scanner passes over and the decoder
    turns into [text]. *)
Definition string_body (body text : bytes) : Prop :=
  (forall r c, string_scan (body ++ dquote :: r) c = (S (length body), dquote)) /\
  (forall fuel t i s, (length body < fuel)%nat ->
     decode_string_loop fuel t (i, body) [] s = Ret (Some text, s)).

Lemma body_quoted cps : Forall scalar cps -> string_body (cps ≫= quote_cp) (utf8_encode cps).
Proof. intros H. split; [intros r c; by apply string_scan_text|intros fuel t i s Hf; by apply decode_loop_text]. Qed.

(** Any bytes but quote and backslash stand for themselves. *)
Lemma body_verbatim l : Forall (fun c => c <> dquote /\ c <> CH "\") l -> string_body l l.
Proof.
  intros Hl. split.
  - intros r c. destruct l as [|d l]; [done|]. destruct (string_scan_plain (d :: l) (dquote :: r) c Hl) as [c' ->]; [done|].
    cbn [string_scan]. rewrite Z.eqb_refl. f_equal. simpl. lia.
  - enough (forall fuel t i acc s, (length l < fuel)%nat ->
      decode_string_loop fuel t (i, l) acc s = Ret (Some (acc ++ l), s)) as H by (intros fuel t i s; apply H).
    induction Hl as [|c l [Hq Hb] _ IH]; intros [|fuel] t i acc s Hf; simpl in Hf; try lia.
    + by rewrite app_nil_r.
    + cbn [decode_string_loop]. rewrite (proj2 (Z.eqb_neq c dquote)), (proj2 (Z.eqb_neq c (CH "\"))) by done.
      rewrite IH, <- app_assoc by lia. done.
Qed.

(** A string token, and what it is decoded to. *)
Lemma readToken_body sp body text tl s :
  spaces sp -> string_body body text -> let token := dquote :: body ++ [dquote] in
  rest s = sp ++ token ++ tl ->
  readToken s =
  Ret ((true, mkToken tokenString (current_ s + length sp) (current_ s + length sp + length token)),
       set_current (current_ s + length sp + length token) s).
Proof.
  intros Hsp [Hscan _] token Hr. unfold token in *. rewrite <- app_comm_cons, <- app_assoc in Hr. simpl app in Hr.
  rewrite (readToken_first sp dquote (body ++ dquote :: tl)) by done.
  change (token_switch dquote) with (ok ← readString; mret (ok, tokenString)).
  set (s1 := set_current _ s). assert (rest s1 = body ++ dquote :: tl) as Hr1.
  { unfold s1. replace (current_ s + length sp + 1)%nat with (current_ s + length (sp ++ [dquote]))%nat
      by (rewrite length_app; simpl; lia).
    apply rest_set_current. by rewrite Hr, <- app_assoc. }
  cbv [mbind RM_bind gets outcome_bind mret RM_ret readString modify advance].
  rewrite Hr1, Hscan. simpl. rewrite length_app. simpl.
  by replace (current_ s + length sp + 1 + S (length body))%nat
    with (current_ s + length sp + S (length body + 1))%nat by lia.
Qed.

Lemma decodeString_body a body text tl s s1 :
  string_body body text -> document_ s1 = document_ s -> let token := dquote :: body ++ [dquote] in
  rest s = a ++ token ++ tl ->
  decodeString (mkToken tokenString (current_ s + length a) (current_ s + length a + length token)) s1 =
  Ret (Some text, s1).
Proof.
  intros [_ Hdec] Hdoc token Hr. unfold token in *. unfold decodeString. rewrite exec_gets, Hdoc.
  cbn [tok_start_ tok_end_ length]. rewrite length_app. cbn [length]. rewrite (proj2 (Nat.ltb_ge _ _)) by lia.
  replace (current_ s + length a + 1)%nat with (current_ s + length (a ++ [dquote]))%nat
    by (rewrite length_app; simpl; lia).
  replace (current_ s + length a + S (length body + 1) - 1)%nat
    with (current_ s + length (a ++ [dquote]) + length body)%nat by (rewrite length_app; simpl; lia).
  rewrite (slice_rest s (a ++ [dquote]) body ([dquote] ++ tl)).
  - apply Hdec. lia.
  - rewrite Hr. simpl. by rewrite <- !app_assoc.
Qed.

Lemma readToken_string sp cps tl s :
  spaces sp -> Forall scalar cps ->
  let text := valueToQuotedStringN (utf8_encode cps) false in
  rest s = sp ++ text ++ tl ->
  readToken s =
  Ret ((true, mkToken tokenString (current_ s + length sp) (current_ s + length sp + length text)),
       set_current (current_ s + length sp + length text) s).
Proof.
  intros Hsp Hcps text. unfold text. rewrite quoted_text by done. by eapply readToken_body, body_quoted.
Qed.

Lemma decodeString_text a cps tl s s1 :
  Forall scalar cps -> document_ s1 = document_ s ->
  let text := valueToQuotedStringN (utf8_encode cps) false in
  rest s = a ++ text ++ tl ->
  decodeString (mkToken tokenString (current_ s + length a) (current_ s + length a + length text)) s1 =
  Ret (Some (utf8_encode cps), s1).
Proof.
  intros Hcps Hdoc text. unfold text. rewrite quoted_text by done. by apply decodeString_body, Hdoc; apply body_quoted.
Qed.

(** ** Writing into the tree *)


Lemma om_alter_ext {K V} `{KeyOrd K} k (f g : V -> V) m :
  (forall x, om_find k m = Some x -> f x = g x) -> om_alter k f m = om_alter k g m.
Proof.
  induction m as [|[k' x] m IH]; simpl; [done|]. destruct (key_eqb k k'); intros Hf.
  - by rewrite Hf.
  - by rewrite IH.
Qed.

Lemma edge_write_ext e f g v :
  (forall x, edge_get e v = Some x -> f x = g x) -> edge_write e f v = edge_write e g v.
Proof.
  intros Hf. destruct v as [[] ? ? ?], e; simpl; try done;
    unfold write_index, write_key, set_payload; simpl; do 2 f_equal; by apply om_alter_ext.
Qed.

Lemma edge_write_compose e f g v :
  edge_write e f (edge_write e g v) = edge_write e (fun x => f (g x)) v.
Proof.
  destruct v as [[] ? ? ?], e; simpl; try done;
    unfold write_index, write_key, set_payload; simpl; by rewrite om_alter_compose.
Qed.

Lemma alter_path_ext p f g v w :
  at_path p v = Some w -> f w = g w -> alter_path p f v = alter_path p g v.
Proof.
  revert v. induction p as [|e p IH]; intros v; simpl; [by intros [= ->]|].
  intros Hp Hf. apply edge_write_ext. intros x Hx. rewrite Hx in Hp. by apply IH.
Qed.

Lemma alter_path_app p q f v w :
  at_path p v = Some w -> alter_path (p ++ q) f v = alter_path p (fun _ => alter_path q f w) v.
Proof.
  revert v. induction p as [|e p IH]; intros v; simpl; [by intros [= ->]|].
  intros Hp. apply edge_write_ext. intros x Hx. rewrite Hx in Hp. by apply IH.
Qed.

Lemma alter_path_compose p f g v : alter_path p f (alter_path p g v) = alter_path p (fun x => f (g x)) v.
Proof.
  revert v. induction p as [|e p IH]; intros v; simpl; [done|]. rewrite edge_write_compose.
  apply edge_write_ext. intros x _. apply IH.
Qed.

Lemma at_path_alter p f v w : at_path p v = Some w -> at_path p (alter_path p f v) = Some (f w).
Proof.
  revert v. induction p as [|e p IH]; intros v; simpl; [by intros [= ->]|].
  rewrite edge_get_write_eq. destruct (edge_get e v) as [x|]; simpl; [apply IH|done].
Qed.

(** ** Moving through the text *)

Lemma alter_path_id p v w : at_path p v = Some w -> alter_path p (fun _ => w) v = v.
Proof.
  revert v. induction p as [|e p IH]; intros v; simpl; [by intros [= ->]|]. intros Hp.
  transitivity (edge_write e (fun x => x) v).
  - apply edge_write_ext. intros x Hx. rewrite Hx in Hp. by apply IH.
  - assert (forall K (HK : KeyOrd K) k (m : list (K * Value)), om_alter k (fun x => x) m = m) as Hid.
    { intros K HK k m. induction m as [|[k' y] m IHm]; simpl; [done|].
      destruct (key_eqb k k'); [done|]. by rewrite IHm. }
    destruct v as [[] ? ? ?], e; simpl; try done;
      unfold write_index, write_key, set_payload; simpl; by rewrite Hid.
Qed.

Lemma moved_skip p v n s :
  at_path p (root_ s) = Some v -> moved p v n s (set_current (current_ s + n) s).
Proof.
  intros Hp. exists (lastValueEnd_ s), (lastValue_ s). rewrite alter_path_id by done. by destruct s.
Qed.

Lemma moved_trans p w1 w2 n1 n2 s s1 s2 :
  moved p w1 n1 s s1 -> moved p w2 n2 s1 s2 -> moved p w2 (n1 + n2) s s2.
Proof.
  intros (e1 & l1 & ->) (e2 & l2 & ->). exists e2, l2.
  unfold set_lastValue, set_root, set_current. simpl. rewrite alter_path_compose, Nat.add_assoc. done.
Qed.

Section moved.
Context (p : path) (w : Value) (n : nat) (s s' : Reader).
Hypothesis H : moved p w n s s'.

Lemma moved_features : features_ s' = features_ s.
Proof. by destruct H as (? & ? & ->). Qed.
Lemma moved_doc : document_ s' = document_ s.
Proof. by destruct H as (? & ? & ->). Qed.
Lemma moved_cur : current_ s' = (current_ s + n)%nat.
Proof. by destruct H as (? & ? & ->). Qed.
Lemma moved_nodes : nodes_ s' = nodes_ s.
Proof. by destruct H as (? & ? & ->). Qed.
Lemma moved_comments : commentsBefore_ s' = commentsBefore_ s.
Proof. by destruct H as (? & ? & ->). Qed.
Lemma moved_at v : at_path p (root_ s) = Some v -> at_path p (root_ s') = Some w.
Proof. intros Hp. destruct H as (? & ? & ->). simpl. by erewrite at_path_alter. Qed.
Lemma moved_rest a b : rest s = a ++ b -> length a = n -> rest s' = b.
Proof.
  intros Hr Hl. unfold rest. rewrite moved_doc, moved_cur, <- Hl, <- drop_drop. fold (rest s).
  by rewrite Hr, drop_app_length.
Qed.
End moved.

(** A write to the current value. *)
Lemma exec_currentValue {B} f p ns s w w' (k : unit -> RM B) :
  nodes_ s = p :: ns -> at_path p (root_ s) = Some w -> f w = Ret w' ->
  (currentValue f ≫= k) s = k tt (set_root (alter_path p (fun _ => w') (root_ s)) s).
Proof.
  intros Hn Hp Hf. apply exec_bind. unfold currentValue, nodes_top.
  cbv [mbind RM_bind gets outcome_bind]. rewrite Hn. cbv [mret RM_ret].
  unfold call_at. cbv [mbind RM_bind gets outcome_bind]. rewrite Hp. unfold lift. rewrite Hf. done.
Qed.

Lemma moved_write p v w s :
  at_path p (root_ s) = Some v -> moved p w 0 s (set_root (alter_path p (fun _ => w) (root_ s)) s).
Proof.
  intros Hp. exists (lastValueEnd_ s), (lastValue_ s). destruct s. unfold set_lastValue, set_root, set_current.
  simpl. by rewrite Nat.add_0_r.
Qed.

Lemma moved_write_after p v w w' n s s' :
  at_path p (root_ s) = Some v -> moved p w n s s' ->
  moved p w' n s (set_root (alter_path p (fun _ => w') (root_ s')) s').
Proof.
  intros Hp Hm. rewrite <- (Nat.add_0_r n). eapply moved_trans; [exact Hm|].
  apply (moved_write p w). by eapply moved_at.
Qed.

Lemma strip_payload v w : value_ v = value_ w -> strip v = strip w.
Proof. destruct v, w. simpl. by intros ->. Qed.

(** Storing a scalar. *)
Lemma exec_store_token {B} t v p ns s w (k : unit -> RM B) :
  nodes_ s = p :: ns -> at_path p (root_ s) = Some w ->
  exists w', value_ w' = value_ v /\
    (store_token t v ≫= k) s = k tt (set_root (alter_path p (fun _ => w') (root_ s)) s).
Proof.
  intros Hn Hp. set (w1 := (swapPayload w v).1).
  set (w2 := setOffsetLimit (Z.of_nat (tok_end_ t)) (setOffsetStart (Z.of_nat (tok_start_ t)) w1)).
  exists w2. split; [done|]. apply exec_bind. unfold store_token, swapPayloadCurrent.
  rewrite (exec_currentValue _ p ns s w w1) by done.
  set (s1 := set_root _ s). unfold setOffsets.
  assert (at_path p (root_ s1) = Some w1) as Hp1 by (by unfold s1; simpl; erewrite at_path_alter).
  unfold currentValue, nodes_top. cbv [mbind RM_bind gets outcome_bind].
  change (nodes_ s1) with (nodes_ s). rewrite Hn. cbv [mret RM_ret].
  unfold call_at. cbv [mbind RM_bind gets outcome_bind]. rewrite Hp1. cbn [lift outcome_bind mbind].
  unfold modify, lift. simpl. unfold s1. simpl. by rewrite alter_path_compose.
Qed.

(** The frame of [readValue] around its [switch]. *)
Lemma readValue_enter n s t s1 s2 p ns w k :
  (length (nodes_ s) <= 1000)%nat -> readToken s = Ret ((true, t), s1) -> type_ t <> tokenComment ->
  commentsBefore_ s1 = [] -> nodes_ s = p :: ns ->
  value_switch (readObject n) (readArray n) t s1 = Ret (Some true, s2) -> moved p w k s s2 ->
  exists s', readValue (S n) s = Ret (true, s') /\ moved p w k s s'.
Proof.
  intros Hd Ht Hc Hb Hn Hsw Hm. cbn [readValue]. unfold readValue_body. rewrite exec_gets.
  rewrite (proj2 (Nat.ltb_ge _ _)) by (unfold stackLimit_g; lia).
  assert (skipCommentTokens s = Ret (t, s1)) as Hskip.
  { unfold skipCommentTokens. rewrite !exec_gets. cbn [skip_comments].
    destruct (allowComments_ _); rewrite (exec_bind _ _ _ _ _ Ht); [|done].
    by rewrite (proj2 (token_eqb_ne _ _)). }
  rewrite (exec_bind _ _ _ _ _ Hskip), !exec_gets, Hb, andb_false_r, exec_ret.
  rewrite (exec_bind _ _ _ _ _ Hsw). destruct (collectComments_ s1).
  - pose proof (moved_nodes _ _ _ _ _ Hm) as Hn2. rewrite Hn in Hn2.
    unfold nodes_top. cbv [mbind RM_bind gets outcome_bind]. rewrite Hn2.
    cbv [mret RM_ret modify]. eexists. split; [reflexivity|].
    destruct Hm as (e & lv & ->). by eexists _, _.
  - eexists. split; [reflexivity|done].
Qed.

(** ** Scalars *)

(** [readValue] reads [v] from [text]. *)
Definition reads_value (v : Value) (text : bytes) : Prop :=
  forall n sp tl s p ns,
    spaces sp -> rest s = sp ++ text ++ tl -> delim tl -> nodes_ s = p :: ns ->
    commentsBefore_ s = [] -> is_Some (at_path p (root_ s)) ->
    (length (nodes_ s) + depth v <= 1001)%nat -> (3 * length (rest s) + 1 <= n)%nat ->
    Z.of_nat (length (rest s)) <= maxInt - 4 - 1 ->
    exists w s', readValue n s = Ret (true, s') /\ moved p w (length sp + length text) s s' /\
                 strip w = norm v.

Lemma depth_pos v : (1 <= depth v)%nat.
Proof. destruct v as [[] ? ? ?]; simpl; lia. Qed.

(** A value that is one token, decoded to [val]. *)
Lemma reads_token v text val :
  (forall sp tl s, spaces sp -> delim tl -> rest s = sp ++ text ++ tl ->
     Z.of_nat (length (rest s)) <= maxInt - 4 - 1 ->
     exists t, let s1 := set_current (current_ s + (length sp + length text)) s in
       readToken s = Ret ((true, t), s1) /\ type_ t <> tokenComment /\
       forall rO rA, value_switch rO rA t s1 = (_ ← store_token t val; mret (Some true) : RM _) s1) ->
  strip val = norm v -> reads_value v text.
Proof.
  intros Htok Hval n sp tl s p ns Hsp Hr Htl Hn Hc [w0 Hp] Hd Hf Hl.
  destruct n as [|n]; [lia|]. destruct (Htok sp tl s Hsp Htl Hr Hl) as (t & Ht & Hty & Hsw).
  set (k := (length sp + length text)%nat) in *. set (s1 := set_current (current_ s + k) s) in *.
  pose proof (moved_skip p w0 k s Hp) as Hm.
  destruct (exec_store_token t val p ns s1 w0 (fun _ => mret (Some true))) as (w' & Hw' & Hst); [done..|].
  destruct (readValue_enter n s t s1 (set_root (alter_path p (fun _ => w') (root_ s1)) s1) p ns w' k)
    as (s' & He & Hm'); try done.
  - pose proof (depth_pos v). lia.
  - by rewrite Hsw, Hst.
  - by eapply moved_write_after.
  - exists w', s'. split_and!; [done|done|]. by rewrite <- Hval; apply strip_payload.
Qed.

Lemma reads_literal v c pat t val :
  (c, pat, t) = (CH "t", STR "rue", tokenTrue) /\ val = Value_bool true \/
  (c, pat, t) = (CH "f", STR "alse", tokenFalse) /\ val = Value_bool false \/
  (c, pat, t) = (CH "n", STR "ull", tokenNull) /\ val = Value_null ->
  strip val = norm v -> reads_value v (c :: pat).
Proof.
  intros Hc Hval. apply (reads_token v _ val); [|done]. intros sp tl s Hsp _ Hr _.
  assert ((c, pat, t) = (CH "t", STR "rue", tokenTrue) \/ (c, pat, t) = (CH "f", STR "alse", tokenFalse) \/
          (c, pat, t) = (CH "n", STR "ull", tokenNull)) as Hc' by tauto.
  eexists. cbv zeta. rewrite Nat.add_assoc. rewrite (readToken_literal sp pat tl s c t) by done.
  split; [reflexivity|].
  destruct Hc as [[[= -> -> ->] ->]|[[[= -> -> ->] ->]|[[= -> -> ->] ->]]]; by split.
Qed.

Lemma exec_number rO rA t s v :
  type_ t = tokenNumber -> decodeNumber t s = Ret (Some v, s) ->
  value_switch rO rA t s = (_ ← store_token t v; mret (Some true) : RM _) s.
Proof.
  intros Ht Hd. unfold value_switch. rewrite exec_gets, Ht. cbv zeta. unfold decodeNumberCurrent.
  cbv [mbind RM_bind outcome_bind]. rewrite Hd. by destruct (store_token t v s) as [[]| | |].
Qed.

Lemma reads_number v neg ds u :
  ds <> [] -> Forall (fun c => is_digit c = true) ds -> digits_val 0 ds = u ->
  u <= (if neg : bool then maxLargestInt + 1 else maxLargestUInt) ->
  initBasic (norm_number (if neg then - u else u)) = norm v ->
  reads_value v (if neg then CH "-" :: ds else ds).
Proof.
  intros Hne Hds Hu Hmax Hnorm. set (val := initBasic (norm_number (if neg then - u else u))) in *.
  apply (reads_token v _ val); [|rewrite <- Hnorm; unfold val, norm_number; by destruct (_ <=? _)].
  intros sp tl s Hsp Htl Hr _.
  assert (exists c ds', (if neg then CH "-" :: ds else ds) = c :: ds' /\
    (is_digit c = true \/ c = CH "-") /\ Forall (fun c => is_digit c = true) ds') as (c & ds' & Htext & Hc & Hds').
  { destruct neg; [eexists _, _; split; [done|]; by split; [right|]|].
    destruct Hds as [|c ds' Hc Hds]; [done|]. eexists _, _. split; [done|]. by split; [left|]. }
  rewrite Htext in Hr |- *. eexists. cbv zeta. rewrite Nat.add_assoc.
  rewrite (readToken_number sp c ds' tl s); [|done|done|by intros p; apply number_end_digits|done].
  split; [reflexivity|]. split; [done|].
  intros rO rA. apply exec_number; [done|]. unfold decodeNumber. rewrite exec_gets.
  unfold token_text. cbn [tok_start_ tok_end_ document_ set_current].
  rewrite (slice_rest s sp (c :: ds') tl) by done. rewrite <- Htext.
  assert (0 <= u) as Hpos by (rewrite <- Hu; by apply digits_val_mono).
  assert (forall m, 10 <= m < 2 ^ 64 -> u <= m -> decode_digits m ds 0 = Some u) as Hdec.
  { intros m Hm Hle. rewrite decode_digits_spec, Hu by (done || lia).
    by rewrite (proj2 (Z.leb_le _ _)). }
  unfold val, norm_number, i64, signed, maxInt, maxLargestInt, maxLargestUInt, minLargestInt in *.
  destruct neg.
  - cbn [nth tail]. rewrite Z.eqb_refl, Hdec by lia. cbn [andb].
    rewrite (proj2 (Z.leb_le _ _)) by lia.
    destruct (u =? 2 ^ 63 - 1 + 1) eqn:E; bool_to_prop; [by rewrite E|].
    rewrite Z.mod_small by lia. cbv zeta. by rewrite (proj2 (Z.ltb_lt _ _)) by lia.
  - destruct Hds as [|d ds Hd Hds]; [done|]. cbn [nth].
    assert ((d =? CH "-") = false) as -> by (unfold is_digit in Hd; bool_to_prop; apply Z.eqb_neq; lia).
    rewrite Hdec by lia. cbn [andb]. destruct (u <=? 2 ^ 31 - 1) eqn:E; bool_to_prop; [|done].
    rewrite Z.mod_small by lia. cbv zeta. by rewrite (proj2 (Z.ltb_lt _ _)) by lia.
Qed.

Lemma exec_string rO rA t s d :
  type_ t = tokenString -> decodeString t s = Ret (Some d, s) -> Z.of_nat (length d) <= maxInt - 4 - 1 ->
  value_switch rO rA t s = (_ ← store_token t (initBasic (PString d)); mret (Some true) : RM _) s.
Proof.
  intros Ht Hd Hl. unfold value_switch. rewrite exec_gets, Ht. cbv zeta. unfold decodeStringCurrent.
  cbv [mbind RM_bind outcome_bind]. rewrite Hd. unfold lift, Value_string, duplicateAndPrefixStringValue.
  cbv [mbind RM_bind outcome_bind]. rewrite (proj2 (Z.leb_le _ _)) by done. simpl.
  by destruct (store_token t _ s) as [[]| | |].
Qed.

Lemma utf8_quote_length cps :
  Forall scalar cps -> (length (utf8_encode cps) <= length (cps ≫= quote_cp))%nat.
Proof.
  unfold utf8_encode. induction 1 as [|cp cps Hcp _ IH]; [done|]. cbn [mbind list_bind].
  rewrite !length_app.
  assert (length (codePointToUTF8 cp) <= length (quote_cp cp))%nat; [|lia].
  pose proof (quote_cp_quoted cp Hcp) as Hq. unfold scalar in Hcp.
  rewrite codePointToUTF8_arith by lia.
  destruct Hq; repeat (destruct (_ <=? _) eqn:?; bool_to_prop); rewrite ?length_app, ?toHex16Bit_length;
    cbn [length]; try lia.
Qed.

Lemma reads_string_body v body text :
  string_body body text -> (length text <= length body)%nat -> norm v = initBasic (PString text) ->
  reads_value v (dquote :: body ++ [dquote]).
Proof.
  intros Hb Hlen Hnorm. apply (reads_token v _ (initBasic (PString text))); [|done].
  intros sp tl s Hsp _ Hr Hl. eexists. cbv zeta. rewrite Nat.add_assoc.
  rewrite (readToken_body sp body text tl s) by done. split; [reflexivity|]. split; [done|].
  intros rO rA. apply exec_string; [done|by eapply decodeString_body|].
  rewrite Hr, !length_app in Hl. cbn [length] in Hl. rewrite length_app in Hl. lia.
Qed.

Lemma reads_string v cps :
  Forall scalar cps -> norm v = initBasic (PString (utf8_encode cps)) ->
  reads_value v (valueToQuotedStringN (utf8_encode cps) false).
Proof.
  intros Hcps Hnorm. rewrite quoted_text by done.
  by apply (reads_string_body v _ (utf8_encode cps)); [apply body_quoted|apply utf8_quote_length|].
Qed.

(** ** Containers *)

Lemma om_map_app {K A B} (f : A -> B) (m1 m2 : list (K * A)) :
  om_map f (m1 ++ m2) = om_map f m1 ++ om_map f m2.
Proof. induction m1 as [|[k x] m1 IH]; simpl; [done|]. by rewrite IH. Qed.

Lemma om_map_keys {K A B} (f : A -> B) (m : list (K * A)) : om_keys (om_map f m) = om_keys m.
Proof.
  induction m as [|[k x] m IH]; [done|].
  change (k :: om_keys (om_map f m) = k :: om_keys m). by rewrite IH.
Qed.

Lemma om_map_emplace {K A B} `{KeyOrd K} (f : A -> B) k x (m : list (K * A)) :
  om_map f (om_emplace k x m) = om_emplace k (f x) (om_map f m).
Proof.
  induction m as [|[k' y] m IH]; simpl; [done|]. destruct (key_ltb k k'); [done|].
  destruct (key_ltb k' k); [|done]. simpl. by rewrite IH.
Qed.

Lemma om_map_length {K A B} (f : A -> B) (m : list (K * A)) : length (om_map f m) = length m.
Proof. induction m as [|[k x] m IH]; simpl; [done|]. by rewrite IH. Qed.

(** The members read so far: a new key comes after all of them. *)
Lemma emplace_next {K} `{KeyOrdLaws K} (done todo mr : list (K * Value)) k x w :
  om_sorted (done ++ (k, x) :: todo) -> om_map strip mr = om_map norm done ->
  om_emplace k w mr = mr ++ [(k, w)] /\
  (forall f, om_alter k f (mr ++ [(k, w)]) = mr ++ [(k, f w)]) /\
  om_find k (mr ++ [(k, w)]) = Some w.
Proof.
  intros Hs Hm. apply om_sorted_app in Hs as (_ & _ & Hlt).
  assert (om_keys mr = om_keys done) as Hk.
  { rewrite <- (om_map_keys strip mr), Hm. apply om_map_keys. }
  assert (Forall (fun kv => key_ltb kv.1 k = true) mr) as Hall.
  { assert (Forall (fun j => key_ltb j k = true) (om_keys done)) as Hd.
    { unfold om_keys. apply Forall_fmap. eapply Forall_impl; [exact Hlt|]. intros y Hy.
      by apply Forall_cons in Hy as [Hy _]. }
    rewrite <- Hk in Hd. unfold om_keys in Hd. by apply Forall_fmap in Hd. }
  assert (Forall (fun kv => kv.1 <> k) mr) as Hne.
  { eapply Forall_impl; [exact Hall|]. intros y Hy. by apply key_ltb_ne. }
  split_and!.
  - by apply om_emplace_last.
  - intros f. rewrite om_alter_app by done. simpl. by rewrite key_eqb_refl.
  - clear Hm Hk Hall. induction Hne as [|[j y] mr Hj _ IH]; simpl; [by rewrite key_eqb_refl|].
    by rewrite key_eqb_ne by (simpl in Hj; congruence).
Qed.

Lemma emplace_fresh {K} `{KeyOrdLaws K} (done todo mr : list (K * Value)) k x :
  om_sorted (done ++ (k, x) :: todo) -> om_map strip mr = om_map norm done -> om_find k mr = None.
Proof.
  intros Hs Hm. destruct (om_find k mr) as [w|] eqn:E; [|done]. exfalso. apply om_find_elem in E.
  assert (k ∈ om_keys done) as Hk.
  { rewrite <- (om_map_keys norm done), <- Hm, om_map_keys. unfold om_keys. apply list_elem_of_fmap. by exists (k, w). }
  apply om_sorted_NoDup in Hs. unfold om_keys in *. rewrite fmap_app in Hs.
  apply NoDup_app in Hs as (_ & Hd & _). apply (Hd k Hk). by left.
Qed.

(** Push a child, read it, pop. *)
Lemma exec_member {A} e v text n sp tl s p ns c x (K : bool -> RM A) :
  reads_value v text -> nodes_ s = p :: ns -> at_path p (root_ s) = Some c -> edge_get e c = Some x ->
  spaces sp -> rest s = sp ++ text ++ tl -> delim tl -> commentsBefore_ s = [] ->
  (S (length (nodes_ s)) + depth v <= 1001)%nat -> (3 * length (rest s) + 1 <= n)%nat ->
  Z.of_nat (length (rest s)) <= maxInt - 4 - 1 ->
  exists w s', (_ ← push_edge e; ok ← readValue n; _ ← nodes_pop; K ok : RM _) s = K true s' /\
    moved p (edge_write e (fun _ => w) c) (length sp + length text) s s' /\ strip w = norm v.
Proof.
  intros Hv Hn Hp Hx Hsp Hr Htl Hc Hd Hf Hl.
  set (s1 := set_nodes ((p ++ [e]) :: nodes_ s) s).
  assert (at_path (p ++ [e]) (root_ s1) = Some x) as Hpe.
  { rewrite at_path_app. change (root_ s1) with (root_ s). rewrite Hp. simpl. by rewrite Hx. }
  destruct (Hv n sp tl s1 (p ++ [e]) (nodes_ s)) as (w & s2 & He & (le & lv & Hm) & Hw); try done.
  exists w, (set_nodes (tail (nodes_ s2)) s2). split_and!; [| |done].
  - unfold push_edge, nodes_top. cbv [mbind RM_bind gets outcome_bind]. rewrite Hn.
    cbv [mret RM_ret modify]. fold s1. cbv beta. rewrite He. done.
  - exists le, lv. rewrite Hm. unfold set_lastValue, set_root, set_current, set_nodes. simpl.
    by rewrite (alter_path_app p [e] _ _ c).
Qed.

Lemma exec_skipCommentsAfter {B} ok t s (k : bool * Token -> RM B) :
  type_ t <> tokenComment -> (skipCommentsAfter ok t ≫= k) s = k (ok, t) s.
Proof.
  intros Ht. apply exec_bind. unfold skipCommentsAfter. rewrite exec_gets. cbn [comment_loop].
  by rewrite (proj2 (token_eqb_ne _ _)).
Qed.

Lemma spaces_nil : spaces [].
Proof. constructor. Qed.

Lemma readToken_char0 c r s t :
  rest s = c :: r -> char_token c = Some t ->
  readToken s = Ret ((true, mkToken t (current_ s) (current_ s + 1)), set_current (current_ s + 1) s).
Proof.
  intros Hr Hc. rewrite (readToken_char [] c r s t) by (done || apply spaces_nil).
  simpl. by rewrite Nat.add_0_r.
Qed.

(** [moved] with a part of the text read. *)
Lemma moved_rest_app p w a b s s' : moved p w (length a) s s' -> rest s = a ++ b -> rest s' = b.
Proof. intros Hm Hr. by eapply moved_rest. Qed.
