(* ===== verification/JsonReals.v ===== *)
(** * Reals in JSON text

    [valueToString(double)] writes every double but NaN so that [decodeNumber]
    reads it back: a finite one by its seventeen digits, an infinity as a decimal
    out of range. *)
From S2P Require Export FloatText JsonScan.
Open Scope Z_scope.

(** ** The token *)

Lemma digits_loop_skip ds t p : digits ds -> digits_loop (ds ++ t) p = digits_loop t (p + length ds).
Proof.
  intros Hds. revert p. induction Hds as [|d ds Hd _ IH]; intros p; simpl; [by rewrite Nat.add_0_r|].
  by rewrite Hd, IH, Nat.add_succ_r.
Qed.

(** The last part of [readNumber]. *)
Definition exponent_end (state : Z * nat * nat * bytes) : nat :=
  let '(c, cur, p, r) := state in
  if (c =? CH "e") || (c =? CH "E") then
    let '(_, cur, _, _) :=
      match r with
      | s :: r' => if (s =? CH "+") || (s =? CH "-") then digits_loop r' (S p) else digits_loop r p
      | [] => digits_loop r p
      end in cur
  else cur.

Lemma number_end_unfold r p :
  number_end r p =
  exponent_end (let '(c, cur, p, r) := digits_loop r p in if c =? CH "." then digits_loop r p else (c, cur, p, r)).
Proof. unfold number_end. by destruct (digits_loop r p) as [[[c cur] q] r']. Qed.

Lemma digits_loop_end tl p :
  delim tl -> exponent_end (digits_loop tl p) = p /\ (digits_loop tl p).1.1.2 = p /\ (digits_loop tl p).1.1.1 <> CH ".".
Proof.
  destruct tl as [|c tl]; [done|]. intros (Hd & Hdot & He & HE). simpl. rewrite Hd. cbn [exponent_end fst snd].
  by rewrite (proj2 (Z.eqb_neq _ _) He), (proj2 (Z.eqb_neq _ _) HE).
Qed.

Lemma exponent_end_text ex ev tl p :
  exponent_text ex ev -> delim tl ->
  exponent_end (digits_loop (ex ++ tl) p) = (p + length ex)%nat /\ (digits_loop (ex ++ tl) p).1.1.1 <> CH ".".
Proof.
  intros Hex Htl. destruct Hex as [|neg ds _ Hds].
  - rewrite Nat.add_0_r. cbn [app]. split; by apply digits_loop_end.
  - split; [|done]. destruct (digits_loop_end tl (S (S p) + length ds) Htl) as (_ & Hcur & _).
    rewrite <- (digits_loop_skip ds tl (S (S p)) Hds) in Hcur.
    assert (exponent_end (digits_loop ((CH "e" :: (if neg then CH "-" else CH "+") :: ds) ++ tl) p) =
            (digits_loop (ds ++ tl) (S (S p))).1.1.2) as ->.
    { destruct neg; simpl; by destruct (digits_loop (ds ++ tl) (S (S p))) as [[[]]]. }
    rewrite Hcur. simpl. lia.
Qed.

Lemma number_end_decimal ip fp ex ev tl p :
  digits ip -> digits fp -> exponent_text ex ev -> delim tl ->
  number_end ((ip ++ dotted fp ++ ex) ++ tl) p = (p + length (ip ++ dotted fp ++ ex))%nat.
Proof.
  intros Hip Hfp Hex Htl. rewrite <- !app_assoc, !length_app.
  rewrite number_end_unfold, digits_loop_skip by done. destruct fp as [|c fp].
  - destruct (exponent_end_text ex ev tl (p + length ip) Hex Htl) as [He Hdot]. cbn [dotted app length].
    destruct (digits_loop (ex ++ tl) _) as [[[c cur] q] r]. simpl in Hdot. rewrite (proj2 (Z.eqb_neq _ _) Hdot), He. lia.
  - change (exponent_end (digits_loop ((c :: fp) ++ ex ++ tl) (S (p + length ip))) =
      (p + (length ip + (S (length (c :: fp)) + length ex)))%nat).
    rewrite digits_loop_skip by done.
    destruct (exponent_end_text ex ev tl (S (p + length ip) + length (c :: fp)) Hex Htl) as [-> _]. lia.
Qed.

(** ** The value *)

(** A text that is not an integer is left to [decodeDouble]. *)
Lemma decode_digits_none m t v : ~ digits t -> decode_digits m t v = None.
Proof.
  revert v. induction t as [|c t IH]; intros v Ht; [by destruct Ht|]. cbn [decode_digits].
  destruct (_ || _) eqn:E; [done|]. apply orb_false_iff in E as [E1%Z.ltb_ge E2%Z.ltb_ge].
  destruct (_ && _); [done|]. apply IH. intros H. apply Ht. apply Forall_cons. split; [|done].
  unfold is_digit. by zbool.
Qed.

(** What [istream_double] gives and [decodeDouble] takes for [d]. *)
Definition stream_of (d : float64) : float64 * bool :=
  match d with
  | S754_infinity false => (b64_max, false)
  | S754_infinity true => (SFopp b64_max, false)
  | _ => (d, true)
  end.

Lemma decodeDouble_stream t s d :
  istream_double (token_text t (document_ s)) = stream_of d -> decodeDouble t s = Ret (Some (Value_double d), s).
Proof.
  intros H. unfold decodeDouble. rewrite exec_gets, H. by destruct d as [| [] | |].
Qed.

(** The characters of a decimal. *)
Lemma decimal_chars t m f k :
  decimal t m f k -> Forall (fun c => is_digit c || existsb (Z.eqb c) (STR ".e+-") = true) t.
Proof.
  set (P := fun c => is_digit c || existsb (Z.eqb c) (STR ".e+-") = true).
  assert (forall ds, digits ds -> Forall P ds) as Hd by (intros ds Hds; eapply Forall_impl; [exact Hds|]; unfold P; by intros c ->).
  intros [ip fp ex ev Hne Hip Hfp Hex]. repeat (apply Forall_app; split); [by apply Hd| |].
  - destruct fp as [|c fp]; [constructor|]. apply Forall_cons. split; [done|by apply Hd].
  - destruct Hex as [|neg ds _ Hds]; [constructor|]. apply Forall_cons. split; [done|]. apply Forall_cons.
    split; [by destruct neg|by apply Hd].
Qed.

Lemma digits_or_mark t m f k :
  decimal t m f k -> existsb (Z.eqb (CH ".")) t || existsb (Z.eqb (CH "e")) t = false <-> digits t.
Proof.
  intros Hdec. split.
  - intros [H1 H2]%orb_false_iff. destruct Hdec as [ip fp ex ev Hne Hip Hfp Hex]. rewrite !existsb_app in H1, H2.
    apply orb_false_iff in H1 as [_ [H1 _]%orb_false_iff], H2 as [_ [_ H2]%orb_false_iff].
    destruct fp; [|done]. destruct Hex; [|done]. by rewrite !app_nil_r.
  - intros Hd. apply orb_false_iff. split; apply not_true_iff_false; intros (c & Hin & <-%Z.eqb_eq)%existsb_exists;
      rewrite <- list_elem_of_In in Hin; rewrite Forall_forall in Hd; by apply Hd in Hin.
Qed.

Lemma fixNumericLocale_sign s t m f k :
  decimal t m f k -> fixNumericLocale (sign_text s ++ t) = sign_text s ++ t.
Proof.
  intros Hdec%decimal_chars. unfold fixNumericLocale. rewrite map_app. f_equal; [by destruct s|].
  induction Hdec as [|c t Hc _ IH]; [done|]. cbn [map]. rewrite IH. destruct (Z.eqb_spec c (CH ",")) as [->|]; [done|done].
Qed.

(** The text of a double. *)
Lemma real_decimal d :
  valid_binary 53 1024 d = true -> sf_isnan d = false ->
  exists s t m f k, valueToString_real d = sign_text s ++ t /\ decimal t m f k /\ ~ digits t /\
    istream_double (sign_text s ++ t) = stream_of d.
Proof.
  intros Hv Hn. destruct d as [s|s| |s m e]; [| |done|].
  - exists s, (STR "0.0"). do 3 eexists. split; [by destruct s|].
    split; [apply (decimal_text (STR "0") (STR "0") [] 0); by repeat constructor|].
    split; [intros [_ [? _]%Forall_cons]%Forall_cons; done|by destruct s].
  - exists s, (STR "1e+9999"). do 3 eexists. split; [by destruct s|].
    split; [apply (decimal_text (STR "1") [] (STR "e+9999") 9999); [done|by repeat constructor..|]|].
    { by apply (exponent_some false (STR "9999")); [|repeat constructor]. }
    split; [intros [_ [? _]%Forall_cons]%Forall_cons; done|by destruct s].
  - destruct (fmt_g_near m e 1000 Hv ltac:(done) s) as (t & Ht & Hnear). pose proof Hnear as (M & f & k & Hdec & _).
    destruct (ratio_pos m e Hv) as (Hrn & Hrd & _).
    assert (valueToString_real (S754_finite s m e) =
      if existsb (Z.eqb (CH ".")) t || existsb (Z.eqb (CH "e")) t then sign_text s ++ t else sign_text s ++ t ++ STR ".0") as ->.
    { unfold valueToString_real, valueToString_double. cbn [sf_isfinite sf_isnan sf_isinf orb negb].
      change (Z.to_nat (Z.max 1 defaultRealPrecision)) with 17%nat. rewrite Ht, (fixNumericLocale_sign s t M f k Hdec).
      rewrite !existsb_app. assert (existsb (Z.eqb (CH ".")) (sign_text s) = false /\ existsb (Z.eqb (CH "e")) (sign_text s) = false)
        as [-> ->] by by destruct s.
      cbn [orb]. rewrite <- negb_orb. destruct (_ || _); [done|]. cbn [negb]. by rewrite <- app_assoc. }
    destruct (_ || _) eqn:E.
    + exists s, t, M, f, k. split_and!; [done|done| |by apply (near_text_read s m e 1000)].
      intros Hd%(digits_or_mark t M f k Hdec). congruence.
    + apply (digits_or_mark t M f k Hdec) in E. apply (near_point _ _ 1000 ltac:(done) t E) in Hnear.
      pose proof Hnear as (M' & f' & k' & Hdec' & _). exists s, (t ++ STR ".0"), M', f', k'.
      split_and!; [done|done| |by apply (near_text_read s m e 1000)].
      intros [_ H']%Forall_app. apply Forall_cons in H' as [H' _]. done.
Qed.

(** ** Reading a real *)

Lemma decodeNumber_text t s neg u m f k d :
  token_text t (document_ s) = sign_text neg ++ u -> decimal u m f k -> ~ digits u ->
  istream_double (sign_text neg ++ u) = stream_of d -> decodeNumber t s = Ret (Some (Value_double d), s).
Proof.
  intros Ht Hdec Hnd Hs. unfold decodeNumber. rewrite exec_gets, Ht.
  assert (decode_digits (if nth 0 (sign_text neg ++ u) 0 =? CH "-" then maxLargestInt + 1 else maxLargestUInt)
    (if nth 0 (sign_text neg ++ u) 0 =? CH "-" then tail (sign_text neg ++ u) else sign_text neg ++ u) 0 = None) as ->.
  { destruct neg; [by apply decode_digits_none|]. cbn [sign_text app]. assert ((nth 0 u 0 =? CH "-") = false) as ->.
    - destruct Hdec as [ip fp ex ev Hne Hip _ _]. destruct ip as [|c ip]; [done|].
      apply Forall_cons in Hip as [(? & _)%digit_cases _]. by apply Z.eqb_neq.
    - by apply decode_digits_none. }
  apply decodeDouble_stream. by rewrite Ht.
Qed.

(** C7: [decodeNumber] reads the text [valueToString] writes for a double, of any sign and magnitude, normal,
    subnormal, zero or infinite, back as that double, bit for bit; only NaN is excluded. *)
Theorem double_text_exact d t s :
  valid_binary 53 1024 d = true -> sf_isnan d = false -> token_text t (document_ s) = valueToString_real d ->
  decodeNumber t s = Ret (Some (Value_double d), s).
Proof.
  intros Hv Hn Ht. destruct (real_decimal d Hv Hn) as (neg & u & m & f & k & Hu & Hdec & Hnd & Hs).
  rewrite Hu in Ht. by eapply decodeNumber_text.
Qed.

Lemma reads_decimal v d sg t m f k :
  value_ v = PReal d -> decimal t m f k -> ~ digits t -> istream_double (sign_text sg ++ t) = stream_of d ->
  reads_value v (sign_text sg ++ t).
Proof.
  intros Hv Hdec Hnd Hs. apply (reads_token v _ (Value_double d)); [|by destruct v as [pl ? ? ?]; simpl in Hv; subst pl].
  intros sp tl s Hsp Htl Hr _. pose proof Hdec as Hdec'. destruct Hdec as [ip fp ex ev Hne Hip Hfp Hex].
  set (t := ip ++ dotted fp ++ ex) in *.
  assert (exists c t', sign_text sg ++ t = c :: t' /\ (is_digit c = true \/ c = CH "-") /\
    forall p, number_end (t' ++ tl) p = (p + length t')%nat) as (c & t' & Htext & Hc & Hend).
  { destruct sg; [exists (CH "-"), t; split_and!; [done|by right|intros p; by eapply number_end_decimal]|].
    destruct ip as [|c ip]; [done|]. apply Forall_cons in Hip as [Hc Hip].
    exists c, (ip ++ dotted fp ++ ex). split_and!; [done|by left|intros p; by eapply number_end_decimal]. }
  rewrite Htext in Hr |- *. eexists. cbv zeta. rewrite Nat.add_assoc.
  rewrite (readToken_number sp c t' tl s Hsp Hc Hend Hr). split; [reflexivity|]. split; [done|].
  intros rO rA. apply exec_number; [done|]. set (tok := mkToken _ _ _). set (s1 := set_current _ s).
  refine (decodeNumber_text tok s1 sg t _ _ _ d _ Hdec' Hnd Hs).
  rewrite Htext. unfold token_text, tok. cbn [tok_start_ tok_end_ document_ s1 set_current].
  by rewrite (slice_rest s sp (c :: t') tl).
Qed.

Lemma reads_real v d :
  value_ v = PReal d -> valid_binary 53 1024 d = true -> sf_isnan d = false -> reads_value v (valueToString_real d).
Proof.
  intros Hv Hvalid Hn. destruct (real_decimal d Hvalid Hn) as (sg & t & m & f & k & -> & Hdec & Hnd & Hs).
  by eapply reads_decimal.
Qed.

(** The least positive double. *)
Lemma double_text_exact_witness :
  let d := S754_finite false 1 (-1074) in
  let s := mkReader Features_all (STR "4.9406564584124654e-324") 0 Value_null [] None None [] [] false in
  valueToString_real d = STR "4.9406564584124654e-324" /\
  decodeNumber (mkToken tokenNumber 0 23) s = Ret (Some (Value_double d), s).
Proof.
  split; [by vm_compute|]. apply double_text_exact; [by vm_compute|by vm_compute|by vm_compute].
Defined.
