(* ===== verification/JsonLayout.v ===== *)
(** * Every layout of a tree is read back as the tree

    [json_layout v text]: the tokens are those of JSON text, the blanks what
    [skipSpaces] skips.  [Reader] reads the tree from each such text, whatever
    the layout; the writers produce such texts. *)
From S2P Require Export JsonReals.
Open Scope Z_scope.

(** ** What the reader takes *)

Definition json_tokens : Tokens := {|
  blank := spaces;
  null_token := STR "null";
  real_token := valueToString_real;
  string_token := fun s => valueToQuotedStringN s false;
  name_token := fun k => valueToQuotedStringN k false
|}.

Abbreviation json_layout := (layout json_tokens).

(** ** Steps *)

Lemma index_ref_int_array k c mr :
  0 <= k < 2 ^ 31 -> value_ c = PArray mr ->
  index_ref_int k c = Ret (set_payload (PArray (om_emplace k Value_null mr)) c).
Proof.
  intros Hk Hv. unfold index_ref_int. rewrite (proj2 (Z.leb_le _ _)) by lia. unfold u32.
  rewrite Z.mod_small by lia. destruct c as [pl ? ? ?]. simpl in Hv. by subst pl.
Qed.

Lemma arr_from_consec j l m1 k x k2 x2 m2 : arr_from j l = m1 ++ (k, x) :: (k2, x2) :: m2 -> k2 = k + 1.
Proof.
  revert j l. induction m1 as [|[k' x'] m1 IH]; intros j [|y l]; simpl; try done.
  - destruct l; simpl; [done|]. by intros [= -> _ <- _ _].
  - intros [= _ _ H]. by eapply IH.
Qed.

Lemma delim_char c tl : char_token c <> None -> delim (c :: tl).
Proof.
  unfold char_token, delim. intros Hc.
  repeat (destruct (c =? _) eqn:E in Hc; [bool_to_prop; subst; by split_and!|clear E]). done.
Qed.

Lemma resolveReference_object k c mr :
  Z.of_nat (length k) < 2 ^ 30 -> value_ c = PObject mr ->
  resolveReference k c = Ret (set_payload (PObject (om_emplace k Value_null mr)) c).
Proof.
  intros Hk Hv. unfold resolveReference. rewrite CZString_short by done.
  destruct c as [pl ? ? ?]. simpl in Hv. by subst pl.
Qed.

Lemma delim_spaces sp c tl : spaces sp -> char_token c <> None -> delim (sp ++ c :: tl).
Proof.
  intros Hsp Hc. destruct Hsp as [|x sp Hx _]; [by apply delim_char|]. simpl.
  unfold is_space in Hx. rewrite !orb_true_iff, !Z.eqb_eq in Hx.
  destruct Hx as [[[-> | ->]| ->]| ->]; by split_and!.
Qed.

(** Evaluate the comparisons of known token types. *)
Ltac token_tests :=
  repeat match goal with
  | |- context [token_eqb ?a ?b] =>
      let v := eval vm_compute in (token_eqb a b) in
      lazymatch v with true => idtac | false => idtac end;
      change (token_eqb a b) with v
  end.

(** Behind blanks and one character of the text. *)
Definition behind (sp : bytes) (s : Reader) : Reader := set_current (current_ s + length sp + 1) s.

Lemma moved_behind p w sp c r s :
  at_path p (root_ s) = Some w -> rest s = sp ++ c :: r ->
  moved p w (length sp + 1) s (behind sp s) /\ rest (behind sp s) = r.
Proof.
  intros Hp Hr. assert (moved p w (length sp + 1) s (behind sp s)) as Hm.
  { unfold behind. rewrite <- Nat.add_assoc. by apply moved_skip. }
  split; [done|]. eapply (moved_rest p w _ s _ Hm (sp ++ [c])); [by rewrite Hr, <- app_assoc|].
  rewrite length_app. simpl. lia.
Qed.

Lemma array_next_char loop k sp c r s t :
  spaces sp -> rest s = sp ++ c :: r -> char_token c = Some t -> t = tokenArrayEnd \/ t = tokenArraySeparator ->
  array_next loop k s =
  (if token_eqb t tokenArrayEnd then mret true else loop (k + 1) : RM _) (behind sp s).
Proof.
  intros Hsp Hr Hc Ht. unfold array_next.
  rewrite (exec_bind _ _ _ _ _ (readToken_char sp c r s t Hsp Hr Hc)). cbv beta iota.
  fold (behind sp s). destruct Ht as [-> | ->]; cbv beta iota;
    rewrite exec_skipCommentsAfter by done; cbn [type_]; by token_tests.
Qed.

Lemma object_next_char loop k sp c r s t :
  spaces sp -> rest s = sp ++ c :: r -> char_token c = Some t -> t = tokenObjectEnd \/ t = tokenArraySeparator ->
  object_next loop k s =
  (if token_eqb t tokenObjectEnd then mret true else loop k : RM _) (behind sp s).
Proof.
  intros Hsp Hr Hc Ht. unfold object_next.
  rewrite (exec_bind _ _ _ _ _ (readToken_char sp c r s t Hsp Hr Hc)). cbn [type_]. fold (behind sp s).
  destruct Ht as [-> | ->]; cbv beta iota; cbn [type_]; token_tests; cbn [negb orb andb];
    rewrite exec_skipCommentsAfter by done; cbn [type_]; by token_tests.
Qed.

(** One element, up to its separator. *)
Lemma array_step l done k x todo sp t tl n loop s p ns c mr :
  arr_from 0 l = done ++ (k, x) :: todo -> Z.of_nat (length l) < 2 ^ 31 -> reads_value x t -> spaces sp ->
  (S (length (nodes_ s)) + depth x <= 1001)%nat ->
  rest s = sp ++ t ++ tl -> delim tl -> nodes_ s = p :: ns -> commentsBefore_ s = [] ->
  at_path p (root_ s) = Some c -> value_ c = PArray mr -> om_map strip mr = om_map norm done ->
  (3 * length (rest s) + 1 <= n)%nat -> Z.of_nat (length (rest s)) <= maxInt - 4 - 1 ->
  exists c' s' mr', array_body (readValue n) loop k s = array_next loop k s' /\
    moved p c' (length sp + length t) s s' /\ rest s' = tl /\ value_ c' = PArray mr' /\
    om_map strip mr' = om_map norm (done ++ [(k, x)]).
Proof.
  intros Hm Hlen Hx Hsp Hd Hr Htl Hn Hc Hp Hv Hmr Hf Hl.
  pose proof (arr_from_sorted 0 l) as Hs. rewrite Hm in Hs.
  destruct (emplace_next done _ mr k x Value_null Hs Hmr) as (Hemp & Halt & Hfnd).
  assert (0 <= k < 2 ^ 31) as Hk.
  { pose proof (arr_from_keys 0 l) as Hks. rewrite Hm in Hks.
    apply Forall_app in Hks as [_ Hks]. apply Forall_cons in Hks as [Hks _]. simpl in Hks. lia. }
  set (c1 := set_payload (PArray (mr ++ [(k, Value_null)])) c).
  unfold array_body. rewrite (exec_currentValue _ p ns s c c1);
    [|done|done|by rewrite (index_ref_int_array k c mr), Hemp].
  set (s1 := set_root _ s). pose proof (moved_write p c c1 s Hp) as Hm1. fold s1 in Hm1.
  assert (u32 k = k) as -> by (unfold u32; rewrite Z.mod_small; lia).
  destruct (exec_member (EIdx k) x t n sp tl s1 p ns c1 Value_null
    (fun ok => if negb ok then recoverFromError tokenArrayEnd else array_next loop k))
    as (w & s2 & He & Hm2 & Hw); try done; [by erewrite moved_at|].
  pose proof (moved_trans _ _ _ _ _ _ _ _ Hm1 Hm2) as Hm12.
  exists (edge_write (EIdx k) (fun _ => w) c1), s2, (mr ++ [(k, w)]).
  split_and!; [exact He|exact Hm12| | |].
  - eapply (moved_rest _ _ _ _ _ Hm12 (sp ++ t)); [by rewrite <- app_assoc|by rewrite length_app].
  - unfold c1. simpl. by rewrite Halt.
  - rewrite !om_map_app, Hmr. simpl. by rewrite Hw.
Qed.

(** The name of a member, and its colon. *)
Lemma object_enter k rv loop name sp spa tl s p ns c :
  utf8_text k -> spaces sp -> spaces spa ->
  rest s = sp ++ valueToQuotedStringN k false ++ spa ++ CH ":" :: tl ->
  nodes_ s = p :: ns -> at_path p (root_ s) = Some c ->
  exists s',
    object_body rv loop name s =
    (_ ← currentValue (resolveReference k);
     _ ← push_edge (EKey (CZString k));
     ok ← rv;
     _ ← nodes_pop;
     if negb ok then recoverFromError tokenObjectEnd else object_next loop k : RM _) s' /\
    moved p c (length sp + length (valueToQuotedStringN k false) + (length spa + 1)) s s' /\ rest s' = tl.
Proof.
  intros (cps & Hcps & ->) Hsp Hspa Hr Hn Hp.
  set (q := valueToQuotedStringN (utf8_encode cps) false) in *.
  pose proof (readToken_string sp cps (spa ++ CH ":" :: tl) s Hsp Hcps Hr) as Ht.
  cbv zeta in Ht. fold q in Ht.
  set (s1 := set_current (current_ s + length sp + length q) s) in *.
  assert (moved p c (length sp + length q) s s1) as Hm1.
  { unfold s1. rewrite <- Nat.add_assoc. by apply moved_skip. }
  assert (rest s1 = spa ++ CH ":" :: tl) as Hr1.
  { eapply (moved_rest _ _ _ _ _ Hm1 (sp ++ q)); [by rewrite <- app_assoc|by rewrite length_app]. }
  pose proof (readToken_char spa _ _ s1 tokenMemberSeparator Hspa Hr1 eq_refl) as Ht2.
  fold (behind spa s1) in Ht2.
  assert (at_path p (root_ s1) = Some c) as Hp1 by by eapply moved_at.
  destruct (moved_behind p c spa _ _ s1 Hp1 Hr1) as [Hm2 Hr2].
  exists (behind spa s1). split; [|split; [by eapply moved_trans|done]].
  unfold object_body. rewrite (exec_bind _ _ _ _ _ Ht). cbv zeta. cbn [negb].
  rewrite exec_skipCommentsAfter by done. cbn [negb type_]. change (token_eqb tokenString tokenObjectEnd) with false.
  cbn [andb].
  pose proof (decodeString_text sp cps (spa ++ CH ":" :: tl) s s1 Hcps eq_refl Hr) as Hdec.
  cbv zeta in Hdec. fold q in Hdec.
  rewrite (exec_bind (object_name _) _ s1 (Some (Some (utf8_encode cps))) s1).
  { rewrite (exec_bind _ _ _ _ _ Ht2). done. }
  unfold object_name. rewrite exec_gets. cbn [type_]. change (token_eqb tokenString tokenString) with true.
  cbv iota. by rewrite (exec_bind _ _ _ _ _ Hdec).
Qed.

(** One member with a new name, up to its separator. *)
Lemma member_step k x sp spa spb t tl n loop name s p ns c mr :
  utf8_text k -> Z.of_nat (length k) < 2 ^ 30 -> om_find k mr = None ->
  reads_value x t -> spaces sp -> spaces spa -> spaces spb -> (S (length (nodes_ s)) + depth x <= 1001)%nat ->
  rest s = sp ++ valueToQuotedStringN k false ++ spa ++ CH ":" :: spb ++ t ++ tl -> delim tl ->
  nodes_ s = p :: ns -> commentsBefore_ s = [] ->
  at_path p (root_ s) = Some c -> value_ c = PObject mr ->
  (3 * length (rest s) + 1 <= n)%nat -> Z.of_nat (length (rest s)) <= maxInt - 4 - 1 ->
  exists c' s' w, object_body (readValue n) loop name s = object_next loop k s' /\
    moved p c' (length sp + length (valueToQuotedStringN k false ++ spa ++ CH ":" :: spb ++ t)) s s' /\
    rest s' = tl /\ value_ c' = PObject (om_emplace k w mr) /\ strip w = norm x.
Proof.
  intros Hutf Hkl Hnew Hx Hsp Hspa Hspb Hd Hr Htl Hn Hc Hp Hv Hf Hl.
  destruct (object_enter k (readValue n) loop name sp spa (spb ++ t ++ tl) s p ns c Hutf Hsp Hspa Hr Hn Hp)
    as (s1 & He & Hm1 & Hr1).
  assert (at_path p (root_ s1) = Some c) as Hp1 by by eapply moved_at.
  assert (nodes_ s1 = p :: ns) as Hn1 by by rewrite (moved_nodes _ _ _ _ _ Hm1).
  set (c1 := set_payload (PObject (om_emplace k Value_null mr)) c).
  rewrite (exec_currentValue _ p ns s1 c c1) in He; [|done|done|by rewrite (resolveReference_object k c mr)].
  set (s2 := set_root _ s1) in He. pose proof (moved_write p c c1 s1 Hp1) as Hm2. fold s2 in Hm2.
  rewrite CZString_short in He by done.
  assert (length (rest s2) <= length (rest s))%nat as Hle.
  { change (rest s2) with (rest s1). rewrite Hr1, Hr. rewrite !length_app. cbn [length]. rewrite !length_app. lia. }
  destruct (exec_member (EKey k) x t n spb tl s2 p ns c1 Value_null
    (fun ok => if negb ok then recoverFromError tokenObjectEnd else object_next loop k))
    as (w & s3 & He3 & Hm3 & Hw); try done.
  - by eapply moved_at.
  - change (om_find k (om_emplace k Value_null mr) = Some Value_null). by rewrite om_find_emplace_new.
  - change (commentsBefore_ s2) with (commentsBefore_ s1). by rewrite (moved_comments _ _ _ _ _ Hm1).
  - change (nodes_ s2) with (nodes_ s1). by rewrite (moved_nodes _ _ _ _ _ Hm1).
  - lia.
  - lia.
  - exists (edge_write (EKey k) (fun _ => w) c1), s3, w. split_and!; [by rewrite He| | | |done].
    + replace (length sp + length (valueToQuotedStringN k false ++ spa ++ CH ":" :: spb ++ t))%nat
        with (length sp + length (valueToQuotedStringN k false) + (length spa + 1) + 0 + (length spb + length t))%nat
        by (rewrite !length_app; cbn [length]; rewrite length_app; lia).
      eapply moved_trans; [|exact Hm3]. by eapply moved_trans.
    + eapply (moved_rest _ _ _ _ _ Hm3 (spb ++ t)); [|by rewrite length_app].
      change (rest s2) with (rest s1). by rewrite Hr1, <- app_assoc.
    + unfold c1. simpl. by rewrite om_alter_emplace.
Qed.

(** The next member in the order of the names. *)
Lemma object_step m done k x todo sp spa spb t tl n loop name s p ns c mr :
  m = done ++ (k, x) :: todo -> om_sorted m -> utf8_text k -> Z.of_nat (length k) < 2 ^ 30 ->
  reads_value x t -> spaces sp -> spaces spa -> spaces spb -> (S (length (nodes_ s)) + depth x <= 1001)%nat ->
  rest s = sp ++ valueToQuotedStringN k false ++ spa ++ CH ":" :: spb ++ t ++ tl -> delim tl ->
  nodes_ s = p :: ns -> commentsBefore_ s = [] ->
  at_path p (root_ s) = Some c -> value_ c = PObject mr -> om_map strip mr = om_map norm done ->
  (3 * length (rest s) + 1 <= n)%nat -> Z.of_nat (length (rest s)) <= maxInt - 4 - 1 ->
  exists c' s' mr', object_body (readValue n) loop name s = object_next loop k s' /\
    moved p c' (length sp + length (valueToQuotedStringN k false ++ spa ++ CH ":" :: spb ++ t)) s s' /\
    rest s' = tl /\ value_ c' = PObject mr' /\ om_map strip mr' = om_map norm (done ++ [(k, x)]).
Proof.
  intros Hm Hs Hutf Hkl Hx Hsp Hspa Hspb Hd Hr Htl Hn Hc Hp Hv Hmr Hf Hl. rewrite Hm in Hs.
  destruct (member_step k x sp spa spb t tl n loop name s p ns c mr) as (c' & s' & w & He & Hm' & Hr' & Hv' & Hw); try done.
  { by apply (emplace_fresh done todo mr k x). }
  destruct (emplace_next done todo mr k x w Hs Hmr) as (Hemp & _ & _).
  exists c', s', (om_emplace k w mr). split_and!; [done..|]. rewrite Hemp, !om_map_app, Hmr. simpl. by rewrite Hw.
Qed.

(** ** Containers *)

(** The loop of [readArray] reads [l] from [body], after the elements [dn]. *)
Definition read_elements (l : list Value) (body : bytes) : Prop :=
  forall l0 dn k n sp s p ns tl c mr,
    arr_from 0 l0 = dn ++ arr_from k l -> Z.of_nat (length l0) < 2 ^ 31 -> Forall writable l ->
    Forall (fun x => (S (length (nodes_ s)) + depth x <= 1001)%nat) l -> spaces sp ->
    rest s = sp ++ body ++ CH "]" :: tl -> nodes_ s = p :: ns -> commentsBefore_ s = [] ->
    at_path p (root_ s) = Some c -> value_ c = PArray mr -> om_map strip mr = om_map norm dn ->
    (3 * length (rest s) + 2 <= n)%nat -> Z.of_nat (length (rest s)) <= maxInt - 4 - 1 ->
    exists c' s' mr', array_loop n k s = Ret (true, s') /\ moved p c' (length sp + length body + 1) s s' /\
      value_ c' = PArray mr' /\ om_map strip mr' = om_map norm (arr_from 0 l0).

(** The loop of [readObject]. *)
Definition read_members (m : list (bytes * Value)) (body : bytes) : Prop :=
  forall m0 dn n name sp s p ns tl c mr,
    m0 = dn ++ m -> om_sorted m0 ->
    Forall (fun kv => utf8_text kv.1 /\ Z.of_nat (length kv.1) < 2 ^ 30) m -> Forall (fun kv => writable kv.2) m ->
    Forall (fun kv => (S (length (nodes_ s)) + depth kv.2 <= 1001)%nat) m -> spaces sp ->
    rest s = sp ++ body ++ CH "}" :: tl -> nodes_ s = p :: ns -> commentsBefore_ s = [] ->
    at_path p (root_ s) = Some c -> value_ c = PObject mr -> om_map strip mr = om_map norm dn ->
    (3 * length (rest s) + 2 <= n)%nat -> Z.of_nat (length (rest s)) <= maxInt - 4 - 1 ->
    exists c' s' mr', object_loop n name s = Ret (true, s') /\ moved p c' (length sp + length body + 1) s s' /\
      value_ c' = PObject mr' /\ om_map strip mr' = om_map norm m0.

Definition readable (v : Value) (text : bytes) : Prop := writable v -> reads_value v text.

Lemma read_elements_one x t sp' : readable x t -> spaces sp' -> read_elements [x] (t ++ sp').
Proof.
  intros Hx Hsp' l0 dn k n sp s p ns tl c mr Hm Hlen [Hw _]%Forall_cons [Hd _]%Forall_cons Hsp Hr Hn Hc Hp Hv Hmr Hf Hl.
  destruct n as [|n]; [lia|]. cbn [array_loop]. rewrite <- app_assoc in Hr.
  destruct (array_step l0 dn k x [] sp t (sp' ++ CH "]" :: tl) n (array_loop n) s p ns c mr)
    as (c2 & s2 & mr2 & He & Hm2 & Hr2 & Hv2 & Hmr2); try done; [by apply Hx|by apply delim_spaces|lia|].
  assert (at_path p (root_ s2) = Some c2) as Hp2 by by eapply moved_at.
  destruct (moved_behind p c2 sp' _ _ s2 Hp2 Hr2) as [Hm3 _].
  exists c2, (behind sp' s2), mr2. split_and!; [| |done|by rewrite Hm].
  - rewrite He. by rewrite (array_next_char _ _ _ _ _ _ tokenArrayEnd Hsp' Hr2); [|done|left].
  - replace (length sp + length (t ++ sp') + 1)%nat with (length sp + length t + (length sp' + 1))%nat
      by (rewrite length_app; lia). by eapply moved_trans.
Qed.

Lemma read_elements_cons x l t sp1 sp2 body :
  readable x t -> spaces sp1 -> spaces sp2 -> read_elements l body ->
  read_elements (x :: l) (t ++ sp1 ++ CH "," :: sp2 ++ body).
Proof.
  intros Hx Hsp1 Hsp2 IH l0 dn k n sp s p ns tl c mr Hm Hlen [Hw Hwl]%Forall_cons [Hd Hdl]%Forall_cons
    Hsp Hr Hn Hc Hp Hv Hmr Hf Hl.
  destruct n as [|n]; [lia|]. cbn [array_loop]. rewrite <- !app_assoc in Hr. cbn [app] in Hr. rewrite <- app_assoc in Hr.
  destruct (array_step l0 dn k x (arr_from (k + 1) l) sp t (sp1 ++ CH "," :: sp2 ++ body ++ CH "]" :: tl) n
    (array_loop n) s p ns c mr)
    as (c2 & s2 & mr2 & He & Hm2 & Hr2 & Hv2 & Hmr2); try done; [by apply Hx|by apply delim_spaces|lia|].
  assert (at_path p (root_ s2) = Some c2) as Hp2 by by eapply moved_at.
  destruct (moved_behind p c2 sp1 _ _ s2 Hp2 Hr2) as [Hm3 Hr3].
  pose proof (moved_trans _ _ _ _ _ _ _ _ Hm2 Hm3) as Hm23.
  assert (length (rest (behind sp1 s2)) < length (rest s))%nat as Hlt.
  { rewrite Hr3, Hr, !length_app. cbn [length]. rewrite !length_app. cbn [length]. lia. }
  destruct (IH l0 (dn ++ [(k, x)]) (k + 1) n sp2 (behind sp1 s2) p ns tl c2 mr2)
    as (c' & s' & mr' & Hl' & Hm' & Hv' & Hmr'); try done.
  - by rewrite <- app_assoc.
  - by rewrite (moved_nodes _ _ _ _ _ Hm23).
  - by rewrite (moved_nodes _ _ _ _ _ Hm23).
  - by rewrite (moved_comments _ _ _ _ _ Hm23).
  - lia.
  - lia.
  - exists c', s', mr'. split_and!; [| |done|done].
    + rewrite He. by rewrite (array_next_char _ _ _ _ _ _ tokenArraySeparator Hsp1 Hr2); [|done|right].
    + replace (length sp + length (t ++ sp1 ++ CH "," :: sp2 ++ body) + 1)%nat
        with (length sp + length t + (length sp1 + 1) + (length sp2 + length body + 1))%nat
        by (rewrite !length_app; cbn [length]; rewrite length_app; lia).
      by eapply moved_trans.
Qed.

Lemma read_members_one k x t spa spb sp' :
  readable x t -> spaces spa -> spaces spb -> spaces sp' ->
  read_members [(k, x)] (valueToQuotedStringN k false ++ spa ++ CH ":" :: spb ++ t ++ sp').
Proof.
  intros Hx Hspa Hspb Hsp' m0 dn n name sp s p ns tl c mr Hm Hs [[Hu Hk] _]%Forall_cons [Hw _]%Forall_cons
    [Hd _]%Forall_cons Hsp Hr Hn Hc Hp Hv Hmr Hf Hl.
  destruct n as [|n]; [lia|]. cbn [object_loop]. set (q := valueToQuotedStringN k false) in *.
  assert (q ++ spa ++ CH ":" :: spb ++ t ++ sp' = (q ++ spa ++ CH ":" :: spb ++ t) ++ sp') as Eb.
  { rewrite <- !app_assoc. cbn [app]. by rewrite <- app_assoc. }
  rewrite Eb in *. set (head := q ++ spa ++ CH ":" :: spb ++ t) in *.
  destruct (object_step m0 dn k x [] sp spa spb t (sp' ++ CH "}" :: tl) n (object_loop n) name s p ns c mr)
    as (c2 & s2 & mr2 & He & Hm2 & Hr2 & Hv2 & Hmr2); try done; [by apply Hx| |by apply delim_spaces|lia|].
  { rewrite Hr. unfold head. rewrite <- !app_assoc. cbn [app]. by rewrite <- !app_assoc. }
  fold q head in Hm2. assert (at_path p (root_ s2) = Some c2) as Hp2 by by eapply moved_at.
  destruct (moved_behind p c2 sp' _ _ s2 Hp2 Hr2) as [Hm3 _].
  exists c2, (behind sp' s2), mr2. split_and!; [| |done|by rewrite Hm].
  - rewrite He. by rewrite (object_next_char _ _ _ _ _ _ tokenObjectEnd Hsp' Hr2); [|done|left].
  - replace (length sp + length (head ++ sp') + 1)%nat with (length sp + length head + (length sp' + 1))%nat
      by (rewrite length_app; lia). by eapply moved_trans.
Qed.

Lemma read_members_cons k x m t spa spb sp1 sp2 body :
  readable x t -> spaces spa -> spaces spb -> spaces sp1 -> spaces sp2 -> read_members m body ->
  read_members ((k, x) :: m)
    (valueToQuotedStringN k false ++ spa ++ CH ":" :: spb ++ t ++ sp1 ++ CH "," :: sp2 ++ body).
Proof.
  intros Hx Hspa Hspb Hsp1 Hsp2 IH m0 dn n name sp s p ns tl c mr Hm Hs [[Hu Hk] Hnames]%Forall_cons
    [Hw Hwm]%Forall_cons [Hd Hdm]%Forall_cons Hsp Hr Hn Hc Hp Hv Hmr Hf Hl.
  destruct n as [|n]; [lia|]. cbn [object_loop]. set (q := valueToQuotedStringN k false) in *.
  assert (q ++ spa ++ CH ":" :: spb ++ t ++ sp1 ++ CH "," :: sp2 ++ body =
          (q ++ spa ++ CH ":" :: spb ++ t) ++ sp1 ++ CH "," :: sp2 ++ body) as Eb.
  { rewrite <- !app_assoc. cbn [app]. by rewrite <- app_assoc. }
  rewrite Eb in *. set (head := q ++ spa ++ CH ":" :: spb ++ t) in *.
  destruct (object_step m0 dn k x m sp spa spb t (sp1 ++ CH "," :: sp2 ++ body ++ CH "}" :: tl) n (object_loop n)
    name s p ns c mr)
    as (c2 & s2 & mr2 & He & Hm2 & Hr2 & Hv2 & Hmr2); try done; [by apply Hx| |by apply delim_spaces|lia|].
  { rewrite Hr. unfold head. rewrite <- !app_assoc. cbn [app]. by rewrite <- !app_assoc. }
  fold q head in Hm2. assert (at_path p (root_ s2) = Some c2) as Hp2 by by eapply moved_at.
  destruct (moved_behind p c2 sp1 _ _ s2 Hp2 Hr2) as [Hm3 Hr3].
  pose proof (moved_trans _ _ _ _ _ _ _ _ Hm2 Hm3) as Hm23.
  assert (length (rest (behind sp1 s2)) < length (rest s))%nat as Hlt.
  { rewrite Hr3, Hr, !length_app. cbn [length]. rewrite !length_app. cbn [length]. lia. }
  destruct (IH m0 (dn ++ [(k, x)]) n k sp2 (behind sp1 s2) p ns tl c2 mr2)
    as (c' & s' & mr' & Hl' & Hm' & Hv' & Hmr'); try done.
  - by rewrite <- app_assoc.
  - by rewrite (moved_nodes _ _ _ _ _ Hm23).
  - by rewrite (moved_nodes _ _ _ _ _ Hm23).
  - by rewrite (moved_comments _ _ _ _ _ Hm23).
  - lia.
  - lia.
  - exists c', s', mr'. split_and!; [| |done|done].
    + rewrite He. by rewrite (object_next_char _ _ _ _ _ _ tokenArraySeparator Hsp1 Hr2); [|done|right].
    + replace (length sp + length (head ++ sp1 ++ CH "," :: sp2 ++ body) + 1)%nat
        with (length sp + length head + (length sp1 + 1) + (length sp2 + length body + 1))%nat
        by (rewrite !length_app; cbn [length]; rewrite length_app; lia).
      by eapply moved_trans.
Qed.

(** Replacing the value by an empty container. *)
Lemma exec_container_start {B} t e p ns s w0 (k : RM B) :
  nodes_ s = p :: ns -> at_path p (root_ s) = Some w0 ->
  exists c s', value_ c = value_ e /\ moved p c 0 s s' /\
    (_ ← swapPayloadCurrent e;
     _ ← currentValue (fun v => Ret (setOffsetStart (Z.of_nat (tok_start_ t)) v)); k : RM _) s = k s'.
Proof.
  intros Hn Hp. set (c1 := (swapPayload w0 e).1).
  unfold swapPayloadCurrent. rewrite (exec_currentValue _ p ns s w0 c1) by done.
  set (s1 := set_root _ s). pose proof (moved_write p w0 c1 s Hp) as Hm1. fold s1 in Hm1.
  assert (at_path p (root_ s1) = Some c1) as Hp1 by by eapply moved_at.
  set (c2 := setOffsetStart (Z.of_nat (tok_start_ t)) c1).
  rewrite (exec_currentValue _ p ns s1 c1 c2) by done.
  eexists c2, _. split_and!; [done| |reflexivity]. apply (moved_trans p c1 c2 0 0 s s1); [done|].
  by apply (moved_write p c1).
Qed.

(** The end of a container in the [switch]. *)
Lemma exec_container_end p ns s w0 c n k (f : Token -> RM bool) t s1 s2 :
  nodes_ s = p :: ns -> at_path p (root_ s) = Some w0 -> moved p c n s s2 -> f t s1 = Ret (true, s2) ->
  k = n ->
  exists c' s3, value_ c' = value_ c /\ moved p c' k s s3 /\
    (ok ← f t; cur ← gets current_;
     _ ← currentValue (fun v => Ret (setOffsetLimit (Z.of_nat cur) v)); mret (Some ok) : RM _) s1 =
    Ret (Some true, s3).
Proof.
  intros Hn Hp Hm Hf ->. rewrite (exec_bind _ _ _ _ _ Hf), exec_gets.
  pose proof (moved_at _ _ _ _ _ Hm _ Hp) as Hp2.
  assert (nodes_ s2 = p :: ns) as Hn2 by by rewrite (moved_nodes _ _ _ _ _ Hm).
  set (c' := setOffsetLimit (Z.of_nat (current_ s2)) c).
  rewrite (exec_currentValue _ p ns s2 c c') by done. eexists c', _. split_and!; [done| |reflexivity].
  by eapply moved_write_after.
Qed.

Lemma strip_array c m : value_ c = PArray m -> strip c = initBasic (PArray (om_map strip m)).
Proof. destruct c as [pl ? ? ?]. simpl. by intros ->. Qed.
Lemma strip_object c m : value_ c = PObject m -> strip c = initBasic (PObject (om_map strip m)).
Proof. destruct c as [pl ? ? ?]. simpl. by intros ->. Qed.

Lemma om_depth_le {K} (m : list (K * Value)) kv : kv ∈ m -> (depth kv.2 <= om_depth depth m)%nat.
Proof.
  induction m as [|[k x] m IH]; [by intros ?%not_elem_of_nil|]. intros [->|Hin]%elem_of_cons; simpl; [lia|].
  specialize (IH Hin). lia.
Qed.

Lemma arr_from_length j l : length (arr_from j l) = length l.
Proof. revert j. induction l as [|x l IH]; intros j; simpl; [done|]. by rewrite IH. Qed.

(** The whole value around the inside of a container. *)
Lemma reads_container v op cl body t f :
  char_token op = Some t -> is_space op = false ->
  (t = tokenArrayBegin /\ f = readArray) \/ (t = tokenObjectBegin /\ f = readObject) ->
  (forall n tok tl s p ns w0,
     rest s = body ++ cl :: tl -> nodes_ s = p :: ns -> commentsBefore_ s = [] ->
     at_path p (root_ s) = Some w0 -> (length (nodes_ s) + depth v <= 1001)%nat ->
     (3 * length (rest s) + 2 <= n)%nat -> Z.of_nat (length (rest s)) <= maxInt - 4 - 1 ->
     exists c s', f (S n) tok s = Ret (true, s') /\ moved p c (length body + 1) s s' /\ strip c = norm v) ->
  reads_value v (op :: body ++ [cl]).
Proof.
  intros Hop Hsp Hf Hbody n sp tl s p ns Hsps Hr Htl Hn Hc [w0 Hp] Hd Hfu Hl.
  rewrite <- app_comm_cons, <- app_assoc in Hr. simpl app in Hr.
  assert (length (rest s) = S (length sp + length (body ++ cl :: tl)))%nat as Hlen.
  { rewrite Hr, length_app. simpl. lia. }
  rewrite length_app in Hlen. simpl in Hlen.
  destruct n as [|[|n]]; [lia|lia|].
  pose proof (readToken_char sp _ _ s t Hsps Hr Hop) as Htok.
  set (s1 := set_current (current_ s + length sp + 1) s) in *.
  assert (moved p w0 (length sp + 1) s s1) as Hm1.
  { unfold s1. rewrite <- Nat.add_assoc. by apply moved_skip. }
  assert (rest s1 = body ++ cl :: tl) as Hr1.
  { eapply (moved_rest p w0 _ s s1 Hm1 (sp ++ [op])); [by rewrite Hr, <- app_assoc|].
    rewrite length_app. simpl. lia. }
  assert (length (rest s1) < length (rest s))%nat as Hlt.
  { rewrite Hr1, Hlen, length_app. simpl. lia. }
  destruct (Hbody n (mkToken t (current_ s + length sp) (current_ s + length sp + 1)) tl s1 p ns w0)
    as (c & s2 & He & Hm2 & Hs); try done; [lia|lia|].
  destruct (exec_container_end p ns s w0 c (length sp + 1 + (length body + 1))
    (length sp + length (op :: body ++ [cl])) (f (S n))
    (mkToken t (current_ s + length sp) (current_ s + length sp + 1)) s1 s2)
    as (c' & s3 & Hc' & Hm3 & Hend); [done|done|by eapply moved_trans|done|
      simpl; rewrite length_app; simpl; lia|].
  assert (length (nodes_ s) <= 1000)%nat as Hn1000 by (pose proof (depth_pos v); lia).
  destruct (readValue_enter (S n) s _ s1 s3 p ns c' (length sp + length (op :: body ++ [cl])) Hn1000 Htok)
    as (s' & Hrv & Hm'); try done.
  - by destruct Hf as [[-> _]|[-> _]].
  - destruct Hf as [[-> ->]|[-> ->]]; exact Hend.
  - exists c', s'. split_and!; [done|done|]. rewrite <- Hs. by apply strip_payload.
Qed.

(** Blanks before a character. *)
Lemma exec_skipSpaces {B} sp c r s (k : unit -> RM B) :
  spaces sp -> rest s = sp ++ c :: r -> is_space c = false ->
  (skipSpaces ≫= k) s = k tt (set_current (current_ s + length sp) s).
Proof.
  intros Hsp Hr Hc. apply exec_bind. unfold skipSpaces. rewrite exec_gets, Hr, count_spaces_app by done. done.
Qed.

(** The first character of a text is that of a value. *)
Definition starts (text : bytes) : Prop :=
  exists c t, text = c :: t /\ is_space c = false /\ c <> CH "]" /\ c <> CH "}".

Lemma starts_app a b : starts a -> starts (a ++ b).
Proof. intros (c & t & -> & H). by exists c, (t ++ b). Qed.

Lemma starts_digits ds : Forall (fun c => is_digit c = true) ds -> ds <> [] -> starts ds.
Proof.
  intros Hds Hne. destruct Hds as [|c ds Hc _]; [done|]. exists c, ds. split; [done|].
  unfold is_digit in Hc. unfold is_space. bool_to_prop.
  rewrite !(proj2 (Z.eqb_neq c _)) by lia. split_and!; [done|lia|lia].
Qed.

Lemma starts_decimal sg t m f k : decimal t m f k -> starts (sign_text sg ++ t).
Proof.
  intros [ip fp ex ev Hne Hip Hfp Hex]. destruct sg; [by eexists _, _|].
  apply (starts_app ip). by apply starts_digits.
Qed.

Lemma layout_starts v text : json_layout v text -> writable v -> starts text.
Proof.
  intros Hl Hw. destruct Hl as [v text Ht|v sp _ _ _|v sp body _ _|v sp _ _ _|v sp body _ _];
    [|by eexists _, _..].
  unfold scalar_text in Ht. destruct v as [[|i|u|d|s0|b|m|m] cm st lm]; simpl in Ht, Hw; subst; try done.
  - by eexists _, _.
  - unfold dec_signed. destruct (i <? 0) eqn:E; bool_to_prop; [by eexists _, _|].
    destruct (dec_digits_spec i) as (? & ? & _); [done|]. by apply starts_digits.
  - unfold in_u in Hw. destruct (dec_digits_spec u) as (? & ? & _); [lia|]. by apply starts_digits.
  - destruct Hw as [Hv Hn]. destruct (real_decimal d Hv Hn) as (sg & t & m & f & k & -> & Hdec & _). by eapply starts_decimal.
  - destruct Hw as (cps & Hcps & ->). rewrite quoted_text by done. by eexists _, _.
  - unfold valueToString_bool. destruct b; by eexists _, _.
Qed.

Lemma elements_starts l body : elements json_tokens l body -> Forall writable l -> starts body.
Proof.
  intros He Hw. destruct He as [x t sp Ht _|x l t sp1 sp2 body Ht _ _ _];
    apply Forall_cons in Hw as [Hw _]; by eapply starts_app, layout_starts.
Qed.

(** After the opening bracket: blanks and the closing one, or elements. *)
Lemma readArray_nil sp n t tl s p ns w0 :
  spaces sp -> rest s = sp ++ CH "]" :: tl -> nodes_ s = p :: ns -> at_path p (root_ s) = Some w0 ->
  exists c s', readArray (S n) t s = Ret (true, s') /\ moved p c (length sp + 1) s s' /\
               strip c = initBasic (PArray []).
Proof.
  intros Hsp Hr Hn Hp. cbn [readArray]. unfold readArray_body.
  destruct (exec_container_start t (Value_ofType arrayValue) p ns s w0
    (_ ← skipSpaces; r ← gets rest;
     if nth 0 r 0 =? CH "]" then _ ← readToken; mret true else array_loop n 0))
    as (c & s2 & Hcv & Hm2 & ->); [done|done|].
  assert (at_path p (root_ s2) = Some c) as Hp2 by by eapply moved_at.
  assert (rest s2 = sp ++ CH "]" :: tl) as Hr2 by by eapply (moved_rest_app p c []).
  rewrite (exec_skipSpaces sp (CH "]") tl) by done.
  set (s3 := set_current _ s2). pose proof (moved_skip p c (length sp) s2 Hp2) as Hm3. fold s3 in Hm3.
  assert (rest s3 = CH "]" :: tl) as Hr3 by by eapply moved_rest_app.
  rewrite exec_gets, Hr3. cbn [nth]. rewrite Z.eqb_refl.
  rewrite (exec_bind _ _ _ _ _ (readToken_char0 _ _ _ tokenArrayEnd Hr3 eq_refl)).
  eexists c, _. split_and!; [reflexivity| |by apply (strip_array c [])].
  eapply (moved_trans p c c 0 (length sp + 1) s s2); [done|]. eapply (moved_trans p c c (length sp) 1); [done|].
  apply moved_skip. by eapply moved_at.
Qed.

Lemma readArray_elements l sp body n t tl s p ns w0 :
  read_elements l body -> starts body -> Forall writable l -> Z.of_nat (length l) < 2 ^ 31 -> spaces sp ->
  rest s = (sp ++ body) ++ CH "]" :: tl -> nodes_ s = p :: ns -> commentsBefore_ s = [] ->
  at_path p (root_ s) = Some w0 -> Forall (fun x => (S (length (nodes_ s)) + depth x <= 1001)%nat) l ->
  (3 * length (rest s) + 2 <= n)%nat -> Z.of_nat (length (rest s)) <= maxInt - 4 - 1 ->
  exists c s', readArray (S n) t s = Ret (true, s') /\ moved p c (length (sp ++ body) + 1) s s' /\
               strip c = initBasic (PArray (om_map norm (arr_from 0 l))).
Proof.
  intros He (ch & r & Hb & Hch & Hne & _) Hw Hlen Hsp Hr Hn Hc Hp Hd Hf Hl. cbn [readArray]. unfold readArray_body.
  destruct (exec_container_start t (Value_ofType arrayValue) p ns s w0
    (_ ← skipSpaces; r ← gets rest;
     if nth 0 r 0 =? CH "]" then _ ← readToken; mret true else array_loop n 0))
    as (c & s2 & Hcv & Hm2 & ->); [done|done|].
  assert (at_path p (root_ s2) = Some c) as Hp2 by by eapply moved_at.
  rewrite <- app_assoc in Hr.
  assert (rest s2 = sp ++ body ++ CH "]" :: tl) as Hr2 by by eapply (moved_rest_app p c []).
  rewrite (exec_skipSpaces sp ch (r ++ CH "]" :: tl)) by (done || by rewrite Hr2, Hb).
  set (s3 := set_current _ s2). pose proof (moved_skip p c (length sp) s2 Hp2) as Hm3. fold s3 in Hm3.
  assert (rest s3 = body ++ CH "]" :: tl) as Hr3 by by eapply moved_rest_app.
  pose proof (moved_trans _ _ _ _ _ _ _ _ Hm2 Hm3) as Hm23.
  rewrite exec_gets, Hr3, Hb. cbn [app nth]. rewrite (proj2 (Z.eqb_neq _ _)) by done. rewrite <- Hb in *.
  assert (length (rest s3) <= length (rest s))%nat as Hle by (rewrite Hr3, Hr, !length_app; lia).
  destruct (He l [] 0 n [] s3 p ns tl c []) as (c' & s4 & mr & Hloop & Hm4 & Hv4 & Hmr4); try done.
  - by rewrite (moved_nodes _ _ _ _ _ Hm23).
  - apply spaces_nil.
  - by rewrite (moved_nodes _ _ _ _ _ Hm23).
  - by rewrite (moved_comments _ _ _ _ _ Hm23).
  - lia.
  - lia.
  - exists c', s4. split_and!; [exact Hloop| |by rewrite (strip_array _ _ Hv4), Hmr4].
    replace (length (sp ++ body) + 1)%nat with (0 + length sp + (0 + length body + 1))%nat
      by (rewrite length_app; lia). by eapply moved_trans.
Qed.

Lemma readObject_nil sp n t tl s p ns w0 :
  spaces sp -> rest s = sp ++ CH "}" :: tl -> nodes_ s = p :: ns -> at_path p (root_ s) = Some w0 ->
  exists c s', readObject (S (S n)) t s = Ret (true, s') /\ moved p c (length sp + 1) s s' /\
               strip c = initBasic (PObject []).
Proof.
  intros Hsp Hr Hn Hp. cbn [readObject object_loop]. unfold readObject_body.
  destruct (exec_container_start t (Value_ofType objectValue) p ns s w0
    (object_body (readValue n) (object_loop n) []))
    as (c & s2 & Hcv & Hm2 & ->); [done|done|].
  assert (at_path p (root_ s2) = Some c) as Hp2 by by eapply moved_at.
  assert (rest s2 = sp ++ CH "}" :: tl) as Hr2 by by eapply (moved_rest_app p c []).
  destruct (moved_behind p c sp _ _ s2 Hp2 Hr2) as [Hm3 _]. unfold object_body.
  rewrite (exec_bind _ _ _ _ _ (readToken_char _ _ _ _ tokenObjectEnd Hsp Hr2 eq_refl)). cbn [negb].
  rewrite exec_skipCommentsAfter by done. cbn [negb type_]. token_tests. cbn [andb]. fold (behind sp s2).
  eexists c, _. split_and!; [reflexivity| |by rewrite (strip_payload c (initBasic (PObject []))) by done].
  by eapply (moved_trans p c c 0 (length sp + 1) s s2).
Qed.

Lemma readObject_members m sp body n t tl s p ns w0 :
  read_members m body -> om_sorted m ->
  Forall (fun kv => utf8_text kv.1 /\ Z.of_nat (length kv.1) < 2 ^ 30) m -> Forall (fun kv => writable kv.2) m ->
  spaces sp -> rest s = (sp ++ body) ++ CH "}" :: tl -> nodes_ s = p :: ns -> commentsBefore_ s = [] ->
  at_path p (root_ s) = Some w0 -> Forall (fun kv => (S (length (nodes_ s)) + depth kv.2 <= 1001)%nat) m ->
  (3 * length (rest s) + 2 <= n)%nat -> Z.of_nat (length (rest s)) <= maxInt - 4 - 1 ->
  exists c s', readObject (S n) t s = Ret (true, s') /\ moved p c (length (sp ++ body) + 1) s s' /\
               strip c = initBasic (PObject (om_map norm m)).
Proof.
  intros He Hs Hnames Hw Hsp Hr Hn Hc Hp Hd Hf Hl. cbn [readObject]. unfold readObject_body.
  destruct (exec_container_start t (Value_ofType objectValue) p ns s w0 (object_loop n []))
    as (c & s2 & Hcv & Hm2 & ->); [done|done|].
  assert (at_path p (root_ s2) = Some c) as Hp2 by by eapply moved_at. rewrite <- app_assoc in Hr.
  assert (rest s2 = sp ++ body ++ CH "}" :: tl) as Hr2 by by eapply (moved_rest_app p c []).
  destruct (He m [] n [] sp s2 p ns tl c []) as (c' & s3 & mr & Hloop & Hm3 & Hv3 & Hmr3); try done.
  - by rewrite (moved_nodes _ _ _ _ _ Hm2).
  - by rewrite (moved_nodes _ _ _ _ _ Hm2).
  - by rewrite (moved_comments _ _ _ _ _ Hm2).
  - by rewrite Hr2, <- Hr.
  - by rewrite Hr2, <- Hr.
  - exists c', s3. split_and!; [exact Hloop| |].
    + rewrite length_app. by eapply (moved_trans p c c' 0).
    + rewrite (strip_payload c' (initBasic (PObject mr))) by done. simpl. by rewrite Hmr3.
Qed.

(** ** Every layout is read *)

Lemma arr_from_Forall (P : Value -> Prop) j l : Forall (fun kv => P kv.2) (arr_from j l) <-> Forall P l.
Proof.
  revert j. induction l as [|x l IH]; intros j; cbn [arr_from]; [by split; constructor|].
  rewrite !Forall_cons, IH. done.
Qed.

Lemma read_array v l body : value_ v = PArray (arr_from 0 l) -> elements json_tokens l body -> read_elements l body ->
  forall sp, spaces sp -> readable v (CH "[" :: (sp ++ body) ++ [CH "]"]).
Proof.
  intros Hv He Hr sp Hsp Hw. destruct v as [pl cm st lm]. simpl in Hv. subst pl. simpl in Hw.
  destruct Hw as (_ & Hlen & Hwm). rewrite arr_from_length in Hlen.
  apply om_all_Forall in Hwm. rewrite arr_from_Forall in Hwm.
  apply (reads_container _ _ _ _ tokenArrayBegin readArray); [done|done|by left|].
  intros n tok tl s p ns w0 Hrest Hn Hc Hp Hd Hf Hl.
  apply (readArray_elements l sp body n tok tl s p ns w0); try done; [by eapply elements_starts|].
  simpl in Hd. assert (Forall (fun kv => (depth kv.2 <= om_depth depth (arr_from 0 l))%nat) (arr_from 0 l)) as Hdl.
  { apply Forall_forall. intros kv. apply om_depth_le. }
  apply (arr_from_Forall (fun x => (depth x <= om_depth depth (arr_from 0 l))%nat)) in Hdl.
  eapply Forall_impl; [exact Hdl|]. intros x Hx. cbv beta in Hx. lia.
Qed.

Lemma read_object v m body : value_ v = PObject m -> read_members m body ->
  forall sp, spaces sp -> readable v (CH "{" :: (sp ++ body) ++ [CH "}"]).
Proof.
  intros Hv Hr sp Hsp Hw. destruct v as [pl cm st lm]. simpl in Hv. subst pl. simpl in Hw.
  destruct Hw as (Hs & Hnames & Hwm). apply om_all_Forall in Hwm.
  apply (reads_container _ _ _ _ tokenObjectBegin readObject); [done|done|by right|].
  intros n tok tl s p ns w0 Hrest Hn Hc Hp Hd Hf Hl.
  apply (readObject_members m sp body n tok tl s p ns w0); try done.
  simpl in Hd. apply Forall_forall. intros kv Hin. pose proof (om_depth_le m kv Hin). lia.
Qed.

Lemma read_scalar v text : scalar_text json_tokens v text -> readable v text.
Proof.
  unfold scalar_text. intros Ht Hw. destruct v as [[|i|u|d|s0|b|m|m] cm st lm]; simpl in Ht, Hw; try done; subst text.
  - eapply reads_literal; [by right; right|done].
  - unfold dec_signed, in_s in *. destruct (i <? 0) eqn:E; bool_to_prop.
    + destruct (dec_digits_spec (- i)) as (? & ? & ? & _); [lia|].
      apply (reads_number _ true _ (- i)); [done|done|done|unfold maxLargestInt; lia|].
      by rewrite Z.opp_involutive.
    + destruct (dec_digits_spec i) as (? & ? & ? & _); [lia|].
      apply (reads_number _ false _ i); [done|done|done|unfold maxLargestUInt; lia|done].
  - unfold in_u in *. destruct (dec_digits_spec u) as (? & ? & ? & _); [lia|].
    apply (reads_number _ false _ u); [done|done|done|unfold maxLargestUInt; lia|done].
  - destruct Hw as [Hv Hn]. by apply reads_real.
  - destruct Hw as (cps & Hcps & ->). by apply reads_string.
  - unfold valueToString_bool. destruct b.
    + eapply (reads_literal _ (CH "t") (STR "rue")); [by left|done].
    + eapply (reads_literal _ (CH "f") (STR "alse")); [by right; left|done].
Qed.

Lemma writable_array v : writable v -> isArray v = true -> value_ v = PArray (arr_from 0 (items v)).
Proof.
  unfold isArray, is_type, type. intros Hw Ha.
  destruct v as [[| | | | | |m|m] cm st lm]; simpl in Ha; try done. simpl in Hw. destruct Hw as ((l & ->) & Hl & _).
  rewrite arr_from_length in Hl. by rewrite (items_arr l).
Qed.

Lemma writable_object v : writable v -> isObject v = true -> value_ v = PObject (fields v).
Proof.
  unfold isObject, is_type, type. intros Hw Ha.
  destruct v as [[| | | | | |m|m] cm st lm]; simpl in Ha; try done. simpl in Hw. destruct Hw as (Hs & Hk & _).
  simpl. f_equal. symmetry. apply fields_object; [done|done|].
  eapply Forall_impl; [exact Hk|]. by intros kv [].
Qed.

Lemma nonempty_array v : items v <> [] -> isArray v = true.
Proof. intros [m Hm]%items_nonempty. unfold isArray, is_type, type. by rewrite Hm. Qed.
Lemma nonempty_object v : fields v <> [] -> isObject v = true.
Proof. intros [m Hm]%fields_nonempty. unfold isObject, is_type, type. by rewrite Hm. Qed.

Lemma reads_layout v text : json_layout v text -> readable v text.
Proof.
  intros Hl. induction Hl as [v text Ht|v sp Ha Hi Hsp|v sp body Hsp He IH|v sp Ho Hi Hsp|v sp body Hsp Hm IH|
    x t sp Ht IHt Hsp|x l t sp1 sp2 body Ht IHt Hsp1 Hsp2 He IH|
    k x t spa spb sp Ht IHt Hspa Hspb Hsp|k x m t spa spb sp1 sp2 body Ht IHt Hspa Hspb Hsp1 Hsp2 Hm IH]
    using layout_mut with (P0 := fun l body _ => read_elements l body) (P1 := fun m body _ => read_members m body).
  - by apply read_scalar.
  - intros Hv%writable_array; [|done]. rewrite Hi in Hv.
    apply (reads_container _ _ _ _ tokenArrayBegin readArray); [done|done|by left|].
    intros n tok tl s p ns w0 Hr Hn _ Hp _ _ _.
    destruct (readArray_nil sp n tok tl s p ns w0 Hsp Hr Hn Hp) as (c & s' & E & Hm & Hs).
    exists c, s'. split; [exact E|]. split; [exact Hm|]. destruct v as [pl ? ? ?]. simpl in Hv. by subst pl.
  - intros Hw. assert (isArray v = true) as Ha by (apply nonempty_array; by inversion He).
    by apply (read_array v (items v)); [apply writable_array|..].
  - intros Hv%writable_object; [|done]. rewrite Hi in Hv.
    apply (reads_container _ _ _ _ tokenObjectBegin readObject); [done|done|by right|].
    intros n tok tl s p ns w0 Hr Hn _ Hp _ Hf _. destruct n as [|n]; [rewrite Hr, length_app in Hf; simpl in Hf; lia|].
    destruct (readObject_nil sp n tok tl s p ns w0 Hsp Hr Hn Hp) as (c & s' & E & Hm & Hs).
    exists c, s'. split; [exact E|]. split; [exact Hm|]. destruct v as [pl ? ? ?]. simpl in Hv. by subst pl.
  - intros Hw. assert (isObject v = true) as Ho by (apply nonempty_object; by inversion Hm).
    by apply (read_object v (fields v)); [apply writable_object|..].
  - by apply read_elements_one.
  - by apply read_elements_cons.
  - by apply read_members_one.
  - by apply read_members_cons.
Qed.

(** ** The document *)

(** Blank text after the root value. *)
Lemma exec_skip_end {B} s (k : Token -> RM B) :
  spaces (rest s) ->
  exists s' t, (skipCommentTokens ≫= k) s = k t s' /\ root_ s' = root_ s /\
    commentsBefore_ s' = commentsBefore_ s /\ features_ s' = features_ s.
Proof.
  intros Hr. set (n := count_spaces (rest s)). set (s' := set_current (current_ s + n) s).
  set (t := mkToken tokenEndOfStream (current_ s + n) (current_ s + n)).
  assert (readToken s = Ret ((true, t), s')) as Ht.
  { unfold readToken, skipSpaces. cbv [mbind RM_bind gets advance modify outcome_bind]. fold n. fold s'.
    assert (rest s' = []) as Hr'.
    { unfold s', n. rewrite rest_advance. clear -Hr. induction Hr as [|c r Hc _ IH]; [done|]. simpl. by rewrite Hc. }
    unfold getNextChar. cbv [mbind RM_bind gets outcome_bind]. rewrite Hr'. done. }
  exists s', t. split_and!; [|done|done|done]. apply exec_bind. unfold skipCommentTokens.
  rewrite !exec_gets. cbn [skip_comments].
  by destruct (allowComments_ _); rewrite (exec_bind _ _ _ _ _ Ht).
Qed.

Lemma isContainer_strip v w :
  strip v = norm w -> isArray v || isObject v = isArray w || isObject w.
Proof.
  intros H. apply (f_equal type) in H.
  destruct v as [[] ? ? ?], w as [[] ? ? ?]; simpl in H; unfold type, norm_number in H; simpl in H;
    repeat destruct (_ <=? _); try discriminate H; done.
Qed.

(** A document: a text that is read as [v], between blanks. *)
Lemma parse_reads v text sp1 sp2 root collect s :
  reads_value v text -> (depth v <= 1000)%nat -> spaces sp1 -> spaces sp2 ->
  Z.of_nat (length (sp1 ++ text ++ sp2)) <= maxInt - 4 - 1 ->
  strictRoot_ (features_ s) = false \/ isArray v || isObject v = true ->
  exists s', parse (sp1 ++ text ++ sp2) root collect s = Ret (true, s') /\ strip (root_ s') = norm v.
Proof.
  intros Ht Hd Hsp1 Hsp2 Hlen Hroot.
  unfold parse. rewrite exec_modify. set (doc := sp1 ++ text ++ sp2) in *. set (s0 := parse_init _ _ _ s).
  assert (rest s0 = sp1 ++ text ++ sp2) as Hr0 by done.
  assert (delim sp2) as Hdl.
  { destruct Hsp2 as [|c r Hc _]; [done|]. unfold delim, is_space in Hc. rewrite !orb_true_iff, !Z.eqb_eq in Hc.
    destruct Hc as [[[-> | ->]| ->]| ->]; by split_and!. }
  destruct (Ht (parse_fuel doc) sp1 sp2 s0 [] []) as (x & s1 & He & Hm & Hx);
    [done|done|done|done|done|by eexists|simpl; lia| |done|].
  { unfold parse_fuel. change (rest s0) with doc. lia. }
  rewrite (exec_bind _ _ _ _ _ He).
  assert (rest s1 = sp2) as Hr1.
  { eapply (moved_rest [] x _ s0 s1 Hm (sp1 ++ text)); [by rewrite <- app_assoc|by rewrite length_app]. }
  destruct (exec_skip_end s1 (fun _ => collect ← gets collectComments_; before ← gets commentsBefore_;
     _ ← (if collect && negb (bool_decide (before = [])) then call_at [] (setComment before commentAfter)
          else mret tt);
     f ← gets features_; root ← gets root_;
     if strictRoot_ f && negb (isArray root) && negb (isObject root) then
       addError (STR "A valid JSON document must be either an array or an object value.")
         (mkToken tokenError 0 (length doc)) None
     else mret true)) as (s2 & t & -> & Hroot2 & Hcom2 & Hf2); [by rewrite Hr1|].
  rewrite !exec_gets, Hcom2, (moved_comments _ _ _ _ _ Hm). cbn [commentsBefore_ s0 parse_init].
  rewrite bool_decide_eq_true_2, andb_false_r, exec_ret, !exec_gets by done.
  rewrite Hroot2, Hf2, (moved_features _ _ _ _ _ Hm).
  assert (root_ s1 = x) as Hrx by (by destruct Hm as (? & ? & ->)). rewrite Hrx.
  exists s2. rewrite Hroot2, Hrx. split; [|done].
  assert (strictRoot_ (features_ s0) && negb (isArray x) && negb (isObject x) = false) as ->; [|done].
  destruct Hroot as [Hs|Hv]; [by change (features_ s0) with (features_ s); rewrite Hs|].
  rewrite <- (isContainer_strip x v Hx) in Hv. destruct (strictRoot_ _); [|done].
  by destruct (isArray x), (isObject x).
Qed.

(** A document: a layout between blanks. *)
Lemma parse_layout v text sp1 sp2 root collect s :
  writable v -> (depth v <= 1000)%nat -> json_layout v text -> spaces sp1 -> spaces sp2 ->
  Z.of_nat (length (sp1 ++ text ++ sp2)) <= maxInt - 4 - 1 ->
  strictRoot_ (features_ s) = false \/ isArray v || isObject v = true ->
  exists s', parse (sp1 ++ text ++ sp2) root collect s = Ret (true, s') /\ strip (root_ s') = norm v.
Proof. intros Hw Hd Ht. apply parse_reads; [by apply reads_layout|done]. Qed.
