(* ===== verification/JsonFields.v ===== *)
(** * Objects as the firmware writes them

    The firmware puts its JSON together by hand: members in an order of its own,
    strings copied between quotes, numbers with a fixed count of decimals.
    [Reader] reads such a text as the object with exactly those members. *)
From S2P Require Export JsonLayout.
Open Scope Z_scope.

(** ** Strings that need no escape *)

(** A key that needs no escape in JSON: printable ASCII without quote and
    backslash. *)
Definition plain (k : bytes) : Prop := doesAnyCharRequireEscaping k = false.

Lemma plain_chars k : plain k <-> Forall (fun c => char_requires_escaping c = false) k.
Proof.
  unfold plain, doesAnyCharRequireEscaping. induction k as [|c k IH]; simpl; [by split|].
  rewrite orb_false_iff, IH, Forall_cons. done.
Qed.

Lemma plain_quoted k : plain k -> valueToQuotedStringN k false = [dquote] ++ k ++ [dquote].
Proof.
  intros Hk. unfold valueToQuotedStringN. unfold plain in Hk. rewrite Hk. simpl. f_equal. f_equal.
  apply plain_chars in Hk. induction Hk as [|c k Hc _ IH]; [done|]. simpl.
  unfold char_requires_escaping in Hc. bool_to_prop. rewrite (proj2 (Z.eqb_neq c 0)) by lia. by rewrite IH.
Qed.

Lemma plain_utf8_text k : plain k -> utf8_text k.
Proof.
  intros Hk%plain_chars. exists k. unfold char_requires_escaping in Hk. split.
  - eapply Forall_impl; [exact Hk|]. intros c Hc. cbv beta in Hc. bool_to_prop. unfold scalar. lia.
  - unfold utf8_encode. induction Hk as [|c k Hc _ IH]; [done|]. rewrite bind_cons, <- IH. bool_to_prop.
    unfold codePointToUTF8, u8. rewrite (proj2 (Z.leb_le c 0x7f)), Z.mod_small by lia. done.
Qed.

(** ** Members in any order *)

(** The map after entering the members one by one. *)
Fixpoint enter {A} (fs : list (bytes * A)) (m : list (bytes * A)) : list (bytes * A) :=
  match fs with [] => m | (k, x) :: fs => enter fs (om_emplace k x m) end.

Definition object_of (fs : list (bytes * Value)) : Value := initBasic (PObject (enter fs [])).

Lemma om_map_enter {A B} (f : A -> B) fs (m : list (bytes * A)) :
  om_map f (enter fs m) = enter ((fun kv => (kv.1, f kv.2)) <$> fs) (om_map f m).
Proof. revert m. induction fs as [|[k x] fs IH]; intros m; simpl; [done|]. by rewrite IH, om_map_emplace. Qed.

Lemma enter_elem fs (m : list (bytes * Value)) kv : kv ∈ enter fs m -> kv ∈ fs \/ kv ∈ m.
Proof.
  revert m. induction fs as [|[k x] fs IH]; intros m; simpl; [by right|]. intros [Hin|Hin]%IH.
  - left. by right.
  - rewrite elem_of_cons. assert (kv = (k, x) \/ kv ∈ m) as [-> | ?]; [|by left; left|by right].
    clear -Hin. induction m as [|[k' y] m IH]; simpl in *; [left; by apply list_elem_of_singleton|].
    destruct (key_ltb k k'); [by apply elem_of_cons in Hin|]. destruct (key_ltb k' k); [|by right].
    apply elem_of_cons in Hin as [-> |Hin]; [right; by left|]. destruct (IH Hin) as [-> |?]; [by left|right; by right].
Qed.

Lemma enter_mem fs kv : kv ∈ fs -> NoDup fs.*1 -> kv ∈ enter fs ([] : list (bytes * Value)).
Proof.
  assert (forall (m : list (bytes * Value)) k x, kv ∈ m -> kv ∈ om_emplace k x m) as Hkeep.
  { induction m as [|[k' y] m IH]; intros k x Hin; [by apply not_elem_of_nil in Hin|]. simpl.
    destruct (key_ltb k k'); [by right|]. destruct (key_ltb k' k); [|done].
    apply elem_of_cons in Hin as [-> |Hin]; [by left|right; by apply IH]. }
  intros Hin Hnd. assert (Forall (fun kv => om_find kv.1 ([] : list (bytes * Value)) = None) fs) as Hnew by (by apply Forall_forall).
  revert Hnew. generalize ([] : list (bytes * Value)) as m.
  assert (forall fs (m : list (bytes * Value)), kv ∈ m -> kv ∈ enter fs m) as Hin_m.
  { induction fs0 as [|[k x] fs0 IH]; intros m Hm; simpl; [done|]. by apply IH, Hkeep. }
  induction fs as [|[k x] fs IH]; [by apply not_elem_of_nil in Hin|]. intros m [Hk Hnew]%Forall_cons.
  apply NoDup_cons in Hnd as [Hni Hnd]. apply elem_of_cons in Hin as [-> |Hin].
  - cbn [enter]. apply Hin_m, om_find_elem. by apply om_find_emplace_new.
  - apply (IH Hin Hnd). apply Forall_forall. intros kv' Hin'. rewrite om_find_emplace_ne.
    + by rewrite Forall_forall in Hnew; apply Hnew.
    + intros E. apply Hni. rewrite <- E. apply list_elem_of_fmap. by exists kv'.
Qed.

(** The members [fs], named by plain keys, as the firmware prints them. *)
Inductive fields_text : list (bytes * Value) -> bytes -> Prop :=
  | fields_one k x t : plain k -> Z.of_nat (length k) < 2 ^ 30 -> reads_value x t ->
      fields_text [(k, x)] ([dquote] ++ k ++ [dquote; CH ":"] ++ t)
  | fields_cons k x t fs body : plain k -> Z.of_nat (length k) < 2 ^ 30 -> reads_value x t -> fields_text fs body ->
      fields_text ((k, x) :: fs) (([dquote] ++ k ++ [dquote; CH ":"] ++ t) ++ CH "," :: body).

(** One member of the object being read. *)
Lemma field_step k x t c0 tl n name s p ns c mr :
  plain k -> Z.of_nat (length k) < 2 ^ 30 -> reads_value x t -> om_find k mr = None -> char_token c0 <> None ->
  (S (length (nodes_ s)) + depth x <= 1001)%nat ->
  rest s = ([dquote] ++ k ++ [dquote; CH ":"] ++ t) ++ c0 :: tl -> nodes_ s = p :: ns -> commentsBefore_ s = [] ->
  at_path p (root_ s) = Some c -> value_ c = PObject mr ->
  (3 * length (rest s) + 1 <= n)%nat -> Z.of_nat (length (rest s)) <= maxInt - 4 - 1 ->
  exists c' s' w, object_body (readValue n) (object_loop n) name s = object_next (object_loop n) k s' /\
    moved p c' (length ([dquote] ++ k ++ [dquote; CH ":"] ++ t)) s s' /\ rest s' = c0 :: tl /\
    value_ c' = PObject (om_emplace k w mr) /\ strip w = norm x.
Proof.
  intros Hk Hkl Hx Hnew Hc0 Hd Hr Hn Hc Hp Hv Hf Hl.
  assert ([dquote] ++ k ++ [dquote; CH ":"] ++ t = valueToQuotedStringN k false ++ [] ++ CH ":" :: [] ++ t) as Eq.
  { rewrite plain_quoted by done. by rewrite <- !app_assoc. }
  rewrite Eq in Hr |- *.
  destruct (member_step k x [] [] [] t (c0 :: tl) n (object_loop n) name s p ns c mr)
    as (c' & s' & w & He & Hm & Hr' & Hv' & Hw); try done; [by apply plain_utf8_text|by apply spaces_nil..| |by apply delim_char|].
  - rewrite Hr. simpl. by rewrite <- app_assoc.
  - exists c', s', w. split_and!; done.
Qed.

Lemma read_fields fs body : fields_text fs body ->
  forall n name s p ns tl c mr,
    NoDup fs.*1 -> Forall (fun kv => om_find kv.1 mr = None) fs ->
    Forall (fun kv => (S (length (nodes_ s)) + depth kv.2 <= 1001)%nat) fs ->
    rest s = body ++ CH "}" :: tl -> nodes_ s = p :: ns -> commentsBefore_ s = [] ->
    at_path p (root_ s) = Some c -> value_ c = PObject mr ->
    (3 * length (rest s) + 2 <= n)%nat -> Z.of_nat (length (rest s)) <= maxInt - 4 - 1 ->
    exists c' s' mr', object_loop n name s = Ret (true, s') /\ moved p c' (length body + 1) s s' /\
      value_ c' = PObject mr' /\
      om_map strip mr' = enter ((fun kv => (kv.1, norm kv.2)) <$> fs) (om_map strip mr).
Proof.
  induction 1 as [k x t Hk Hkl Hx|k x t fs body Hk Hkl Hx Hfs IH];
    intros n name s p ns tl c mr Hnd [Hnew Hold]%Forall_cons [Hd Hds]%Forall_cons Hr Hn Hc Hp Hv Hf Hl;
    (destruct n as [|n]; [lia|]); cbn [object_loop]; set (head := [dquote] ++ k ++ [dquote; CH ":"] ++ t) in *.
  - destruct (field_step k x t (CH "}") tl n name s p ns c mr) as (c2 & s2 & w & He & Hm & Hr2 & Hv2 & Hw); try done; [lia|].
    assert (at_path p (root_ s2) = Some c2) as Hp2 by by eapply moved_at.
    destruct (moved_behind p c2 [] _ _ s2 Hp2 Hr2) as [Hm3 _].
    exists c2, (behind [] s2), (om_emplace k w mr). split_and!; [| |done|].
    + rewrite He. by rewrite (object_next_char _ _ _ _ _ _ tokenObjectEnd spaces_nil Hr2); [|done|left].
    + exact (moved_trans _ _ _ _ _ _ _ _ Hm Hm3).
    + simpl. by rewrite om_map_emplace, Hw.
  - rewrite <- app_assoc in Hr.
    destruct (field_step k x t (CH ",") (body ++ CH "}" :: tl) n name s p ns c mr)
      as (c2 & s2 & w & He & Hm & Hr2 & Hv2 & Hw); try done; [lia|].
    assert (at_path p (root_ s2) = Some c2) as Hp2 by by eapply moved_at.
    destruct (moved_behind p c2 [] _ _ s2 Hp2 Hr2) as [Hm3 Hr3].
    pose proof (moved_trans _ _ _ _ _ _ _ _ Hm Hm3) as Hm23.
    apply NoDup_cons in Hnd as [Hni Hnd]. fold head in Hm, Hm23.
    assert (length (rest s) = length head + S (length (body ++ CH "}" :: tl)))%nat as Hlen by (by rewrite Hr, length_app).
    destruct (IH n k (behind [] s2) p ns tl c2 (om_emplace k w mr)) as (c' & s' & mr' & Hl' & Hm' & Hv' & Hmr'); try done.
    + apply Forall_forall. intros kv Hin. rewrite om_find_emplace_ne; [by rewrite Forall_forall in Hold; apply Hold|].
      intros E. apply Hni. rewrite <- E. apply list_elem_of_fmap. by exists kv.
    + by rewrite (moved_nodes _ _ _ _ _ Hm23).
    + by rewrite (moved_nodes _ _ _ _ _ Hm23).
    + by rewrite (moved_comments _ _ _ _ _ Hm23).
    + rewrite Hr3. lia.
    + rewrite Hr3. lia.
    + exists c', s', mr'. split_and!; [| |done|].
      * rewrite He. by rewrite (object_next_char _ _ _ _ _ _ tokenArraySeparator spaces_nil Hr2); [|done|right].
      * replace (length (head ++ CH "," :: body) + 1)%nat with (length head + (length (@nil Z) + 1) + (length body + 1))%nat
          by (rewrite length_app; simpl; lia).
        by eapply moved_trans.
      * rewrite Hmr', om_map_emplace, Hw. done.
Qed.

Lemma depth_object_of fs d : Forall (fun kv => (depth kv.2 <= d)%nat) fs -> (depth (object_of fs) <= S d)%nat.
Proof.
  intros Hd. simpl. apply le_n_S. assert (Forall (fun kv => (depth kv.2 <= d)%nat) (enter fs [])) as H.
  { apply Forall_forall. intros kv [Hin|Hin]%enter_elem; [|by apply not_elem_of_nil in Hin].
    rewrite Forall_forall in Hd. by apply Hd. }
  induction H as [|kv m Hkv _ IH]; simpl; [lia|]. destruct kv. simpl in *. lia.
Qed.

Lemma reads_fields fs body : fields_text fs body -> NoDup fs.*1 -> reads_value (object_of fs) (CH "{" :: body ++ [CH "}"]).
Proof.
  intros Hfs Hnd. apply (reads_container _ _ _ _ tokenObjectBegin readObject); [done|done|by right|].
  intros n tok tl s p ns w0 Hr Hn Hc Hp Hd Hf Hl. cbn [readObject]. unfold readObject_body.
  destruct (exec_container_start tok (Value_ofType objectValue) p ns s w0 (object_loop n []))
    as (c & s2 & Hcv & Hm2 & ->); [done|done|].
  assert (at_path p (root_ s2) = Some c) as Hp2 by by eapply moved_at.
  assert (rest s2 = body ++ CH "}" :: tl) as Hr2 by by eapply (moved_rest_app p c []).
  destruct (read_fields fs body Hfs n [] s2 p ns tl c []) as (c' & s3 & mr & Hloop & Hm3 & Hv3 & Hmr3); try done.
  - by apply Forall_forall.
  - rewrite (moved_nodes _ _ _ _ _ Hm2). apply Forall_forall. intros kv Hin.
    assert (depth kv.2 <= om_depth depth (enter fs []))%nat; [|simpl in Hd; lia].
    by apply om_depth_le, (enter_mem fs kv).
  - by rewrite (moved_nodes _ _ _ _ _ Hm2).
  - by rewrite (moved_comments _ _ _ _ _ Hm2).
  - by rewrite Hr2, <- Hr.
  - by rewrite Hr2, <- Hr.
  - exists c', s3. split_and!; [exact Hloop|by eapply (moved_trans p c c' 0)|].
    rewrite (strip_payload c' (initBasic (PObject mr))) by done. simpl. by rewrite Hmr3, om_map_enter.
Qed.

Lemma parse_fields fs body root collect s :
  fields_text fs body -> NoDup fs.*1 -> Forall (fun kv => (depth kv.2 <= 999)%nat) fs ->
  Z.of_nat (length (CH "{" :: body ++ [CH "}"])) <= maxInt - 4 - 1 ->
  exists s', parse (CH "{" :: body ++ [CH "}"]) root collect s = Ret (true, s') /\
    strip (root_ s') = norm (object_of fs).
Proof.
  intros Hfs Hnd Hd Hl. destruct (parse_reads (object_of fs) (CH "{" :: body ++ [CH "}"]) [] [] root collect s)
    as (s' & E & Hs).
  - by apply reads_fields.
  - pose proof (depth_object_of fs 999 Hd). lia.
  - apply spaces_nil.
  - apply spaces_nil.
  - by rewrite app_nil_r.
  - by right.
  - exists s'. by rewrite app_nil_r in E.
Qed.

(** ** Numbers with a fixed count of decimals *)

(** The double nearest to [x] rounded to [p] decimals. *)
Definition rounded (p : nat) (x : float64) : float64 :=
  match x with
  | S754_finite s m e =>
      let '(n, d) := sf_ratio m e in b64_of_decimal s (div_rne (n * 10 ^ Z.of_nat p) d) 1 (- Z.of_nat p)
  | _ => x
  end.

(** The number printed is within half a unit of its last place. *)
Lemma rounded_spec p s m e : let '(n, d) := sf_ratio m e in
  exists k, rounded p (S754_finite s m e) = b64_of_decimal s k 1 (- Z.of_nat p) /\
    Z.abs (2 * (n * 10 ^ Z.of_nat p - d * k)) <= d.
Proof.
  unfold rounded. destruct (sf_ratio m e) as [n d] eqn:E. eexists. split; [done|]. apply div_rne_nearest.
  unfold sf_ratio in E. destruct (Z.leb_spec 0 e); injection E as <- <-; [done|].
  rewrite Z.shiftl_mul_pow2 by lia. rewrite Z.mul_1_l. apply Z.pow_pos_nonneg; lia.
Qed.

Lemma b64_of_decimal_digits s m f g e :
  -400 <= e + Z.of_nat f <= 400 -> -400 <= e + Z.of_nat g <= 400 -> b64_of_decimal s m f e = b64_of_decimal s m g e.
Proof.
  intros Hf Hg. unfold b64_of_decimal. destruct m; [done| |done].
  by rewrite !(proj2 (Z.ltb_ge _ _)) by lia.
Qed.

Lemma fixed_decimal p k : (0 < p)%nat -> 0 <= k ->
  let s := pad0 (S p) (dec_digits k) in
  decimal (take (length s - p) s ++ CH "." :: drop (length s - p) s) k (- Z.of_nat p) (length s).
Proof.
  intros Hp Hk s. destruct (dec_digits_spec k Hk) as (_ & Hd & Hv & _).
  assert (digits s) as Hs by (apply Forall_app; split; [apply digits_zeros|done]).
  assert (S p <= length s)%nat as Hl by (unfold s, pad0; rewrite length_app, repeat_length; lia).
  assert (digits_val 0 s = k) as Hval by (unfold s, pad0; by rewrite digits_val_zeros).
  rewrite <- (take_drop (length s - p) s) in Hs, Hval. apply Forall_app in Hs as [Hip Hfp].
  assert (length (take (length s - p) s) = (length s - p)%nat) as Htl by (rewrite length_take; lia).
  assert (length (drop (length s - p) s) = p) as Hdl by (rewrite length_drop; lia).
  assert (take (length s - p) s <> []) as Hne by (intros E; rewrite E in Htl; simpl in Htl; lia).
  pose proof (decimal_text _ _ _ _ Hne Hip Hfp exponent_none) as H.
  rewrite Hval, Hdl, Htl, app_nil_r in H. replace (length s - p + p)%nat with (length s) in H by lia.
  rewrite Z.sub_0_l in H. replace (CH "." :: drop (length s - p) s) with (dotted (drop (length s - p) s)); [done|].
  destruct (drop _ s); [simpl in Hdl; lia|done].
Qed.

Lemma fmt_f_decimal p x : (0 < p <= 300)%nat -> sf_isfinite x = true -> (length (fmt_f p x) <= 300)%nat ->
  exists s t k f, fmt_f p x = sign_text s ++ t /\ decimal t k (- Z.of_nat p) f /\ ~ digits t /\
    istream_double (sign_text s ++ t) = stream_of (rounded p x).
Proof.
  intros Hp Hx Hl. destruct p as [|p]; [lia|].
  assert (exists s k, 0 <= k /\ rounded (S p) x = b64_of_decimal s k 1 (- Z.of_nat (S p)) /\
    fmt_f (S p) x = sign_text s ++ (let t := pad0 (S (S p)) (dec_digits k) in
      take (length t - S p) t ++ CH "." :: drop (length t - S p) t)) as (s & k & Hk & Hr & Ht).
  { destruct x as [s|s| |s m e]; try done.
    - by exists s, 0.
    - unfold fmt_f, rounded. cbn [sf_sign]. destruct (sf_ratio m e) as [n d] eqn:E.
      exists s, (div_rne (n * 10 ^ Z.of_nat (S p)) d). split_and!; [|done|done]. unfold sf_ratio in E.
      destruct (Z.leb_spec 0 e); injection E as <- <-; apply div_rne_nonneg; try lia;
        rewrite ?Z.shiftl_mul_pow2 by lia; repeat apply Z.mul_nonneg_nonneg; lia. }
  pose proof (fixed_decimal (S p) k ltac:(lia) Hk) as Hdec. cbv zeta in Hdec, Ht.
  set (u := pad0 (S (S p)) (dec_digits k)) in *. set (t := take _ u ++ _) in *.
  exists s, t, k, (length u). split_and!; [done|done| |].
  - intros [_ [Hc _]%Forall_cons]%Forall_app. done.
  - rewrite (istream_decimal s t _ _ _ Hdec), Hr, (b64_of_decimal_digits s k (length u) 1); [|  |lia].
    + by destruct (b64_of_decimal _ _ _ _) as [|[]| |].
    + assert (length u <= length (fmt_f (S p) x))%nat; [|lia]. rewrite Ht, length_app. unfold t.
      rewrite length_app. cbn [length]. rewrite length_take, length_drop. lia.
Qed.

Lemma reads_fixed p v x : (0 < p <= 300)%nat -> sf_isfinite x = true -> (length (fmt_f p x) <= 300)%nat ->
  value_ v = PReal (rounded p x) -> reads_value v (fmt_f p x).
Proof.
  intros Hp Hx Hl Hv. destruct (fmt_f_decimal p x Hp Hx Hl) as (s & t & k & f & -> & Hdec & Hnd & Hs).
  by eapply reads_decimal.
Qed.
