(* ===== verification/JsonRoundtrip.v ===== *)
(** * Writing and reading back

    The text [FastWriter] produces for a tree is a layout of the tree, so
    [Reader] gives the tree back; and [FastWriter] always returns. *)
From S2P Require Export JsonLayout.
Open Scope Z_scope.

(** ** The text is a layout *)

Definition colon_text (w : FastWriter) : bytes :=
  if yamlCompatibilityEnabled_ w then STR ": " else STR ":".

Definition fast_tokens (w : FastWriter) : Tokens := {|
  blank := fun sp => if yamlCompatibilityEnabled_ w then spaces sp else sp = [];
  null_token := null_text w;
  real_token := valueToString_real;
  string_token := fun s => valueToQuotedStringN s false;
  name_token := fun k => valueToQuotedStringN k false
|}.

Section fast.
Context (w : FastWriter).

Lemma fast_blank : blank (fast_tokens w) [].
Proof. simpl. by destruct (yamlCompatibilityEnabled_ w); [apply spaces_nil|]. Qed.

Lemma fast_colon : exists sp, blank (fast_tokens w) sp /\ colon_text w = CH ":" :: sp.
Proof.
  unfold colon_text. simpl. destruct (yamlCompatibilityEnabled_ w); [exists (STR " ")|exists []].
  - by repeat constructor.
  - done.
Qed.

Definition fast (v : Value) : Prop := exists text, writeValue w v = Ret text /\ layout (fast_tokens w) v text.

Lemma write_item m i : default (Ret (null_text w)) (om_find i (om_map (writeValue w) m)) = writeValue w (item m i).
Proof. unfold item. rewrite om_find_om_map. by destruct (om_find i m). Qed.
Lemma write_field m k :
  default (Ret (null_text w)) (om_find (CZString k) (om_map (writeValue w) m)) = writeValue w (field m k).
Proof. unfold field. rewrite om_find_om_map. by destruct (om_find _ m). Qed.

Lemma fast_elements m n k :
  Forall fast (map (fun i => item m (Z.of_nat i)) (seq k (S n))) ->
  exists body, write_elements w (om_map (writeValue w) m) (S n) (Z.of_nat k) =
                 Ret ((if 0 <? Z.of_nat k then STR "," else []) ++ body) /\
               elements (fast_tokens w) (map (fun i => item m (Z.of_nat i)) (seq k (S n))) body.
Proof.
  revert k. induction n as [|n IH]; intros k [(t & Ht & Hl) Hf]%Forall_cons;
    cbn [write_elements]; rewrite (write_item m (Z.of_nat k)), Ht, Ret_bind.
  - rewrite Ret_bind. eexists. split; [reflexivity|]. apply elements_one; [done|apply fast_blank].
  - destruct (IH (S k) Hf) as (body & Hb & He).
    replace (Z.of_nat k + 1) with (Z.of_nat (S k)) by lia. cbn [write_elements] in Hb. rewrite Hb, Ret_bind.
    eexists. split; [reflexivity|]. rewrite (proj2 (Z.ltb_lt 0 (Z.of_nat (S k)))) by lia.
    by apply (elements_cons (fast_tokens w) _ _ t [] [] body); [|apply fast_blank..|].
Qed.

Lemma fast_members m k ks first :
  Forall (fun kv => fast kv.2) (map (fun name => (name, field m name)) (k :: ks)) ->
  exists body, write_members w (om_map (writeValue w) m) first (k :: ks) =
                 Ret ((if first : bool then [] else STR ",") ++ body) /\
               members (fast_tokens w) (map (fun name => (name, field m name)) (k :: ks)) body.
Proof.
  pose proof fast_blank as Hb0. destruct fast_colon as (sp & Hsp & Hcolon).
  revert k first. induction ks as [|k2 ks IH]; intros k first [(t & Ht & Hl) Hf]%Forall_cons;
    cbn [fst snd] in *; cbn [write_members]; rewrite (write_field m k), Ht, Ret_bind; fold (colon_text w); rewrite Hcolon.
  - rewrite Ret_bind. eexists. split; [reflexivity|]. by apply (members_one (fast_tokens w) k _ t [] sp []).
  - destruct (IH k2 false Hf) as (body & Hb & Hm). cbn [write_members] in Hb. fold (colon_text w) in Hb.
    rewrite <- Hcolon, Hb, Ret_bind, Hcolon.
    eexists. split; [reflexivity|]. by apply (members_cons (fast_tokens w) k _ _ t [] sp [] [] body).
Qed.

(** [writeValue] returns on every well-formed tree, with a layout of it. *)
Lemma writeValue_layout v : every number_ok v -> fast v.
Proof.
  induction v as [v Hi Hf] using Value_children_ind. intros Hw.
  destruct (every_children number_ok v I Hw) as [Hwi Hwf].
  pose proof (Forall_apply _ _ _ Hi Hwi) as Hi'. clear Hi Hwi.
  pose proof (Forall_apply _ _ _ Hf Hwf) as Hf'. clear Hf Hwf.
  apply every_here in Hw. unfold number_ok in Hw. unfold fast.
  destruct v as [[|i|u|d|s0|b|m|m] cm st lm]; simpl value_ in *; cbv iota in *; cbn [writeValue value_].
  - eexists. split; [reflexivity|]. by apply layout_scalar.
  - simpl. rewrite valueToString_Int_dec by done. eexists. split; [reflexivity|]. by apply layout_scalar.
  - simpl. rewrite valueToString_UInt_dec by done. eexists. split; [reflexivity|]. by apply layout_scalar.
  - eexists. split; [reflexivity|]. by apply layout_scalar.
  - eexists. split; [reflexivity|]. by apply layout_scalar.
  - eexists. split; [reflexivity|]. by apply layout_scalar.
  - set (v := mkValue (PArray m) cm st lm) in *. unfold items in Hi'. cbn [v value_] in Hi'.
    destruct (Z.to_nat (size v)) as [|n] eqn:En.
    + eexists. split; [reflexivity|]. apply (layout_array_nil _ v []); [done| |apply fast_blank].
      unfold items. simpl value_. cbv iota. by rewrite En.
    + destruct (fast_elements m n 0 Hi') as (body & Hb & He). change (Z.of_nat 0) with 0 in Hb. rewrite Hb, Ret_bind.
      eexists. split; [reflexivity|]. apply (layout_array _ v [] body); [apply fast_blank|].
      unfold items. simpl value_. cbv iota. by rewrite En.
  - set (v := mkValue (PObject m) cm st lm) in *. unfold fields in Hf'. cbn [v value_] in Hf'.
    unfold getMemberNames. simpl object_map. cbn [isNull isObject is_type type value_ v orb].
    change (om_keys (object_map _)) with (om_keys m).
    destruct (om_keys m) as [|k ks] eqn:Ek.
    + eexists. split; [reflexivity|]. apply (layout_object_nil _ v []); [done| |apply fast_blank].
      unfold fields. simpl value_. cbv iota. by rewrite Ek.
    + destruct (fast_members m k ks true Hf') as (body & Hb & Hm).
      exists (STR "{" ++ body ++ STR "}"). split; [|apply (layout_object _ v [] body); [apply fast_blank|]].
      * change (write_members w (om_map (writeValue w) m) true (k :: ks) ≫= (fun b => Ret (STR "{" ++ b ++ STR "}")) =
          Ret (STR "{" ++ body ++ STR "}")). by rewrite Hb.
      * unfold fields. simpl value_. cbv iota. by rewrite Ek.
Qed.
End fast.

Lemma writable_every (P : Value -> Prop) v : (forall w, writable w -> P w) -> writable v -> every P v.
Proof.
  intros HP. apply every_down; [done|..].
  - intros [pl ? ? ?] m Hw. simpl. intros ->. simpl in Hw. by destruct Hw as (_ & _ & ?).
  - intros [pl ? ? ?] m Hw. simpl. intros ->. simpl in Hw. by destruct Hw as (_ & _ & ?).
Qed.

Lemma writable_numbers v : writable v -> every number_ok v.
Proof. apply writable_every. by intros [[] ? ? ?]. Qed.

(** The texts that keep the nulls are JSON. *)
Lemma fast_json w v text : dropNullPlaceholders_ w = false -> layout (fast_tokens w) v text -> json_layout v text.
Proof.
  intros Hdr. apply layout_mono.
  - simpl. destruct (yamlCompatibilityEnabled_ w); [done|]. intros sp ->. apply spaces_nil.
  - simpl. unfold null_text. by rewrite Hdr.
  - apply every_all. intros u. unfold same_tokens. destruct (value_ u); try done; [|by apply Forall_true].
    simpl. unfold null_text. by rewrite Hdr.
Qed.

(** Writing, then parsing. *)
Lemma parse_write w v text root collect s :
  writable v -> (depth v <= 1000)%nat -> dropNullPlaceholders_ w = false -> write w v = Ret text ->
  Z.of_nat (length text) <= maxInt - 4 - 1 ->
  strictRoot_ (features_ s) = false \/ isArray v || isObject v = true ->
  exists s', parse text root collect s = Ret (true, s') /\ strip (root_ s') = norm v.
Proof.
  intros Hw Hd Hdr Hwr Hlen Hroot. unfold write in Hwr.
  destruct (writeValue_layout w v (writable_numbers v Hw)) as (d & Hwd & Hl). rewrite Hwd, Ret_bind in Hwr.
  injection Hwr as <-.
  set (tl := if omitEndingLineFeed_ w then [] else [10]) in *.
  assert (spaces tl) as Htl by (unfold tl; destruct (omitEndingLineFeed_ w); by repeat constructor).
  apply (parse_layout v d [] tl); try done; [by apply (fast_json w)|apply spaces_nil].
Qed.

(** ** Properties *)

(** C2: what [FastWriter::write] produces for a tree (integers of both tags,
    every double but NaN, booleans, nulls, UTF-8 strings and names, arrays without
    holes, objects, nested at most 1000 deep; null placeholders kept; YAML spacing
    and final newline as set), [Reader::parse] accepts with any features that admit
    the root, and gives the same tree back, whatever the root variable held before:
    doubles bit for bit, infinities included.  Only the tag of an integer may
    differ, and the theorem says how: numbers up to [maxInt] come back as
    [intValue], larger ones as [uintValue]. *)
Theorem parse_write_roundtrip w v text root collect s :
  writable v -> (depth v <= 1000)%nat -> dropNullPlaceholders_ w = false -> write w v = Ret text ->
  Z.of_nat (length text) <= maxInt - 4 - 1 ->
  strictRoot_ (features_ s) = false \/ isArray v || isObject v = true ->
  exists s', parse text root collect s = Ret (true, s') /\ strip (root_ s') = norm v.
Proof. apply parse_write. Qed.

(** With 0.1, to the nearest double. *)
Definition demo_tree : Value :=
  initBasic (PObject [(STR "a", initBasic (PArray [(0, Value_int 5000000000); (1, Value_int (-7));
                         (2, Value_double (S754_finite false 7205759403792794 (-56)))]));
                      (STR "b", initBasic (PString [0xC3; 0xA9; dquote]))]).

Definition demo_text : bytes :=
  [CH "{"; dquote; CH "a"; dquote] ++ STR ":[5000000000,-7,0.10000000000000001]," ++ [dquote; CH "b"; dquote; CH ":"; dquote] ++
  STR "\u00e9\" ++ [dquote; dquote; CH "}"; 10].

Lemma demo_tree_writable : writable demo_tree.
Proof.
  split_and!; [by repeat constructor| |].
  - apply Forall_cons; split; [|apply Forall_cons; split; [|by apply Forall_nil]].
    + split; [|vm_compute; reflexivity]. exists [97]. by repeat constructor; unfold scalar; lia.
    + split; [|vm_compute; reflexivity]. exists [98]. by repeat constructor; unfold scalar; lia.
  - split; [|split; [exists [233; 34]; by repeat constructor; unfold scalar, dquote; lia|exact I]].
    split; [by exists [Value_int 5000000000; Value_int (-7); Value_double (S754_finite false 7205759403792794 (-56))]|]. split; [vm_compute; reflexivity|].
    by repeat split; vm_compute.
Qed.

Lemma parse_write_roundtrip_witness :
  exists s', parse demo_text Value_null true (Reader_new Features_all) = Ret (true, s') /\
             strip (root_ s') = norm demo_tree.
Proof.
  apply (parse_write_roundtrip FastWriter_new demo_tree demo_text).
  - exact demo_tree_writable.
  - vm_compute. lia.
  - done.
  - vm_compute. reflexivity.
  - vm_compute. discriminate.
  - by left.
Defined.

(** Writing a well-formed tree always returns: no conversion in
    [writeValue] can abort and no lookup of a child misses its node. *)
Theorem write_returns w v : wf v -> exists text, write w v = Ret text.
Proof.
  intros Hw%wf_numbers. destruct (writeValue_layout w v Hw) as (d & Hd & _). unfold write. rewrite Hd. by eexists.
Qed.

Lemma write_returns_witness : exists text, write FastWriter_new demo_object = Ret text.
Proof. apply write_returns. exact demo_object_wf. Defined.

(** The integer branch of [decodeNumber] is exact: a string of digits is
    decoded to the number it denotes when that is at most the limit, and handed
    to [decodeDouble] otherwise; the 64-bit accumulator never wraps. *)
Theorem decode_digits_exact m ds :
  Forall (fun c => is_digit c = true) ds -> 10 <= m < 2 ^ 64 ->
  decode_digits m ds 0 = if digits_val 0 ds <=? m then Some (digits_val 0 ds) else None.
Proof. intros Hds Hm. apply decode_digits_spec; [done|done|lia]. Qed.

Lemma decode_digits_exact_witness :
  decode_digits maxLargestUInt (STR "18446744073709551616") 0 = None.
Proof.
  rewrite (decode_digits_exact maxLargestUInt (STR "18446744073709551616")).
  - reflexivity.
  - repeat constructor.
  - vm_compute. split; [discriminate|reflexivity].
Defined.

(** Quoting and unquoting: the text [valueToQuotedStringN] makes of a UTF-8
    string is one string token, and [decodeString] of it gives the string back,
    with quotes, controls, NUL and code points beyond the BMP included. *)
Theorem quote_roundtrip cps tl s :
  Forall scalar cps -> rest s = valueToQuotedStringN (utf8_encode cps) false ++ tl ->
  exists t s1, readToken s = Ret ((true, t), s1) /\ type_ t = tokenString /\ rest s1 = tl /\
               decodeString t s1 = Ret (Some (utf8_encode cps), s1).
Proof.
  intros Hcps Hr. eexists _, _. split; [by apply (readToken_string [] cps tl); [apply spaces_nil|..]|].
  split; [done|]. split; [|by apply (decodeString_text [] cps tl)].
  cbn [length]. rewrite Nat.add_0_r. by eapply rest_set_current.
Qed.

Lemma quote_roundtrip_witness :
  exists t s1,
    readToken (parse_init (valueToQuotedStringN (utf8_encode [0; 34; 0x1F600]) false) Value_null true
                 (Reader_new Features_all)) = Ret ((true, t), s1) /\
    type_ t = tokenString /\ rest s1 = [] /\
    decodeString t s1 = Ret (Some (utf8_encode [0; 34; 0x1F600]), s1).
Proof.
  apply quote_roundtrip; [repeat constructor; unfold scalar; lia|reflexivity].
Defined.
