(* ===== verification/JsonStyled.v ===== *)
(** * The readable writers of jsoncpp (json_writer.cpp, writer.h)

    [StyledWriter] (prefix [sw_]), [StyledStreamWriter] ([ss_]) and
    [BuiltStyledStreamWriter] ([bs_]) with its builder.  Each is a state machine:
    the text so far, the indentation, and the buffer [childValues_] that an array
    tried on one line leaves behind.  The methods that walk the tree are copies
    of each other in the three classes; they are written once, over the class
    [Style] of the methods and texts in which the classes differ. *)
From S2P Require Export StateMonad JsonWriter.
Open Scope Z_scope.

Definition rightMargin_ : Z := 74.

(** ** What the classes provide *)

Class Style (S : Type) := {
  childValues_ : S -> list bytes;
  set_childValues : list bytes -> S -> S;
  addChildValues_ : S -> bool;
  set_addChildValues : bool -> S -> S;
  append_text : bytes -> S -> S;                        (** [document_ += t], [*sout_ << t] *)
  writeWithIndent : bytes -> ST S unit;
  indent : ST S unit;
  unindent : ST S unit;
  before_element : ST S unit;                           (** before an element on a line of its own *)
  after_element : ST S unit;
  writeCommentBeforeValue : Value -> ST S unit;
  writeCommentAfterValueOnSameLine : Value -> ST S unit;
  null_symbol : bytes;
  real_text : float64 -> bytes;
  quoted_text_of : bytes -> bytes;
  quoted_name : bytes -> bytes;
  colon_symbol : bytes;
  line_blank : bytes;                                   (** between the tokens of an array on one line *)
  keep_lines : bool                                     (** an array is never tried on one line *)
}.

(** ** The walk over the tree *)

Definition hasCommentForValue (value : Value) : bool :=
  hasComment commentBefore value || hasComment commentAfterOnSameLine value || hasComment commentAfter value.

(** The first loop of [isMultilineArray]. *)
Fixpoint has_container (value : Value) (n : nat) (index : Z) : outcome bool :=
  match n with
  | O => Ret false
  | S n =>
      childValue ← index_const index value;
      if (isArray childValue || isObject childValue) && negb (empty childValue) then Ret true
      else has_container value n (index + 1)
  end.

(** [childValues_[index]]. *)
Definition child_text (childValues : list bytes) (index : Z) : outcome bytes :=
  match childValues !! Z.to_nat index with Some t => Ret t | None => Undef "childValues_ out of range" end.

(** The texts of an array on one line. *)
Fixpoint join_texts (separator : bytes) (l : list bytes) : bytes :=
  match l with
  | [] => []
  | [t] => t
  | t :: l' => t ++ separator ++ join_texts separator l'
  end.

Section walk.
Context {St : Type} `{Style St}.

Definition out (t : bytes) : ST St unit := put (append_text t).

Definition pushValue (value : bytes) : ST St unit :=
  add ← get addChildValues_;
  if add : bool then put (fun s => set_childValues (childValues_ s ++ [value]) s) else out value.

(** Writing a child: of the node found, or of the null value. *)
Definition write_child {K} `{KeyOrd K} (key : K) (writes : list (K * ST St unit)) : ST St unit :=
  default (pushValue null_symbol) (om_find key writes).

(** The second loop of [isMultilineArray]: whether a child has a comment, and
    the length of the line. *)
Fixpoint measure (value : Value) (writes : list (Z * ST St unit)) (n : nat) (index : Z)
    (isMultiLine : bool) (lineLength : Z) : ST St (bool * Z) :=
  match n with
  | O => mret (isMultiLine, lineLength)
  | S n =>
      childValue ← run (index_const index value);
      _ ← write_child index writes;
      l ← get childValues_;
      t ← run (child_text l index);
      measure value writes n (index + 1) (hasCommentForValue childValue || isMultiLine)
        (u32 (lineLength + u32 (Z.of_nat (length t))))
  end.

Definition isMultilineArray (value : Value) (writes : list (Z * ST St unit)) : ST St bool :=
  let n := Z.to_nat (size value) in
  let isMultiLine := rightMargin_ <=? u32 (size value * 3) in
  _ ← put (set_childValues []);
  isMultiLine ← (if isMultiLine then mret true else run (has_container value n 0));
  if negb isMultiLine then
    _ ← put (set_addChildValues true);
    '(isMultiLine, lineLength) ← measure value writes n 0 false (u32 (4 + u32 (u32 (size value - 1) * 2)));
    _ ← put (set_addChildValues false);
    mret (isMultiLine || (rightMargin_ <=? lineLength))
  else mret true.

(** The loop over the elements, one per line. *)
Fixpoint array_lines (value : Value) (writes : list (Z * ST St unit)) (hasChildValue : bool) (n : nat) (index : Z)
    : ST St unit :=
  match n with
  | O => mret tt
  | S n =>
      childValue ← run (index_const index value);
      _ ← writeCommentBeforeValue childValue;
      _ ← (if hasChildValue then
             l ← get childValues_;
             t ← run (child_text l index);
             writeWithIndent t
           else
             _ ← before_element;
             _ ← write_child index writes;
             after_element);
      _ ← (if bool_decide (n = O) then mret tt else out (STR ","));
      _ ← writeCommentAfterValueOnSameLine childValue;
      array_lines value writes hasChildValue n (index + 1)
  end.

Definition writeArrayValue (value : Value) (writes : list (Z * ST St unit)) : ST St unit :=
  if size value =? 0 then pushValue (STR "[]")
  else
    isMultiLine ← (if keep_lines then mret true else isMultilineArray value writes);
    if isMultiLine : bool then
      _ ← writeWithIndent (STR "[");
      _ ← indent;
      l ← get childValues_;
      _ ← array_lines value writes (negb (bool_decide (l = []))) (Z.to_nat (size value)) 0;
      _ ← unindent;
      writeWithIndent (STR "]")
    else
      l ← get childValues_;
      _ ← run (json_assert (Z.of_nat (length l) =? size value) "assert(childValues_.size() == size)");
      out (STR "[" ++ line_blank ++ join_texts (STR "," ++ line_blank) l ++ line_blank ++ STR "]").

(** The loop over the members. *)
Fixpoint object_lines (value : Value) (writes : list (bytes * ST St unit)) (members : list bytes) : ST St unit :=
  match members with
  | [] => mret tt
  | name :: members' =>
      childValue ← run (key_const name value);
      _ ← writeCommentBeforeValue childValue;
      _ ← writeWithIndent (quoted_name name);
      _ ← out colon_symbol;
      _ ← write_child (CZString name) writes;
      _ ← (if bool_decide (members' = []) then mret tt else out (STR ","));
      _ ← writeCommentAfterValueOnSameLine childValue;
      object_lines value writes members'
  end.

Definition writeObjectValue (value : Value) (writes : list (bytes * ST St unit)) : ST St unit :=
  members ← run (getMemberNames value);
  if bool_decide (members = []) then pushValue (STR "{}")
  else
    _ ← writeWithIndent (STR "{");
    _ ← indent;
    _ ← object_lines value writes members;
    _ ← unindent;
    writeWithIndent (STR "}").

Fixpoint style_value (value : Value) : ST St unit :=
  match value_ value with
  | PNull => pushValue null_symbol
  | PInt _ => i ← run (asLargestInt value); t ← run (valueToString_Int i); pushValue t
  | PUInt _ => u ← run (asLargestUInt value); t ← run (valueToString_UInt u); pushValue t
  | PReal _ => d ← run (asDouble value); pushValue (real_text d)
  | PString _ => pushValue match getString value with Some s => quoted_text_of s | None => [] end
  | PBool _ => b ← run (asBool value); pushValue (valueToString_bool b)
  | PArray m => writeArrayValue value (om_map style_value m)
  | PObject m => writeObjectValue value (om_map style_value m)
  end.
End walk.

(** ** [StyledWriter] *)

Record StyledWriter := mkStyledWriter {
  sw_childValues : list bytes;
  sw_document : bytes;
  sw_indentString : bytes;
  sw_addChildValues : bool
}.

Definition indentSize_ : nat := 3.

Definition sw_set_childValues (l : list bytes) (s : StyledWriter) : StyledWriter :=
  mkStyledWriter l (sw_document s) (sw_indentString s) (sw_addChildValues s).
Definition sw_append (t : bytes) (s : StyledWriter) : StyledWriter :=
  mkStyledWriter (sw_childValues s) (sw_document s ++ t) (sw_indentString s) (sw_addChildValues s).
Definition sw_set_indentString (i : bytes) (s : StyledWriter) : StyledWriter :=
  mkStyledWriter (sw_childValues s) (sw_document s) i (sw_addChildValues s).
Definition sw_set_addChildValues (b : bool) (s : StyledWriter) : StyledWriter :=
  mkStyledWriter (sw_childValues s) (sw_document s) (sw_indentString s) b.

Abbreviation SW := (ST StyledWriter).

Definition sw_out (t : bytes) : SW unit := put (sw_append t).

Definition sw_writeIndent : SW unit :=
  d ← get sw_document;
  indentString ← get sw_indentString;
  match last d with
  | None => sw_out indentString
  | Some c =>
      if c =? CH " " then mret tt
      else _ ← (if negb (c =? 10) then sw_out [10] else mret tt); sw_out indentString
  end.

Definition sw_writeWithIndent (value : bytes) : SW unit := _ ← sw_writeIndent; sw_out value.

Definition sw_indent : SW unit :=
  put (fun s => sw_set_indentString (sw_indentString s ++ repeat (CH " ") indentSize_) s).

Definition sw_unindent : SW unit :=
  i ← get sw_indentString;
  if (length i <? indentSize_)%nat then run (Abort "assert(indentString_.size() >= indentSize_)")
  else put (sw_set_indentString (take (length i - indentSize_) i)).

(** The loop over the characters of a comment. *)
Fixpoint sw_comment_chars (comment : bytes) : SW unit :=
  match comment with
  | [] => mret tt
  | c :: comment' =>
      _ ← sw_out [c];
      _ ← (if (c =? 10) && match comment' with d :: _ => d =? CH "/" | [] => false end
           then sw_writeIndent else mret tt);
      sw_comment_chars comment'
  end.

Definition sw_writeCommentBeforeValue (root : Value) : SW unit :=
  if negb (hasComment commentBefore root) then mret tt
  else
    _ ← sw_out [10];
    _ ← sw_writeIndent;
    _ ← sw_comment_chars (getComment commentBefore root);
    sw_out [10].

Definition sw_writeCommentAfterValueOnSameLine (root : Value) : SW unit :=
  _ ← (if hasComment commentAfterOnSameLine root
       then sw_out (STR " " ++ getComment commentAfterOnSameLine root) else mret tt);
  if hasComment commentAfter root then
    _ ← sw_out [10]; _ ← sw_out (getComment commentAfter root); sw_out [10]
  else mret tt.

#[export] Instance sw_style : Style StyledWriter := {|
  childValues_ := sw_childValues;
  set_childValues := sw_set_childValues;
  addChildValues_ := sw_addChildValues;
  set_addChildValues := sw_set_addChildValues;
  append_text := sw_append;
  writeWithIndent := sw_writeWithIndent;
  indent := sw_indent;
  unindent := sw_unindent;
  before_element := sw_writeIndent;
  after_element := mret tt;
  writeCommentBeforeValue := sw_writeCommentBeforeValue;
  writeCommentAfterValueOnSameLine := sw_writeCommentAfterValueOnSameLine;
  null_symbol := STR "null";
  real_text := valueToString_real;
  quoted_text_of := fun s => valueToQuotedStringN s false;
  quoted_name := valueToQuotedString;
  colon_symbol := STR " : ";
  line_blank := STR " ";
  keep_lines := false
|}.

Definition sw_writeArrayValue (value : Value) : SW unit := writeArrayValue value (om_map style_value (array_map value)).
Definition sw_writeValue : Value -> SW unit := style_value.

(** [StyledWriter::write]: the text, and the writer after it. *)
Definition sw_write (root : Value) : SW bytes :=
  _ ← put (fun s => mkStyledWriter (sw_childValues s) [] [] false);
  _ ← sw_writeCommentBeforeValue root;
  _ ← sw_writeValue root;
  _ ← sw_writeCommentAfterValueOnSameLine root;
  _ ← sw_out [10];
  get sw_document.

Definition StyledWriter_new : StyledWriter := mkStyledWriter [] [] [] false.

(** ** [StyledStreamWriter] *)

(** [ss_document]: what went to the stream. *)
Record StyledStreamWriter := mkStyledStreamWriter {
  ss_childValues : list bytes;
  ss_document : bytes;
  ss_indentString : bytes;
  ss_addChildValues : bool;
  ss_indented : bool
}.

Definition ss_set_childValues (l : list bytes) (s : StyledStreamWriter) : StyledStreamWriter :=
  mkStyledStreamWriter l (ss_document s) (ss_indentString s) (ss_addChildValues s) (ss_indented s).
Definition ss_append (t : bytes) (s : StyledStreamWriter) : StyledStreamWriter :=
  mkStyledStreamWriter (ss_childValues s) (ss_document s ++ t) (ss_indentString s) (ss_addChildValues s) (ss_indented s).
Definition ss_set_indentString (i : bytes) (s : StyledStreamWriter) : StyledStreamWriter :=
  mkStyledStreamWriter (ss_childValues s) (ss_document s) i (ss_addChildValues s) (ss_indented s).
Definition ss_set_addChildValues (b : bool) (s : StyledStreamWriter) : StyledStreamWriter :=
  mkStyledStreamWriter (ss_childValues s) (ss_document s) (ss_indentString s) b (ss_indented s).
Definition ss_set_indented (b : bool) (s : StyledStreamWriter) : StyledStreamWriter :=
  mkStyledStreamWriter (ss_childValues s) (ss_document s) (ss_indentString s) (ss_addChildValues s) b.

Abbreviation SS := (ST StyledStreamWriter).

Section stream.
Context (indentation_ : bytes).

Definition ss_out (t : bytes) : SS unit := put (ss_append t).

Definition ss_writeIndent : SS unit := i ← get ss_indentString; ss_out (10 :: i).

(** [if (!indented_) writeIndent()]. *)
Definition ss_indent_once : SS unit := b ← get ss_indented; if b : bool then mret tt else ss_writeIndent.

Definition ss_writeWithIndent (value : bytes) : SS unit :=
  _ ← ss_indent_once; _ ← ss_out value; put (ss_set_indented false).

Definition ss_indent : SS unit := put (fun s => ss_set_indentString (ss_indentString s ++ indentation_) s).

Definition ss_unindent : SS unit :=
  i ← get ss_indentString;
  if (length i <? length indentation_)%nat then run (Abort "assert(indentString_.size() >= indentation_.size())")
  else put (ss_set_indentString (take (length i - length indentation_) i)).

Fixpoint ss_comment_chars (comment : bytes) : SS unit :=
  match comment with
  | [] => mret tt
  | c :: comment' =>
      _ ← ss_out [c];
      _ ← (if (c =? 10) && match comment' with d :: _ => d =? CH "/" | [] => false end
           then i ← get ss_indentString; ss_out i else mret tt);
      ss_comment_chars comment'
  end.

Definition ss_writeCommentBeforeValue (root : Value) : SS unit :=
  if negb (hasComment commentBefore root) then mret tt
  else
    _ ← ss_indent_once;
    _ ← ss_comment_chars (getComment commentBefore root);
    put (ss_set_indented false).

Definition ss_writeCommentAfterValueOnSameLine (root : Value) : SS unit :=
  _ ← (if hasComment commentAfterOnSameLine root
       then ss_out (STR " " ++ getComment commentAfterOnSameLine root) else mret tt);
  _ ← (if hasComment commentAfter root
       then _ ← ss_writeIndent; ss_out (getComment commentAfter root) else mret tt);
  put (ss_set_indented false).

#[local] Instance ss_style : Style StyledStreamWriter := {|
  childValues_ := ss_childValues;
  set_childValues := ss_set_childValues;
  addChildValues_ := ss_addChildValues;
  set_addChildValues := ss_set_addChildValues;
  append_text := ss_append;
  writeWithIndent := ss_writeWithIndent;
  indent := ss_indent;
  unindent := ss_unindent;
  before_element := _ ← ss_indent_once; put (ss_set_indented true);
  after_element := put (ss_set_indented false);
  writeCommentBeforeValue := ss_writeCommentBeforeValue;
  writeCommentAfterValueOnSameLine := ss_writeCommentAfterValueOnSameLine;
  null_symbol := STR "null";
  real_text := valueToString_real;
  quoted_text_of := fun s => valueToQuotedStringN s false;
  quoted_name := valueToQuotedString;
  colon_symbol := STR " : ";
  line_blank := STR " ";
  keep_lines := false
|}.

Definition ss_hasCommentForValue : Value -> bool := hasCommentForValue.
Definition ss_pushValue : bytes -> SS unit := pushValue.
Definition ss_isMultilineArray (value : Value) : SS bool := isMultilineArray value (om_map style_value (array_map value)).
Definition ss_writeArrayValue (value : Value) : SS unit := writeArrayValue value (om_map style_value (array_map value)).
Definition ss_writeValue : Value -> SS unit := style_value.

(** [StyledStreamWriter::write]: what went to the stream. *)
Definition ss_write (root : Value) : SS bytes :=
  _ ← put (fun s => mkStyledStreamWriter (ss_childValues s) [] [] false true);
  _ ← ss_writeCommentBeforeValue root;
  _ ← ss_indent_once;
  _ ← put (ss_set_indented true);
  _ ← ss_writeValue root;
  _ ← ss_writeCommentAfterValueOnSameLine root;
  _ ← ss_out [10];
  get ss_document.
End stream.

Definition StyledStreamWriter_new : StyledStreamWriter := mkStyledStreamWriter [] [] [] false false.

(** ** [BuiltStyledStreamWriter] *)

Inductive CommentStyle := CommentStyle_None | CommentStyle_Most | CommentStyle_All.
#[export] Instance CommentStyle_eq_dec : EqDecision CommentStyle.
Proof. solve_decision. Defined.

(** What the constructor sets for good. *)
Record BuiltConfig := mkBuiltConfig {
  indentation_ : bytes;
  cs_ : CommentStyle;
  colonSymbol_ : bytes;
  nullSymbol_ : bytes;
  endingLineFeedSymbol_ : bytes;
  useSpecialFloats_ : bool;
  emitUTF8_ : bool;
  precision_ : Z;
  precisionType_ : PrecisionType
}.

Record BuiltStyledStreamWriter := mkBuilt {
  bs_childValues : list bytes;
  bs_sout : bytes;
  bs_indentString : bytes;
  bs_addChildValues : bool;
  bs_indented : bool
}.

Definition bs_set_childValues (l : list bytes) (s : BuiltStyledStreamWriter) : BuiltStyledStreamWriter :=
  mkBuilt l (bs_sout s) (bs_indentString s) (bs_addChildValues s) (bs_indented s).
Definition bs_append (t : bytes) (s : BuiltStyledStreamWriter) : BuiltStyledStreamWriter :=
  mkBuilt (bs_childValues s) (bs_sout s ++ t) (bs_indentString s) (bs_addChildValues s) (bs_indented s).
Definition bs_set_indentString (i : bytes) (s : BuiltStyledStreamWriter) : BuiltStyledStreamWriter :=
  mkBuilt (bs_childValues s) (bs_sout s) i (bs_addChildValues s) (bs_indented s).
Definition bs_set_addChildValues (b : bool) (s : BuiltStyledStreamWriter) : BuiltStyledStreamWriter :=
  mkBuilt (bs_childValues s) (bs_sout s) (bs_indentString s) b (bs_indented s).
Definition bs_set_indented (b : bool) (s : BuiltStyledStreamWriter) : BuiltStyledStreamWriter :=
  mkBuilt (bs_childValues s) (bs_sout s) (bs_indentString s) (bs_addChildValues s) b.

Abbreviation BS := (ST BuiltStyledStreamWriter).

Section built.
Context (cfg : BuiltConfig).

Definition bs_out (t : bytes) : BS unit := put (bs_append t).

Definition bs_writeIndent : BS unit :=
  i ← get bs_indentString;
  if bool_decide (indentation_ cfg = []) then mret tt else bs_out (10 :: i).

Definition bs_indent_once : BS unit := b ← get bs_indented; if b : bool then mret tt else bs_writeIndent.

Definition bs_writeWithIndent (value : bytes) : BS unit :=
  _ ← bs_indent_once; _ ← bs_out value; put (bs_set_indented false).

Definition bs_indent : BS unit := put (fun s => bs_set_indentString (bs_indentString s ++ indentation_ cfg) s).

Definition bs_unindent : BS unit :=
  i ← get bs_indentString;
  if (length i <? length (indentation_ cfg))%nat then run (Abort "assert(indentString_.size() >= indentation_.size())")
  else put (bs_set_indentString (take (length i - length (indentation_ cfg)) i)).

Fixpoint bs_comment_chars (comment : bytes) : BS unit :=
  match comment with
  | [] => mret tt
  | c :: comment' =>
      _ ← bs_out [c];
      _ ← (if (c =? 10) && match comment' with d :: _ => d =? CH "/" | [] => false end
           then i ← get bs_indentString; bs_out i else mret tt);
      bs_comment_chars comment'
  end.

Definition bs_writeCommentBeforeValue (root : Value) : BS unit :=
  if bool_decide (cs_ cfg = CommentStyle_None) then mret tt
  else if negb (hasComment commentBefore root) then mret tt
  else
    _ ← bs_indent_once;
    _ ← bs_comment_chars (getComment commentBefore root);
    put (bs_set_indented false).

Definition bs_writeCommentAfterValueOnSameLine (root : Value) : BS unit :=
  if bool_decide (cs_ cfg = CommentStyle_None) then mret tt
  else
    _ ← (if hasComment commentAfterOnSameLine root
         then bs_out (STR " " ++ getComment commentAfterOnSameLine root) else mret tt);
    if hasComment commentAfter root
    then _ ← bs_writeIndent; bs_out (getComment commentAfter root) else mret tt.

#[local] Instance bs_style : Style BuiltStyledStreamWriter := {|
  childValues_ := bs_childValues;
  set_childValues := bs_set_childValues;
  addChildValues_ := bs_addChildValues;
  set_addChildValues := bs_set_addChildValues;
  append_text := bs_append;
  writeWithIndent := bs_writeWithIndent;
  indent := bs_indent;
  unindent := bs_unindent;
  before_element := _ ← bs_indent_once; put (bs_set_indented true);
  after_element := put (bs_set_indented false);
  writeCommentBeforeValue := bs_writeCommentBeforeValue;
  writeCommentAfterValueOnSameLine := bs_writeCommentAfterValueOnSameLine;
  null_symbol := nullSymbol_ cfg;
  real_text := fun d => valueToString_double d (useSpecialFloats_ cfg) (precision_ cfg) (precisionType_ cfg);
  quoted_text_of := fun s => valueToQuotedStringN s (emitUTF8_ cfg);
  quoted_name := fun name => valueToQuotedStringN name (emitUTF8_ cfg);
  colon_symbol := colonSymbol_ cfg;
  line_blank := if bool_decide (indentation_ cfg = []) then [] else STR " ";
  keep_lines := bool_decide (cs_ cfg = CommentStyle_All)
|}.

Definition bs_hasCommentForValue : Value -> bool := hasCommentForValue.
Definition bs_pushValue : bytes -> BS unit := pushValue.
Definition bs_isMultilineArray (value : Value) : BS bool := isMultilineArray value (om_map style_value (array_map value)).
Definition bs_writeArrayValue (value : Value) : BS unit := writeArrayValue value (om_map style_value (array_map value)).
Definition bs_writeValue : Value -> BS unit := style_value.

(** [BuiltStyledStreamWriter::write]: what went to the stream. *)
Definition bs_write (root : Value) : BS bytes :=
  _ ← put (fun s => mkBuilt (bs_childValues s) [] [] false true);
  _ ← bs_writeCommentBeforeValue root;
  _ ← bs_indent_once;
  _ ← put (bs_set_indented true);
  _ ← bs_writeValue root;
  _ ← bs_writeCommentAfterValueOnSameLine root;
  _ ← bs_out (endingLineFeedSymbol_ cfg);
  get bs_sout.
End built.

Definition BuiltStyledStreamWriter_new : BuiltStyledStreamWriter := mkBuilt [] [] [] false false.
