(* ===== verification/JsonBuilder.v ===== *)
(** * [StreamWriterBuilder] (json_writer.cpp, writer.h)

    The settings are a [Json::Value]; [newStreamWriter] reads them into the
    constructor's arguments of [BuiltStyledStreamWriter]. *)
From S2P Require Export JsonStyled.
Open Scope Z_scope.

(** The only member, [settings_], is public. *)
Record StreamWriterBuilder := mkStreamWriterBuilder { settings_ : Value }.

(** Assigning a C string to a setting. *)
Definition set_cstring (key value : bytes) (settings : Value) : outcome Value :=
  v ← Value_cstring value; set_key key v settings.

Definition setDefaults (settings : Value) : outcome Value :=
  settings ← set_cstring (STR "commentStyle") (STR "All") settings;
  settings ← set_cstring (STR "indentation") [9] settings;
  settings ← set_key (STR "enableYAMLCompatibility") (Value_bool false) settings;
  settings ← set_key (STR "dropNullPlaceholders") (Value_bool false) settings;
  settings ← set_key (STR "useSpecialFloats") (Value_bool false) settings;
  settings ← set_key (STR "emitUTF8") (Value_bool false) settings;
  settings ← set_key (STR "precision") (Value_int 17) settings;
  set_cstring (STR "precisionType") (STR "significant") settings.

Definition StreamWriterBuilder_new : outcome StreamWriterBuilder :=
  settings ← setDefaults Value_null; Ret (mkStreamWriterBuilder settings).

(** [builder[key] = value]. *)
Definition builder_set (key : bytes) (value : Value) (b : StreamWriterBuilder) : outcome StreamWriterBuilder :=
  settings ← set_key key value (settings_ b); Ret (mkStreamWriterBuilder settings).

Definition comment_style (cs_str : bytes) : outcome CommentStyle :=
  if bool_decide (cs_str = STR "All") then Ret CommentStyle_All
  else if bool_decide (cs_str = STR "None") then Ret CommentStyle_None
  else Abort "commentStyle must be 'All' or 'None'".

Definition precision_type (pt_str : bytes) : outcome PrecisionType :=
  if bool_decide (pt_str = STR "significant") then Ret significantDigits
  else if bool_decide (pt_str = STR "decimal") then Ret decimalPlaces
  else Abort "precisionType must be 'significant' or 'decimal'".

Definition colon_of (eyc : bool) (indentation : bytes) : bytes :=
  if eyc then STR ": " else if bool_decide (indentation = []) then STR ":" else STR " : ".

Definition newStreamWriter (b : StreamWriterBuilder) : outcome BuiltConfig :=
  v ← key_const (STR "indentation") (settings_ b); indentation ← asString v;
  v ← key_const (STR "commentStyle") (settings_ b); cs_str ← asString v;
  v ← key_const (STR "precisionType") (settings_ b); pt_str ← asString v;
  v ← key_const (STR "enableYAMLCompatibility") (settings_ b); eyc ← asBool v;
  v ← key_const (STR "dropNullPlaceholders") (settings_ b); dnp ← asBool v;
  v ← key_const (STR "useSpecialFloats") (settings_ b); usf ← asBool v;
  v ← key_const (STR "emitUTF8") (settings_ b); emitUTF8 ← asBool v;
  v ← key_const (STR "precision") (settings_ b); pre ← asUInt v;
  cs ← comment_style cs_str;
  precisionType ← precision_type pt_str;
  Ret (mkBuiltConfig indentation cs (colon_of eyc indentation) (if dnp : bool then [] else STR "null") []
         usf emitUTF8 (if 17 <? pre then 17 else pre) precisionType).

Definition valid_keys : list bytes :=
  [STR "indentation"; STR "commentStyle"; STR "enableYAMLCompatibility"; STR "dropNullPlaceholders";
   STR "useSpecialFloats"; STR "emitUTF8"; STR "precision"; STR "precisionType"].

(** [si.name()] and [*si] of the nodes from [begin()] to [end()]. *)
Definition named_nodes (v : Value) : list (bytes * Value) :=
  match value_ v with
  | PObject m => m
  | PArray m => map (fun kv => ([], kv.2)) m
  | _ => []
  end.

(** The loop of [validate], here and in the other builder; [keys] are the names
    known. *)
Fixpoint validate_nodes (keys : list bytes) (nodes : list (bytes * Value)) (invalid : option Value)
    : outcome (bool * option Value) :=
  match nodes with
  | [] => Ret (match invalid with Some i => empty i | None => true end, invalid)
  | (key, v) :: nodes' =>
      if bool_decide (key ∈ keys) then validate_nodes keys nodes' invalid
      else
        match invalid with
        | Some i => i' ← set_key key v i; validate_nodes keys nodes' (Some i')
        | None => Ret (false, None)
        end
  end.

(** [validate(invalid)]: the result, and [*invalid] after it. *)
Definition validate (invalid : option Value) (b : StreamWriterBuilder) : outcome (bool * option Value) :=
  validate_nodes valid_keys (named_nodes (settings_ b)) invalid.

(** [writeString(factory, root)] for this factory. *)
Definition writeString (b : StreamWriterBuilder) (root : Value) : outcome bytes :=
  cfg ← newStreamWriter b;
  '(text, _) ← bs_write cfg root BuiltStyledStreamWriter_new;
  Ret text.

(** [sout << root]: what goes to the stream. *)
Definition operator_write (root : Value) : outcome bytes :=
  b ← StreamWriterBuilder_new; writeString b root.
