(* ===== verification/JsonStyledWalk.v ===== *)
(** * The walk of the readable writers

    [StyleLaws] states what the walk over the tree relies on: the methods of a
    class print the texts they are given and blanks, keep the indentation, and
    leave [childValues_] alone.  Against these laws the walk always returns and
    prints a layout of the tree. *)
From S2P Require Export JsonStyled JsonRoundtrip.
Open Scope Z_scope.

(** ** Programs that return *)

Definition runs {S A} (m : ST S A) (s : S) (Q : A -> S -> Prop) : Prop := exists a s', m s = Ret (a, s') /\ Q a s'.

Section runs.
Context {S : Type}.

Lemma runs_bind {A B} (m : ST S A) (f : A -> ST S B) s (Q : A -> S -> Prop) (R : B -> S -> Prop) :
  runs m s Q -> (forall a s', Q a s' -> runs (f a) s' R) -> runs (m ≫= f) s R.
Proof.
  intros (a & s' & Hm & Ha) Hf. destruct (Hf a s' Ha) as (b & s'' & Hb & HR).
  exists b, s''. split; [|done]. by rewrite (ST_bind_Ret _ _ _ _ _ Hm).
Qed.

Lemma runs_ret {A} (a : A) s (Q : A -> S -> Prop) : Q a s -> runs (mret a) s Q.
Proof. intros HQ. by exists a, s. Qed.

Lemma runs_mono {A} (m : ST S A) s (Q R : A -> S -> Prop) : runs m s Q -> (forall a s', Q a s' -> R a s') -> runs m s R.
Proof. intros (a & s' & Hm & Ha) HR. exists a, s'. auto. Qed.

Lemma runs_skip {A B} (a : A) (k : A -> ST S B) s Q : runs (k a) s Q -> runs (mret a ≫= k) s Q.
Proof. done. Qed.

Lemma runs_ext {A} (m m' : ST S A) s Q : m s = m' s -> runs m' s Q -> runs m s Q.
Proof. unfold runs. by intros ->. Qed.

Lemma runs_get {A B} (f : S -> A) (k : A -> ST S B) s Q : runs (k (f s)) s Q -> runs (get f ≫= k) s Q.
Proof. done. Qed.

Lemma runs_put {B} (f : S -> S) (k : unit -> ST S B) s Q : runs (k tt) (f s) Q -> runs (put f ≫= k) s Q.
Proof. done. Qed.

Lemma run_bind {A B} (o : outcome A) a (k : A -> ST S B) s : o = Ret a -> (run o ≫= k) s = k a s.
Proof. by intros ->. Qed.

Lemma runs_run {A B} (o : outcome A) a (k : A -> ST S B) s Q : o = Ret a -> runs (k a) s Q -> runs (run o ≫= k) s Q.
Proof. by intros ->. Qed.
End runs.

(** ** The laws *)

Section effects.
Context {S : Type} `{Style S} (text indent_of : S -> bytes).

(** From [s] to [s'] the text [t] was printed. *)
Record printed (t : bytes) (s s' : S) : Prop := {
  printed_text : text s' = text s ++ t;
  printed_indent : indent_of s' = indent_of s;
  printed_add : addChildValues_ s' = addChildValues_ s
}.

Lemma printed_nil s : printed [] s s.
Proof. split; [by rewrite app_nil_r|done..]. Qed.

Lemma printed_trans t u s s' s'' : printed t s s' -> printed u s' s'' -> printed (t ++ u) s s''.
Proof. intros [] []. split; [by rewrite app_assoc; congruence|congruence..]. Qed.

Lemma printed_after t s s' s'' : printed [] s s' -> printed t s' s'' -> printed t s s''.
Proof. intros H1 H2. exact (printed_trans _ _ _ _ _ H1 H2). Qed.

(** [m] prints a text with [P], where the indentation is of [blank]s. *)
Definition prints (blank : bytes -> Prop) (m : ST S unit) (P : bytes -> Prop) : Prop :=
  forall s, blank (indent_of s) ->
    runs m s (fun _ s' => exists t, P t /\ printed t s s' /\ childValues_ s' = childValues_ s).
End effects.

Class StyleLaws (S : Type) `{Style S} (g : Tokens) := {
  text : S -> bytes;
  indent_of : S -> bytes;
  indentation : bytes;
  silent : Value -> Prop;                    (** of a value whose comments print at most blanks *)
  silent_null : silent Value_null;
  blank_nil : blank g [];
  blank_app a b : blank g a -> blank g b -> blank g (a ++ b);
  blank_indentation : blank g indentation;
  blank_line : blank g line_blank;
  colon_law : exists a b, blank g a /\ blank g b /\ colon_symbol = a ++ CH ":" :: b;
  null_law : null_symbol = null_token g;
  real_law d : real_text d = real_token g d;
  string_law s : quoted_text_of s = string_token g s;
  name_law k : quoted_name k = name_token g k;
  append_law t s : printed text indent_of t s (append_text t s) /\ childValues_ (append_text t s) = childValues_ s;
  set_childValues_law l s :
    printed text indent_of [] s (set_childValues l s) /\ childValues_ (set_childValues l s) = l;
  set_addChildValues_law b s :
    text (set_addChildValues b s) = text s /\ indent_of (set_addChildValues b s) = indent_of s /\
    childValues_ (set_addChildValues b s) = childValues_ s /\ addChildValues_ (set_addChildValues b s) = b;
  with_indent_law t :
    prints text indent_of (blank g) (writeWithIndent t) (fun u => exists sp, blank g sp /\ u = sp ++ t);
  before_law : prints text indent_of (blank g) before_element (blank g);
  after_law : prints text indent_of (blank g) after_element (blank g);
  comment_before_law v : silent v -> prints text indent_of (blank g) (writeCommentBeforeValue v) (blank g);
  comment_after_law v : silent v -> prints text indent_of (blank g) (writeCommentAfterValueOnSameLine v) (blank g);
  indent_law s : runs indent s (fun _ s' => text s' = text s /\ indent_of s' = indent_of s ++ indentation /\
    childValues_ s' = childValues_ s /\ addChildValues_ s' = addChildValues_ s);
  unindent_law i s : indent_of s = i ++ indentation ->
    runs unindent s (fun _ s' => text s' = text s /\ indent_of s' = i /\
      childValues_ s' = childValues_ s /\ addChildValues_ s' = addChildValues_ s)
}.

(** ** The walk prints a layout *)

(** What every value of the tree must be: no text of its comments, integers of
    their types, a number of members that [size] can tell. *)
Definition small_object (v : Value) : Prop := Z.of_nat (length (object_map v)) < 2 ^ 32.

Section walk.
Context {S : Type} `{Style S} (g : Tokens) `{!StyleLaws S g}.

Abbreviation printed := (printed text indent_of).
Abbreviation elements_of m k n := (map (fun i => item m (Z.of_nat i)) (seq k n)).
Abbreviation members_of m ks := (map (fun name => (name, field m name)) ks).

(** Printing goes on: the blanks [sp], then a text with [P]. *)
Definition spaced (P : bytes -> Prop) (t : bytes) : Prop := exists sp u, blank g sp /\ P u /\ t = sp ++ u.

(** A value that an array on one line may hold. *)
Definition inline (v : Value) : Prop := (isArray v || isObject v) && negb (empty v) = false.

(** Between two values of a document. *)
Record ready (s : S) : Prop := {
  ready_indent : blank g (indent_of s);
  ready_add : addChildValues_ s = false;
  ready_lines : keep_lines = true -> childValues_ s = []
}.

Definition styled (v : Value) : Prop :=
  (forall s, ready s -> runs (style_value v) s (fun _ s' => exists t, spaced (layout g v) t /\ printed t s s' /\ ready s')) /\
  (inline v -> forall s, addChildValues_ s = true ->
     runs (style_value v) s (fun _ s' => exists t, layout g v t /\ printed [] s s' /\
       childValues_ s' = childValues_ s ++ [t])).

Lemma printed_ready t s s' : printed t s s' -> childValues_ s' = childValues_ s -> ready s -> ready s'.
Proof. intros [_ Hi Ha] Hc []. split; [by rewrite Hi|by rewrite Ha|by rewrite Hc]. Qed.

Lemma runs_out t s : ready s ->
  runs (out t) s (fun _ s' => printed t s s' /\ childValues_ s' = childValues_ s /\ ready s').
Proof.
  intros Hr. eexists _, _. split; [reflexivity|]. destruct (append_law t s) as [Hp Hc].
  split; [done|]. split; [done|]. by eapply printed_ready.
Qed.

Lemma runs_prints m P s : prints text indent_of (blank g) m P -> ready s ->
  runs m s (fun _ s' => exists t, P t /\ printed t s s' /\ childValues_ s' = childValues_ s /\ ready s').
Proof.
  intros Hm Hr. eapply runs_mono; [apply Hm, Hr|]. cbv beta. intros _ s' (t & Ht & Hp & Hc).
  exists t. split; [done|]. split; [done|]. split; [done|]. by eapply printed_ready.
Qed.

Lemma styled_push v t : (forall s, style_value v s = pushValue t s) -> layout g v t -> styled v.
Proof.
  intros Hv Ht. split.
  - intros s Hr. destruct (runs_out t s Hr) as ([] & s' & E & Hp & _ & Hr'). exists tt, s'. split.
    + rewrite Hv. unfold pushValue. by rewrite get_bind, (ready_add _ Hr).
    + exists t. split; [by exists [], t; repeat split; [apply blank_nil|]|]. by split.
  - intros _ s Hs. eexists tt, _. split; [rewrite Hv; unfold pushValue; rewrite get_bind, Hs; reflexivity|].
    exists t. split; [done|]. apply set_childValues_law.
Qed.

Lemma write_item_child m i : write_child i (om_map style_value m) = style_value (item m i).
Proof. unfold write_child, item. rewrite om_find_om_map. by destruct (om_find i m). Qed.
Lemma write_field_child m k : write_child (CZString k) (om_map style_value m) = style_value (field m k).
Proof. unfold write_child, field. rewrite om_find_om_map. by destruct (om_find _ m). Qed.

Lemma index_const_item v m i : value_ v = PArray m -> index_const i v = Ret (item m i).
Proof. destruct v as [pl ? ? ?]. simpl. by intros ->. Qed.
Lemma key_const_field v m k : value_ v = PObject m -> key_const k v = Ret (field m k).
Proof. destruct v as [pl ? ? ?]. simpl. by intros ->. Qed.

(** *** Arrays tried on one line *)

Lemma has_container_inline v m n k :
  value_ v = PArray m ->
  exists b, has_container v n (Z.of_nat k) = Ret b /\ (b = false -> Forall inline (elements_of m k n)).
Proof.
  intros Hv. revert k. induction n as [|n IH]; intros k; cbn [has_container]; [by exists false; split|].
  rewrite (index_const_item v m) by done. rewrite Ret_bind.
  destruct (_ && _) eqn:E; [by exists true|]. replace (Z.of_nat k + 1) with (Z.of_nat (Datatypes.S k)) by lia.
  destruct (IH (Datatypes.S k)) as (b & Hb & Hi). exists b. split; [done|]. intros ->. constructor; auto.
Qed.

Lemma measure_children v m n k ml ll s :
  value_ v = PArray m -> Forall styled (elements_of m k n) -> Forall inline (elements_of m k n) ->
  addChildValues_ s = true -> length (childValues_ s) = k ->
  runs (measure v (om_map style_value m) n (Z.of_nat k) ml ll) s (fun _ s' =>
    printed [] s s' /\ exists ts, Forall2 (layout g) (elements_of m k n) ts /\ childValues_ s' = childValues_ s ++ ts).
Proof.
  intros Hv. revert k ml ll s. induction n as [|n IH]; intros k ml ll s Hf Hi Ha Hk; cbn [measure].
  - apply runs_ret. split; [apply printed_nil|]. exists []. split; [constructor|]. by rewrite app_nil_r.
  - cbn [seq map] in Hf, Hi. apply Forall_cons in Hf as [[_ Hx] Hf], Hi as [Hix Hi].
    eapply runs_run; [by apply index_const_item|]. rewrite write_item_child.
    eapply runs_bind; [by apply (Hx Hix s Ha)|]. cbv beta. intros _ s1 (t & Ht & Hp & Hc).
    apply runs_get. rewrite Hc. eapply runs_run.
    { unfold child_text. rewrite Nat2Z.id, lookup_app_r, Hk, Nat.sub_diag by lia. done. }
    replace (Z.of_nat k + 1) with (Z.of_nat (Datatypes.S k)) by lia.
    eapply runs_mono; [apply IH; [done|done| |]|].
    + by rewrite (printed_add _ _ _ _ _ Hp).
    + rewrite Hc, length_app. simpl. lia.
    + intros _ s2 (Hp2 & ts & Hts & Hc2). split; [by apply (printed_trans _ _ [] [] s s1)|].
      exists (t :: ts). split; [by constructor|]. by rewrite Hc2, Hc, <- app_assoc.
Qed.

Lemma isMultilineArray_children v m s :
  value_ v = PArray m -> Forall styled (items v) -> addChildValues_ s = false ->
  runs (isMultilineArray v (om_map style_value m)) s (fun b s' =>
    printed [] s s' /\ (b = true /\ childValues_ s' = [] \/ Forall2 (layout g) (items v) (childValues_ s'))).
Proof.
  intros Hv Hf Ha. unfold isMultilineArray. apply runs_put.
  destruct (set_childValues_law [] s) as [Hp0 Hc0]. set (s0 := set_childValues [] s) in *.
  unfold items in *. rewrite Hv in *.
  destruct (has_container_inline v m (Z.to_nat (size v)) 0 Hv) as (b & Hb & Hin). change (Z.of_nat 0) with 0 in Hb.
  eapply (runs_bind _ _ _ (fun b' s' => s' = s0 /\ (b' = false -> Forall inline (elements_of m 0 (Z.to_nat (size v)))))).
  { destruct (_ <=? _); [by apply runs_ret|]. exists b, s0. split; [unfold run; by rewrite Hb|by split]. }
  cbv beta. intros [] s1 [-> Hinl]; cbn [negb].
  { apply runs_ret. split; [done|]. left. by split. }
  specialize (Hinl eq_refl). apply runs_put.
  destruct (set_addChildValues_law true s0) as (Ht1 & Hi1 & Hc1 & Ha1). set (s1 := set_addChildValues true s0) in *.
  eapply runs_bind.
  { apply (measure_children v m _ 0); [done..|]. by rewrite Hc1, Hc0. }
  cbv beta. intros [ml ll] s2 (Hp2 & ts & Hts & Hc2). apply runs_put.
  destruct (set_addChildValues_law false s2) as (Ht3 & Hi3 & Hc3 & Ha3). set (s3 := set_addChildValues false s2) in *.
  apply runs_ret. split.
  { destruct Hp0 as [Ht0 ? ?], Hp2 as [Ht2 ? ?]. rewrite app_nil_r in *. split; [rewrite app_nil_r|..]; congruence. }
  right. rewrite Hc3, Hc2, Hc1, Hc0. done.
Qed.

Lemma elements_join l ts :
  Forall2 (layout g) l ts -> l <> [] ->
  elements g l (join_texts (STR "," ++ line_blank) ts ++ line_blank).
Proof.
  intros Hl. induction Hl as [|x t l ts Hx Hl IH]; intros Hne; [done|]. clear Hne. destruct Hl as [|y u l ts Hy Hl].
  - apply elements_one; [done|apply blank_line].
  - specialize (IH ltac:(done)).
    change (join_texts (STR "," ++ line_blank) (t :: u :: ts)) with
      (t ++ (STR "," ++ line_blank) ++ join_texts (STR "," ++ line_blank) (u :: ts)).
    rewrite <- !app_assoc. by apply (elements_cons g x _ t [] line_blank); [|apply blank_nil|apply blank_line|].
Qed.

(** *** One element or member per line *)

(** Close a goal with a fact that differs in the association of the texts. *)
Ltac reassociate H :=
  let E := fresh in pose proof H as E; repeat first [rewrite <- app_assoc in E | progress cbn [app] in E];
  repeat first [rewrite <- app_assoc | progress cbn [app]]; exact E.

Lemma spaced_app P Q sp t : blank g sp -> spaced P t -> (forall u, P u -> Q u) -> spaced Q (sp ++ t).
Proof.
  intros Hsp (sp' & u & Hsp' & Hu & ->) HQ. exists (sp ++ sp'), u. rewrite app_assoc.
  split; [by apply blank_app|]. by split; [apply HQ|].
Qed.

(** A line of [array_lines]: the comment before the element of index [k], and
    the element, from [childValues_] or written now. *)
Lemma array_line m k has s (K : ST S unit) (R : unit -> S -> Prop) :
  let x := item m (Z.of_nat k) in
  styled x -> silent x -> ready s ->
  (has = true -> exists t, childValues_ s !! k = Some t /\ layout g x t) ->
  (forall sp t sp' s', blank g sp -> layout g x t -> blank g sp' -> printed (sp ++ t ++ sp') s s' -> ready s' ->
     (has = true -> childValues_ s' = childValues_ s) -> runs K s' R) ->
  runs (_ ← writeCommentBeforeValue x;
        _ ← (if has : bool then
               l ← get childValues_;
               t ← run (child_text l (Z.of_nat k));
               writeWithIndent t
             else
               _ ← before_element;
               _ ← write_child (Z.of_nat k) (om_map style_value m);
               after_element);
        K) s R.
Proof.
  intros x [Hx _] Hsx Hr Hhas HK.
  eapply runs_bind; [by apply runs_prints; [apply comment_before_law|]|].
  cbv beta. intros _ s0 (sp0 & Hsp0 & Hp0 & Hc0 & Hr0). destruct has; [|clear Hhas].
  - destruct (Hhas eq_refl) as (t & Ht & Hl). eapply runs_bind.
    { apply runs_get. eapply runs_run; [unfold child_text; rewrite Nat2Z.id, Hc0, Ht; reflexivity|].
      by apply runs_prints; [apply with_indent_law|]. }
    cbv beta. intros _ s' (u & (sp & Hsp & ->) & Hp & Hc & Hr').
    apply (HK (sp0 ++ sp) t []); [by apply blank_app|done|apply blank_nil| |done|by rewrite Hc, Hc0].
    rewrite app_nil_r, <- app_assoc. by eapply printed_trans.
  - eapply (runs_bind _ _ _ (fun _ s' => exists sp t sp', blank g sp /\ spaced (layout g x) t /\ blank g sp' /\
      printed (sp ++ t ++ sp') s0 s' /\ ready s')).
    { eapply runs_bind; [by apply runs_prints; [apply before_law|]|]. cbv beta. intros _ s1 (sp1 & Hsp1 & Hp1 & _ & Hr1).
      rewrite write_item_child. eapply runs_bind; [by apply Hx|].
      cbv beta. intros _ s2 (t & Ht & Hp2 & Hr2).
      eapply runs_mono; [by apply runs_prints; [apply after_law|]|].
      cbv beta. intros _ s3 (sp3 & Hsp3 & Hp3 & _ & Hr3). exists sp1, t, sp3.
      split; [done|]. split; [done|]. split; [done|]. split; [|done]. by do 2 (eapply printed_trans; [done|]). }
    cbv beta. intros _ s' (sp1 & t & sp3 & Hsp1 & (sp2 & u & Hsp2 & Hu & ->) & Hsp3 & Hp & Hr').
    apply (HK (sp0 ++ sp1 ++ sp2) u sp3); [by repeat apply blank_app|done|done| |done|done].
    rewrite <- !app_assoc in *. by eapply printed_trans.
Qed.

Lemma array_lines_eq v (writes : list (Z * ST S unit)) has n k :
  array_lines v writes has (Datatypes.S n) k =
  (childValue ← run (index_const k v);
   _ ← writeCommentBeforeValue childValue;
   _ ← (if has : bool then
          l ← get childValues_;
          t ← run (child_text l k);
          writeWithIndent t
        else
          _ ← before_element;
          _ ← write_child k writes;
          after_element);
   _ ← (if bool_decide (n = O) then mret tt else out (STR ","));
   _ ← writeCommentAfterValueOnSameLine childValue;
   array_lines v writes has n (k + 1)).
Proof. done. Qed.

Lemma array_lines_elements v m has n k s :
  value_ v = PArray m ->
  Forall styled (elements_of m k (Datatypes.S n)) -> Forall silent (elements_of m k (Datatypes.S n)) -> ready s ->
  (has = true -> Forall2 (layout g) (elements_of m k (Datatypes.S n)) (drop k (childValues_ s))) ->
  runs (array_lines v (om_map style_value m) has (Datatypes.S n) (Z.of_nat k)) s (fun _ s' =>
    exists t, spaced (elements g (elements_of m k (Datatypes.S n))) t /\ printed t s s' /\ ready s').
Proof.
  intros Hv. revert k s. induction n as [|n IH]; intros k s [Hx Hf]%Forall_cons [Hsx Hs]%Forall_cons Hr Hhas.
  all: assert (has = true -> exists t, childValues_ s !! k = Some t /\ layout g (item m (Z.of_nat k)) t) as Hhere
    by (intros E; destruct (Forall2_cons_inv_l _ _ _ _ (Hhas E)) as (t & ts & Ht & Hts & Hd); exists t; split; [|done];
        by rewrite <- (Nat.add_0_r k), <- lookup_drop, Hd).
  all: rewrite array_lines_eq; eapply runs_run; [by apply index_const_item|]; apply array_line; [done..|].
  all: intros sp t sp' s1 Hsp Ht Hsp' Hp1 Hr1 Hc1.
  - apply runs_skip. eapply runs_bind; [by apply runs_prints; [apply comment_after_law|]|].
    cbv beta. intros _ s2 (sp2 & Hsp2 & Hp2 & _ & Hr2).
    apply runs_ret. exists (sp ++ t ++ sp' ++ sp2). split; [|split; [|done]].
    + exists sp, (t ++ sp' ++ sp2). split; [done|]. split; [|done]. apply elements_one; [done|by apply blank_app].
    + reassociate (printed_trans _ _ _ _ _ _ _ Hp1 Hp2).
  - eapply runs_bind; [by apply runs_out|]. cbv beta. intros _ s2 (Hp2 & Hc2 & Hr2).
    pose proof (printed_trans _ _ _ _ _ _ _ Hp1 Hp2) as Hp12.
    eapply runs_bind; [by apply runs_prints; [apply comment_after_law|]|].
    cbv beta. intros _ s3 (sp3 & Hsp3 & Hp3 & Hc3 & Hr3).
    pose proof (printed_trans _ _ _ _ _ _ _ Hp12 Hp3) as Hp.
    replace (Z.of_nat k + 1) with (Z.of_nat (Datatypes.S k)) by lia.
    eapply runs_mono; [apply IH; [done|done|done|]|].
    + intros E. rewrite Hc3, Hc2, (Hc1 E).
      destruct (Forall2_cons_inv_l _ _ _ _ (Hhas E)) as (t' & ts & Ht' & Hts & Hd).
      replace (drop (Datatypes.S k) (childValues_ s)) with ts; [done|].
      by rewrite <- Nat.add_1_r, <- drop_drop, Hd.
    + cbv beta. intros _ s4 (t4 & (sp4 & body & Hsp4 & He & ->) & Hp4 & Hr4).
      exists (sp ++ t ++ sp' ++ CH "," :: (sp3 ++ sp4) ++ body). split; [|split; [|done]].
      * exists sp, (t ++ sp' ++ CH "," :: (sp3 ++ sp4) ++ body). split; [done|]. split; [|done].
        by apply elements_cons; [| |apply blank_app|].
      * reassociate (printed_trans _ _ _ _ _ _ _ Hp Hp4).
Qed.

(** Between the brackets. *)
Lemma bracketed (m : ST S unit) (P : bytes -> Prop) op cl s :
  (forall s0, ready s0 -> childValues_ s0 = childValues_ s ->
     runs m s0 (fun _ s' => exists t, spaced P t /\ printed t s0 s' /\ ready s')) -> ready s ->
  runs (_ ← writeWithIndent [op];
        _ ← indent;
        _ ← m;
        _ ← unindent;
        writeWithIndent [cl]) s (fun _ s' => exists sp sp1 body sp2, blank g sp /\ blank g sp1 /\ P body /\ blank g sp2 /\
          printed (sp ++ op :: (sp1 ++ body ++ sp2) ++ [cl]) s s' /\ ready s').
Proof.
  intros Hm Hr. eapply runs_bind; [by apply runs_prints; [apply with_indent_law|]|].
  cbv beta. intros _ s1 (t1 & (sp & Hsp & ->) & Hp1 & Hc1 & Hr1).
  eapply runs_bind; [apply indent_law|]. cbv beta. intros _ s2 (Ht2 & Hi2 & Hc2 & Ha2).
  eapply runs_bind.
  { apply Hm; [|congruence].
    split; [rewrite Hi2; apply blank_app; [apply Hr1|apply blank_indentation]|by rewrite Ha2; apply Hr1|].
    rewrite Hc2. apply Hr1. }
  cbv beta. intros _ s3 (t3 & (sp1 & body & Hsp1 & Hbody & ->) & [Ht3 Hi3 Ha3] & Hr3).
  eapply runs_bind; [apply (unindent_law (indent_of s1)); by rewrite Hi3|].
  cbv beta. intros _ s4 (Ht4 & Hi4 & Hc4 & Ha4).
  assert (ready s4) as Hr4.
  { split; [rewrite Hi4; apply Hr1|rewrite Ha4; apply Hr3|rewrite Hc4; apply Hr3]. }
  assert (printed (sp1 ++ body) s1 s4) as Hp4 by (split; congruence).
  eapply runs_mono; [by apply runs_prints; [apply with_indent_law|]|].
  cbv beta. intros _ s5 (t5 & (sp5 & Hsp5 & ->) & Hp5 & _ & Hr5).
  exists sp, sp1, body, sp5. repeat (split; [done|]). split; [|done].
  reassociate (printed_trans _ _ _ _ _ _ _ (printed_trans _ _ _ _ _ _ _ Hp1 Hp4) Hp5).
Qed.

(** *** Arrays *)

Lemma size_items v m : value_ v = PArray m -> items v = elements_of m 0 (Z.to_nat (size v)).
Proof. intros Hv. unfold items. by rewrite Hv. Qed.

Lemma size_nonneg v : 0 <= size v.
Proof.
  assert (forall z, 0 <= u32 z) as Hu by (intros z; apply Z.mod_pos_bound; done).
  unfold size. destruct (value_ v); try done. by destruct (om_last _) as [[]|].
Qed.

(** The text of a container between two blanks is spaced. *)
Lemma spaced_layout v sp t : blank g sp -> layout g v t -> spaced (layout g v) (sp ++ t).
Proof. intros Hsp Ht. by exists sp, t. Qed.

(** The two ways to write a nonempty array. *)
Lemma array_multiline v m n s :
  value_ v = PArray m -> Z.to_nat (size v) = Datatypes.S n -> Forall styled (items v) -> Forall silent (items v) ->
  ready s -> (childValues_ s = [] \/ Forall2 (layout g) (items v) (childValues_ s)) ->
  runs (_ ← writeWithIndent (STR "[");
        _ ← indent;
        l ← get childValues_;
        _ ← array_lines v (om_map style_value m) (negb (bool_decide (l = []))) (Z.to_nat (size v)) 0;
        _ ← unindent;
        writeWithIndent (STR "]")) s (fun _ s' => exists t, spaced (layout g v) t /\ printed t s s' /\ ready s').
Proof.
  intros Hv Hn Hf Hs Hr Hc. rewrite (size_items v m Hv), Hn in Hf, Hs, Hc.
  eapply runs_mono.
  - refine (bracketed (l ← get childValues_;
              array_lines v (om_map style_value m) (negb (bool_decide (l = []))) (Z.to_nat (size v)) 0)
      (elements g (items v)) (CH "[") (CH "]") s _ Hr).
    intros s0 Hr0 Hc0. apply (runs_get childValues_ (fun l => array_lines v (om_map style_value m)
      (negb (bool_decide (l = []))) (Z.to_nat (size v)) 0)).
    rewrite (size_items v m Hv), Hn. apply (array_lines_elements v m _ n 0); [done..|].
    rewrite Hc0, negb_true_iff, bool_decide_eq_false. intros Hne. by destruct Hc.
  - cbv beta. intros _ s' (sp & sp1 & body & sp2 & Hsp & Hsp1 & Hb & Hsp2 & Hp & Hr').
    exists (sp ++ CH "[" :: (sp1 ++ body ++ sp2) ++ [CH "]"]). split; [|by split].
    apply spaced_layout; [done|]. apply layout_array; [done|]. apply elements_pad; [apply blank_app|done|done].
Qed.

Lemma array_one_line v ts : Forall2 (layout g) (items v) ts -> items v <> [] ->
  layout g v (STR "[" ++ line_blank ++ join_texts (STR "," ++ line_blank) ts ++ line_blank ++ STR "]").
Proof.
  intros Hts Hne. pose proof (elements_join _ _ Hts Hne) as He.
  pose proof (layout_array g v line_blank _ blank_line He) as Hl. rewrite <- !app_assoc in Hl. exact Hl.
Qed.

Lemma styled_array v m : value_ v = PArray m -> Forall styled (items v) -> Forall silent (items v) -> styled v.
Proof.
  intros Hv Hf Hs. pose proof (size_nonneg v) as H0.
  assert (forall s, style_value v s = writeArrayValue v (om_map style_value m) s) as Heq
    by (destruct v as [pl ? ? ?]; simpl in Hv; by subst pl).
  assert (isArray v = true) as Ha by (unfold isArray, is_type, type; by rewrite Hv).
  destruct (Z.to_nat (size v)) as [|n] eqn:En.
  { assert (size v = 0) as Hz by lia. apply (styled_push v (STR "[]")).
    - intros s. rewrite Heq. unfold writeArrayValue. by rewrite Hz.
    - apply (layout_array_nil g v []); [done| |apply blank_nil]. by rewrite (size_items v m Hv), En. }
  assert ((size v =? 0) = false) as Hz by (apply Z.eqb_neq; lia).
  assert (items v <> []) as Hne by (by rewrite (size_items v m Hv), En).
  split.
  - intros s Hr. eapply runs_ext; [apply Heq|]. unfold writeArrayValue. rewrite Hz. destruct keep_lines eqn:Ek.
    + apply runs_skip. apply (array_multiline v m n); try done. left. by apply Hr.
    + eapply runs_bind; [by apply isMultilineArray_children; [| |apply Hr]|].
      cbv beta. intros b s1 (Hp1 & Hc).
      assert (ready s1) as Hr1.
      { destruct Hp1 as [_ Hi1 Ha1]. split; [rewrite Hi1; apply Hr|rewrite Ha1; apply Hr|by rewrite Ek]. }
      destruct b.
      * eapply runs_mono; [apply (array_multiline v m n); try done|].
        { destruct Hc as [[_ Hc]|Hc]; [by left|by right]. }
        cbv beta. intros _ s' (t & Ht & Hp & Hr'). exists t. split; [done|]. split; [|done].
        by eapply printed_after.
      * destruct Hc as [[[=] _]|Hc]. apply runs_get. eapply runs_run.
        { rewrite (proj2 (Z.eqb_eq _ _)); [reflexivity|]. rewrite <- (Forall2_length _ _ _ Hc), (size_items v m Hv).
          rewrite length_map, length_seq. lia. }
        eapply runs_mono; [by apply runs_out|]. cbv beta. intros _ s' (Hp & _ & Hr').
        eexists. split; [|split; [eapply printed_after; [exact Hp1|exact Hp]|done]].
        apply (spaced_layout v []); [apply blank_nil|by apply array_one_line].
  - unfold inline, empty. rewrite Ha, orb_true_r. cbn [orb]. rewrite Hz. done.
Qed.

(** *** Objects *)

Lemma object_lines_eq v (writes : list (bytes * ST S unit)) k ks :
  object_lines v writes (k :: ks) =
  (childValue ← run (key_const k v);
   _ ← writeCommentBeforeValue childValue;
   _ ← writeWithIndent (quoted_name k);
   _ ← out colon_symbol;
   _ ← write_child (CZString k) writes;
   _ ← (if bool_decide (ks = []) then mret tt else out (STR ","));
   _ ← writeCommentAfterValueOnSameLine childValue;
   object_lines v writes ks).
Proof. done. Qed.

(** A line of [object_lines], up to the comma. *)
Lemma object_line m k s (K : ST S unit) (R : unit -> S -> Prop) :
  let x := field m k in
  styled x -> silent x -> ready s ->
  (forall sp a b t s', blank g sp -> blank g a -> blank g b -> layout g x t ->
     printed (sp ++ name_token g k ++ a ++ CH ":" :: b ++ t) s s' -> ready s' -> runs K s' R) ->
  runs (_ ← writeCommentBeforeValue x;
        _ ← writeWithIndent (quoted_name k);
        _ ← out colon_symbol;
        _ ← write_child (CZString k) (om_map style_value m);
        K) s R.
Proof.
  intros x [Hx _] Hsx Hr HK. destruct colon_law as (a & b & Hblank_a & Hblank_b & Hcolon).
  eapply runs_bind; [by apply runs_prints; [apply comment_before_law|]|].
  cbv beta. intros _ s1 (sp1 & Hsp1 & Hp1 & _ & Hr1).
  eapply runs_bind; [by apply runs_prints; [apply with_indent_law|]|].
  cbv beta. intros _ s2 (t2 & (sp2 & Hsp2 & ->) & Hp2 & _ & Hr2). rewrite name_law in Hp2.
  eapply runs_bind; [by apply runs_out|]. cbv beta. intros _ s3 (Hp3 & _ & Hr3). rewrite Hcolon in Hp3.
  rewrite write_field_child. eapply runs_bind; [by apply Hx|].
  cbv beta. intros _ s4 (t4 & (sp4 & u & Hsp4 & Hu & ->) & Hp4 & Hr4).
  apply (HK (sp1 ++ sp2) a (b ++ sp4) u); try done; [by apply blank_app|by apply blank_app|].
  reassociate (printed_trans _ _ _ _ _ _ _ (printed_trans _ _ _ _ _ _ _ (printed_trans _ _ _ _ _ _ _ Hp1 Hp2) Hp3) Hp4).
Qed.

Lemma object_lines_members v m k ks s :
  value_ v = PObject m ->
  Forall (fun kv => styled kv.2) (members_of m (k :: ks)) -> Forall (fun kv => silent kv.2) (members_of m (k :: ks)) ->
  ready s ->
  runs (object_lines v (om_map style_value m) (k :: ks)) s (fun _ s' =>
    exists t, spaced (members g (members_of m (k :: ks))) t /\ printed t s s' /\ ready s').
Proof.
  intros Hv. revert k s. induction ks as [|k2 ks IH]; intros k s [Hx Hf]%Forall_cons [Hsx Hs]%Forall_cons Hr;
    rewrite object_lines_eq; (eapply runs_run; [by apply key_const_field|]); apply object_line; try done;
    intros sp a b t s1 Hsp Ha Hb Ht Hp1 Hr1.
  - apply runs_skip. eapply runs_bind; [by apply runs_prints; [apply comment_after_law|]|].
    cbv beta. intros _ s2 (sp2 & Hsp2 & Hp2 & _ & Hr2).
    apply runs_ret. exists (sp ++ name_token g k ++ a ++ CH ":" :: b ++ t ++ sp2). split; [|split; [|done]].
    + eexists sp, _. split; [done|]. split; [|reflexivity]. by apply members_one.
    + reassociate (printed_trans _ _ _ _ _ _ _ Hp1 Hp2).
  - eapply runs_bind; [by apply runs_out|]. cbv beta. intros _ s2 (Hp2 & _ & Hr2).
    eapply runs_bind; [by apply runs_prints; [apply comment_after_law|]|].
    cbv beta. intros _ s3 (sp3 & Hsp3 & Hp3 & _ & Hr3).
    pose proof (printed_trans _ _ _ _ _ _ _ (printed_trans _ _ _ _ _ _ _ Hp1 Hp2) Hp3) as Hp.
    eapply runs_mono; [by apply IH|].
    cbv beta. intros _ s4 (t4 & (sp4 & body & Hsp4 & He & ->) & Hp4 & Hr4).
    exists (sp ++ name_token g k ++ a ++ CH ":" :: b ++ t ++ [] ++ CH "," :: (sp3 ++ sp4) ++ body). split; [|split; [|done]].
    + eexists sp, _. split; [done|]. split; [|reflexivity].
      by apply (members_cons g k (field m k)); [| | |apply blank_nil|apply blank_app|].
    + reassociate (printed_trans _ _ _ _ _ _ _ Hp Hp4).
Qed.

Lemma fields_names v m : value_ v = PObject m -> fields v = members_of m (om_keys m).
Proof. intros Hv. unfold fields. by rewrite Hv. Qed.

Lemma styled_object v m :
  value_ v = PObject m -> small_object v -> Forall (fun kv => styled kv.2) (fields v) ->
  Forall (fun kv => silent kv.2) (fields v) -> styled v.
Proof.
  intros Hv Hsmall Hf Hs. rewrite (fields_names v m Hv) in Hf, Hs.
  assert (forall s, style_value v s = writeObjectValue v (om_map style_value m) s) as Heq
    by (destruct v as [pl ? ? ?]; simpl in Hv; by subst pl).
  assert (isObject v = true) as Ho by (unfold isObject, is_type, type; by rewrite Hv).
  assert (getMemberNames v = Ret (om_keys m)) as Hnames
    by (destruct v as [pl ? ? ?]; simpl in Hv; by subst pl).
  destruct (om_keys m) as [|k ks] eqn:Ek.
  { apply (styled_push v (STR "{}")).
    - intros s. rewrite Heq. unfold writeObjectValue, run. by rewrite Hnames.
    - apply (layout_object_nil g v []); [done| |apply blank_nil]. by rewrite (fields_names v m Hv), Ek. }
  split.
  - intros s Hr. eapply runs_ext; [apply Heq|]. unfold writeObjectValue. eapply runs_run; [done|]. rewrite bool_decide_eq_false_2 by done.
    eapply runs_mono.
    + apply (bracketed (object_lines v (om_map style_value m) (k :: ks)) (members g (members_of m (k :: ks)))
        (CH "{") (CH "}") s); [|done]. intros s0 Hr0 _. by apply object_lines_members.
    + cbv beta. intros _ s' (sp & sp1 & body & sp2 & Hsp & Hsp1 & Hb & Hsp2 & Hp & Hr').
      exists (sp ++ CH "{" :: (sp1 ++ body ++ sp2) ++ [CH "}"]). split; [|by split].
      apply spaced_layout; [done|]. apply layout_object; [done|]. rewrite (fields_names v m Hv), Ek.
      apply members_pad; [apply blank_app|done|done].
  - unfold inline, empty, size, small_object, object_map in *. rewrite Ho, !orb_true_r, Hv in *. cbn [andb].
    rewrite negb_false_iff, Z.eqb_eq. unfold u32. rewrite Z.mod_small by lia.
    assert (length (om_keys m) = length m) as Hlen by apply length_map. rewrite Ek in Hlen. simpl in Hlen. lia.
Qed.

(** *** The walk *)

Lemma styled_value v : every number_ok v -> every small_object v -> every silent v -> styled v.
Proof.
  induction v as [v Hi Hf] using Value_children_ind. intros Hn Hsm Hsl.
  destruct (every_children number_ok v I Hn) as [Hni Hnf].
  destruct (every_children small_object v ltac:(done) Hsm) as [Hsi Hsf].
  destruct (every_children silent v silent_null Hsl) as [Hli Hlf].
  assert (Forall styled (items v)) as Hi'.
  { rewrite !Forall_forall in *. auto. }
  assert (Forall (fun kv => styled kv.2) (fields v)) as Hf'.
  { rewrite !Forall_forall in *. auto. }
  assert (Forall silent (items v)) as Hli' by (eapply Forall_impl; [exact Hli|]; intros x; apply every_here).
  assert (Forall (fun kv => silent kv.2) (fields v)) as Hlf'
    by (eapply Forall_impl; [exact Hlf|]; intros x; apply every_here).
  apply every_here in Hn, Hsm. unfold number_ok in Hn.
  destruct v as [[|i|u|d|s0|b|m|m] cm st lm].
  - apply (styled_push _ (null_token g)); [|by apply layout_scalar]. intros s. cbn [style_value value_]. by rewrite null_law.
  - apply (styled_push _ (dec_signed i)); [|by apply layout_scalar].
    intros s. cbn [style_value value_]. rewrite (run_bind _ i) by done. apply run_bind. by apply valueToString_Int_dec.
  - apply (styled_push _ (dec_digits u)); [|by apply layout_scalar].
    intros s. cbn [style_value value_]. rewrite (run_bind _ u) by done. apply run_bind. by apply valueToString_UInt_dec.
  - apply (styled_push _ (real_token g d)); [|by apply layout_scalar].
    intros s. cbn [style_value value_]. rewrite <- real_law. done.
  - apply (styled_push _ (string_token g s0)); [|by apply layout_scalar].
    intros s. cbn [style_value value_]. rewrite <- string_law. done.
  - apply (styled_push _ (valueToString_bool b)); [|by apply layout_scalar]. done.
  - by apply (styled_array _ m).
  - by apply (styled_object _ m).
Qed.

(** Writing a value prints blanks and a layout of it. *)
Lemma style_value_layout v s :
  every number_ok v -> every small_object v -> every silent v -> ready s ->
  runs (style_value v) s (fun _ s' => exists t, spaced (layout g v) t /\ printed t s s' /\ ready s').
Proof. intros Hn Hs Hh. by apply styled_value. Qed.

(** The end of [write]: the value, and two more things that print blanks. *)
Definition document_of (v : Value) (r : bytes) : Prop :=
  exists sp1 t sp2, r = sp1 ++ t ++ sp2 /\ blank g sp1 /\ layout g v t /\ blank g sp2.

Lemma document_layout v m1 m2 s :
  every number_ok v -> every small_object v -> every silent v -> ready s -> blank g (text s) ->
  prints text indent_of (blank g) m1 (blank g) -> prints text indent_of (blank g) m2 (blank g) ->
  runs (_ ← style_value v; _ ← m1; _ ← m2; get text) s (fun r _ => document_of v r).
Proof.
  intros Hn Hs Hh Hr Ht Hm1 Hm2. eapply runs_bind; [by apply style_value_layout|].
  cbv beta. intros _ s1 (t1 & (sp & t & Hsp & Hl & ->) & Hp1 & Hr1).
  eapply runs_bind; [by apply runs_prints|]. cbv beta. intros _ s2 (sp2 & Hsp2 & Hp2 & _ & Hr2).
  eapply runs_bind; [by apply runs_prints|]. cbv beta. intros _ s3 (sp3 & Hsp3 & Hp3 & _).
  exists (text s3), s3. split; [done|]. exists (text s ++ sp), t, (sp2 ++ sp3).
  destruct (printed_trans _ _ _ _ _ _ _ (printed_trans _ _ _ _ _ _ _ Hp1 Hp2) Hp3) as [-> _ _].
  split; [by rewrite <- !app_assoc|]. split; [by apply blank_app|]. split; [done|by apply blank_app].
Qed.
End walk.
