(* ===== verification/JsonStyledFacts.v ===== *)
(** * The readable writers print layouts

    The three classes satisfy the laws of the walk, with two notions of blank
    text: that of the reader for values without comments, and any text for all
    values.  So the writers always return, what they print without comments is
    read back as the tree, and [BuiltStyledStreamWriter] without indentation
    prints what [FastWriter] prints. *)
From S2P Require Export JsonStyledWalk.
Open Scope Z_scope.

(** ** The three classes *)

(** A notion of blank text, closed under concatenation. *)
Record Blank (B : bytes -> Prop) : Prop := {
  Blank_nil : B [];
  Blank_app a b : B a -> B b -> B (a ++ b)
}.

Lemma Blank_spaces : Blank spaces.
Proof. split; [apply spaces_nil|]. intros a b Ha Hb. by apply Forall_app. Qed.

(** Its comments print nothing, or any text counts as blank. *)
Definition hushed (B : bytes -> Prop) (v : Value) : Prop :=
  (forall slot, hasComment slot v = false) \/ (forall t, B t).

Lemma hushed_null B : hushed B Value_null.
Proof. by left. Qed.

Section prints.
Context {S : Type} `{Style S} (text indent_of : S -> bytes) (B : bytes -> Prop) (HB : Blank B).

Lemma prints_ret : prints text indent_of B (mret tt) B.
Proof. intros s _. apply runs_ret. exists []. split; [apply HB|]. split; [apply printed_nil|done]. Qed.

Lemma prints_seq m1 m2 :
  prints text indent_of B m1 B -> prints text indent_of B m2 B -> prints text indent_of B (_ ← m1; m2) B.
Proof.
  intros H1 H2 s Hs. eapply runs_bind; [by apply H1|]. cbv beta. intros _ s1 (t1 & Ht1 & Hp1 & Hc1).
  eapply runs_mono; [apply H2; by rewrite (printed_indent _ _ _ _ _ Hp1)|].
  cbv beta. intros _ s2 (t2 & Ht2 & Hp2 & Hc2). exists (t1 ++ t2). split; [by apply HB|].
  split; [by eapply printed_trans|congruence].
Qed.

(** Blanks, then a text. *)
Lemma prints_then m1 m2 t :
  prints text indent_of B m1 B -> prints text indent_of B m2 (eq t) ->
  prints text indent_of B (_ ← m1; m2) (fun u => exists sp, B sp /\ u = sp ++ t).
Proof.
  intros H1 H2 s Hs. eapply runs_bind; [by apply H1|]. cbv beta. intros _ s1 (t1 & Ht1 & Hp1 & Hc1).
  eapply runs_mono; [apply H2; by rewrite (printed_indent _ _ _ _ _ Hp1)|].
  cbv beta. intros _ s2 (t2 & <- & Hp2 & Hc2). exists (t1 ++ t). split; [by exists t1|].
  split; [by eapply printed_trans|congruence].
Qed.

Lemma prints_if (b : bool) m1 m2 P :
  prints text indent_of B m1 P -> prints text indent_of B m2 P -> prints text indent_of B (if b then m1 else m2) P.
Proof. by destruct b. Qed.

Lemma prints_get {A} (f : S -> A) k P :
  (forall a, prints text indent_of B (k a) P) -> prints text indent_of B (get f ≫= k) P.
Proof. intros Hk s Hs. apply runs_get. by apply Hk. Qed.

Lemma prints_weaken m (P Q : bytes -> Prop) :
  prints text indent_of B m P -> (forall t, P t -> Q t) -> prints text indent_of B m Q.
Proof.
  intros Hm HPQ s Hs. eapply runs_mono; [by apply Hm|]. cbv beta. intros _ s' (t & Ht & Hrest). exists t. auto.
Qed.
End prints.

(** *** [StyledWriter] *)

Definition sw_tokens (B : bytes -> Prop) : Tokens := {|
  blank := B;
  null_token := STR "null";
  real_token := valueToString_real;
  string_token := fun s => valueToQuotedStringN s false;
  name_token := valueToQuotedString
|}.

Section sw.
Context (B : bytes -> Prop) (HB : Blank B) (Hspaces : forall sp, spaces sp -> B sp).

Abbreviation sw_prints := (prints sw_document sw_indentString B).

Lemma sw_out_prints t : sw_prints (sw_out t) (eq t).
Proof. intros s _. exists tt, (sw_append t s). split; [done|]. exists t. done. Qed.

Lemma sw_out_blank t : B t -> sw_prints (sw_out t) B.
Proof. intros Ht. eapply prints_weaken; [apply sw_out_prints|]. by intros ? <-. Qed.

Lemma newline_blank : B [10].
Proof. apply Hspaces. by repeat constructor. Qed.

Lemma sw_writeIndent_prints : sw_prints sw_writeIndent B.
Proof.
  assert (sw_prints (i ← get sw_indentString; sw_out i) B) as Hout.
  { intros s Hs. apply runs_get. by apply sw_out_blank. }
  assert (forall c, sw_prints (_ ← (if negb (c =? 10) then sw_out [10] else mret tt); i ← get sw_indentString; sw_out i) B) as Hnl.
  { intros c. apply prints_seq; [done| |done]. apply prints_if; [apply sw_out_blank, newline_blank|by apply prints_ret]. }
  intros s Hs. unfold sw_writeIndent. apply runs_get, runs_get.
  destruct (last (sw_document s)) as [c|]; [|by apply Hout]. destruct (c =? _); [by apply prints_ret|].
  pose proof (Hnl c s Hs) as Hr. destruct (c =? 10); exact Hr.
Qed.

Lemma sw_comment_chars_prints comment : (forall t, B t) -> sw_prints (sw_comment_chars comment) B.
Proof.
  intros Hall. induction comment as [|c comment IH]; [by apply prints_ret|]. cbn [sw_comment_chars].
  apply prints_seq; [done|by apply sw_out_blank|]. apply prints_seq; [done| |done].
  apply prints_if; [apply sw_writeIndent_prints|by apply prints_ret].
Qed.

Lemma sw_comment_before_prints v : hushed B v -> sw_prints (sw_writeCommentBeforeValue v) B.
Proof.
  unfold sw_writeCommentBeforeValue. intros [Hno|Hall]; [rewrite Hno; by apply prints_ret|].
  apply prints_if; [by apply prints_ret|].
  repeat (apply prints_seq; [done|try by apply sw_out_blank|]).
  - apply sw_writeIndent_prints.
  - by apply sw_comment_chars_prints.
  - by apply sw_out_blank.
Qed.

Lemma sw_comment_after_prints v : hushed B v -> sw_prints (sw_writeCommentAfterValueOnSameLine v) B.
Proof.
  unfold sw_writeCommentAfterValueOnSameLine. intros [Hno|Hall].
  - rewrite !Hno. apply prints_seq; [done|by apply prints_ret..].
  - apply prints_seq; [done|apply prints_if; [by apply sw_out_blank|by apply prints_ret]|].
    apply prints_if; [|by apply prints_ret]. repeat (apply prints_seq; [done|by apply sw_out_blank|]).
    by apply sw_out_blank.
Qed.

#[export] Instance sw_laws : StyleLaws StyledWriter (sw_tokens B).
Proof.
  refine {| text := sw_document; indent_of := sw_indentString; indentation := repeat (CH " ") indentSize_;
            silent := hushed B |}; try done.
  - apply hushed_null.
  - apply HB.
  - apply HB.
  - apply Hspaces. by repeat constructor.
  - apply Hspaces. by repeat constructor.
  - exists (STR " "), (STR " "). split; [|split; [|done]]; apply Hspaces; by repeat constructor.
  - intros l s. split; [|done]. split; [by rewrite app_nil_r|done..].
  - intros t. apply prints_then; [apply sw_writeIndent_prints|apply sw_out_prints].
  - apply sw_writeIndent_prints.
  - by apply prints_ret.
  - apply sw_comment_before_prints.
  - apply sw_comment_after_prints.
  - intros s. by eexists tt, _.
  - intros i s Hi. simpl. unfold sw_unindent, runs. rewrite get_bind, Hi. rewrite length_app, repeat_length.
    rewrite (proj2 (Nat.ltb_ge _ _)) by lia. eexists tt, _. split; [reflexivity|]. split; [done|]. split; [|done].
    simpl. replace (_ + _ - _)%nat with (length i) by lia. apply take_app_length.
Defined.

(** [StyledWriter::write], from any state of the writer. *)
Lemma sw_write_layout v s :
  every number_ok v -> every small_object v -> every (hushed B) v ->
  runs (sw_write v) s (fun r _ => document_of (sw_tokens B) v r).
Proof.
  intros Hn Hs Hh. pose proof (every_here _ _ Hh) as Hv.
  unfold sw_write. apply runs_put. set (s0 := mkStyledWriter (sw_childValues s) [] [] false).
  assert (ready (sw_tokens B) s0) as Hr0 by (split; [exact (Blank_nil B HB)|done..]).
  eapply runs_bind; [by apply (runs_prints (sw_tokens B)); [by apply sw_comment_before_prints|]|].
  cbv beta. intros _ s1 (sp1 & Hsp1 & Hp1 & _ & Hr1).
  unfold sw_writeValue. change sw_document with (text (S := StyledWriter) (g := sw_tokens B)).
  apply (document_layout (sw_tokens B) v (sw_writeCommentAfterValueOnSameLine v) (sw_out [10]) s1); try done.
  - destruct Hp1 as [-> _ _]. exact Hsp1.
  - by apply sw_comment_after_prints.
  - apply sw_out_blank, newline_blank.
Qed.
End sw.

(** *** [StyledStreamWriter] *)

Section ss.
Context (ind : bytes) (B : bytes -> Prop) (HB : Blank B) (Hspaces : forall sp, spaces sp -> B sp) (Hind : B ind).

#[local] Instance ss_here : Style StyledStreamWriter := ss_style ind.
Abbreviation ss_prints := (prints ss_document ss_indentString B).

Lemma ss_out_prints t : ss_prints (ss_out t) (eq t).
Proof. intros s _. exists tt, (ss_append t s). split; [done|]. exists t. done. Qed.

Lemma ss_out_blank t : B t -> ss_prints (ss_out t) B.
Proof. intros Ht. eapply prints_weaken; [apply ss_out_prints|]. by intros ? <-. Qed.

Lemma ss_set_indented_prints b : ss_prints (put (ss_set_indented b)) (eq []).
Proof.
  intros s _. exists tt, (ss_set_indented b s). split; [done|]. exists [].
  split; [done|]. split; [|done]. by split; [rewrite app_nil_r|..].
Qed.

Lemma ss_set_indented_blank b : ss_prints (put (ss_set_indented b)) B.
Proof. eapply prints_weaken; [apply ss_set_indented_prints|]. intros ? <-. apply HB. Qed.

Lemma ss_writeIndent_prints : ss_prints ss_writeIndent B.
Proof.
  intros s Hs. apply runs_get. apply ss_out_blank; [|done].
  apply (Blank_app B HB [10]); [by apply newline_blank|done].
Qed.

Lemma ss_indent_once_prints : ss_prints ss_indent_once B.
Proof. apply prints_get. intros b. apply prints_if; [by apply prints_ret|apply ss_writeIndent_prints]. Qed.

Lemma ss_comment_chars_prints comment : (forall t, B t) -> ss_prints (ss_comment_chars comment) B.
Proof.
  intros Hall. induction comment as [|c comment IH]; [by apply prints_ret|]. cbn [ss_comment_chars].
  apply prints_seq; [done|by apply ss_out_blank|]. apply prints_seq; [done| |done].
  apply prints_if; [|by apply prints_ret]. apply prints_get. intros i. by apply ss_out_blank.
Qed.

Lemma ss_comment_before_prints v : hushed B v -> ss_prints (ss_writeCommentBeforeValue v) B.
Proof.
  unfold ss_writeCommentBeforeValue. intros [Hno|Hall]; [rewrite Hno; by apply prints_ret|].
  apply prints_if; [by apply prints_ret|].
  apply prints_seq; [done|apply ss_indent_once_prints|].
  apply prints_seq; [done|by apply ss_comment_chars_prints|apply ss_set_indented_blank].
Qed.

Lemma ss_comment_after_prints v : hushed B v -> ss_prints (ss_writeCommentAfterValueOnSameLine v) B.
Proof.
  unfold ss_writeCommentAfterValueOnSameLine. intros [Hno|Hall].
  - rewrite !Hno. repeat (apply prints_seq; [done|by apply prints_ret|]). apply ss_set_indented_blank.
  - apply prints_seq; [done|apply prints_if; [by apply ss_out_blank|by apply prints_ret]|].
    apply prints_seq; [done| |apply ss_set_indented_blank]. apply prints_if; [|by apply prints_ret].
    apply prints_seq; [done|apply ss_writeIndent_prints|by apply ss_out_blank].
Qed.

#[local] Instance ss_laws : StyleLaws StyledStreamWriter (sw_tokens B).
Proof.
  refine {| text := ss_document; indent_of := ss_indentString; indentation := ind; silent := hushed B |}; try done.
  - apply hushed_null.
  - apply HB.
  - apply HB.
  - apply Hspaces. by repeat constructor.
  - exists (STR " "), (STR " "). split; [|split; [|done]]; apply Hspaces; by repeat constructor.
  - intros l s. split; [|done]. split; [by rewrite app_nil_r|done..].
  - intros t. apply prints_then; [apply ss_indent_once_prints|].
    intros s Hs. eapply runs_bind; [by apply ss_out_prints|]. cbv beta. intros _ s1 (u & <- & Hp1 & Hc1).
    eapply runs_mono; [apply ss_set_indented_prints; by rewrite (printed_indent _ _ _ _ _ Hp1)|].
    cbv beta. intros _ s2 (u & <- & Hp2 & Hc2). exists t. split; [done|].
    split; [|congruence]. rewrite <- (app_nil_r t). by eapply printed_trans.
  - apply prints_seq; [done|apply ss_indent_once_prints|apply ss_set_indented_blank].
  - apply ss_set_indented_blank.
  - apply ss_comment_before_prints.
  - apply ss_comment_after_prints.
  - intros s. by eexists tt, _.
  - intros i s Hi. simpl. unfold ss_unindent, runs. rewrite get_bind, Hi. rewrite length_app.
    rewrite (proj2 (Nat.ltb_ge _ _)) by lia. eexists tt, _. split; [reflexivity|]. split; [done|]. split; [|done].
    simpl. replace (_ + _ - _)%nat with (length i) by lia. apply take_app_length.
Defined.

(** [StyledStreamWriter::write], from any state of the writer. *)
Lemma ss_write_layout v s :
  every number_ok v -> every small_object v -> every (hushed B) v ->
  runs (ss_write ind v) s (fun r _ => document_of (sw_tokens B) v r).
Proof.
  intros Hn Hs Hh. pose proof (every_here _ _ Hh) as Hv.
  unfold ss_write. apply runs_put. set (s0 := mkStyledStreamWriter (ss_childValues s) [] [] false true).
  assert (ready (sw_tokens B) s0) as Hr0 by (split; [exact (Blank_nil B HB)|done..]).
  eapply runs_bind; [by apply (runs_prints (sw_tokens B)); [by apply ss_comment_before_prints|]|].
  cbv beta. intros _ s1 (sp1 & Hsp1 & Hp1 & _ & Hr1).
  eapply runs_bind; [by apply (runs_prints (sw_tokens B)); [apply ss_indent_once_prints|]|].
  cbv beta. intros _ s2 (sp2 & Hsp2 & Hp2 & _ & Hr2).
  eapply runs_bind; [by apply (runs_prints (sw_tokens B)); [apply ss_set_indented_blank|]|].
  cbv beta. intros _ s3 (sp3 & Hsp3 & Hp3 & _ & Hr3).
  unfold ss_writeValue. change (ss_style ind) with ss_here.
  change ss_document with (text (S := StyledStreamWriter) (g := sw_tokens B)).
  apply (document_layout (sw_tokens B) v (ss_writeCommentAfterValueOnSameLine v) (ss_out [10]) s3); try done.
  - destruct (printed_trans _ _ _ _ _ _ _ (printed_trans _ _ _ _ _ _ _ Hp1 Hp2) Hp3) as [-> _ _].
    apply (Blank_app B HB (sp1 ++ sp2)); [by apply (Blank_app B HB)|done].
  - by apply ss_comment_after_prints.
  - apply ss_out_blank. by apply newline_blank.
Qed.
End ss.

(** *** [BuiltStyledStreamWriter] *)

Definition built_tokens (cfg : BuiltConfig) (B : bytes -> Prop) : Tokens := {|
  blank := B;
  null_token := nullSymbol_ cfg;
  real_token := fun d => valueToString_double d (useSpecialFloats_ cfg) (precision_ cfg) (precisionType_ cfg);
  string_token := fun s => valueToQuotedStringN s (emitUTF8_ cfg);
  name_token := fun k => valueToQuotedStringN k (emitUTF8_ cfg)
|}.

(** What a configuration must print between the tokens. *)
Record BuiltBlank (cfg : BuiltConfig) (B : bytes -> Prop) : Prop := {
  BuiltBlank_indentation : B (indentation_ cfg);
  BuiltBlank_lines : indentation_ cfg <> [] -> B [10] /\ B (STR " ");
  BuiltBlank_colon : exists a b, B a /\ B b /\ colonSymbol_ cfg = a ++ CH ":" :: b;
  BuiltBlank_end : B (endingLineFeedSymbol_ cfg)
}.

(** Comments that are dropped print nothing. *)
Definition built_hushed (cfg : BuiltConfig) (B : bytes -> Prop) (v : Value) : Prop :=
  cs_ cfg = CommentStyle_None \/ hushed B v.

Section bs.
Context (cfg : BuiltConfig) (B : bytes -> Prop) (HB : Blank B) (Hcfg : BuiltBlank cfg B).

#[local] Instance bs_here : Style BuiltStyledStreamWriter := bs_style cfg.
Abbreviation bs_prints := (prints bs_sout bs_indentString B).

Lemma bs_out_prints t : bs_prints (bs_out t) (eq t).
Proof. intros s _. exists tt, (bs_append t s). split; [done|]. exists t. done. Qed.

Lemma bs_out_blank t : B t -> bs_prints (bs_out t) B.
Proof. intros Ht. eapply prints_weaken; [apply bs_out_prints|]. by intros ? <-. Qed.

Lemma bs_set_indented_prints b : bs_prints (put (bs_set_indented b)) (eq []).
Proof.
  intros s _. exists tt, (bs_set_indented b s). split; [done|]. exists [].
  split; [done|]. split; [|done]. by split; [rewrite app_nil_r|..].
Qed.

Lemma bs_set_indented_blank b : bs_prints (put (bs_set_indented b)) B.
Proof. eapply prints_weaken; [apply bs_set_indented_prints|]. intros ? <-. apply HB. Qed.

Lemma bs_writeIndent_prints : bs_prints (bs_writeIndent cfg) B.
Proof.
  intros s Hs. apply runs_get. case_bool_decide as E; [by apply prints_ret|].
  apply bs_out_blank; [|done]. apply (Blank_app B HB [10]); [by apply Hcfg|done].
Qed.

Lemma bs_indent_once_prints : bs_prints (bs_indent_once cfg) B.
Proof. apply prints_get. intros b. apply prints_if; [by apply prints_ret|apply bs_writeIndent_prints]. Qed.

Lemma bs_comment_chars_prints comment : (forall t, B t) -> bs_prints (bs_comment_chars comment) B.
Proof.
  intros Hall. induction comment as [|c comment IH]; [by apply prints_ret|]. cbn [bs_comment_chars].
  apply prints_seq; [done|by apply bs_out_blank|]. apply prints_seq; [done| |done].
  apply prints_if; [|by apply prints_ret]. apply prints_get. intros i. by apply bs_out_blank.
Qed.

Lemma bs_comment_before_prints v : built_hushed cfg B v -> bs_prints (bs_writeCommentBeforeValue cfg v) B.
Proof.
  unfold bs_writeCommentBeforeValue. case_bool_decide as E; [intros _; by apply prints_ret|].
  intros [?|[Hno|Hall]]; [done|rewrite Hno; by apply prints_ret|].
  apply prints_if; [by apply prints_ret|].
  apply prints_seq; [done|apply bs_indent_once_prints|].
  apply prints_seq; [done|by apply bs_comment_chars_prints|apply bs_set_indented_blank].
Qed.

Lemma bs_comment_after_prints v : built_hushed cfg B v -> bs_prints (bs_writeCommentAfterValueOnSameLine cfg v) B.
Proof.
  unfold bs_writeCommentAfterValueOnSameLine. case_bool_decide as E; [intros _; by apply prints_ret|].
  intros [?|[Hno|Hall]]; [done|..].
  - rewrite !Hno. apply prints_seq; [done|by apply prints_ret|by apply prints_ret].
  - apply prints_seq; [done|apply prints_if; [by apply bs_out_blank|by apply prints_ret]|].
    apply prints_if; [|by apply prints_ret].
    apply prints_seq; [done|apply bs_writeIndent_prints|by apply bs_out_blank].
Qed.

#[local] Instance bs_laws : StyleLaws BuiltStyledStreamWriter (built_tokens cfg B).
Proof.
  refine {| text := bs_sout; indent_of := bs_indentString; indentation := indentation_ cfg;
            silent := built_hushed cfg B |}; try done.
  - right. apply hushed_null.
  - apply HB.
  - apply HB.
  - apply Hcfg.
  - simpl. case_bool_decide as E; [apply HB|by apply Hcfg].
  - apply Hcfg.
  - intros l s. split; [|done]. split; [by rewrite app_nil_r|done..].
  - intros t. apply prints_then; [apply bs_indent_once_prints|].
    intros s Hs. eapply runs_bind; [by apply bs_out_prints|]. cbv beta. intros _ s1 (u & <- & Hp1 & Hc1).
    eapply runs_mono; [apply bs_set_indented_prints; by rewrite (printed_indent _ _ _ _ _ Hp1)|].
    cbv beta. intros _ s2 (u & <- & Hp2 & Hc2). exists t. split; [done|].
    split; [|congruence]. rewrite <- (app_nil_r t). by eapply printed_trans.
  - apply prints_seq; [done|apply bs_indent_once_prints|apply bs_set_indented_blank].
  - apply bs_set_indented_blank.
  - apply bs_comment_before_prints.
  - apply bs_comment_after_prints.
  - intros s. by eexists tt, _.
  - intros i s Hi. simpl. unfold bs_unindent, runs. rewrite get_bind, Hi. rewrite length_app.
    rewrite (proj2 (Nat.ltb_ge _ _)) by lia. eexists tt, _. split; [reflexivity|]. split; [done|]. split; [|done].
    simpl. replace (_ + _ - _)%nat with (length i) by lia. apply take_app_length.
Defined.

(** [BuiltStyledStreamWriter::write]; with all comments kept, arrays are never
    tried on one line, and [childValues_] must still be empty, as in a new writer. *)
Lemma bs_write_layout v s :
  every number_ok v -> every small_object v -> every (built_hushed cfg B) v ->
  (cs_ cfg = CommentStyle_All -> bs_childValues s = []) ->
  runs (bs_write cfg v) s (fun r _ => document_of (built_tokens cfg B) v r).
Proof.
  intros Hn Hs Hh Hlines. pose proof (every_here _ _ Hh) as Hv.
  unfold bs_write. apply runs_put. set (s0 := mkBuilt (bs_childValues s) [] [] false true).
  assert (ready (built_tokens cfg B) s0) as Hr0.
  { split; [exact (Blank_nil B HB)|done|]. intros Hk. apply Hlines. by apply bool_decide_eq_true in Hk. }
  eapply runs_bind; [by apply (runs_prints (built_tokens cfg B)); [by apply bs_comment_before_prints|]|].
  cbv beta. intros _ s1 (sp1 & Hsp1 & Hp1 & _ & Hr1).
  eapply runs_bind; [by apply (runs_prints (built_tokens cfg B)); [apply bs_indent_once_prints|]|].
  cbv beta. intros _ s2 (sp2 & Hsp2 & Hp2 & _ & Hr2).
  eapply runs_bind; [by apply (runs_prints (built_tokens cfg B)); [apply bs_set_indented_blank|]|].
  cbv beta. intros _ s3 (sp3 & Hsp3 & Hp3 & _ & Hr3).
  unfold bs_writeValue. change (bs_style cfg) with bs_here.
  change bs_sout with (text (S := BuiltStyledStreamWriter) (g := built_tokens cfg B)).
  apply (document_layout (built_tokens cfg B) v (bs_writeCommentAfterValueOnSameLine cfg v)
    (bs_out (endingLineFeedSymbol_ cfg)) s3); try done.
  - destruct (printed_trans _ _ _ _ _ _ _ (printed_trans _ _ _ _ _ _ _ Hp1 Hp2) Hp3) as [-> _ _].
    apply (Blank_app B HB (sp1 ++ sp2)); [by apply (Blank_app B HB)|done].
  - by apply bs_comment_after_prints.
  - apply bs_out_blank. apply Hcfg.
Qed.
End bs.
