(* ===== verification/JsonBuilderFacts.v ===== *)
(** * What the readable writers promise

    They return for every tree and every settings the builder takes; what they
    print is read back as the tree; without indentation and comments the built
    writer prints what [FastWriter] prints. *)
From S2P Require Export JsonBuilder JsonStyledFacts.
Open Scope Z_scope.

(** ** Definitions *)

Definition uncommented (v : Value) : Prop := forall slot, hasComment slot v = false.

(** Names without a NUL, as [name.c_str()] needs them. *)
Definition names_no_nul (v : Value) : Prop := Forall (fun kv => 0 ∉ kv.1) (object_map v).

(** [Reader::parse] accepts the text and gives the tree of [v], if it fits the
    reader's offsets and [strictRoot_] admits the root. *)
Definition reads_back (text : bytes) (v : Value) : Prop :=
  forall root collect s,
    Z.of_nat (length text) <= maxInt - 4 - 1 ->
    strictRoot_ (features_ s) = false \/ isArray v || isObject v = true ->
    exists s', parse text root collect s = Ret (true, s') /\ strip (root_ s') = norm v.

(** The writer of the builder, for a tree whose comments it does not print. *)
Definition quiet (cfg : BuiltConfig) (v : Value) : Prop := cs_ cfg = CommentStyle_None \/ every uncommented v.

(** The reals of the tree are printed as with the defaults: seventeen significant
    digits, infinities as decimals. *)
Definition default_real (cfg : BuiltConfig) (v : Value) : Prop :=
  match value_ v with
  | PReal d => valueToString_double d (useSpecialFloats_ cfg) (precision_ cfg) (precisionType_ cfg) = valueToString_real d
  | _ => True
  end.

(** Any text counts as blank. *)
Definition any_text (t : bytes) : Prop := True.

(** Concrete builders and trees. *)
Definition default_builder : StreamWriterBuilder :=
  match StreamWriterBuilder_new with Ret b => b | _ => mkStreamWriterBuilder Value_null end.

Definition compact_builder : StreamWriterBuilder :=
  match (i ← Value_cstring []; builder_set (STR "indentation") i default_builder) with
  | Ret b => b
  | _ => default_builder
  end.

Definition demo_commented : Value :=
  initBasic (PArray [(0, match setComment (STR "// one") commentBefore (Value_int 1) with Ret v => v | _ => Value_null end);
                     (2, initBasic (PArray [(0, Value_bool true)]))]).

Definition demo_holes : Value := initBasic (PObject [(STR "a", initBasic (PArray [(2, Value_int 7)]))]).

(** ** Lemmas *)

Lemma uncommented_hushed B v : every uncommented v -> every (hushed B) v.
Proof. apply every_impl. intros w Hw. by left. Qed.

(** A document that is JSON is read back. *)
Lemma document_reads_back v text :
  writable v -> (depth v <= 1000)%nat -> document_of json_tokens v text -> reads_back text v.
Proof.
  intros Hw Hd (sp1 & t & sp2 & -> & H1 & Ht & H2) root collect s Hl Hroot. by apply parse_layout.
Qed.

Lemma document_mono g v text :
  (forall sp, blank g sp -> spaces sp) -> (forall t, layout g v t -> json_layout v t) ->
  document_of g v text -> document_of json_tokens v text.
Proof. intros Hb Hl (sp1 & t & sp2 & -> & H1 & Ht & H2). exists sp1, t, sp2. simpl. auto. Qed.

Lemma styled_json v t : every names_no_nul v -> layout (sw_tokens spaces) v t -> json_layout v t.
Proof.
  intros Hn. apply layout_mono; [done..|]. apply (every_impl names_no_nul); [|done].
  intros w. unfold names_no_nul, same_tokens, object_map. destruct (value_ w); try done. intros Hk.
  eapply Forall_impl; [exact Hk|]. intros kv Hkv. simpl. unfold valueToQuotedString. by rewrite c_str_no_nul.
Qed.

Lemma built_json cfg v t :
  nullSymbol_ cfg = STR "null" -> emitUTF8_ cfg = false -> every (default_real cfg) v ->
  layout (built_tokens cfg spaces) v t -> json_layout v t.
Proof.
  intros Hnull Hutf Hr. apply layout_mono; [done|done|].
  eapply every_impl; [|exact Hr]. intros w Hw. unfold same_tokens, default_real in *. simpl.
  destruct w as [[] cm st lm]; simpl in *; try done; [by rewrite Hutf|]. rewrite Hutf. by apply Forall_true.
Qed.

(** [operator<<] uses the defaults. *)
Lemma operator_write_default v : operator_write v = writeString default_builder v.
Proof.
  assert (StreamWriterBuilder_new = Ret default_builder) as E by (vm_compute; reflexivity).
  unfold operator_write. by rewrite E.
Qed.

(** What the builder's configurations have in common. *)
Lemma newStreamWriter_inv b cfg :
  newStreamWriter b = Ret cfg ->
  endingLineFeedSymbol_ cfg = [] /\ exists eyc, colonSymbol_ cfg = colon_of eyc (indentation_ cfg).
Proof.
  unfold newStreamWriter. intros H.
  repeat (apply bind_Ret_inv in H as (? & _ & H)). injection H as <-. split; [done|]. by eexists.
Qed.

Lemma builder_blank b cfg B :
  newStreamWriter b = Ret cfg -> Blank B -> B (indentation_ cfg) -> (forall sp, spaces sp -> B sp) -> BuiltBlank cfg B.
Proof.
  intros (Hend & eyc & Hcolon)%newStreamWriter_inv HB Hi Hs. split; [done| |rewrite Hcolon|rewrite Hend; apply HB].
  - intros _. split; apply Hs; by repeat constructor.
  - unfold colon_of. destruct eyc; [|case_bool_decide].
    + exists [], (STR " "). split; [apply HB|]. split; [|done]. apply Hs. by repeat constructor.
    + exists [], []. split; [apply HB|]. by split; [apply HB|].
    + exists (STR " "), (STR " "). split; [|split; [|done]]; apply Hs; by repeat constructor.
Qed.

Lemma writeString_run b cfg v P :
  newStreamWriter b = Ret cfg -> runs (bs_write cfg v) BuiltStyledStreamWriter_new (fun r _ => P r) ->
  exists text, writeString b v = Ret text /\ P text.
Proof.
  intros Hb (r & s' & Hr & HP). exists r. split; [|done]. unfold writeString. by rewrite Hb, Ret_bind, Hr.
Qed.

Lemma quiet_hushed cfg B v : quiet cfg v -> every (built_hushed cfg B) v.
Proof.
  intros [Hcs|Hv]; [apply every_all; by left|]. eapply every_impl; [|exact Hv]. intros w Hw. right. by left.
Qed.

Lemma writeString_layout b cfg B v :
  newStreamWriter b = Ret cfg -> Blank B -> BuiltBlank cfg B ->
  every number_ok v -> every small_object v -> every (built_hushed cfg B) v ->
  exists text, writeString b v = Ret text /\ document_of (built_tokens cfg B) v text.
Proof.
  intros Hb HB Hcfg Hn Hs Hh. apply (writeString_run b cfg); [done|]. by apply (bs_write_layout cfg B).
Qed.

Lemma Blank_any : Blank any_text.
Proof. done. Qed.
Lemma hushed_any v : every (hushed any_text) v.
Proof. apply every_all. by right. Qed.

(** [validate(nullptr)] looks at the names of the settings only. *)
Lemma validate_nodes_names keys l :
  validate_nodes keys l None = Ret (forallb (fun kv => bool_decide (kv.1 ∈ keys)) l, None).
Proof.
  induction l as [|[k v] l IH]; [done|]. cbn [validate_nodes forallb fst].
  case_bool_decide; [done|reflexivity].
Qed.

Lemma validate_names b :
  validate None b = Ret (forallb (fun kv => bool_decide (kv.1 ∈ valid_keys)) (named_nodes (settings_ b)), None).
Proof. apply validate_nodes_names. Qed.

(** Settings that [validate] accepts and [newStreamWriter] refuses. *)
Lemma validate_accepts_bad_style :
  exists b, (d ← StreamWriterBuilder_new; v ← Value_cstring (STR "Most"); builder_set (STR "commentStyle") v d) = Ret b /\
    validate None b = Ret (true, None) /\ newStreamWriter b = Abort "commentStyle must be 'All' or 'None'".
Proof. eexists. split; [vm_compute; reflexivity|]. by split; vm_compute. Qed.

(** Without indentation the line after a comment does not end, and the comment
    takes the value with it: what is printed for [1] does not parse. *)
Lemma compact_comment_swallows :
  exists b v s', (d ← StreamWriterBuilder_new; i ← Value_cstring []; builder_set (STR "indentation") i d) = Ret b /\
    setComment (STR "// one") commentBefore (Value_int 1) = Ret v /\ writeString b v = Ret (STR "// one1") /\
    parse (STR "// one1") Value_null true (Reader_new Features_all) = Ret (false, s').
Proof.
  eexists _, _, _. split; [vm_compute; reflexivity|]. split; [vm_compute; reflexivity|].
  split; [vm_compute; reflexivity|]. vm_compute. reflexivity.
Qed.

(** [StyledWriter] cuts a name at a NUL. *)
Lemma styled_name_cut :
  exists w', sw_write (initBasic (PObject [([97; 0; 98], Value_int 1)])) StyledWriter_new =
    Ret ([CH "{"; 10] ++ STR "   " ++ [dquote; CH "a"; dquote] ++ STR " : 1" ++ [10; CH "}"; 10], w').
Proof. eexists. vm_compute. reflexivity. Qed.

(** ** Properties *)

(** The readable writers always return, whatever the tree's comments and
    shape and whatever the state of the writer: no assertion fails (the index
    into [childValues_], [childValues_.size() == size], the indentation at least
    as long as what [unindent] takes off, the conversions); and what they print
    is the tokens of the tree in order, with other text only between them. *)
Theorem styled_writers_return v :
  wf v -> every small_object v ->
  (forall w, exists text w', sw_write v w = Ret (text, w') /\ document_of (sw_tokens any_text) v text) /\
  (forall indentation w, exists text w', ss_write indentation v w = Ret (text, w') /\
     document_of (sw_tokens any_text) v text) /\
  (forall b cfg, newStreamWriter b = Ret cfg -> exists text, writeString b v = Ret text /\
     document_of (built_tokens cfg any_text) v text).
Proof.
  intros Hn%wf_numbers Hs. pose proof (hushed_any v) as Hh. split; [|split].
  - intros w. destruct (sw_write_layout any_text Blank_any (fun _ _ => I) v w Hn Hs Hh) as (r & w' & E & Hd).
    by exists r, w'.
  - intros ind w. destruct (ss_write_layout ind any_text Blank_any (fun _ _ => I) I v w Hn Hs Hh) as (r & w' & E & Hd).
    by exists r, w'.
  - intros b cfg Hb. apply (writeString_layout b cfg); [done|apply Blank_any| |done|done|].
    + by apply (builder_blank b).
    + eapply every_impl; [|exact Hh]. intros x Hx. by right.
Qed.

Lemma styled_writers_return_witness :
  exists text w', sw_write demo_commented StyledWriter_new = Ret (text, w') /\
    document_of (sw_tokens any_text) demo_commented text.
Proof.
  destruct (styled_writers_return demo_commented) as [H _].
  - by repeat constructor; vm_compute.
  - by repeat constructor.
  - apply (H StyledWriter_new).
Defined.

(** C16: what [StyledWriter] and [StyledStreamWriter] print for a tree without
    comments (integers, booleans, nulls, UTF-8 strings and names without NUL,
    arrays without holes, objects, at most 1000 deep), from any state of the
    writer and with any indentation of blanks, [Reader::parse] reads back as the
    same tree: whichever arrays were put on one line, whatever was left in
    [childValues_]. *)
Theorem styled_roundtrip v :
  writable v -> (depth v <= 1000)%nat -> every small_object v -> every names_no_nul v -> every uncommented v ->
  (forall w, exists text w', sw_write v w = Ret (text, w') /\ reads_back text v) /\
  (forall indentation w, spaces indentation ->
     exists text w', ss_write indentation v w = Ret (text, w') /\ reads_back text v).
Proof.
  intros Hw Hd Hs Hk Hu. pose proof (writable_numbers v Hw) as Hn. pose proof (uncommented_hushed spaces v Hu) as Hh.
  assert (forall r, document_of (sw_tokens spaces) v r -> reads_back r v) as Hread.
  { intros r Hr. apply document_reads_back; [done|done|]. eapply document_mono; [| |exact Hr]; [done|].
    intros t. by apply styled_json. }
  split.
  - intros w. destruct (sw_write_layout spaces Blank_spaces (fun _ H => H) v w Hn Hs Hh) as (r & w' & E & Hr).
    exists r, w'. auto.
  - intros ind w Hi. destruct (ss_write_layout ind spaces Blank_spaces (fun _ H => H) Hi v w Hn Hs Hh) as (r & w' & E & Hr).
    exists r, w'. auto.
Qed.

Lemma styled_roundtrip_witness :
  exists text w', ss_write [9] demo_tree StyledStreamWriter_new = Ret (text, w') /\ reads_back text demo_tree.
Proof.
  destruct (styled_roundtrip demo_tree) as [_ H].
  - exact demo_tree_writable.
  - vm_compute. lia.
  - by repeat constructor.
  - split; [by apply (bool_decide_unpack _); vm_compute|]. repeat split; by apply Forall_nil.
  - repeat split; by intros [].
  - apply H. by repeat constructor.
Defined.

(** C28: what the builder's writer prints for a tree without NaN and without
    holes in its arrays, with strings and names of UTF-8 text and at most 1000
    levels, [Reader::parse] reads back as the same tree: for any settings that keep
    the nulls, escape non-ASCII characters, indent with blanks and print no
    comment of the tree, with or without line ends, YAML colons, special floats,
    any precision as long as it leaves the reals of the tree their seventeen
    digits. *)
Theorem built_roundtrip b cfg v :
  newStreamWriter b = Ret cfg -> spaces (indentation_ cfg) -> nullSymbol_ cfg = STR "null" -> emitUTF8_ cfg = false ->
  quiet cfg v -> every (default_real cfg) v -> writable v -> (depth v <= 1000)%nat -> every small_object v ->
  exists text, writeString b v = Ret text /\ reads_back text v.
Proof.
  intros Hb Hi Hnull Hutf Hq Hreal Hw Hd Hs.
  destruct (writeString_layout b cfg spaces v Hb Blank_spaces) as (text & E & Hr).
  - apply (builder_blank b); [done|apply Blank_spaces|done|done].
  - by apply writable_numbers.
  - done.
  - by apply quiet_hushed.
  - exists text. split; [done|]. apply document_reads_back; [done|done|].
    eapply document_mono; [| |exact Hr]; [done|]. intros t. by apply built_json.
Qed.

(** With the defaults, as [operator<<] writes. *)
Lemma built_roundtrip_witness :
  exists text, operator_write demo_tree = Ret text /\ reads_back text demo_tree.
Proof.
  rewrite operator_write_default.
  apply (built_roundtrip default_builder (mkBuiltConfig [9] CommentStyle_All (STR " : ") (STR "null") [] false false 17 significantDigits)).
  - vm_compute. reflexivity.
  - by repeat constructor.
  - reflexivity.
  - reflexivity.
  - right. repeat split; by intros [].
  - by repeat constructor.
  - exact demo_tree_writable.
  - vm_compute. lia.
  - by repeat constructor.
Defined.

(** C21: with an empty indentation and the settings that name what [FastWriter]
    does (17 significant digits, non-ASCII characters escaped, no special floats, a
    bare colon, the null text of [w]), the builder's writer prints the text of a
    [FastWriter] without YAML compatibility, which adds a line feed unless it is
    told to omit it: for every tree whose comments are not printed, reals and holes
    in arrays included, the walk over [childValues_], lines and indentation changes
    nothing else. *)
Theorem built_compact_is_fast b cs w v :
  newStreamWriter b = Ret (mkBuiltConfig [] cs (STR ":") (null_text w) [] false false 17 significantDigits) ->
  yamlCompatibilityEnabled_ w = false ->
  cs = CommentStyle_None \/ every uncommented v -> wf v -> every small_object v ->
  exists text, writeString b v = Ret text /\
    write w v = Ret (text ++ if omitEndingLineFeed_ w then [] else [10]).
Proof.
  intros Hb Hyaml Hq Hwf Hs. set (cfg := mkBuiltConfig _ _ _ _ _ _ _ _ _) in Hb.
  set (B := fun sp : bytes => sp = []). pose proof (wf_numbers v Hwf) as Hn.
  assert (fast_tokens w = built_tokens cfg B) as Htok.
  { unfold fast_tokens, built_tokens. simpl. by rewrite Hyaml. }
  assert (Blank B) as HB by (split; [done|]; unfold B; by intros ? ? -> ->).
  destruct (writeValue_layout w v Hn) as (d & Hd & Hl). rewrite Htok in Hl.
  destruct (writeString_layout b cfg B v Hb HB) as (text & E & sp1 & t & sp2 & -> & Hsp1 & Ht & Hsp2).
  - split; [done|done| |done]. by exists [], [].
  - done.
  - done.
  - by apply quiet_hushed.
  - exists d. unfold write. rewrite Hd, Ret_bind. split; [|done].
    rewrite E. simpl in Hsp1, Hsp2. unfold B in Hsp1, Hsp2. subst sp1 sp2.
    by rewrite (layout_unique (built_tokens cfg B) v d t), app_nil_r.
Qed.

Lemma built_compact_is_fast_witness :
  exists text, writeString compact_builder demo_holes = Ret text /\
    write FastWriter_new demo_holes = Ret (text ++ if omitEndingLineFeed_ FastWriter_new then [] else [10]).
Proof.
  apply (built_compact_is_fast compact_builder CommentStyle_All FastWriter_new demo_holes).
  - vm_compute. reflexivity.
  - reflexivity.
  - right. repeat split; by intros [].
  - by repeat constructor; vm_compute.
  - by repeat constructor.
Defined.
