(* ===== verification/JsonOurReader.v ===== *)
(** * [Json::OurReader] (json_reader.cpp)

    The parser behind [CharReader], which the source introduces as a "complete
    copy" of [Reader]: the methods whose text is that of [Reader]'s are the
    definitions of JsonReader.v run on the part of the state both readers have
    ([core]); the methods that differ are written out.  Offsets stored in values
    and reports count from [begin_], which [skipBom] moves, while positions in
    the model count from the start of the document. *)
From S2P Require Export StateMonad JsonReader.
Open Scope Z_scope.

(** ** Data *)

Record OurFeatures := mkOurFeatures {
  our_allowComments_ : bool;
  allowTrailingCommas_ : bool;
  our_strictRoot_ : bool;
  our_allowDroppedNullPlaceholders_ : bool;
  our_allowNumericKeys_ : bool;
  allowSingleQuotes_ : bool;
  failIfExtra_ : bool;
  rejectDupKeys_ : bool;
  allowSpecialFloats_ : bool;
  skipBom_ : bool;
  stackLimit_ : Z;
}.

(** [OurFeatures::all()]: value-initialised, everything off. *)
Definition OurFeatures_all : OurFeatures :=
  mkOurFeatures false false false false false false false false false false 0.

(** The flags that [Features] has too. *)
Definition common_features (f : OurFeatures) : Features :=
  {| allowComments_ := our_allowComments_ f; strictRoot_ := our_strictRoot_ f;
     allowDroppedNullPlaceholders_ := our_allowDroppedNullPlaceholders_ f;
     allowNumericKeys_ := our_allowNumericKeys_ f |}.

(** [our_begin_] is [begin_] as an offset into the document. *)
Record OurReader := mkOurReader {
  our_features_ : OurFeatures;
  our_begin_ : nat;
  lastValueHasAComment_ : bool;
  our_core :> Reader;
}.

Definition set_core (c : Reader) (s : OurReader) : OurReader :=
  mkOurReader (our_features_ s) (our_begin_ s) (lastValueHasAComment_ s) c.
Definition set_hasAComment (b : bool) (s : OurReader) : OurReader :=
  mkOurReader (our_features_ s) (our_begin_ s) b (our_core s).
Definition set_begin (b : nat) (s : OurReader) : OurReader :=
  mkOurReader (our_features_ s) b (lastValueHasAComment_ s) (our_core s).

Definition OurReader_new (f : OurFeatures) : OurReader :=
  mkOurReader f 0 false (Reader_new (common_features f)).

(** ** Methods *)

Abbreviation OM := (ST OurReader).

(** A method on the common part of the state. *)
Definition core {A} (m : RM A) : OM A := fun s => '(a, c) ← m (our_core s); Ret (a, set_core c s).

Definition see {A} (f : Reader -> A) : OM A := get (fun s => f (our_core s)).

(** ** Methods with the text of [Reader]'s *)

Definition our_getNextChar : OM Z := core getNextChar.
Definition our_skipSpaces : OM unit := core skipSpaces.
Definition our_match (pattern : bytes) : OM bool := core (match_ pattern).
Definition our_addComment (b e : nat) (placement : CommentPlacement) : OM unit :=
  core (addComment b e placement).
Definition our_readCppStyleComment : OM bool := core readCppStyleComment.
Definition our_readString : OM bool := core readString.
Definition our_addError (message : bytes) (token : Token) (extra : option nat) : OM bool :=
  core (addError message token extra).
Definition our_currentValue (f : Value -> outcome Value) : OM unit := core (currentValue f).
Definition our_decodeDouble (token : Token) : OM (option Value) := core (decodeDouble token).
Definition our_decodeUnicodeEscapeSequence (token : Token) (cur : cursor) : OM (option (Z * cursor)) :=
  core (decodeUnicodeEscapeSequence token cur).
Definition our_decodeUnicodeCodePoint (token : Token) (cur : cursor) : OM (option (Z * cursor)) :=
  core (decodeUnicodeCodePoint token cur).
Definition our_decodeString (token : Token) : OM (option bytes) := core (decodeString token).

(** ** The scanner *)

(** [skipBom(skipBom)], at the start of a parse. *)
Definition skipBom (skip : bool) : OM unit :=
  doc ← see document_;
  if skip && bytes_eqb (take 3 doc) [0xEF; 0xBB; 0xBF] then
    _ ← put (fun s => set_begin (our_begin_ s + 3) s);
    b ← get our_begin_;
    core (modify (set_current b))
  else mret tt.

(** [readCStyleComment]: the result, and whether the characters of the loop hold
    a line feed. *)
Definition our_readCStyleComment : OM (bool * bool) :=
  r ← see rest;
  let n := c_comment_scan r in
  _ ← core (advance n);
  c ← our_getNextChar;
  mret (c =? CH "/", existsb (fun c => c =? 10) (take n r)).

#[export] Instance CommentPlacement_eq_dec : EqDecision CommentPlacement.
Proof. solve_decision. Defined.

(** The same text as [Reader::containsNewLine]. *)
Definition our_containsNewLine (b e : nat) (doc : bytes) : bool := containsNewLine b e doc.

(** The same text as [Reader::normalizeEOL]; [our_addComment] runs it through the
    [addComment] both readers share. *)
Definition our_normalizeEOL : bytes -> bytes := normalizeEOL.

(** Where a comment read from [commentBegin] goes. *)
Definition our_placement (isCpp cStyleWithEmbeddedNewline hasAComment : bool) (lastValueEnd : option nat)
    (commentBegin : nat) (doc : bytes) : CommentPlacement :=
  match lastValueEnd with
  | Some e =>
      if negb hasAComment && negb (our_containsNewLine e commentBegin doc) &&
         (isCpp || negb cStyleWithEmbeddedNewline)
      then commentAfterOnSameLine else commentBefore
  | None => commentBefore
  end.

Definition our_readComment : OM bool :=
  cur ← see current_;
  let commentBegin := (cur - 1)%nat in
  c ← our_getNextChar;
  '(successful, cStyleWithEmbeddedNewline) ←
    (if c =? CH "*" then our_readCStyleComment
     else if c =? CH "/" then ok ← our_readCppStyleComment; mret (ok, false)
     else mret (false, false));
  if negb successful then mret false
  else
    collect ← see collectComments_;
    _ ← (if collect : bool then
           has ← get lastValueHasAComment_;
           lve ← see lastValueEnd_;
           doc ← see document_;
           let placement := our_placement (c =? CH "/") cStyleWithEmbeddedNewline has lve commentBegin doc in
           _ ← (if bool_decide (placement = commentAfterOnSameLine) then put (set_hasAComment true)
                else mret tt);
           cur ← see current_;
           our_addComment commentBegin cur placement
         else mret tt);
    mret true.

(** [readNumber(checkInf)]: false, after the I, for what must be an infinity. *)
Definition our_readNumber (checkInf : bool) : OM bool :=
  r ← see rest;
  if checkInf && (nth 0 r 0 =? CH "I") then _ ← core (advance 1); mret false
  else _ ← core readNumber; mret true.

(** The loop of [readStringSingleQuote], as [string_scan]. *)
Fixpoint single_quote_scan (r : bytes) (c : Z) : nat * Z :=
  match r with
  | [] => (O, c)
  | c :: r' =>
      if c =? CH "\" then
        match r' with
        | [] => (1%nat, c)
        | _ :: r'' => let '(n, c') := single_quote_scan r'' c in (S (S n), c')
        end
      else if c =? CH "'" then (1%nat, c)
      else let '(n, c') := single_quote_scan r' c in (S n, c')
  end.

Definition readStringSingleQuote : OM bool :=
  r ← see rest;
  let '(n, c) := single_quote_scan r 0 in
  _ ← core (advance n); mret (c =? CH "'").

(** [features_.allowSpecialFloats_ && match(pattern)]. *)
Definition special_float (pattern : bytes) : OM bool :=
  f ← get our_features_;
  if allowSpecialFloats_ f then our_match pattern else mret false.

(** [-] or [+]: a number, or else the infinity [inf]. *)
Definition signed_number (inf : TokenType) : OM (bool * TokenType) :=
  number ← our_readNumber true;
  if number : bool then mret (true, tokenNumber)
  else ok ← special_float (STR "nfinity"); mret (ok, inf).

(** The [switch] of [readToken] on the character [c]. *)
Definition our_token_switch (c : Z) : OM (bool * TokenType) :=
  f ← get our_features_;
  if c =? CH "{" then mret (true, tokenObjectBegin)
  else if c =? CH "}" then mret (true, tokenObjectEnd)
  else if c =? CH "[" then mret (true, tokenArrayBegin)
  else if c =? CH "]" then mret (true, tokenArrayEnd)
  else if c =? dquote then ok ← our_readString; mret (ok, tokenString)
  else if c =? CH "'" then
    if allowSingleQuotes_ f then ok ← readStringSingleQuote; mret (ok, tokenString)
    else mret (false, tokenError)
  else if c =? CH "/" then ok ← our_readComment; mret (ok, tokenComment)
  else if is_digit c then _ ← our_readNumber false; mret (true, tokenNumber)
  else if c =? CH "-" then signed_number tokenNegInf
  else if c =? CH "+" then signed_number tokenPosInf
  else if c =? CH "t" then ok ← our_match (STR "rue"); mret (ok, tokenTrue)
  else if c =? CH "f" then ok ← our_match (STR "alse"); mret (ok, tokenFalse)
  else if c =? CH "n" then ok ← our_match (STR "ull"); mret (ok, tokenNull)
  else if c =? CH "N" then ok ← special_float (STR "aN"); mret (ok, tokenNaN)
  else if c =? CH "I" then ok ← special_float (STR "nfinity"); mret (ok, tokenPosInf)
  else if c =? CH "," then mret (true, tokenArraySeparator)
  else if c =? CH ":" then mret (true, tokenMemberSeparator)
  else if c =? 0 then mret (true, tokenEndOfStream)
  else mret (false, tokenError).

Definition our_readToken : OM (bool * Token) :=
  _ ← our_skipSpaces;
  start ← see current_;
  c ← our_getNextChar;
  '(ok, type) ← our_token_switch c;
  stop ← see current_;
  mret (ok, mkToken (if ok : bool then type else tokenError) start stop).

(** [do readToken(token) while (token.type_ == tokenComment)]. *)
Fixpoint our_skip_comments (fuel : nat) : OM Token :=
  match fuel with
  | O => run Fuel
  | S fuel =>
      '(_, token) ← our_readToken;
      if token_eqb (type_ token) tokenComment then our_skip_comments fuel else mret token
  end.

Definition our_skipCommentTokens : OM Token :=
  f ← get our_features_;
  r ← see rest;
  if our_allowComments_ f then our_skip_comments (S (length r))
  else '(_, token) ← our_readToken; mret token.

(** [while (token.type_ == tokenComment && ok) ok = readToken(token)]. *)
Fixpoint our_comment_loop (fuel : nat) (ok : bool) (token : Token) : OM (bool * Token) :=
  match fuel with
  | O => run Fuel
  | S fuel =>
      if token_eqb (type_ token) tokenComment && ok then
        '(ok, token) ← our_readToken; our_comment_loop fuel ok token
      else mret (ok, token)
  end.

Definition our_skipCommentsAfter (ok : bool) (token : Token) : OM (bool * Token) :=
  r ← see rest; our_comment_loop (S (S (length r))) ok token.

Fixpoint our_recover_loop (fuel : nat) (errorCount : nat) (skipUntilToken : TokenType) : OM unit :=
  match fuel with
  | O => run Fuel
  | S fuel =>
      '(ok, skip) ← our_readToken;
      _ ← (if ok : bool then mret tt
           else core (modify (fun s => set_errors (take errorCount (errors_ s)) s)));
      if token_eqb (type_ skip) skipUntilToken || token_eqb (type_ skip) tokenEndOfStream
      then mret tt else our_recover_loop fuel errorCount skipUntilToken
  end.

Definition our_recoverFromError (skipUntilToken : TokenType) : OM bool :=
  errorCount ← see (fun s => length (errors_ s));
  r ← see rest;
  _ ← our_recover_loop (S (length r)) errorCount skipUntilToken;
  _ ← core (modify (fun s => set_errors (take errorCount (errors_ s)) s));
  mret false.

Definition our_addErrorAndRecover (message : bytes) (token : Token) (skipUntilToken : TokenType) : OM bool :=
  _ ← our_addError message token None; our_recoverFromError skipUntilToken.

(** ** Decoding of tokens *)

(** [setOffsetStart(a - begin_)], [setOffsetLimit(b - begin_)] on the current
    value. *)
Definition our_setOffsets (a b : Z) : OM unit :=
  begin ← get (fun s => Z.of_nat (our_begin_ s));
  core (setOffsets (a - begin) (b - begin)).
Definition our_setOffsetStart (a : Z) : OM unit :=
  begin ← get (fun s => Z.of_nat (our_begin_ s));
  our_currentValue (fun v => Ret (setOffsetStart (a - begin) v)).
Definition our_setOffsetLimit (b : Z) : OM unit :=
  begin ← get (fun s => Z.of_nat (our_begin_ s));
  our_currentValue (fun v => Ret (setOffsetLimit (b - begin) v)).

(** The value of a run of digits that fits 64 bits; [- LargestInt(value / 10) *
    10 - last_digit] does not overflow for [value <= 2^63]. *)
Definition our_integer (isNegative : bool) (value : Z) : Value :=
  if isNegative then Value_int (- (value / 10) * 10 - value mod 10)
  else if value <=? maxLargestInt then Value_int value
  else Value_uint value.

Definition our_decodeNumber (token : Token) : OM (option Value) :=
  text ← see (fun s => token_text token (document_ s));
  let isNegative := nth 0 text 0 =? CH "-" in
  let limit := if isNegative then maxLargestInt + 1 else maxLargestUInt in
  match decode_digits limit (if isNegative then tail text else text) 0 with
  | None => our_decodeDouble token
  | Some value => mret (Some (our_integer isNegative value))
  end.

(** A decoded token, or a literal, into [currentValue()]. *)
Definition our_store_token (token : Token) (decoded : Value) : OM unit :=
  _ ← core (swapPayloadCurrent decoded);
  our_setOffsets (Z.of_nat (tok_start_ token)) (Z.of_nat (tok_end_ token)).

Definition our_decodeNumberCurrent (token : Token) : OM bool :=
  o ← our_decodeNumber token;
  match o with
  | None => mret false
  | Some decoded => _ ← our_store_token token decoded; mret true
  end.

(** [decodeDouble(token)]. *)
Definition our_decodeDoubleCurrent (token : Token) : OM bool :=
  o ← our_decodeDouble token;
  match o with
  | None => mret false
  | Some decoded => _ ← our_store_token token decoded; mret true
  end.

Definition our_decodeStringCurrent (token : Token) : OM bool :=
  o ← our_decodeString token;
  match o with
  | None => mret false
  | Some s => decoded ← run (Value_string s); _ ← our_store_token token decoded; mret true
  end.

(** ** The parser *)

(** [nodes_.push(&child)], the child being that of the current value at [e]. *)
Definition our_push (e : edge) : OM unit := core (push_edge e).
Definition our_pop : OM unit := core nodes_pop.

(** The value left out between two separators: the token is read again. *)
Definition our_dropped_null : OM (option bool) :=
  _ ← core (modify (fun s => set_current (current_ s - 1) s));
  _ ← core (swapPayloadCurrent Value_null);
  cur ← see current_;
  _ ← our_setOffsets (Z.of_nat cur - 1) (Z.of_nat cur);
  mret (Some true).

Definition our_syntax_error (token : Token) : OM (option bool) :=
  _ ← our_setOffsets (Z.of_nat (tok_start_ token)) (Z.of_nat (tok_end_ token));
  _ ← our_addError (STR "Syntax error: value, object or array expected.") token None;
  mret None.

(** The [switch] of [readValue]; [None] is the early return with an error. *)
Definition our_value_switch (readObject readArray : Token -> OM bool) (token : Token)
    : OM (option bool) :=
  f ← get our_features_;
  let literal (v : Value) : OM (option bool) := _ ← our_store_token token v; mret (Some true) in
  let container (read : Token -> OM bool) : OM (option bool) :=
    ok ← read token;
    cur ← see current_;
    _ ← our_setOffsetLimit (Z.of_nat cur);
    mret (Some ok) in
  match type_ token with
  | tokenObjectBegin => container readObject
  | tokenArrayBegin => container readArray
  | tokenNumber => ok ← our_decodeNumberCurrent token; mret (Some ok)
  | tokenString => ok ← our_decodeStringCurrent token; mret (Some ok)
  | tokenTrue => literal (Value_bool true)
  | tokenFalse => literal (Value_bool false)
  | tokenNull => literal Value_null
  | tokenNaN => literal (Value_double S754_nan)
  | tokenPosInf => literal (Value_double (S754_infinity false))
  | tokenNegInf => literal (Value_double (S754_infinity true))
  | tokenArraySeparator | tokenObjectEnd | tokenArrayEnd =>
      if our_allowDroppedNullPlaceholders_ f then our_dropped_null else our_syntax_error token
  | _ => our_syntax_error token
  end.

(** [readValue] with the two functions it calls. *)
Definition our_readValue_body (readObject readArray : Token -> OM bool) : OM bool :=
  f ← get our_features_;
  depth ← see (fun s => Z.of_nat (length (nodes_ s)));
  if stackLimit_ f <? depth then run (Abort "Exceeded stackLimit in readValue().")
  else
    token ← our_skipCommentTokens;
    collect ← see collectComments_;
    before ← see commentsBefore_;
    _ ← core (if collect && negb (bool_decide (before = [])) then
                _ ← currentValue (setComment before commentBefore);
                modify (set_commentsBefore [])
              else mret tt);
    successful ← our_value_switch readObject readArray token;
    match successful with
    | None => mret false
    | Some ok =>
        _ ← (if collect : bool then
               p ← core nodes_top;
               _ ← core (modify (fun s => set_lastValue (Some (current_ s)) (Some p) s));
               put (set_hasAComment false)
             else mret tt);
        mret ok
    end.

(** The name of a member, [None] when [readObject] leaves the loop. *)
Definition our_object_name (tokenName : Token) : OM (option (option bytes)) :=
  f ← get our_features_;
  if token_eqb (type_ tokenName) tokenString then
    o ← our_decodeString tokenName; mret (Some o)
  else if token_eqb (type_ tokenName) tokenNumber && our_allowNumericKeys_ f then
    o ← our_decodeNumber tokenName;
    match o with
    | None => mret (Some None)
    | Some numberName => s ← run (asString numberName); mret (Some (Some s))
    end
  else mret None.

(** [features_.rejectDupKeys_ && currentValue().isMember(name)]. *)
Definition duplicate_key (name : bytes) : OM bool :=
  f ← get our_features_;
  if rejectDupKeys_ f then
    p ← core nodes_top;
    root ← see root_;
    match at_path p root with
    | None => run (Undef "dangling pointer into the tree")
    | Some v => run (isMember name v)
    end
  else mret false.

(** After a member: the separator, then the next turn or the end. *)
Definition our_object_next (loop : bytes -> OM bool) (name : bytes) : OM bool :=
  '(ok, comma) ← our_readToken;
  if negb ok || (negb (token_eqb (type_ comma) tokenObjectEnd) &&
                 negb (token_eqb (type_ comma) tokenArraySeparator) &&
                 negb (token_eqb (type_ comma) tokenComment)) then
    our_addErrorAndRecover (STR "Missing ',' or '}' in object declaration") comma tokenObjectEnd
  else
    '(_, comma) ← our_skipCommentsAfter true comma;
    if token_eqb (type_ comma) tokenObjectEnd then mret true else loop name.

(** The member called [name], from the colon on. *)
Definition our_object_member (readValue : OM bool) (loop : bytes -> OM bool) (name : bytes) : OM bool :=
  '(ok, colon) ← our_readToken;
  if negb ok || negb (token_eqb (type_ colon) tokenMemberSeparator) then
    our_addErrorAndRecover (STR "Missing ':' after object member name") colon tokenObjectEnd
  else
    _ ← our_currentValue (resolveReference name);
    _ ← our_push (EKey (CZString name));
    ok ← readValue;
    _ ← our_pop;
    if negb ok then our_recoverFromError tokenObjectEnd else our_object_next loop name.

(** One turn of the loop of [readObject]; [name] is the previous member's. *)
Definition our_object_body (readValue : OM bool) (loop : bytes -> OM bool) (name : bytes) : OM bool :=
  f ← get our_features_;
  '(ok, tokenName) ← our_readToken;
  let missing (token : Token) : OM bool :=
    our_addErrorAndRecover (STR "Missing '}' or object member name") token tokenObjectEnd in
  if negb ok then missing tokenName
  else
    '(initialTokenOk, tokenName) ← our_skipCommentsAfter true tokenName;
    if negb initialTokenOk then missing tokenName
    else if token_eqb (type_ tokenName) tokenObjectEnd &&
            (bool_decide (name = []) || allowTrailingCommas_ f) then mret true
    else
      o ← our_object_name tokenName;
      match o with
      | None => missing tokenName
      | Some None => our_recoverFromError tokenObjectEnd
      | Some (Some name) =>
          if 2 ^ 30 <=? Z.of_nat (length name) then run (Abort "keylength >= 2^30")
          else
            duplicate ← duplicate_key name;
            if duplicate : bool then
              our_addErrorAndRecover (STR "Duplicate key: '" ++ name ++ STR "'") tokenName tokenObjectEnd
            else our_object_member readValue loop name
      end.

Definition our_readObject_body (loop : bytes -> OM bool) (token : Token) : OM bool :=
  _ ← core (swapPayloadCurrent (Value_ofType objectValue));
  _ ← our_setOffsetStart (Z.of_nat (tok_start_ token));
  loop [].

(** After an element: the separator, then the next turn or the end. *)
Definition our_array_next (loop : Z -> OM bool) (index : Z) : OM bool :=
  '(ok, currentToken) ← our_readToken;
  '(ok, currentToken) ← our_skipCommentsAfter ok currentToken;
  let badTokenType := negb (token_eqb (type_ currentToken) tokenArraySeparator) &&
                      negb (token_eqb (type_ currentToken) tokenArrayEnd) in
  if negb ok || badTokenType then
    our_addErrorAndRecover (STR "Missing ',' or ']' in array declaration") currentToken tokenArrayEnd
  else if token_eqb (type_ currentToken) tokenArrayEnd then mret true
  else loop (index + 1).

(** One turn of the loop of [readArray]. *)
Definition our_array_body (readValue : OM bool) (loop : Z -> OM bool) (index : Z) : OM bool :=
  f ← get our_features_;
  _ ← our_skipSpaces;
  r ← see rest;
  if (nth 0 r 0 =? CH "]") &&
     ((index =? 0) || (allowTrailingCommas_ f && negb (our_allowDroppedNullPlaceholders_ f))) then
    _ ← our_readToken; mret true
  else
    _ ← our_currentValue (index_ref_int index);
    _ ← our_push (EIdx (u32 index));
    ok ← readValue;
    _ ← our_pop;
    if negb ok then our_recoverFromError tokenArrayEnd else our_array_next loop index.

Definition our_readArray_body (loop : Z -> OM bool) (token : Token) : OM bool :=
  _ ← core (swapPayloadCurrent (Value_ofType arrayValue));
  _ ← our_setOffsetStart (Z.of_nat (tok_start_ token));
  loop 0.

Fixpoint our_readValue (fuel : nat) : OM bool :=
  match fuel with
  | O => run Fuel
  | S n => our_readValue_body (our_readObject n) (our_readArray n)
  end
with our_readObject (fuel : nat) (token : Token) : OM bool :=
  match fuel with
  | O => run Fuel
  | S n => our_readObject_body (our_object_loop n) token
  end
with our_object_loop (fuel : nat) (name : bytes) : OM bool :=
  match fuel with
  | O => run Fuel
  | S n => our_object_body (our_readValue n) (our_object_loop n) name
  end
with our_readArray (fuel : nat) (token : Token) : OM bool :=
  match fuel with
  | O => run Fuel
  | S n => our_readArray_body (our_array_loop n) token
  end
with our_array_loop (fuel : nat) (index : Z) : OM bool :=
  match fuel with
  | O => run Fuel
  | S n => our_array_body (our_readValue n) (our_array_loop n) index
  end.

(** The assignments at the start of [parse]; [lastValueHasAComment_] keeps what
    the parse before left. *)
Definition our_parse_init (doc : bytes) (root : Value) (collect : bool) (s : OurReader) : OurReader :=
  mkOurReader (our_features_ s) 0 (lastValueHasAComment_ s)
    (mkReader (common_features (our_features_ s)) doc 0 root [[]] None None [] []
       (if our_allowComments_ (our_features_ s) then collect else false)).

(** The end of [parse], after the value and what follows it. *)
Definition our_parse_end (successful : bool) (token : Token) : OM bool :=
  f ← get our_features_;
  if failIfExtra_ f && negb (token_eqb (type_ token) tokenEndOfStream) then
    our_addError (STR "Extra non-whitespace after JSON value.") token None
  else
    collect ← see collectComments_;
    before ← see commentsBefore_;
    _ ← core (if collect && negb (bool_decide (before = [])) then call_at [] (setComment before commentAfter)
              else mret tt);
    root ← see root_;
    doc ← see document_;
    if our_strictRoot_ f && negb (isArray root) && negb (isObject root) then
      our_addError (STR "A valid JSON document must be either an array or an object value.")
        (mkToken tokenError 0 (length doc)) None
    else mret successful.

(** [parse(beginDoc, endDoc, root, collectComments)]. *)
Definition our_parse (doc : bytes) (root : Value) (collect : bool) : OM bool :=
  _ ← put (our_parse_init doc root collect);
  f ← get our_features_;
  _ ← skipBom (skipBom_ f);
  successful ← our_readValue (parse_fuel doc);
  _ ← our_pop;
  token ← our_skipCommentTokens;
  our_parse_end successful token.

(** ** Reports *)

(** Line and column from [begin_], both from 1. *)
Definition our_getLocationLineAndColumn (location : nat) (s : OurReader) : Z * Z :=
  let b := our_begin_ s in
  let '(line, lastLineStart) := location_scan (drop b (document_ s)) b location b 0 in
  (line + 1, Z.of_nat location - Z.of_nat lastLineStart + 1).

Definition our_location_text (location : nat) (s : OurReader) : bytes :=
  let '(line, column) := our_getLocationLineAndColumn location s in
  STR "Line " ++ dec_signed line ++ STR ", Column " ++ dec_signed column.

Definition our_getFormattedErrorMessages (s : OurReader) : bytes :=
  concat (map (fun e =>
    STR "* " ++ our_location_text (tok_start_ (token_ e)) s ++ [10] ++
    STR "  " ++ message_ e ++ [10] ++
    match extra_ e with
    | Some x => STR "See " ++ our_location_text x s ++ STR " for detail." ++ [10]
    | None => []
    end) (errors_ s)).

(** [StructuredError]: start, limit, message. *)
Definition our_getStructuredErrors (s : OurReader) : list (Z * Z * bytes) :=
  let begin := Z.of_nat (our_begin_ s) in
  map (fun e => (Z.of_nat (tok_start_ (token_ e)) - begin, Z.of_nat (tok_end_ (token_ e)) - begin,
                 message_ e)) (errors_ s).
