(* ===== verification/JsonOurReaderWp.v ===== *)
(** * The calculus of [OurReader]'s methods

    The calculus of JsonReaderWp.v over the larger state: a method keeps the
    features, [begin_] and the document, and its postcondition speaks of the
    common part of the state, so that the specifications of the methods both
    readers share are lifted as they are. *)
From S2P Require Export JsonReaderWp JsonOurReader.
From S2P Require Import FloatLength.
Open Scope Z_scope.

(** ** Definitions *)

Definition our_stack_msg : string := "Exceeded stackLimit in readValue().".
Definition keylength_msg : string := "keylength >= 2^30".

(** The reader may stop on the nesting limit, which takes as many opening
    brackets as the limit, and on a name of 2^30 bytes, which takes as long a
    document: a name that is the text of a number has at most 5800 bytes. *)
Definition our_stops (f : OurFeatures) (msg : string) (doc : bytes) : Prop :=
  (msg = our_stack_msg /\ stackLimit_ f <= Z.of_nat (opens doc)) \/
  (msg = keylength_msg /\ 2 ^ 30 <= Z.of_nat (length doc)).

(** What no method after the start of [parse] changes. *)
Record same_run (s s' : OurReader) : Prop := {
  sr_features : our_features_ s' = our_features_ s;
  sr_begin : our_begin_ s' = our_begin_ s;
  sr_doc : document_ s' = document_ s;
}.

(** [m] keeps the run and returns with [Q], or stops as it may. *)
Definition owp {A} (m : OM A) (s : OurReader) (Q : A -> OurReader -> Prop) : Prop :=
  match m s with
  | Ret (a, s') => same_run s s' /\ Q a s'
  | Abort msg => our_stops (our_features_ s) msg (document_ s)
  | Undef _ | Fuel => False
  end.

(** The methods of the common part do not stop the process. *)
#[local] Instance never_stops : Stops := fun _ _ => False.

#[export] Instance same_run_preorder : PreOrder same_run.
Proof. split; [by intros s; split|]. intros s1 s2 s3 [] []. split; congruence. Qed.

(** ** The calculus *)

Section owp.
Context {A B : Type}.

Lemma owp_mono (m : OM A) s (Q Q' : A -> OurReader -> Prop) :
  owp m s Q -> (forall a s', same_run s s' -> Q a s' -> Q' a s') -> owp m s Q'.
Proof. unfold owp. destruct (m s) as [[a s']| | |]; [|done..]. intros [Hs HQ] H. split; auto. Qed.

Lemma owp_ret (a : A) s (Q : A -> OurReader -> Prop) : Q a s -> owp (mret a) s Q.
Proof. by split. Qed.

Lemma owp_bind (m : OM A) (k : A -> OM B) s (Q : B -> OurReader -> Prop) :
  owp m s (fun a s' => owp (k a) s' Q) -> owp (m ≫= k) s Q.
Proof.
  unfold owp. cbv [mbind ST_bind outcome_bind]. destruct (m s) as [[a s']| | |]; [|done..].
  intros [Hs Hk]. destruct (k a s') as [[b s'']| | |]; [|by destruct Hs as [<- _ <-]|done..].
  destruct Hk as [Hs' HQ]. split; [by etransitivity|done].
Qed.

Lemma owp_core (m : RM A) s (Q : A -> OurReader -> Prop) :
  wp m (our_core s) (fun a c => document_ c = document_ s /\ Q a (set_core c s)) -> owp (core m) s Q.
Proof.
  unfold owp, wp, core. cbv [mbind outcome_bind]. destruct (m (our_core s)) as [[a c]| | |]; [|done..].
  intros [Hd HQ]. by split.
Qed.

Lemma owp_get_bind (f : OurReader -> A) (k : A -> OM B) s Q : owp (k (f s)) s Q -> owp (get f ≫= k) s Q.
Proof. intros H. by apply owp_bind. Qed.

Lemma owp_see_bind (f : Reader -> A) (k : A -> OM B) (s : OurReader) Q : owp (k (f s)) s Q -> owp (see f ≫= k) s Q.
Proof. intros H. by apply owp_bind. Qed.

Lemma owp_ret_bind (a : A) (k : A -> OM B) s Q : owp (k a) s Q -> owp (mret a ≫= k) s Q.
Proof. intros H. by apply owp_bind. Qed.

Lemma owp_run_bind (o : outcome A) a (k : A -> OM B) s Q :
  o = Ret a -> owp (k a) s Q -> owp (run o ≫= k) s Q.
Proof. intros ->. intros H. by apply owp_bind. Qed.
End owp.

Lemma owp_hasAComment b s (Q : unit -> OurReader -> Prop) :
  Q tt (set_hasAComment b s) -> owp (put (set_hasAComment b)) s Q.
Proof. by split. Qed.

(** A method of the common part that only reads tokens. *)
Lemma owp_core_scans {A} (m : RM A) s (P : A -> Reader -> Prop) (Q : A -> OurReader -> Prop) :
  wp m (our_core s) (fun a c => scans s c /\ P a c) ->
  (forall a (s' : OurReader), scans s s' -> P a s' -> Q a s') -> owp (core m) s Q.
Proof.
  intros Hm HQ. apply owp_core. eapply wp_mono; [exact Hm|]. intros a c [Hs HP].
  split; [apply Hs|]. by apply HQ.
Qed.

(** ** The scanner *)

Lemma owp_skipSpaces (s : OurReader) (Q : unit -> OurReader -> Prop) :
  inv s -> (forall s' : OurReader, scans s s' -> Q tt s') -> owp our_skipSpaces s Q.
Proof.
  intros Hi HQ. eapply (owp_core_scans _ _ (fun _ _ => True)); [|by intros [] *; auto].
  by apply wp_skipSpaces.
Qed.

Lemma owp_next_char (s : OurReader) (Q : Z -> OurReader -> Prop) :
  inv s -> (forall c (s' : OurReader), scans s s' -> next_char s c s' -> Q c s') -> owp our_getNextChar s Q.
Proof. intros Hi HQ. eapply (owp_core_scans _ _ (next_char s)); [by apply wp_next_char|done]. Qed.

Lemma owp_match pat (s : OurReader) (Q : bool -> OurReader -> Prop) :
  inv s -> (forall b (s' : OurReader), scans s s' -> Q b s') -> owp (our_match pat) s Q.
Proof.
  intros Hi HQ. eapply (owp_core_scans _ _ (fun _ _ => True)); [|by intros; apply HQ].
  by apply wp_match_.
Qed.

Lemma owp_advance n (s : OurReader) (Q : unit -> OurReader -> Prop) :
  inv s -> (n <= length (rest s))%nat ->
  (forall s' : OurReader, scans s s' -> current_ s' = (current_ s + n)%nat -> Q tt s') -> owp (core (advance n)) s Q.
Proof.
  intros Hi Hn HQ. eapply (owp_core_scans _ _ (fun _ c => current_ c = (current_ s + n)%nat)).
  - apply wp_advance; [done..|]. by intros s' Hs ->.
  - intros []. apply HQ.
Qed.

Lemma owp_readCStyleComment (s : OurReader) (Q : bool * bool -> OurReader -> Prop) :
  inv s -> (forall r (s' : OurReader), scans s s' -> Q r s') -> owp our_readCStyleComment s Q.
Proof.
  intros Hi HQ. unfold our_readCStyleComment. apply owp_see_bind. cbv zeta. apply owp_bind.
  apply owp_advance; [done|apply c_comment_scan_le|]. intros s1 H1 _.
  apply owp_bind, owp_next_char; [apply H1|]. intros c s2 H2 _. apply owp_ret, HQ.
  by eapply scans_trans.
Qed.

Lemma our_placement_same isCpp nl has lve b doc :
  our_placement isCpp nl has lve b doc = commentAfterOnSameLine -> lve <> None.
Proof. by destruct lve. Qed.

Lemma owp_readComment (s : OurReader) (Q : bool -> OurReader -> Prop) :
  inv s -> (1 <= current_ s)%nat -> nth 0 (drop (current_ s - 1) (document_ s)) 0 = CH "/" ->
  (forall b (s' : OurReader), scans s s' -> Q b s') -> owp our_readComment s Q.
Proof.
  intros Hi Hc Hd HQ. unfold our_readComment. apply owp_see_bind. cbv zeta.
  apply owp_bind, owp_next_char; [done|]. intros c s1 H1 _. apply owp_bind.
  apply (owp_mono _ _ (fun _ s' => scans s1 s')).
  { destruct (c =? CH "*"); [by apply owp_readCStyleComment; [apply H1|]|].
    destruct (c =? CH "/"); [|apply owp_ret, scans_refl, H1]. apply owp_bind.
    apply (owp_core_scans _ _ (fun _ _ => True)); [|by intros; apply owp_ret].
    unfold readCppStyleComment. apply wp_gets_bind, wp_bind.
    apply wp_advance; [apply H1|apply cpp_comment_scan_le|]. intros s' Hs _.
    split; [apply Hs|]. by apply wp_ret. }
  intros [ok nl] s2 _ H2. pose proof (scans_trans _ _ _ H1 H2) as H12. simpl.
  destruct (negb ok); [by apply owp_ret, HQ|]. apply owp_see_bind.
  destruct (collectComments_ s2) eqn:Ecol; [|by apply owp_ret_bind, owp_ret, HQ].
  apply owp_bind, owp_get_bind. do 2 apply owp_see_bind.
  set (pl := our_placement _ _ _ _ _ _). apply owp_bind.
  apply (owp_mono _ _ (fun _ s' => our_core s' = our_core s2)).
  { destruct (bool_decide _); [by apply owp_hasAComment|by apply owp_ret]. }
  intros _ s3 _ E3. apply owp_see_bind.
  apply (owp_core_scans _ _ (fun _ _ => True)).
  - rewrite E3. apply wp_addComment; [apply H2|done|by apply our_placement_same| | |done].
    + pose proof (sc_cur _ _ H12). lia.
    + by rewrite (sc_doc _ _ H12).
  - intros _ s4 H4 _. apply owp_ret, HQ. eapply scans_trans; [done|]. by rewrite <- E3.
Qed.

Lemma owp_readNumber inf (s : OurReader) (Q : bool -> OurReader -> Prop) :
  inv s -> (forall b (s' : OurReader), scans s s' -> Q b s') -> owp (our_readNumber inf) s Q.
Proof.
  intros Hi HQ. unfold our_readNumber. apply owp_see_bind. destruct (_ && _) eqn:E; apply owp_bind.
  - apply owp_advance; [done| |by intros; apply owp_ret, HQ].
    destruct (rest s); [|simpl; lia]. by rewrite andb_false_r in E.
  - apply (owp_core_scans _ _ (fun _ _ => True)); [|by intros; apply owp_ret, HQ].
    by apply wp_readNumber.
Qed.

Lemma single_quote_scan_bounds r c0 n c :
  single_quote_scan r c0 = (n, c) -> (n <= length r)%nat /\ (c0 <> CH "'" -> c = CH "'" -> 1 <= n)%nat.
Proof.
  remember (length r) as k eqn:Hk. revert r c0 n c Hk.
  induction k as [k IH] using lt_wf_ind; intros r c0 n c ->.
  destruct r as [|d r]; cbn [single_quote_scan]; [by intros [= <- <-]|].
  destruct (d =? CH "\").
  - destruct r as [|d2 r]; [intros [= <- <-]; simpl; lia|].
    destruct (single_quote_scan r d) as [n' c'] eqn:E. intros [= <- <-].
    apply (IH (length r)) in E as [Hn _]; [simpl; lia|simpl; lia|done].
  - destruct (d =? CH "'"); [intros [= <- <-]; simpl; lia|].
    destruct (single_quote_scan r d) as [n' c'] eqn:E. intros [= <- <-].
    apply (IH (length r)) in E as [Hn _]; [simpl; lia|simpl; lia|done].
Qed.

Lemma owp_readString (s : OurReader) (Q : bool -> OurReader -> Prop) :
  inv s -> (forall b (s' : OurReader), scans s s' -> (b = true -> current_ s < current_ s')%nat -> Q b s') ->
  owp our_readString s Q.
Proof.
  intros Hi HQ.
  eapply (owp_core_scans _ _ (fun b c => b = true -> (current_ s < current_ c)%nat)); [|exact HQ].
  by apply wp_readString.
Qed.

Lemma owp_readStringSingleQuote (s : OurReader) (Q : bool -> OurReader -> Prop) :
  inv s -> (forall b (s' : OurReader), scans s s' -> (b = true -> current_ s < current_ s')%nat -> Q b s') ->
  owp readStringSingleQuote s Q.
Proof.
  intros Hi HQ. unfold readStringSingleQuote. apply owp_see_bind.
  destruct (single_quote_scan (rest s) 0) as [n c] eqn:E.
  apply single_quote_scan_bounds in E as [Hn Hq].
  apply owp_bind, owp_advance; [done|done|]. intros s' Hs Heq.
  apply owp_ret, HQ; [done|]. intros Hc. apply Z.eqb_eq in Hc.
  assert (1 <= n)%nat by (by apply Hq). lia.
Qed.

Lemma owp_special_float pat (s : OurReader) (Q : bool -> OurReader -> Prop) :
  inv s -> (forall b (s' : OurReader), scans s s' -> Q b s') -> owp (special_float pat) s Q.
Proof.
  intros Hi HQ. unfold special_float. apply owp_get_bind.
  destruct (allowSpecialFloats_ _); [by apply owp_match|]. by apply owp_ret, HQ, scans_refl.
Qed.

(** The branches of the [switch] that read on. *)
Lemma owp_switch_then c t (m : OM bool) (s : OurReader) (Q : bool * TokenType -> OurReader -> Prop) :
  c <> 0 ->
  negb (token_eqb t tokenArraySeparator || token_eqb t tokenObjectEnd || token_eqb t tokenArrayEnd ||
        token_eqb t tokenObjectBegin || token_eqb t tokenArrayBegin ||
        token_eqb t tokenEndOfStream) = true ->
  owp m s (fun b s' => scans s s' /\ (b = true -> t = tokenString -> (current_ s < current_ s')%nat)) ->
  (forall ok t (s' : OurReader), scans s s' -> switch_ok c s s' ok t /\ switch_zero c s s' ok t -> Q (ok, t) s') ->
  owp (ok ← m; mret (ok, t)) s Q.
Proof.
  intros Hc Ht Hm HQ. apply owp_bind. eapply owp_mono; [exact Hm|]. intros b s' _ [Hs Hb].
  by apply owp_ret, HQ, switch_on.
Qed.

Lemma owp_signed_number c inf (s : OurReader) (Q : bool * TokenType -> OurReader -> Prop) :
  inv s -> c <> 0 -> inf = tokenNegInf \/ inf = tokenPosInf ->
  (forall ok t (s' : OurReader), scans s s' -> switch_ok c s s' ok t /\ switch_zero c s s' ok t -> Q (ok, t) s') ->
  owp (signed_number inf) s Q.
Proof.
  intros Hi Hc Hinf HQ. unfold signed_number.
  apply owp_bind, owp_readNumber; [done|]. intros [] s1 H1; [by apply owp_ret, HQ, switch_on|].
  apply owp_bind, owp_special_float; [apply H1|]. intros b s2 H2. apply owp_ret, HQ.
  - by eapply scans_trans.
  - apply switch_on; [done| |by destruct Hinf as [->| ->]]. by destruct Hinf as [->| ->].
Qed.

Lemma owp_token_switch c (s : OurReader) (Q : bool * TokenType -> OurReader -> Prop) :
  inv s -> (c = CH "/" -> (1 <= current_ s)%nat /\ nth 0 (drop (current_ s - 1) (document_ s)) 0 = c) ->
  (forall ok t (s' : OurReader), scans s s' -> switch_ok c s s' ok t /\ switch_zero c s s' ok t -> Q (ok, t) s') ->
  owp (our_token_switch c) s Q.
Proof.
  intros Hi Hslash HQ. unfold our_token_switch. apply owp_get_bind.
  assert (forall t, t <> tokenString -> forall b (s' : OurReader), scans s s' ->
    scans s s' /\ (b = true -> t = tokenString -> (current_ s < current_ s')%nat)) as Hplain by done.
  repeat (match goal with |- owp (if ?b then _ else _) _ _ => destruct b eqn:? end;
          [bool_to_prop; subst|]).
  all: try (apply owp_ret, HQ; [by apply scans_refl|]; apply switch_here; [done|done|done|token_neq]; fail).
  - eapply owp_switch_then; [| | |exact HQ]; [done|done|]. apply owp_readString; [done|by split; auto].
  - eapply owp_switch_then; [| | |exact HQ]; [done|done|]. apply owp_readStringSingleQuote; [done|by split; auto].
  - destruct (Hslash eq_refl). eapply owp_switch_then; [| | |exact HQ]; [done|done|].
    by apply owp_readComment; [..|apply Hplain].
  - apply owp_bind, owp_readNumber; [done|]. intros b s1 H1. apply owp_ret, HQ, switch_on; [done| |done..].
    by intros ->.
  - eapply owp_signed_number; [| | |exact HQ]; [done|done|by left].
  - eapply owp_signed_number; [| | |exact HQ]; [done|done|by right].
  - eapply owp_switch_then; [| | |exact HQ]; [done|done|]. by apply owp_match; [|apply Hplain].
  - eapply owp_switch_then; [| | |exact HQ]; [done|done|]. by apply owp_match; [|apply Hplain].
  - eapply owp_switch_then; [| | |exact HQ]; [done|done|]. by apply owp_match; [|apply Hplain].
  - eapply owp_switch_then; [| | |exact HQ]; [done|done|]. by apply owp_special_float; [|apply Hplain].
  - eapply owp_switch_then; [| | |exact HQ]; [done|done|]. by apply owp_special_float; [|apply Hplain].
  - bool_to_prop. apply owp_ret, HQ; [by apply scans_refl|]. apply switch_here; [done|done|done|token_neq].
Qed.

Lemma owp_readToken (s : OurReader) (Q : bool * Token -> OurReader -> Prop) :
  inv s -> (forall ok t (s' : OurReader), scans s s' -> token_ok s s' ok t -> Q (ok, t) s') -> owp our_readToken s Q.
Proof.
  intros Hi HQ. unfold our_readToken. apply owp_bind, owp_skipSpaces; [done|]. intros s1 H1.
  apply owp_see_bind, owp_bind, owp_next_char; [apply H1|]. intros c s2 H2 Hc.
  apply owp_bind, owp_token_switch; [apply H2|intros ->; by eapply next_char_at|].
  intros ok t s3 H3 [Hsw H0]. apply owp_see_bind, owp_ret.
  edestruct (token_ok_switch s s1 s2 s3 c ok t) as [H13 Ht]; [done..|]. by apply HQ.
Qed.

(** ** Loops over tokens *)

Lemma owp_skip_comments fuel (s : OurReader) (Q : Token -> OurReader -> Prop) :
  inv s -> (length (rest s) < fuel)%nat ->
  (forall ok t (s' : OurReader), scans s s' -> token_ok s s' ok t -> Q t s') ->
  owp (our_skip_comments fuel) s Q.
Proof.
  revert s. induction fuel as [|fuel IH]; intros s Hi Hf HQ; [lia|]. cbn [our_skip_comments].
  apply owp_bind, owp_readToken; [done|]. intros ok t s1 H1 Ht.
  destruct (token_eqb _ _) eqn:E; [|by apply owp_ret, (HQ ok)]. apply token_eqb_spec in E.
  apply IH; [apply H1| |].
  - assert (length (rest s1) < length (rest s))%nat; [|lia].
    eapply token_shrinks; [done..|by rewrite E].
  - intros ok' t' s2 H2 Ht'. apply (HQ ok'); [by eapply scans_trans|by eapply token_ok_weaken].
Qed.

Lemma owp_skipCommentTokens (s : OurReader) (Q : Token -> OurReader -> Prop) :
  inv s -> (forall ok t (s' : OurReader), scans s s' -> token_ok s s' ok t -> Q t s') ->
  owp our_skipCommentTokens s Q.
Proof.
  intros Hi HQ. unfold our_skipCommentTokens. apply owp_get_bind, owp_see_bind.
  destruct (our_allowComments_ _); [by apply owp_skip_comments; [|lia|]|].
  apply owp_bind, owp_readToken; [done|]. intros ok t s1 H1 Ht. by apply owp_ret, (HQ ok).
Qed.

Lemma owp_comment_loop fuel ok t (s : OurReader) (Q : bool * Token -> OurReader -> Prop) :
  inv s -> (S (length (rest s)) < fuel)%nat -> Q (ok, t) s ->
  (forall ok' t' (s' : OurReader), scans s s' -> token_ok s s' ok' t' -> Q (ok', t') s') ->
  owp (our_comment_loop fuel ok t) s Q.
Proof.
  revert ok t s. induction fuel as [|fuel IH]; intros ok t s Hi Hf H0 HQ; [lia|].
  cbn [our_comment_loop]. destruct (_ && _); [|by apply owp_ret].
  apply owp_bind, owp_readToken; [done|]. intros ok1 t1 s1 H1 Ht.
  destruct (decide (type_ t1 = tokenEndOfStream)) as [E|Hne].
  - destruct fuel; [lia|]. cbn [our_comment_loop]. rewrite E. simpl. by apply owp_ret, HQ.
  - pose proof (token_shrinks _ _ _ _ H1 Ht Hne). apply IH; [apply H1|lia|by apply HQ|].
    intros ok' t' s' H2 Ht'. apply HQ; [by eapply scans_trans|by eapply token_ok_weaken].
Qed.

(** The token read before the loop, or a later one. *)
Lemma owp_skipCommentsAfter ok t (s0 s : OurReader) (Q : bool * Token -> OurReader -> Prop) :
  scans s0 s -> token_ok s0 s ok t ->
  (forall ok' t' (s' : OurReader), scans s0 s' -> token_ok s0 s' ok' t' ->
     (current_ s <= current_ s')%nat -> Q (ok', t') s') ->
  owp (our_skipCommentsAfter ok t) s Q.
Proof.
  intros Hs Ht HQ. unfold our_skipCommentsAfter. apply owp_see_bind.
  apply owp_comment_loop; [apply Hs|lia|by apply HQ|].
  intros ok' t' s' H1 Ht1. apply HQ; [by eapply scans_trans|by eapply token_ok_weaken|apply H1].
Qed.

(** Forgetting the errors of the recovery, of which there are none. *)
Lemma owp_drop_errors n (s0 s : OurReader) (Q : unit -> OurReader -> Prop) :
  scans s0 s -> n = length (errors_ s0) -> Q tt s ->
  owp (core (modify (fun s => set_errors (take n (errors_ s)) s))) s Q.
Proof.
  intros Hs -> HQ. apply owp_core, wp_modify. split; [done|].
  rewrite (scans_errors_id _ _ Hs). by destruct s.
Qed.

Lemma owp_recover_loop fuel until (s0 s : OurReader) (Q : unit -> OurReader -> Prop) :
  scans s0 s -> (length (rest s) < fuel)%nat ->
  (forall s' : OurReader, scans s0 s' -> Q tt s') ->
  owp (our_recover_loop fuel (length (errors_ s0)) until) s Q.
Proof.
  revert s. induction fuel as [|fuel IH]; intros s Hs Hf HQ; [lia|]. cbn [our_recover_loop].
  apply owp_bind, owp_readToken; [apply Hs|]. intros ok t s1 H1 Ht.
  pose proof (scans_trans _ _ _ Hs H1) as H01.
  apply owp_bind, (owp_mono _ _ (fun _ s' => s' = s1)).
  - destruct ok; [by apply owp_ret|]. by eapply owp_drop_errors.
  - intros _ s' _ ->. destruct (_ || _) eqn:E; [by apply owp_ret, HQ|].
    apply orb_false_iff in E as [_ E]. apply token_eqb_ne in E.
    pose proof (token_shrinks _ _ _ _ H1 Ht E). apply IH; [done|lia|done].
Qed.

Lemma owp_recoverFromError until (s : OurReader) (Q : bool -> OurReader -> Prop) :
  inv s -> (forall s' : OurReader, scans s s' -> Q false s') -> owp (our_recoverFromError until) s Q.
Proof.
  intros Hi HQ. unfold our_recoverFromError. do 2 apply owp_see_bind.
  apply owp_bind, (owp_recover_loop _ _ s s); [by apply scans_refl|lia|]. intros s' Hs.
  apply owp_bind. eapply owp_drop_errors; [done|done|]. by apply owp_ret, HQ.
Qed.

(** ** Decoding *)

(** One more error, nothing else. *)
Definition failed (s s' : OurReader) : Prop :=
  exists e, our_core s' = set_errors (errors_ s ++ [e]) (our_core s).

Lemma owp_addError_bind {A} msg t x (k : bool -> OM A) (s : OurReader) (Q : A -> OurReader -> Prop) :
  (forall s' : OurReader, failed s s' -> owp (k false) s' Q) -> owp (our_addError msg t x ≫= k) s Q.
Proof.
  intros HQ. apply owp_bind, owp_core. unfold addError. apply wp_modify_bind; [done|].
  apply wp_ret. split; [done|]. apply HQ. by eexists.
Qed.

(** A decoder of the common part. *)
Lemma owp_decoder {A} (m : RM (option A)) (P : A -> Prop) (s : OurReader) (Q : option A -> OurReader -> Prop) :
  (forall Q', (forall a, P a -> Q' (Some a) (our_core s)) ->
              (forall e, Q' None (set_errors (errors_ s ++ [e]) s)) -> wp m s Q') ->
  (forall a, P a -> Q (Some a) s) -> (forall s' : OurReader, failed s s' -> Q None s') ->
  owp (core m) s Q.
Proof.
  intros Hm HS HN. apply owp_core, Hm.
  - intros a Ha. split; [done|]. destruct s. by apply HS.
  - intros e. split; [done|]. apply HN. by eexists.
Qed.

Lemma owp_decodeString t (s : OurReader) (Q : option bytes -> OurReader -> Prop) :
  inv s -> (tok_start_ t + 2 <= tok_end_ t)%nat ->
  (forall d, Forall byte_ok d -> (length d <= length (document_ s))%nat -> Q (Some d) s) ->
  (forall s' : OurReader, failed s s' -> Q None s') -> owp (our_decodeString t) s Q.
Proof.
  intros Hi Ht HS HN.
  apply (owp_decoder _ (fun d => Forall byte_ok d /\ (length d <= length (document_ s))%nat)); [|by intros d []; apply HS|done].
  intros Q' HS' HN'. apply wp_decodeString; [done|done| |done]. auto.
Qed.

(** The integer branch: in the range of its type, and the number the digits
    denote. *)
Lemma our_integer_ok neg v :
  0 <= v <= (if neg : bool then maxLargestInt + 1 else maxLargestUInt) ->
  wf (our_integer neg v) /\ leaf (our_integer neg v) /\ isNumeric (our_integer neg v) = true /\
  (value_ (our_integer neg v) = PInt (if neg then - v else v) \/
   value_ (our_integer neg v) = PUInt (if neg then - v else v)).
Proof.
  intros Hv. unfold our_integer. pose proof (Z.div_mod v 10 ltac:(done)). destruct neg.
  - split_and!; [|by apply leaf_intro|done|left; simpl; f_equal; lia].
    change (in_s 64 (- (v / 10) * 10 - v mod 10)). unfold in_s, maxLargestInt in *. lia.
  - destruct (v <=? _) eqn:E; bool_to_prop;
      (split_and!; [|by apply leaf_intro|done|by (left + right)]).
    + change (in_s 64 v). unfold in_s, maxLargestInt in *. lia.
    + change (in_u 64 v). unfold in_u, maxLargestUInt in *. lia.
Qed.

Lemma owp_decodeNumber t (s : OurReader) (Q : option Value -> OurReader -> Prop) :
  (forall v, wf v -> leaf v -> isNumeric v = true -> (forall d, value_ v = PReal d -> narrow d) -> Q (Some v) s) ->
  (forall s' : OurReader, failed s s' -> Q None s') -> owp (our_decodeNumber t) s Q.
Proof.
  intros HS HN. unfold our_decodeNumber. apply owp_see_bind. cbv zeta.
  set (neg := nth 0 _ 0 =? CH "-"). destruct (decode_digits _ _ 0) as [v|] eqn:E.
  - apply decode_digits_range in E; [|by destruct neg|by destruct neg].
    apply our_integer_ok in E as (Hw & Hl & Hn & Hp). apply owp_ret, HS; [done..|]. intros d Hd. destruct Hp; congruence.
  - apply (owp_decoder _ (fun v => wf v /\ leaf v /\ isNumeric v = true /\ forall d, value_ v = PReal d -> narrow d));
      [|by intros v (? & ? & ? & ?); apply HS|done].
    intros Q' HS' HN'. apply wp_decodeDouble; [|done]. intros d Hd. apply HS'.
    split_and!; [done|by apply leaf_intro|done|]. by intros d' [= <-].
Qed.

Lemma owp_object_name t (s0 s : OurReader) ok (Q : option (option bytes) -> OurReader -> Prop) :
  inv s -> token_ok s0 s ok t ->
  Q None s ->
  (forall name, type_ t <> tokenEndOfStream -> Forall byte_ok name ->
     Z.of_nat (length name) <= Z.max 5800 (Z.of_nat (length (document_ s))) ->
     Q (Some (Some name)) s) ->
  (forall s' : OurReader, failed s s' -> Q (Some None) s') ->
  owp (our_object_name t) s Q.
Proof.
  intros Hi Ht HN HS HE. unfold our_object_name. apply owp_get_bind.
  destruct (token_eqb _ _) eqn:E1.
  - apply token_eqb_spec in E1. apply owp_bind, owp_decodeString; [done|by apply (tk_string _ _ _ _ Ht)|..].
    + intros d Hd Hl. apply owp_ret, HS; [by rewrite E1|done|lia].
    + intros s' Hf. by apply owp_ret, HE.
  - destruct (_ && _) eqn:E2; [|by apply owp_ret].
    apply andb_true_iff in E2 as [E2%token_eqb_spec Hk]. apply owp_bind, owp_decodeNumber.
    + intros v Hw _ Hnum Hr. destruct (asString_numeric v Hw Hnum) as (name & Hname & Hb).
      pose proof (asString_length v name Hw Hnum Hr Hname).
      eapply owp_run_bind; [done|]. apply owp_ret, HS; [by rewrite E2|done|lia].
    + intros s' Hf. by apply owp_ret, HE.
Qed.
