(* ===== verification/JsonOurReaderFacts.v ===== *)
(** * Safety and termination of [Json::OurReader]

    Every function of the parser meets its specification with the fuel it asks
    for, with any features.  The theorems at the end say that [parse] returns on
    every document, what makes it stop the process, and what its verdict means
    under [strictRoot_] and [failIfExtra_]. *)
From S2P Require Export JsonOurReaderWp.
Open Scope Z_scope.

(** ** Definitions *)

(** What a method that reads into [p] is used for. *)
Definition our_cont (p : path) (s0 : Reader) (Q : bool -> OurReader -> Prop) : Prop :=
  forall ok (s' : OurReader), runs p s0 s' -> reported s0 s' ok -> Q ok s'.

Definition our_value_ok (m : nat) (f : OM bool) : Prop :=
  forall (s : OurReader) p ns Q,
    inv s -> nodes_ s = p :: ns -> is_Some (shape (root_ s) p) -> no_below p s ->
    (length (nodes_ s) <= S (opens (take (current_ s) (document_ s))))%nat ->
    (3 * length (rest s) + 1 <= m)%nat ->
    (forall ok (s' : OurReader), runs p s s' -> reported s s' ok ->
       (ok = true -> lastValue_ s' = lastValue_ s \/ lastValue_ s' = Some p) -> Q ok s') ->
    owp f s Q.

Definition our_container_ok (m : nat) (f : Token -> OM bool) : Prop :=
  forall token (s : OurReader) p ns Q,
    inv s -> nodes_ s = p :: ns -> is_Some (shape (root_ s) p) -> no_below p s -> depth_lt s ->
    (3 * length (rest s) + 3 <= m)%nat -> our_cont p s Q -> owp (f token) s Q.

Definition our_members_ok (m : nat) (t : ValueType) (f : OM bool) (s : OurReader) : Prop :=
  forall p ns Q,
    inv s -> nodes_ s = p :: ns -> shape (root_ s) p = Some t -> no_deep p s -> depth_lt s ->
    (3 * length (rest s) + 2 <= m)%nat -> our_cont p s Q -> owp f s Q.

(** ** Errors *)

Lemma failed_runs p (s0 s s' : OurReader) :
  runs p s0 s -> errors_ s = errors_ s0 -> failed s s' -> runs p s0 s' /\ reported s0 s' false.
Proof.
  intros Hr He [e ->]. split.
  - eapply runs_trans; [done|]. apply runs_set_errors; apply Hr.
  - exists e, []. simpl. by rewrite He.
Qed.

Lemma owp_fail_recover p (s0 s : OurReader) until Q :
  runs p s0 s -> reported s0 s false -> our_cont p s0 Q -> owp (our_recoverFromError until) s Q.
Proof.
  intros Hr He HQ. apply owp_recoverFromError; [apply Hr|]. intros s' Hs. apply HQ.
  - eapply runs_trans; [done|]. apply (scans_quiet p) in Hs as [Hs _]; [done|apply Hr].
  - by eapply reported_scans.
Qed.

Lemma owp_fail_add p (s0 s : OurReader) msg t until Q :
  runs p s0 s -> errors_ s = errors_ s0 -> our_cont p s0 Q -> owp (our_addErrorAndRecover msg t until) s Q.
Proof.
  intros Hr He HQ. unfold our_addErrorAndRecover. apply owp_addError_bind. intros s' Hf.
  edestruct failed_runs as [Hr' He']; [done..|]. by eapply owp_fail_recover.
Qed.

(** ** The current value *)

(** The specifications of JsonReaderWp.v for [core]. *)
#[local] Instance parser_never_stops : Stops := fun _ _ => False.

Lemma owp_core_quiet {A} p (m : RM A) (s : OurReader) (Q : A -> OurReader -> Prop) P :
  (forall Q', (forall a s', quiet p s s' -> P a s' -> Q' a s') -> wp m s Q') ->
  (forall a (s' : OurReader), quiet p s s' -> P a (our_core s') -> Q a s') -> owp (core m) s Q.
Proof.
  intros Hm HQ. apply owp_core, Hm. intros a c Hq HP. split; [apply Hq|]. by apply HQ.
Qed.

Lemma owp_swapPayload w p ns (s : OurReader) (Q : unit -> OurReader -> Prop) :
  inv s -> nodes_ s = p :: ns -> is_Some (shape (root_ s) p) -> no_below p s -> wf w -> leaf w ->
  (forall s' : OurReader, quiet p s s' -> shape (root_ s') p = Some (type w) ->
     current_ s' = current_ s -> Q tt s') ->
  owp (core (swapPayloadCurrent w)) s Q.
Proof.
  intros Hi Hn Hp Hb Hw Hl HQ.
  apply (owp_core_quiet p _ _ _ (fun _ c => shape (root_ c) p = Some (type w) /\ current_ c = current_ s));
    [|by intros [] s' ? []; apply HQ].
  intros Q' HQ'. eapply wp_swapPayloadCurrent; [done..|]. auto.
Qed.

Lemma owp_setOffsets a b p ns (s : OurReader) (Q : unit -> OurReader -> Prop) :
  inv s -> nodes_ s = p :: ns -> is_Some (shape (root_ s) p) ->
  (forall s' : OurReader, scans s s' -> current_ s' = current_ s -> Q tt s') ->
  owp (our_setOffsets a b) s Q.
Proof.
  intros Hi Hn Hp HQ. unfold our_setOffsets. apply owp_get_bind.
  apply (owp_core_scans _ _ (fun _ c => current_ c = current_ s)); [|by intros []; apply HQ].
  by eapply wp_setOffsets.
Qed.

Lemma owp_meta f p ns (s : OurReader) (Q : unit -> OurReader -> Prop) :
  inv s -> nodes_ s = p :: ns -> is_Some (shape (root_ s) p) ->
  (forall v, exists v', f v = Ret v' /\ value_ v' = value_ v) ->
  (forall s' : OurReader, scans s s' -> current_ s' = current_ s -> Q tt s') ->
  owp (our_currentValue f) s Q.
Proof.
  intros Hi Hn Hp Hf HQ.
  apply (owp_core_scans _ _ (fun _ c => current_ c = current_ s)); [|by intros []; apply HQ].
  by eapply wp_currentValue_meta.
Qed.

Lemma owp_child f k t p ns (s : OurReader) (Q : unit -> OurReader -> Prop) :
  inv s -> nodes_ s = p :: ns -> shape (root_ s) p = Some t ->
  (forall v, wf v -> type v = t -> exists v', f v = Ret v' /\ wf v' /\ type v' = t /\
     is_Some (edge_get k v') /\ forall e w, edge_get e v = Some w -> edge_get e v' = Some w) ->
  (forall s' : OurReader, quiet p s s' -> current_ s' = current_ s -> shape (root_ s') p = Some t ->
     is_Some (shape (root_ s') (p ++ [k])) -> Q tt s') ->
  owp (our_currentValue f) s Q.
Proof.
  intros Hi Hn Hp Hf HQ.
  apply (owp_core_quiet p _ _ _ (fun _ c => current_ c = current_ s /\ shape (root_ c) p = Some t /\
    is_Some (shape (root_ c) (p ++ [k])))); [|by intros [] s' ? (? & ? & ?); apply HQ].
  intros Q' HQ'. eapply wp_currentValue_child; [done..|]. intros s' ????. by apply HQ'.
Qed.

Lemma owp_store_token token w p ns (s : OurReader) (Q : unit -> OurReader -> Prop) :
  inv s -> nodes_ s = p :: ns -> is_Some (shape (root_ s) p) -> no_below p s -> wf w -> leaf w ->
  (forall s' : OurReader, quiet p s s' -> Q tt s') -> owp (our_store_token token w) s Q.
Proof.
  intros Hi Hn Hp Hb Hw Hl HQ. unfold our_store_token.
  apply owp_bind. eapply owp_swapPayload; [done..|]. intros s1 H1 _ Hc1.
  eapply owp_setOffsets; [apply H1|by rewrite (ru_nodes _ _ _ (proj1 H1))|apply H1|].
  intros s2 H2 _. by eapply HQ, quiet_scans.
Qed.

(** ** Values *)

Section value.
Context (p : path) (ns : list path) (s0 s : OurReader) (Q : option bool -> OurReader -> Prop).
Hypothesis Hq : quiet p s0 s.
Hypothesis Hn : nodes_ s = p :: ns.
Hypothesis Hb : no_below p s.
Hypothesis HQ : forall ok (s' : OurReader), runs p s0 s' -> reported s0 s' ok -> Q (Some ok) s'.

Let Hr : runs p s0 s := proj1 Hq.

Lemma quiet_end (s' : OurReader) : quiet p s s' -> Q (Some true) s'.
Proof.
  intros (Hr' & He' & _). pose proof Hq as (_ & He & _).
  apply HQ; [by eapply runs_trans|]. simpl. congruence.
Qed.

Lemma failed_end (s' : OurReader) : failed s s' -> Q (Some false) s'.
Proof. intros Hf. pose proof Hq as (_ & He & _). by destruct (failed_runs p s0 s s'); [..|apply HQ]. Qed.

Lemma owp_literal token v :
  wf v -> leaf v -> owp (_ ← our_store_token token v; mret (Some true)) s Q.
Proof.
  intros Hw Hlf. apply owp_bind.
  eapply owp_store_token; [apply Hr|done|apply Hr|done..|]. intros s1 H1.
  by apply owp_ret, quiet_end.
Qed.

Lemma owp_number_value token : owp (ok ← our_decodeNumberCurrent token; mret (Some ok)) s Q.
Proof.
  unfold our_decodeNumberCurrent. apply owp_bind, owp_bind, owp_decodeNumber.
  - intros v Hw Hlf _ _. apply owp_bind.
    eapply owp_store_token; [apply Hr|done|apply Hr|done..|]. intros s1 H1.
    by apply owp_ret, owp_ret, quiet_end.
  - intros s1 H1. by apply owp_ret, owp_ret, failed_end.
Qed.

Lemma owp_string_value token : (tok_start_ token + 2 <= tok_end_ token)%nat ->
  owp (ok ← our_decodeStringCurrent token; mret (Some ok)) s Q.
Proof.
  intros Ht. unfold our_decodeStringCurrent.
  apply owp_bind, owp_bind, owp_decodeString; [apply Hr|done|..].
  - intros d Hd Hlen. eapply owp_run_bind; [by eapply Value_string_inv; [apply Hr|..]|].
    apply owp_bind. eapply owp_store_token; [apply Hr|done|apply Hr|done|done|by apply leaf_intro|].
    intros s1 H1. by apply owp_ret, owp_ret, quiet_end.
  - intros s1 H1. by apply owp_ret, owp_ret, failed_end.
Qed.

(** A container: its members, then its limit. *)
Lemma owp_container_value n f token :
  our_container_ok n f -> depth_lt s -> (3 * length (rest s) + 3 <= n)%nat ->
  owp (ok ← f token; cur ← see current_; _ ← our_setOffsetLimit (Z.of_nat cur); mret (Some ok)) s Q.
Proof.
  intros Hf Hd Hfuel. apply owp_bind.
  eapply Hf; [apply Hr|done|apply Hr|done..|]. intros ok s1 H1 E1.
  apply owp_see_bind, owp_bind. unfold our_setOffsetLimit. apply owp_get_bind.
  eapply owp_meta; [apply H1|by rewrite (ru_nodes _ _ _ H1)|apply H1| |].
  { intros v. by eexists. }
  intros s2 H2 _. pose proof Hq as (_ & He & _). apply owp_ret, HQ.
  - eapply runs_trans; [done|]. eapply runs_trans; [done|].
    apply (scans_quiet p) in H2 as [H2 _]; [done|apply H1].
  - eapply reported_scans; [|done]. by eapply reported_trans.
Qed.

Lemma owp_syntax_error token :
  (forall s' : OurReader, runs p s0 s' -> reported s0 s' false -> Q None s') ->
  owp (our_syntax_error token) s Q.
Proof.
  intros HN. unfold our_syntax_error. apply owp_bind.
  eapply owp_setOffsets; [apply Hr|done|apply Hr|]. intros s1 H1 _.
  apply owp_addError_bind. intros s2 H2.
  destruct (quiet_scans _ _ _ _ Hq H1) as (H1r & E1 & _).
  destruct (failed_runs p s0 s1 s2); [done..|]. by apply owp_ret, HN.
Qed.

(** The null put in the place of a dropped value: the separator is read again. *)
Lemma owp_dropped token ok :
  token_ok s0 s ok token -> tok_end_ token = S (tok_start_ token) -> owp our_dropped_null s Q.
Proof.
  intros Ht Hend. pose proof Hq as (_ & He & Hl). unfold our_dropped_null.
  apply owp_bind, owp_core, wp_modify. split; [done|].
  set (s1 := set_core (set_current (current_ s - 1) s) s).
  assert (runs p s0 s1) as Hr1 by by eapply runs_unread.
  apply owp_bind.
  eapply owp_swapPayload; [apply Hr1|exact Hn|apply Hr1|exact Hb|exact wf_null|by apply leaf_intro|].
  intros s2 (H2 & E2 & L2) _ _. apply owp_see_bind, owp_bind.
  eapply owp_setOffsets; [apply H2|by rewrite (ru_nodes _ _ _ H2)|apply H2|].
  intros s3 H3 _. apply owp_ret, HQ.
  - eapply runs_trans; [exact Hr1|]. eapply runs_trans; [exact H2|]. by apply scans_quiet; [|apply H2].
  - simpl. rewrite (sc_errors _ _ H3), E2. exact He.
Qed.
End value.

(** The comment collected before the value. *)
Lemma owp_attach_comment (collect : bool) before p ns (s : OurReader) (Q : unit -> OurReader -> Prop) :
  inv s -> nodes_ s = p :: ns -> is_Some (shape (root_ s) p) -> before = commentsBefore_ s ->
  (forall s' : OurReader, scans s s' -> current_ s' = current_ s -> Q tt s') ->
  owp (core (if collect && negb (bool_decide (before = [])) then
               _ ← currentValue (setComment before commentBefore);
               modify (set_commentsBefore [])
             else mret tt)) s Q.
Proof.
  intros Hi Hn Hp Hbf HQ.
  apply (owp_core_scans _ _ (fun _ c => current_ c = current_ s)); [|by intros []; apply HQ].
  by eapply wp_attach_comment.
Qed.

(** The end of [readValue]. *)
Lemma owp_value_end (collect : bool) p ns (s0 s : OurReader) ok (Q : bool -> OurReader -> Prop) :
  runs p s0 s -> nodes_ s0 = p :: ns -> collect = collectComments_ s0 -> reported s0 s ok ->
  (forall s' : OurReader, runs p s0 s' -> reported s0 s' ok ->
     (ok = true -> lastValue_ s' = lastValue_ s0 \/ lastValue_ s' = Some p) -> Q ok s') ->
  owp (_ ← (if collect then
              p ← core nodes_top;
              _ ← core (modify (fun s => set_lastValue (Some (current_ s)) (Some p) s));
              put (set_hasAComment false)
            else mret tt);
       mret ok) s Q.
Proof.
  intros Hr Hn Hc He HQ. destruct collect.
  - apply owp_bind, owp_bind, owp_core. unfold nodes_top. apply wp_gets_bind.
    rewrite (ru_nodes _ _ _ Hr), Hn. apply wp_ret. split; [done|].
    apply owp_bind, owp_core, wp_modify. split; [done|]. apply owp_hasAComment, owp_ret.
    apply HQ; [by apply runs_set_lastValue|done|by right].
  - apply owp_ret_bind, owp_ret, HQ; [done|done|]. intros Ht. left. by apply Hr.
Qed.

(** The [switch] of [readValue] on the token read from [s0]. *)
Lemma owp_value_switch n rO rA t ok0 p ns (s0 s : OurReader) (Q : option bool -> OurReader -> Prop) :
  our_container_ok n rO -> our_container_ok n rA ->
  scans s0 s -> token_ok s0 s ok0 t -> nodes_ s0 = p :: ns -> is_Some (shape (root_ s0) p) ->
  no_below p s0 -> (length (nodes_ s0) <= S (opens (take (current_ s0) (document_ s0))))%nat ->
  (3 * length (rest s0) + 1 <= S n)%nat ->
  (forall r (s' : OurReader), runs p s0 s' -> reported s0 s' (default false r) -> Q r s') ->
  owp (our_value_switch rO rA t) s Q.
Proof.
  intros HO HA Hs Ht Hn Hp Hb Hd Hf HQ.
  pose proof (scans_quiet p _ _ Hs Hp) as Hq.
  assert (Hn2 : nodes_ s = p :: ns) by by rewrite (sc_nodes _ _ Hs).
  pose proof (no_below_quiet _ _ _ _ Hq Hb) as Hb2.
  assert (HQ2 : forall ok (s' : OurReader), runs p s0 s' -> reported s0 s' ok -> Q (Some ok) s').
  { intros ok. apply (HQ (Some ok)). }
  assert (HQN : forall s' : OurReader, runs p s0 s' -> reported s0 s' false -> Q None s').
  { apply (HQ None). }
  assert (Hcont : (type_ t = tokenObjectBegin \/ type_ t = tokenArrayBegin) ->
                  depth_lt s /\ (3 * length (rest s) + 3 <= n)%nat).
  { intros Hty. pose proof (tk_open _ _ _ _ Ht Hty) as Ho. split.
    - unfold depth_lt. rewrite (sc_nodes _ _ Hs). lia.
    - assert (type_ t <> tokenEndOfStream) as Hne by (by destruct Hty as [->| ->]).
      pose proof (token_shrinks _ _ _ _ Hs Ht Hne). lia. }
  unfold our_value_switch. apply owp_get_bind. cbv zeta.
  destruct (type_ t) eqn:Ety; try (by eapply owp_syntax_error);
    try (destruct (our_allowDroppedNullPlaceholders_ _); [|by eapply owp_syntax_error];
         eapply owp_dropped; [exact Hq|exact Hn2|exact Hb2|exact HQ2|exact Ht|];
         apply (tk_single _ _ _ _ Ht); rewrite Ety; tauto);
    try (by eapply owp_literal; [exact Hq|exact Hn2|exact Hb2|exact HQ2|..|apply leaf_intro]).
  - destruct Hcont; [by left|]. eapply owp_container_value; [exact Hq|exact Hn2|exact Hb2|exact HQ2|exact HO|done..].
  - destruct Hcont; [by right|]. eapply owp_container_value; [exact Hq|exact Hn2|exact Hb2|exact HQ2|exact HA|done..].
  - eapply owp_string_value; [exact Hq|exact Hn2|exact Hb2|exact HQ2|]. by apply (tk_string _ _ _ _ Ht).
  - by eapply owp_number_value.
Qed.

Lemma owp_readValue_body n rO rA :
  our_container_ok n rO -> our_container_ok n rA -> our_value_ok (S n) (our_readValue_body rO rA).
Proof.
  intros HO HA s p ns Q Hi Hn Hp Hb Hd Hf HQ. unfold our_readValue_body.
  apply owp_get_bind, owp_see_bind. destruct (_ <? _) eqn:E.
  { apply Z.ltb_lt in E. left. split; [done|].
    pose proof (opens_take_total (current_ s) (document_ s)). lia. }
  apply owp_bind, owp_skipCommentTokens; [done|]. intros ok0 t s1 H1 Ht.
  do 2 apply owp_see_bind. apply owp_bind.
  eapply owp_attach_comment; [apply H1|by rewrite (sc_nodes _ _ H1)|by rewrite (sc_shape _ _ H1)|done|].
  intros s2 H2 Hc2. pose proof (scans_trans _ _ _ H1 H2) as H12.
  assert (Ht2 : token_ok s s2 ok0 t).
  { exact (token_ok_stay _ _ _ _ _ H2 Hc2 Ht). }
  apply owp_bind. eapply owp_value_switch; [exact HO|exact HA|done..|].
  intros [ok|] s3 H3 E3; simpl in E3.
  - eapply owp_value_end; [exact H3|exact Hn|by rewrite (sc_collect _ _ H1)|exact E3|exact (HQ ok)].
  - apply owp_ret, HQ; [exact H3|exact E3|done].
Qed.

(** ** Members *)

(** One member: push the child, read it, pop. *)
Lemma owp_member {A} n rv k p ns t (s0 s : OurReader) (K : bool -> OM A) (Q : A -> OurReader -> Prop) :
  our_value_ok n rv -> quiet p s0 s -> nodes_ s = p :: ns -> shape (root_ s) p = Some t ->
  is_Some (shape (root_ s) (p ++ [k])) -> no_deep p s -> depth_lt s ->
  (3 * length (rest s) + 1 <= n)%nat ->
  (forall ok (s' : OurReader), runs p s s' -> runs p s0 s' -> reported s0 s' ok -> nodes_ s' = p :: ns ->
     shape (root_ s') p = Some t -> (ok = true -> no_deep p s') -> owp (K ok) s' Q) ->
  owp (_ ← our_push k; ok ← rv; _ ← our_pop; K ok) s Q.
Proof.
  intros Hrv (Hr & He & Hl) Hn Hp Hk Hnd Hd Hf HQ.
  apply owp_bind, owp_core. unfold push_edge, nodes_top. apply wp_bind, wp_gets_bind. rewrite Hn.
  apply wp_ret. split; [done|]. apply wp_modify. split; [done|]. rewrite Hn.
  set (s1 := set_core (set_nodes _ s) s). apply owp_bind.
  eapply (Hrv s1 (p ++ [k]) (p :: ns)); [apply inv_set_nodes, Hr|done|exact Hk| | |exact Hf|].
  - apply no_deep_below, Hnd.
  - unfold depth_lt in Hd. rewrite Hn in Hd. simpl in *. lia.
  - intros ok s2 H2 E2 L2. unfold our_pop, nodes_pop.
    apply runs_set_nodes in H2 as H3.
    destruct (runs_child p k s (set_nodes (nodes_ s) s2)) as [H4 Hsh]; [by rewrite Hp; eexists|done|].
    assert (set_nodes (nodes_ s) s2 = set_nodes (tail (nodes_ s2)) s2) as Heq.
    { rewrite (ru_nodes _ _ _ H2), Hn. done. }
    rewrite Heq in H4, Hsh. apply owp_bind, owp_core, wp_modify. split; [done|]. apply HQ.
    + done.
    + by eapply runs_trans.
    + simpl. eapply reported_trans; [exact He|exact E2].
    + simpl. by rewrite (ru_nodes _ _ _ H2).
    + by rewrite <- Hp.
    + intros Hok k' r. simpl. destruct (L2 Hok) as [->| ->]; [apply Hnd|].
      intros [= H%app_inv_head]. by injection H as _ <-.
Qed.

(** A token after something read into [p]. *)
Lemma runs_token p (s0 s s' : OurReader) :
  runs p s0 s -> scans s s' -> runs p s0 s' /\ (length (rest s') <= length (rest s))%nat.
Proof.
  intros Hr Hs. split.
  - eapply runs_trans; [done|]. by apply scans_quiet; [|apply Hr].
  - rewrite !length_rest, (sc_doc _ _ Hs). pose proof (sc_cur _ _ Hs). lia.
Qed.

Lemma owp_object_next n loop name p ns (s0 s : OurReader) (Q : bool -> OurReader -> Prop) :
  (forall name s, our_members_ok n objectValue (loop name) s) ->
  runs p s0 s -> errors_ s = errors_ s0 -> nodes_ s = p :: ns -> shape (root_ s) p = Some objectValue ->
  no_deep p s -> depth_lt s0 -> (3 * length (rest s) + 2 <= n)%nat -> our_cont p s0 Q ->
  owp (our_object_next loop name) s Q.
Proof.
  intros Hloop H5 E5 Hn5 Hsh5 Hnd5 Hd Hf HQ. unfold our_object_next.
  apply owp_bind, owp_readToken; [apply H5|]. intros ok6 t6 s6 H6 Ht6.
  destruct (runs_token _ _ _ _ H5 H6) as [Hr6 _].
  assert (errors_ s6 = errors_ s0) as He6 by (rewrite (sc_errors _ _ H6); exact E5).
  destruct (negb ok6 || _) eqn:E6; [by eapply owp_fail_add|]. apply orb_false_iff in E6 as [E6 _].
  apply negb_false_iff in E6. subst ok6.
  apply owp_bind. eapply (owp_skipCommentsAfter true t6 s s6); [done|done|].
  intros ok7 t7 s7 H7 Ht7 _. destruct (runs_token _ _ _ _ H5 H7) as [Hr7 Hrest].
  assert (errors_ s7 = errors_ s0) as He7 by (rewrite (sc_errors _ _ H7); exact E5).
  destruct (token_eqb _ _); [by apply owp_ret, HQ|].
  eapply Hloop; [apply H7|by rewrite (sc_nodes _ _ H7)|by rewrite (sc_shape _ _ H7)| | |lia|].
  - intros k r. rewrite (sc_lv _ _ H7). apply Hnd5.
  - by eapply depth_runs.
  - intros ok s8 H8 E8. apply HQ; [by eapply runs_trans|by eapply reported_trans].
Qed.

(** The duplicate test reads the current object. *)
Lemma owp_duplicate_key name p ns (s : OurReader) (Q : bool -> OurReader -> Prop) :
  nodes_ s = p :: ns -> shape (root_ s) p = Some objectValue -> (forall b, Q b s) ->
  owp (duplicate_key name) s Q.
Proof.
  intros Hn Hp HQ. unfold duplicate_key. apply owp_get_bind.
  destruct (rejectDupKeys_ _); [|by apply owp_ret].
  apply owp_bind, owp_core. unfold nodes_top. apply wp_gets_bind. rewrite Hn. apply wp_ret.
  split; [done|]. replace (set_core s s) with s by by destruct s.
  apply owp_see_bind. destruct (shape_at_path _ _ _ Hp) as (v & Hv & Ht).
  simpl. rewrite Hv. destruct v as [[| | | | | |m|m] c st l]; try discriminate Ht.
  unfold owp, run, isMember, find. simpl. split; [done|apply HQ].
Qed.

Lemma owp_object_member n rv loop name p ns (s0 s : OurReader) (Q : bool -> OurReader -> Prop) :
  our_value_ok n rv -> (forall name s, our_members_ok n objectValue (loop name) s) ->
  quiet p s0 s -> nodes_ s = p :: ns -> shape (root_ s) p = Some objectValue -> no_deep p s ->
  depth_lt s0 -> Forall byte_ok name -> (3 * length (rest s) + 2 <= n)%nat -> our_cont p s0 Q ->
  owp (our_object_member rv loop name) s Q.
Proof.
  intros Hrv Hloop Hq Hn Hp Hnd Hd Hnm Hf HQ. unfold our_object_member.
  pose proof Hq as (Hr & He & Hl).
  apply owp_bind, owp_readToken; [apply Hr|]. intros ok3 t3 s3 H3 Ht3.
  pose proof (quiet_scans _ _ _ _ Hq H3) as Hq3. pose proof Hq3 as (Hr3 & He3 & _).
  destruct (_ || _); [by eapply owp_fail_add|].
  apply owp_bind.
  eapply (owp_child _ (EKey (CZString name)) objectValue);
    [apply Hr3|by rewrite (sc_nodes _ _ H3)| |by intros; apply resolveReference_child|].
  { rewrite (sc_shape _ _ H3). exact Hp. }
  intros s4 Hq4 Hc4 Hsh4 Hk4. pose proof Hq4 as (Hr4' & _ & Hl4').
  pose proof (quiet_trans _ _ _ _ Hq3 Hq4) as Hq04. pose proof Hq04 as (Hr4 & He4 & Hl4).
  assert (length (rest s4) <= length (rest s))%nat as Hrest.
  { rewrite !length_rest, Hc4, (ru_doc _ _ _ Hr4'), (sc_doc _ _ H3). pose proof (sc_cur _ _ H3). lia. }
  eapply owp_member; [exact Hrv|exact Hq04|by rewrite (ru_nodes _ _ _ Hr4'), (sc_nodes _ _ H3)
    |exact Hsh4|exact Hk4| | |lia|].
  { intros k r. rewrite Hl4', (sc_lv _ _ H3). apply Hnd. }
  { by eapply depth_runs. }
  intros ok5 s5 H45 H5 E5 Hn5 Hsh5 Hnd5. destruct ok5; simpl negb; cbv iota.
  2: { by eapply owp_fail_recover. }
  eapply owp_object_next; [exact Hloop|exact H5|exact E5|exact Hn5|exact Hsh5|by apply Hnd5|exact Hd| |exact HQ].
  pose proof (ru_cur _ _ _ H45). rewrite !length_rest in *. rewrite (ru_doc _ _ _ H45). lia.
Qed.

Lemma owp_object_body n rv loop name (s : OurReader) :
  our_value_ok n rv -> (forall name s, our_members_ok n objectValue (loop name) s) ->
  our_members_ok (S n) objectValue (our_object_body rv loop name) s.
Proof.
  intros Hrv Hloop p ns Q Hi Hn Hp Hnd Hd Hf HQ. unfold our_object_body. apply owp_get_bind.
  assert (Hlive : is_Some (shape (root_ s) p)) by by rewrite Hp.
  apply owp_bind, owp_readToken; [done|]. intros ok t s1 H1 Ht. cbv zeta.
  destruct ok; simpl negb; cbv iota.
  2: { pose proof (scans_quiet p _ _ H1 Hlive) as (? & ? & _). by eapply owp_fail_add. }
  apply owp_bind. eapply (owp_skipCommentsAfter true t s s1); [done|done|].
  intros ok t2 s2 H2 Ht2 Hle.
  pose proof (scans_quiet p _ _ H2 Hlive) as Hq2. pose proof Hq2 as (Hr2 & He2 & Hl2).
  destruct ok; simpl negb; cbv iota; [|by eapply owp_fail_add].
  destruct (_ && _); [by apply owp_ret, HQ|].
  apply owp_bind. eapply owp_object_name; [apply H2|exact Ht2|by eapply owp_fail_add|..].
  2: { intros s3 H3. destruct (failed_runs p s s2 s3); [done..|]. by eapply owp_fail_recover. }
  intros nm Hne Hnm Hlen. pose proof (token_shrinks _ _ _ _ H2 Ht2 Hne) as Hshrink.
  destruct (_ <=? _) eqn:E.
  { apply Z.leb_le in E. right. split; [done|]. lia. }
  apply owp_bind. eapply owp_duplicate_key; [by rewrite (sc_nodes _ _ H2)|by rewrite (sc_shape _ _ H2)|].
  intros []; [by eapply owp_fail_add|].
  eapply owp_object_member; [exact Hrv|exact Hloop|exact Hq2|by rewrite (sc_nodes _ _ H2)|
    by rewrite (sc_shape _ _ H2)| |exact Hd|exact Hnm|lia|exact HQ].
  intros k r. rewrite Hl2. apply Hnd.
Qed.

Lemma owp_array_next n loop index p ns (s0 s : OurReader) (Q : bool -> OurReader -> Prop) :
  (forall index (s : OurReader), 0 <= index <= Z.of_nat (current_ s) ->
     our_members_ok n arrayValue (loop index) s) ->
  0 <= index <= Z.of_nat (current_ s) ->
  runs p s0 s -> errors_ s = errors_ s0 -> nodes_ s = p :: ns -> shape (root_ s) p = Some arrayValue ->
  no_deep p s -> depth_lt s0 -> (3 * length (rest s) <= n)%nat -> our_cont p s0 Q ->
  owp (our_array_next loop index) s Q.
Proof.
  intros Hloop Hix H5 E5 Hn5 Hsh5 Hnd5 Hd Hf HQ. unfold our_array_next.
  apply owp_bind, owp_readToken; [apply H5|]. intros ok6 t6 s6 H6 Ht6.
  apply owp_bind. eapply (owp_skipCommentsAfter ok6 t6 s s6); [done|done|].
  intros ok7 t7 s7 H7 Ht7 _. destruct (runs_token _ _ _ _ H5 H7) as [Hr7 Hrest].
  assert (errors_ s7 = errors_ s0) as He7 by (rewrite (sc_errors _ _ H7); exact E5).
  cbv zeta. destruct (negb ok7 || _) eqn:E7; [by eapply owp_fail_add|].
  apply orb_false_iff in E7 as [_ E7].
  destruct (token_eqb (type_ t7) tokenArrayEnd) eqn:E8; [by apply owp_ret, HQ|].
  assert (type_ t7 <> tokenEndOfStream) as Hne.
  { intros Heq. rewrite Heq in E7. done. }
  pose proof (token_shrinks _ _ _ _ H7 Ht7 Hne) as Hshrink.
  assert (current_ s < current_ s7)%nat as Hcur.
  { rewrite !length_rest, (sc_doc _ _ H7) in Hshrink. lia. }
  eapply Hloop; [lia|apply H7|by rewrite (sc_nodes _ _ H7)|by rewrite (sc_shape _ _ H7)| | |lia|].
  - intros k r. rewrite (sc_lv _ _ H7). by apply Hnd5.
  - by eapply depth_runs.
  - intros ok s8 H8 E9. apply HQ; [by eapply runs_trans|by eapply reported_trans].
Qed.

Lemma owp_array_body n rv loop index (s : OurReader) :
  our_value_ok n rv ->
  (forall index (s : OurReader), 0 <= index <= Z.of_nat (current_ s) ->
     our_members_ok n arrayValue (loop index) s) ->
  0 <= index <= Z.of_nat (current_ s) -> our_members_ok (S n) arrayValue (our_array_body rv loop index) s.
Proof.
  intros Hrv Hloop Hix p ns Q Hi Hn Hp Hnd Hd Hf HQ. unfold our_array_body.
  assert (Hlive : is_Some (shape (root_ s) p)) by by rewrite Hp.
  apply owp_get_bind, owp_bind, owp_skipSpaces; [done|]. intros s1 H1. apply owp_see_bind.
  pose proof (scans_quiet p _ _ H1 Hlive) as Hq1. pose proof Hq1 as (Hr1 & He1 & Hl1).
  destruct (_ && _).
  { apply owp_bind, owp_readToken; [apply H1|]. intros ok t s2 H2 _.
    apply owp_ret, HQ; [by apply (runs_token p s s1)|]. simpl. by rewrite (sc_errors _ _ H2). }
  assert (Hix2 : 0 <= index < 2 ^ 31).
  { pose proof (inv_len _ Hi). pose proof (inv_cur _ Hi). unfold maxInt in *. lia. }
  apply owp_bind.
  eapply (owp_child _ (EIdx (u32 index)) arrayValue);
    [apply H1|by rewrite (sc_nodes _ _ H1)|by rewrite (sc_shape _ _ H1)|by intros; apply index_ref_int_child|].
  intros s4 Hq14 Hc4 Hsh4 Hk4. pose proof (quiet_trans _ _ _ _ Hq1 Hq14) as Hq4.
  pose proof Hq4 as (Hr4 & He4 & Hl4). pose proof (sc_cur _ _ H1) as Hc1.
  assert (length (rest s4) <= length (rest s))%nat as Hrest.
  { rewrite !length_rest, Hc4, (ru_doc _ _ _ Hr4). lia. }
  eapply owp_member; [exact Hrv|exact Hq4|by rewrite (ru_nodes _ _ _ Hr4)|exact Hsh4|exact Hk4| | |lia|].
  { intros k r. rewrite Hl4. apply Hnd. }
  { by eapply depth_runs. }
  intros ok5 s5 H45 H5 E5 Hn5 Hsh5 Hnd5. destruct ok5; simpl negb; cbv iota.
  2: { by eapply owp_fail_recover. }
  pose proof (ru_cur _ _ _ H45).
  eapply owp_array_next; [exact Hloop|lia|exact H5|exact E5|exact Hn5|exact Hsh5|by apply Hnd5|exact Hd| |exact HQ].
  rewrite !length_rest in *. rewrite (ru_doc _ _ _ H5). lia.
Qed.

(** ** Containers *)

(** An empty container in place of the value, then its members. *)
Lemma owp_container_start t w p ns n (s : OurReader) (K : OM bool) (Q : bool -> OurReader -> Prop) :
  inv s -> nodes_ s = p :: ns -> is_Some (shape (root_ s) p) -> no_below p s -> depth_lt s ->
  wf w -> leaf w -> (3 * length (rest s) + 3 <= S n)%nat -> our_cont p s Q ->
  (forall s' : OurReader, our_members_ok n (type w) K s') ->
  owp (_ ← core (swapPayloadCurrent w); _ ← our_setOffsetStart (Z.of_nat (tok_start_ t)); K) s Q.
Proof.
  intros Hi Hn Hp Hb Hd Hw Hl Hf HQ HK. apply owp_bind.
  eapply owp_swapPayload; [done..|]. intros s1 H1 Hsh Hc1. apply owp_bind.
  unfold our_setOffsetStart. apply owp_get_bind.
  eapply owp_meta; [apply H1|by rewrite (ru_nodes _ _ _ (proj1 H1))|apply H1| |].
  { intros v. by eexists. }
  intros s2 H2 Hc2. pose proof (quiet_scans _ _ _ _ H1 H2) as Hq. pose proof Hq as (Hr & He & Hl2).
  eapply HK; [apply H2|by rewrite (ru_nodes _ _ _ Hr)|by rewrite (sc_shape _ _ H2)| | | |].
  - apply no_below_deep. by eapply no_below_quiet.
  - by eapply depth_runs.
  - rewrite !length_rest in *. rewrite (ru_doc _ _ _ Hr), Hc2, Hc1. lia.
  - intros ok s8 H8 E9. apply HQ; [by eapply runs_trans|by eapply reported_trans].
Qed.

Lemma owp_readObject_body n loop :
  (forall name s, our_members_ok n objectValue (loop name) s) ->
  our_container_ok (S n) (our_readObject_body loop).
Proof.
  intros Hloop t s p ns Q Hi Hn Hp Hb Hd Hf HQ. unfold our_readObject_body.
  eapply owp_container_start; [exact Hi|exact Hn|exact Hp|exact Hb|exact Hd|
    by repeat split; constructor|by intros []|exact Hf|exact HQ|apply Hloop].
Qed.

Lemma owp_readArray_body n loop :
  (forall index (s : OurReader), 0 <= index <= Z.of_nat (current_ s) ->
     our_members_ok n arrayValue (loop index) s) ->
  our_container_ok (S n) (our_readArray_body loop).
Proof.
  intros Hloop t s p ns Q Hi Hn Hp Hb Hd Hf HQ. unfold our_readArray_body.
  eapply owp_container_start; [exact Hi|exact Hn|exact Hp|exact Hb|exact Hd|
    by repeat split; constructor|by intros []|exact Hf|exact HQ|].
  intros s'. apply Hloop. lia.
Qed.

(** Every function of the parser meets its specification with the fuel it asks
    for. *)
Lemma our_parser_ok n :
  our_value_ok n (our_readValue n) /\ our_container_ok n (our_readObject n) /\
  our_container_ok n (our_readArray n) /\
  (forall name s, our_members_ok n objectValue (our_object_loop n name) s) /\
  (forall index (s : OurReader), 0 <= index <= Z.of_nat (current_ s) ->
     our_members_ok n arrayValue (our_array_loop n index) s).
Proof.
  induction n as [|n (Hv & Ho & Ha & Hol & Hal)].
  { split_and!; repeat intro; lia. }
  cbn [our_readValue our_readObject our_readArray our_object_loop our_array_loop]. split_and!.
  - by apply owp_readValue_body.
  - by apply owp_readObject_body.
  - by apply owp_readArray_body.
  - intros. by apply owp_object_body.
  - intros. by apply owp_array_body.
Qed.

(** ** Documents *)

Definition our_doc_ok (doc : bytes) : Prop :=
  Forall byte_ok doc /\ Z.of_nat (length doc) <= maxInt - 4 - 1.

Definition our_good (s : OurReader) : bool := bool_decide (errors_ s = []).

(** What a verdict says of the state it leaves. *)
Record verdict_ok (f : OurFeatures) (ok : bool) (s : Reader) : Prop := {
  vd_wf : wf (root_ s);
  vd_cur : (current_ s <= length (document_ s))%nat;
  vd_errors : ok = true <-> errors_ s = [];
  vd_extra : ok = true -> failIfExtra_ f = true -> at_end s;
  vd_root : ok = true -> our_strictRoot_ f = true -> isArray (root_ s) || isObject (root_ s) = true;
}.

Lemma reported_errors s s' ok : errors_ s = [] -> reported s s' ok -> (ok = true <-> errors_ s' = []).
Proof. unfold reported. intros ->. destruct ok; [by intros ->|]. by intros (e & es & ->). Qed.

Lemma owp_parse_end ok t (s : OurReader) (Q : bool -> OurReader -> Prop) :
  inv s -> (type_ t = tokenEndOfStream -> at_end s) -> (ok = true <-> errors_ s = []) ->
  (forall ok' s', verdict_ok (our_features_ s) ok' (our_core s') -> Q ok' s') ->
  owp (our_parse_end ok t) s Q.
Proof.
  intros Hi Hend He HQ. unfold our_parse_end. apply owp_get_bind.
  assert (Hfail : forall (s1 : OurReader) msg t1, inv s1 ->
    (forall ok' s', verdict_ok (our_features_ s) ok' (our_core s') -> Q ok' s') ->
    owp (our_addError msg t1 None) s1 Q).
  { intros s1 msg t1 H1 HQ1. apply owp_core. unfold addError. apply wp_modify_bind; [done|].
    apply wp_ret. split; [done|]. apply HQ1. split; [apply H1|apply H1| |done|done].
    simpl. by destruct (errors_ s1). }
  destruct (_ && negb _) eqn:Ex; [by apply Hfail|].
  do 2 apply owp_see_bind. apply owp_bind.
  apply (owp_core_scans _ _ (fun _ c => current_ c = current_ s)).
  { destruct (_ && negb (bool_decide _)) eqn:E; [|by apply wp_ret; split; [apply scans_refl|]].
    apply andb_true_iff in E as [_ E]. apply negb_true_iff, bool_decide_eq_false in E.
    destruct (inv_comments _ Hi) as [|Hc]; [done|].
    destruct (setComment_ok _ commentAfter (root_ s) Hc) as (v' & Hv' & Hpay).
    eapply (wp_call_at [] _ _ (root_ s)); [done|exact Hv'|]. split; [|done].
    by apply (scans_write s [] (root_ s)). }
  intros _ s1 H1 Hc1. do 2 apply owp_see_bind.
  destruct (_ && negb (isObject _)) eqn:Er; [apply Hfail; [apply H1|done]|].
  apply owp_ret, HQ. split; [apply H1|apply (sc_inv _ _ H1)|by rewrite (sc_errors _ _ H1)| |].
  - intros _ Hf. rewrite Hf in Ex. simpl in Ex. apply negb_false_iff, token_eqb_spec, Hend in Ex.
    unfold at_end. by rewrite Hc1, (sc_doc _ _ H1).
  - intros _ Hf. rewrite Hf in Er. destruct (isArray _), (isObject _); done.
Qed.

(** [parse] after [skipBom]. *)
Definition our_parse_rest (doc : bytes) : OM bool :=
  successful ← our_readValue (parse_fuel doc);
  _ ← our_pop;
  token ← our_skipCommentTokens;
  our_parse_end successful token.

(** The state [parse] starts to read in. *)
Definition our_start (doc : bytes) (root : Value) (collect : bool) (s : OurReader) : OurReader :=
  let s0 := our_parse_init doc root collect s in
  if skipBom_ (our_features_ s) && bytes_eqb (take 3 doc) [0xEF; 0xBB; 0xBF]
  then set_core (set_current 3 (our_core s0)) (set_begin 3 s0) else s0.

Lemma skipBom_run b s :
  skipBom b s = Ret (tt, if b && bytes_eqb (take 3 (document_ s)) [0xEF; 0xBB; 0xBF]
                         then set_core (set_current (our_begin_ s + 3) (our_core s)) (set_begin (our_begin_ s + 3) s)
                         else s).
Proof. unfold skipBom. unfold mbind, ST_bind, see, get. cbn. by destruct (_ && _). Qed.

Lemma our_parse_unfold doc root collect s :
  our_parse doc root collect s = our_parse_rest doc (our_start doc root collect s).
Proof.
  change (our_parse doc root collect s) with
    ((skipBom (skipBom_ (our_features_ s)) ≫= fun _ => our_parse_rest doc)
       (our_parse_init doc root collect s)).
  erewrite ST_bind_Ret; [|apply skipBom_run]. done.
Qed.

Lemma our_start_inv doc root collect s :
  our_doc_ok doc -> wf root ->
  let s1 := our_start doc root collect s in
  inv s1 /\ our_features_ s1 = our_features_ s /\ document_ s1 = doc /\ root_ s1 = root /\
  nodes_ s1 = [[]] /\ lastValue_ s1 = None /\ errors_ s1 = [].
Proof.
  intros [Hb Hl] Hw. cbv zeta. unfold our_start. destruct (_ && _) eqn:E; (split; [|done]).
  - apply andb_true_iff in E as [_ E]. apply bool_decide_eq_true, (f_equal length) in E.
    rewrite length_take in E. cbn [length] in E. split; simpl; try done; [lia|by left|by left].
  - split; simpl; try done; [lia|by left|by left].
Qed.

Lemma our_parse_ok doc root collect s (Q : bool -> OurReader -> Prop) :
  our_doc_ok doc -> wf root ->
  (forall ok (s' : OurReader), document_ s' = doc -> verdict_ok (our_features_ s) ok (our_core s') -> Q ok s') ->
  owp (fun _ => our_parse doc root collect s) (our_start doc root collect s) Q.
Proof.
  intros Hd Hw HQ. unfold owp. rewrite our_parse_unfold.
  destruct (our_start_inv doc root collect s Hd Hw) as (Hi & Hf & Hdoc & Hroot & Hn & Hl & He).
  set (s1 := our_start doc root collect s) in *.
  change (owp (our_parse_rest doc) s1 Q). unfold our_parse_rest.
  apply owp_bind. destruct (our_parser_ok (parse_fuel doc)) as (Hv & _).
  assert (forall A (m : OM A) (s2 : OurReader) (P : A -> OurReader -> Prop), same_run s1 s2 ->
    owp m s2 (fun a s' => same_run s1 s' -> P a s') -> owp m s2 P) as Hkeep.
  { intros A m s2 P H12 H. eapply owp_mono; [exact H|]. intros a s' H2 HP. apply HP. by etransitivity. }
  apply Hkeep; [done|].
  eapply (Hv s1 [] []); [done|done|rewrite Hroot; by eexists|intros r; by rewrite Hl|rewrite Hn; simpl; lia| |].
  { unfold parse_fuel. rewrite length_rest, Hdoc. lia. }
  intros ok s2 H2 E2 _ S2. apply owp_bind, owp_core, wp_modify. split; [done|].
  set (s3 := set_core _ s2). assert (inv s3) as Hi3 by apply inv_set_nodes, H2.
  apply owp_bind, Hkeep; [by destruct S2|].
  apply owp_skipCommentTokens; [exact Hi3|]. intros ok2 t s4 H4 Ht S4.
  apply Hkeep; [done|].
  apply owp_parse_end; [apply H4|apply (tk_eos _ _ _ _ Ht)| |].
  - rewrite (sc_errors _ _ H4). by apply (reported_errors s1 s2).
  - intros ok' s5 Hvd S5. rewrite (sr_features _ _ S4), Hf in Hvd. apply HQ; [|done].
    by rewrite (sr_doc _ _ S5).
Qed.

(** ** Properties *)

(** C13: on every document shorter than 2^31 - 5 bytes, with any combination of
    features, with or without comments and from any earlier state,
    [OurReader::parse] finishes within its fuel and without undefined behaviour.
    When it returns, the tree is well formed, the position is in the document,
    the verdict is true exactly when no error was recorded, under [failIfExtra_]
    true means that the document was read to its end (or to a NUL), and under
    [strictRoot_] that the root is an array or an object.  It stops the process
    only on the nesting limit, in a document with as many opening brackets, or on
    a name of 2^30 bytes, in a document at least as long, numeric names
    included. *)
Theorem our_parse_safe doc root collect s :
  our_doc_ok doc -> wf root ->
  match our_parse doc root collect s with
  | Ret (ok, s') => document_ s' = doc /\ verdict_ok (our_features_ s) ok s'
  | Abort msg => our_stops (our_features_ s) msg doc
  | Undef _ | Fuel => False
  end.
Proof.
  intros Hd Hw.
  pose proof (our_parse_ok doc root collect s (fun ok s' =>
    document_ s' = doc /\ verdict_ok (our_features_ s) ok s') Hd Hw) as H.
  destruct (our_start_inv doc root collect s Hd Hw) as (_ & Hf & Hdoc & _).
  unfold owp in H. rewrite Hf, Hdoc in H.
  destruct (our_parse doc root collect s) as [[ok s']| | |]; [|apply H; auto..].
  apply H. auto.
Qed.

(** Everything allowed, and everything required. *)
Definition lax_features : OurFeatures := mkOurFeatures true true false true true true false false true true 1000.
Definition strict_features : OurFeatures := mkOurFeatures false false true false false false true true false true 1000.

Definition our_demo_doc : bytes :=
  [0xEF; 0xBB; 0xBF] ++ STR "{'a': [, -Infinity, +2.5,], 7: NaN, /* c */ 'a': {}, } rest".

Lemma our_parse_safe_witness :
  match our_parse our_demo_doc Value_null true (OurReader_new lax_features) with
  | Ret (ok, s') => document_ s' = our_demo_doc /\ verdict_ok lax_features ok s'
  | Abort msg => our_stops lax_features msg our_demo_doc
  | Undef _ | Fuel => False
  end.
Proof.
  apply (our_parse_safe our_demo_doc Value_null true (OurReader_new lax_features)); [|exact I].
  split; [repeat constructor; by vm_compute|by vm_compute].
Defined.

(** [OurReader::parse] returns a verdict for every document of less than 2^30
    bytes with fewer opening brackets and braces than the nesting limit of its
    features, however it is malformed and whatever the features. *)
Theorem our_parse_returns doc root collect s :
  Forall byte_ok doc -> wf root -> Z.of_nat (length doc) < 2 ^ 30 ->
  Z.of_nat (opens doc) < stackLimit_ (our_features_ s) ->
  exists ok s', our_parse doc root collect s = Ret (ok, s').
Proof.
  intros Hb Hw Hl Ho.
  assert (our_doc_ok doc) as Hd by (split; [done|unfold maxInt; lia]).
  pose proof (our_parse_ok doc root collect s (fun _ _ => True) Hd Hw) as H.
  destruct (our_start_inv doc root collect s Hd Hw) as (_ & Hf & Hdoc & _).
  unfold owp in H. rewrite Hf, Hdoc in H.
  destruct (our_parse doc root collect s) as [[ok s']| | |].
  - by exists ok, s'.
  - destruct H as [[_ H]|[_ H]]; lia.
  - by destruct H.
  - by destruct H.
Qed.

Lemma our_parse_returns_witness :
  exists ok s', our_parse our_demo_doc Value_null true (OurReader_new lax_features) = Ret (ok, s').
Proof.
  apply our_parse_returns; [repeat constructor; by vm_compute|exact I|by vm_compute|by vm_compute].
Defined.

(** A string between single quotes is decoded like one between double quotes: it
    ends at the first double quote inside it. *)
Lemma single_quotes_cut :
  exists s', our_parse (STR "['a" ++ [dquote] ++ STR "b']") Value_null false (OurReader_new lax_features) =
             Ret (true, s') /\
  Value_eqb (root_ (our_core s')) (initBasic (PArray [(0, initBasic (PString (STR "a")))])) = true.
Proof. eexists. split; vm_compute; reflexivity. Qed.

(** A NUL ends the document even under [failIfExtra_]. *)
Lemma nul_hides_extra :
  exists s', our_parse (STR "[]" ++ [0] ++ STR "]]") Value_null false (OurReader_new strict_features) =
             Ret (true, s').
Proof. eexists. vm_compute. reflexivity. Qed.

(** After a byte order mark the error about the root is reported before the
    document. *)
Lemma root_error_before_bom :
  exists s', our_parse ([0xEF; 0xBB; 0xBF] ++ STR "1") Value_null false (OurReader_new strict_features) =
             Ret (false, s') /\
  our_getLocationLineAndColumn 0 s' = (1, -2) /\
  map (fun e => e.1.1) (our_getStructuredErrors s') = [-3].
Proof. eexists. split; [vm_compute; reflexivity|]. by split; vm_compute. Qed.
