(* ===== verification/JsonReaderBuilder.v ===== *)
(** * [CharReader], [CharReaderBuilder] and the stream functions (json_reader.cpp, reader.h)

    The two abstract classes of reader.h are type classes; [OurCharReader] and
    [CharReaderBuilder] are their instances.  A [std::istream] is the text left
    in it; a [Value*] or [Value&] argument is passed by value and its content
    after the call returned. *)
From S2P Require Export JsonBuilder JsonOurReader.
Open Scope Z_scope.

(** ** The interfaces *)

(** [CharReader::parse(beginDoc, endDoc, root, errs)]: the verdict, [*root] and
    [*errs] after it; [errs] says whether that pointer is not null. *)
Class CharReader (R : Type) :=
  reader_parse : forall (doc : bytes) (root : Value) (errs : bool), ST R (bool * Value * option bytes).

(** [CharReader::Factory::newCharReader()]. *)
Class CharReaderFactory (F R : Type) := newCharReader : F -> outcome R.

(** ** [OurCharReader] *)

Record OurCharReader := mkOurCharReader {
  our_collectComments_ : bool;
  reader_ : OurReader;
}.

Definition OurCharReader_new (collectComments : bool) (features : OurFeatures) : OurCharReader :=
  mkOurCharReader collectComments (OurReader_new features).

Definition OurCharReader_parse (doc : bytes) (root : Value) (errs : bool)
    : ST OurCharReader (bool * Value * option bytes) := fun s =>
  '(ok, r) ← our_parse doc root (our_collectComments_ s) (reader_ s);
  Ret (ok, root_ (our_core r), if errs then Some (our_getFormattedErrorMessages r) else None,
       mkOurCharReader (our_collectComments_ s) r).

#[export] Instance OurCharReader_is_CharReader : CharReader OurCharReader := OurCharReader_parse.

(** ** [CharReaderBuilder] *)

Record CharReaderBuilder := mkCharReaderBuilder { reader_settings_ : Value }.

Definition reader_strictMode (settings : Value) : outcome Value :=
  settings ← set_key (STR "allowComments") (Value_bool false) settings;
  settings ← set_key (STR "allowTrailingCommas") (Value_bool false) settings;
  settings ← set_key (STR "strictRoot") (Value_bool true) settings;
  settings ← set_key (STR "allowDroppedNullPlaceholders") (Value_bool false) settings;
  settings ← set_key (STR "allowNumericKeys") (Value_bool false) settings;
  settings ← set_key (STR "allowSingleQuotes") (Value_bool false) settings;
  settings ← set_key (STR "stackLimit") (Value_int 1000) settings;
  settings ← set_key (STR "failIfExtra") (Value_bool true) settings;
  settings ← set_key (STR "rejectDupKeys") (Value_bool true) settings;
  settings ← set_key (STR "allowSpecialFloats") (Value_bool false) settings;
  set_key (STR "skipBom") (Value_bool true) settings.

Definition reader_setDefaults (settings : Value) : outcome Value :=
  settings ← set_key (STR "collectComments") (Value_bool true) settings;
  settings ← set_key (STR "allowComments") (Value_bool true) settings;
  settings ← set_key (STR "allowTrailingCommas") (Value_bool true) settings;
  settings ← set_key (STR "strictRoot") (Value_bool false) settings;
  settings ← set_key (STR "allowDroppedNullPlaceholders") (Value_bool false) settings;
  settings ← set_key (STR "allowNumericKeys") (Value_bool false) settings;
  settings ← set_key (STR "allowSingleQuotes") (Value_bool false) settings;
  settings ← set_key (STR "stackLimit") (Value_int 1000) settings;
  settings ← set_key (STR "failIfExtra") (Value_bool false) settings;
  settings ← set_key (STR "rejectDupKeys") (Value_bool false) settings;
  settings ← set_key (STR "allowSpecialFloats") (Value_bool false) settings;
  set_key (STR "skipBom") (Value_bool true) settings.

Definition CharReaderBuilder_new : outcome CharReaderBuilder :=
  settings ← reader_setDefaults Value_null; Ret (mkCharReaderBuilder settings).

(** [settings_[key].asBool()]; [newCharReader] is const, and so is the lookup. *)
Definition setting_bool (key : bytes) (b : CharReaderBuilder) : outcome bool :=
  v ← key_const key (reader_settings_ b); asBool v.

Definition CharReaderBuilder_newCharReader (b : CharReaderBuilder) : outcome OurCharReader :=
  collectComments ← setting_bool (STR "collectComments") b;
  allowComments ← setting_bool (STR "allowComments") b;
  allowTrailingCommas ← setting_bool (STR "allowTrailingCommas") b;
  strictRoot ← setting_bool (STR "strictRoot") b;
  allowDroppedNullPlaceholders ← setting_bool (STR "allowDroppedNullPlaceholders") b;
  allowNumericKeys ← setting_bool (STR "allowNumericKeys") b;
  allowSingleQuotes ← setting_bool (STR "allowSingleQuotes") b;
  v ← key_const (STR "stackLimit") (reader_settings_ b); stackLimit ← asUInt v;
  failIfExtra ← setting_bool (STR "failIfExtra") b;
  rejectDupKeys ← setting_bool (STR "rejectDupKeys") b;
  allowSpecialFloats ← setting_bool (STR "allowSpecialFloats") b;
  skipBom ← setting_bool (STR "skipBom") b;
  Ret (OurCharReader_new collectComments
         (mkOurFeatures allowComments allowTrailingCommas strictRoot allowDroppedNullPlaceholders
            allowNumericKeys allowSingleQuotes failIfExtra rejectDupKeys allowSpecialFloats skipBom
            stackLimit)).

#[export] Instance CharReaderBuilder_is_Factory : CharReaderFactory CharReaderBuilder OurCharReader :=
  CharReaderBuilder_newCharReader.

Definition reader_valid_keys : list bytes :=
  [STR "collectComments"; STR "allowComments"; STR "allowTrailingCommas"; STR "strictRoot";
   STR "allowDroppedNullPlaceholders"; STR "allowNumericKeys"; STR "allowSingleQuotes";
   STR "stackLimit"; STR "failIfExtra"; STR "rejectDupKeys"; STR "allowSpecialFloats"; STR "skipBom"].

(** [validate(invalid)]: the result, and [*invalid] after it. *)
Definition reader_validate (invalid : option Value) (b : CharReaderBuilder) : outcome (bool * option Value) :=
  validate_nodes reader_valid_keys (named_nodes (reader_settings_ b)) invalid.

(** [builder[key] = value]. *)
Definition reader_builder_set (key : bytes) (value : Value) (b : CharReaderBuilder) : outcome CharReaderBuilder :=
  settings ← set_key key value (reader_settings_ b); Ret (mkCharReaderBuilder settings).

(** ** Streams *)

(** [parseFromStream(fact, sin, root, errs)], with the text of [sin]. *)
Definition parseFromStream {F R} `{CharReaderFactory F R} `{CharReader R} (fact : F) (sin : bytes)
    (root : Value) (errs : bool) : outcome (bool * Value * option bytes) :=
  reader ← newCharReader fact;
  '(result, _) ← reader_parse sin root errs reader;
  Ret result.

(** The message of an exception. *)
Definition message_string (s : bytes) : string :=
  String.string_of_list_ascii (map (fun c => Ascii.ascii_of_N (Z.to_N c)) s).

(** [sin >> root]. *)
Definition operator_read (sin : bytes) (root : Value) : outcome Value :=
  b ← CharReaderBuilder_new;
  '(ok, root, errs) ← parseFromStream b sin root true;
  if ok : bool then Ret root else Abort (message_string (default [] errs)).
