(* ===== verification/JsonReaderBuilderFacts.v ===== *)
(** * What the builder's readers promise

    The contract of the interface [CharReader], that [OurCharReader] keeps it,
    that any stream function over a reader that keeps it reports errors as it
    should, how settings become features, and [operator>>]. *)
From S2P Require Export JsonReaderBuilder JsonOurReaderFacts.
Open Scope Z_scope.

(** ** Definitions *)

(** The contract of [CharReader::parse]: whatever was parsed before, a call that
    returns leaves a well-formed tree, and its error text is empty exactly when
    its verdict is true. *)
Class HonestReader (R : Type) `{CharReader R} :=
  honest_parse : forall (r r' : R) doc root ok v e,
    our_doc_ok doc -> wf root -> reader_parse doc root true r = Ret (ok, v, e, r') ->
    wf v /\ (ok = true <-> e = Some []).

(** [settings] holds the flag [b] under [key]. *)
Definition has_flag (settings : Value) (key : bytes) (b : bool) : Prop :=
  exists v, key_const key settings = Ret v /\ asBool v = Ret b.

(** The settings hold flags and a limit that say [collect] and [f]. *)
Record settings_say (settings : Value) (collect : bool) (f : OurFeatures) : Prop := {
  say_collect : has_flag settings (STR "collectComments") collect;
  say_comments : has_flag settings (STR "allowComments") (our_allowComments_ f);
  say_trailing : has_flag settings (STR "allowTrailingCommas") (allowTrailingCommas_ f);
  say_root : has_flag settings (STR "strictRoot") (our_strictRoot_ f);
  say_dropped : has_flag settings (STR "allowDroppedNullPlaceholders") (our_allowDroppedNullPlaceholders_ f);
  say_numeric : has_flag settings (STR "allowNumericKeys") (our_allowNumericKeys_ f);
  say_quotes : has_flag settings (STR "allowSingleQuotes") (allowSingleQuotes_ f);
  say_limit : exists v, key_const (STR "stackLimit") settings = Ret v /\ asUInt v = Ret (stackLimit_ f);
  say_extra : has_flag settings (STR "failIfExtra") (failIfExtra_ f);
  say_dup : has_flag settings (STR "rejectDupKeys") (rejectDupKeys_ f);
  say_floats : has_flag settings (STR "allowSpecialFloats") (allowSpecialFloats_ f);
  say_bom : has_flag settings (STR "skipBom") (skipBom_ f);
}.

Definition default_reader_features : OurFeatures :=
  mkOurFeatures true true false false false false false false false true 1000.

(** ** The contract *)

Lemma formatted_nil s : our_getFormattedErrorMessages s = [] <-> errors_ s = [].
Proof.
  unfold our_getFormattedErrorMessages. destruct (errors_ s) as [|e es]; [done|].
  split; [|done]. by cbn [map concat].
Qed.

#[export] Instance OurCharReader_honest : HonestReader OurCharReader.
Proof.
  intros r r' doc root ok v e Hd Hw H.
  unfold reader_parse, OurCharReader_is_CharReader, OurCharReader_parse in H.
  pose proof (our_parse_ok doc root (our_collectComments_ r) (reader_ r)
    (fun ok s' => verdict_ok (our_features_ (reader_ r)) ok (our_core s')) Hd Hw ltac:(auto)) as Hp.
  unfold owp in Hp. apply bind_Ret_inv in H as ([ok' s'] & Hs & [= <- <- <- <-]).
  rewrite Hs in Hp. destruct Hp as [_ Hv]. split; [apply Hv|]. rewrite (vd_errors _ _ _ Hv).
  rewrite <- formatted_nil. split; [by intros ->|by intros [= ->]].
Qed.

(** ** Settings *)

Lemma flag_setting settings key b :
  has_flag settings key b -> setting_bool key (mkCharReaderBuilder settings) = Ret b.
Proof. intros (v & Hv & Hb). unfold setting_bool. simpl. by rewrite Hv. Qed.

(** The settings that [setDefaults] and [strictMode] make. *)
Lemma default_settings_say :
  exists settings, reader_setDefaults Value_null = Ret settings /\
    settings_say settings true default_reader_features.
Proof.
  eexists. split; [vm_compute; reflexivity|].
  split; (eexists; split; [vm_compute; reflexivity|reflexivity]).
Qed.

Lemma CharReaderBuilder_default :
  exists b, CharReaderBuilder_new = Ret b /\
    CharReaderBuilder_newCharReader b = Ret (OurCharReader_new true default_reader_features).
Proof. eexists. split; [vm_compute; reflexivity|]. vm_compute. reflexivity. Qed.

Lemma operator_read_default sin root :
  operator_read sin root =
  ('(ok, root, errs, _) ← OurCharReader_parse sin root true (OurCharReader_new true default_reader_features);
   if ok : bool then Ret root else Abort (message_string (default [] errs))).
Proof.
  unfold operator_read. destruct CharReaderBuilder_default as (b & -> & Hb).
  rewrite Ret_bind. unfold parseFromStream, newCharReader, CharReaderBuilder_is_Factory.
  rewrite Hb, Ret_bind. unfold reader_parse, OurCharReader_is_CharReader.
  by destruct (OurCharReader_parse _ _ _ _) as [[[[ok v] e] r]| | |].
Qed.

(** [validate] looks at names only: a setting of the wrong type passes, and then
    [newCharReader] stops the process. *)
Lemma reader_validate_accepts_bad_type :
  exists b v, (d ← CharReaderBuilder_new; w ← Value_cstring (STR "yes");
               reader_builder_set (STR "strictRoot") w d) = Ret b /\
    reader_validate None b = Ret (true, v) /\
    CharReaderBuilder_newCharReader b = Abort "Value is not convertible to bool.".
Proof. do 2 eexists. split; [vm_compute; reflexivity|]. by split; vm_compute. Qed.

(** Settings without [stackLimit] make a reader that parses nothing. *)
Lemma missing_limit_parses_nothing doc root collect s :
  stackLimit_ (our_features_ s) = 0 -> our_parse doc root collect s = Abort our_stack_msg.
Proof.
  intros Hl. rewrite our_parse_unfold.
  assert (stackLimit_ (our_features_ (our_start doc root collect s)) = 0 /\
          length (nodes_ (our_start doc root collect s)) = 1%nat) as [H1 H2].
  { unfold our_start. by destruct (_ && _). }
  unfold our_parse_rest, parse_fuel. rewrite Nat.add_comm. cbn [Nat.add our_readValue].
  unfold our_readValue_body, see, get. cbv [mbind ST_bind outcome_bind]. cbn -[length].
  by rewrite H1, H2.
Qed.

(** ** Properties *)

(** [newCharReader] of settings whose flags are convertible to bool and
    whose limit is convertible to unsigned makes a reader with exactly these
    flags, and with nothing parsed yet; settings that are absent count as off. *)
Theorem newCharReader_reads_settings settings collect f :
  settings_say settings collect f ->
  CharReaderBuilder_newCharReader (mkCharReaderBuilder settings) = Ret (OurCharReader_new collect f).
Proof.
  intros []. unfold CharReaderBuilder_newCharReader.
  repeat (erewrite flag_setting by eassumption).
  destruct say_limit0 as (v & Hv & Hl). simpl reader_settings_. rewrite Hv.
  cbv [mbind outcome_bind]. rewrite Hl. by destruct f.
Qed.

Lemma newCharReader_reads_settings_witness :
  exists settings, reader_setDefaults Value_null = Ret settings /\
    CharReaderBuilder_newCharReader (mkCharReaderBuilder settings) =
    Ret (OurCharReader_new true default_reader_features).
Proof.
  eexists. split; [vm_compute; reflexivity|]. apply newCharReader_reads_settings.
  split; (eexists; split; [vm_compute; reflexivity|reflexivity]).
Defined.

(** [parseFromStream] over any factory whose readers keep the contract of
    [CharReader] returns the error text empty exactly when the parse succeeded,
    and a well-formed tree. *)
Theorem parseFromStream_honest {F R} `{CharReaderFactory F R} `{HonestReader R} (fact : F) sin root ok v e :
  our_doc_ok sin -> wf root -> parseFromStream fact sin root true = Ret (ok, v, e) ->
  wf v /\ (ok = true <-> e = Some []).
Proof.
  intros Hd Hw H3. unfold parseFromStream in H3.
  apply bind_Ret_inv in H3 as (r & _ & H3). apply bind_Ret_inv in H3 as ([result r'] & H3 & [= ->]).
  by eapply honest_parse.
Qed.

Definition small_doc : bytes := STR "{} [".

Lemma parseFromStream_honest_witness :
  exists b v e, CharReaderBuilder_new = Ret b /\ parseFromStream b small_doc Value_null true = Ret (true, v, e) /\
    wf v /\ (true = true <-> e = Some []).
Proof.
  do 3 eexists. split; [vm_compute; reflexivity|]. split; [vm_compute; reflexivity|].
  eapply (parseFromStream_honest _ small_doc Value_null);
    [split; [repeat constructor; by vm_compute|by vm_compute]|exact I|].
  instantiate (1 := ltac:(let b := eval vm_compute in CharReaderBuilder_new in
    lazymatch b with Ret ?b => exact b end)).
  vm_compute. reflexivity.
Defined.

(** C14: [sin >> root] either returns the tree that [OurReader] parsed with the
    default features, or stops the process: with the nonempty report of the
    errors when the parse failed, or within the parse on the nesting limit or a
    name of 2^30 bytes. *)
Theorem operator_read_spec sin root :
  our_doc_ok sin -> wf root ->
  match our_parse sin root true (OurReader_new default_reader_features) with
  | Ret (true, s') => operator_read sin root = Ret (root_ s') /\ wf (root_ s')
  | Ret (false, s') =>
      operator_read sin root = Abort (message_string (our_getFormattedErrorMessages s')) /\
      our_getFormattedErrorMessages s' <> []
  | Abort msg => operator_read sin root = Abort msg /\ our_stops default_reader_features msg sin
  | Undef _ | Fuel => False
  end.
Proof.
  intros Hd Hw. rewrite operator_read_default. unfold OurCharReader_parse. simpl reader_. simpl our_collectComments_.
  set (s0 := OurReader_new default_reader_features).
  pose proof (our_parse_ok sin root true s0
    (fun ok s' => verdict_ok (our_features_ s0) ok (our_core s')) Hd Hw ltac:(auto)) as Hp.
  destruct (our_start_inv sin root true s0 Hd Hw) as (_ & Hf & Hdoc & _).
  unfold owp in Hp. rewrite Hf, Hdoc in Hp.
  destruct (our_parse sin root true s0) as [[[] s']| | |]; [| |done..]; destruct Hp as [_ Hv].
  - split; [done|apply Hv].
  - split; [done|]. rewrite formatted_nil. intros He. by apply (vd_errors _ _ _ Hv) in He.
Qed.

Lemma operator_read_spec_witness :
  match our_parse small_doc Value_null true (OurReader_new default_reader_features) with
  | Ret (true, s') => operator_read small_doc Value_null = Ret (root_ s') /\ wf (root_ s')
  | Ret (false, s') =>
      operator_read small_doc Value_null = Abort (message_string (our_getFormattedErrorMessages s')) /\
      our_getFormattedErrorMessages s' <> []
  | Abort msg => operator_read small_doc Value_null = Abort msg /\ our_stops default_reader_features msg small_doc
  | Undef _ | Fuel => False
  end.
Proof.
  apply operator_read_spec; [|exact I].
  split; [repeat constructor; by vm_compute|by vm_compute].
Defined.
