(* ===== verification/JsonReaderRel.v ===== *)
(** * Running both readers side by side

    A relational calculus for [Reader] and [OurReader]: from states that are tied
    together, if both methods return, their results are.  Trees are compared by
    [norm], so comments, offsets and the tags of numbers do not matter. *)
From S2P Require Export JsonOurReaderWp JsonScan.
Open Scope Z_scope.

(** ** Trees up to [norm] *)

Lemma norm_payload v w : value_ v = value_ w -> norm v = norm w.
Proof. destruct v, w. simpl. by intros ->. Qed.

Lemma norm_array_map v : array_map (norm v) = om_map norm (array_map v).
Proof. destruct v as [[] ? ? ?]; try done; unfold array_map; simpl; unfold norm_number; by destruct (_ <=? _). Qed.

Lemma norm_object_map v : object_map (norm v) = om_map norm (object_map v).
Proof. destruct v as [[] ? ? ?]; try done; unfold object_map; simpl; unfold norm_number; by destruct (_ <=? _). Qed.

Lemma norm_edge_get e v : edge_get e (norm v) = norm <$> edge_get e v.
Proof.
  destruct e; simpl; rewrite ?norm_array_map, ?norm_object_map; apply om_find_om_map.
Qed.

Lemma norm_at_path p v : at_path p (norm v) = norm <$> at_path p v.
Proof.
  revert v. induction p as [|e p IH]; intros v; [done|]. cbn [at_path]. rewrite norm_edge_get.
  destruct (edge_get e v) as [w|]; [apply IH|done].
Qed.

Section maps.
Context {K : Type} `{KeyOrd K}.
Implicit Types m : list (K * Value).

Lemma om_map_alter k (f g : Value -> Value) m :
  (forall w, norm (f w) = g (norm w)) -> om_map norm (om_alter k f m) = om_alter k g (om_map norm m).
Proof.
  intros Hf. induction m as [|[k' y] m IH]; simpl; [done|]. destruct (key_eqb k k'); simpl; [by rewrite Hf|by rewrite IH].
Qed.
End maps.

Lemma norm_edge_write e f g v :
  (forall w, norm (f w) = g (norm w)) -> norm (edge_write e f v) = edge_write e g (norm v).
Proof.
  intros Hf. destruct e, v as [[] ? ? ?]; simpl; unfold write_index, write_key, norm_number; simpl; try done;
    try (by destruct (_ <=? _)); unfold initBasic, set_payload; simpl; do 2 f_equal; by apply om_map_alter.
Qed.

Lemma norm_alter_path p w v : norm (alter_path p (fun _ => w) v) = alter_path p (fun _ => norm w) (norm v).
Proof. revert v. induction p as [|e p IH]; intros v; [done|]. cbn [alter_path]. by apply norm_edge_write. Qed.

(** The types that [norm] keeps: all but those of numbers. *)
Lemma norm_container v w : norm v = norm w -> isArray v = isArray w /\ isObject v = isObject w /\ isNull v = isNull w.
Proof.
  intros Hn. apply (f_equal value_) in Hn. destruct v as [[] ? ? ?], w as [[] ? ? ?]; try done;
    simpl in Hn; unfold norm_number in Hn; repeat destruct (_ <=? _); done.
Qed.

(** What depends on the tree up to [norm] only. *)
Lemma index_ref_norm i v w v' w' :
  norm v = norm w -> index_ref i v = Ret v' -> index_ref i w = Ret w' -> norm v' = norm w'.
Proof.
  intros Hn [_ [= <-]]%json_assert_bind [_ [= <-]]%json_assert_bind.
  destruct (norm_container _ _ Hn) as (_ & _ & Hnull).
  assert (om_map norm (array_map (as_array v)) = om_map norm (array_map (as_array w))) as Hm.
  { unfold as_array. rewrite Hnull. destruct (isNull w); [done|]. by rewrite <- !norm_array_map, Hn. }
  simpl. unfold set_payload. simpl. by rewrite !om_map_emplace, Hm.
Qed.

Lemma resolveReference_norm k v w v' w' :
  norm v = norm w -> resolveReference k v = Ret v' -> resolveReference k w = Ret w' -> norm v' = norm w'.
Proof.
  intros Hn [_ [= <-]]%json_assert_bind [_ [= <-]]%json_assert_bind.
  destruct (norm_container _ _ Hn) as (_ & _ & Hnull).
  assert (om_map norm (object_map (as_object v)) = om_map norm (object_map (as_object w))) as Hm.
  { unfold as_object. rewrite Hnull. destruct (isNull w); [done|]. by rewrite <- !norm_object_map, Hn. }
  simpl. unfold set_payload. simpl. by rewrite !om_map_emplace, Hm.
Qed.

Lemma setComment_norm c pl v v' : setComment c pl v = Ret v' -> norm v' = norm v.
Proof. intros [_ [_ [= <-]]%json_assert_bind]%json_assert_bind. by apply norm_payload. Qed.

(** ** What methods leave alone *)

(** The features, the document, the pointers, and the tree up to [norm]. *)
Record still (s s' : Reader) : Prop := {
  st_features : features_ s' = features_ s;
  st_doc : document_ s' = document_ s;
  st_nodes : nodes_ s' = nodes_ s;
  st_root : norm (root_ s') = norm (root_ s);
}.

#[export] Instance still_preorder : PreOrder still.
Proof. split; [by intros s; split|]. intros s1 s2 s3 [] []. split; congruence. Qed.

(** [m] collects comments, sets offsets, or records errors. *)
Definition quiet {A} (m : RM A) : Prop :=
  forall s a s', m s = Ret (a, s') -> still s s' /\ current_ s' = current_ s.

(** [m] reads on in the document: what it returns depends on nothing else. *)
Definition scanner {A} (m : RM A) : Prop :=
  forall s t a b s' t', document_ s = document_ t -> current_ s = current_ t ->
    m s = Ret (a, s') -> m t = Ret (b, t') ->
    a = b /\ current_ s' = current_ t' /\ still s s' /\ still t t'.

Lemma RM_bind_inv {A B} (m : RM A) (k : A -> RM B) s r :
  (m ≫= k) s = Ret r -> exists a s', m s = Ret (a, s') /\ k a s' = Ret r.
Proof. apply ST_bind_inv. Qed.

Section frames.
Context {A B : Type}.
Implicit Types m : RM A.

Lemma quiet_ret (a : A) : quiet (mret a).
Proof. by intros s b s' [= <- <-]. Qed.

Lemma quiet_bind m (k : A -> RM B) : quiet m -> (forall a, quiet (k a)) -> quiet (m ≫= k).
Proof.
  intros Hm Hk s b s' (a & s1 & H1 & H2)%RM_bind_inv.
  apply Hm in H1 as [H1 C1]. apply Hk in H2 as [H2 C2]. split; [by etransitivity|congruence].
Qed.

Lemma quiet_gets (f : Reader -> A) : quiet (gets f).
Proof. by intros s b s' [= <- <-]. Qed.

Lemma quiet_lift (o : outcome A) : quiet (lift o).
Proof. intros s b s' (a & _ & [= <- <-])%bind_Ret_inv. done. Qed.

Lemma scanner_ret (a : A) : scanner (mret a).
Proof. by intros s t ? ? s' t' Hd Hc [= <- <-] [= <- <-]. Qed.

Lemma scanner_bind m (k : A -> RM B) : scanner m -> (forall a, scanner (k a)) -> scanner (m ≫= k).
Proof.
  intros Hm Hk s t b1 b2 s' t' Hd Hc (a1 & s1 & H1 & K1)%RM_bind_inv (a2 & t1 & H2 & K2)%RM_bind_inv.
  destruct (Hm _ _ _ _ _ _ Hd Hc H1 H2) as (-> & C & S1 & S2).
  assert (document_ s1 = document_ t1) as Hd1 by (rewrite (st_doc _ _ S1), (st_doc _ _ S2); done).
  destruct (Hk _ _ _ _ _ _ _ Hd1 C K1 K2) as (-> & C' & S1' & S2'). split_and!; [done|done|by etransitivity..].
Qed.

Lemma scanner_gets (f : Reader -> A) :
  (forall s t, document_ s = document_ t -> current_ s = current_ t -> f s = f t) -> scanner (gets f).
Proof. intros Hf s t ? ? s' t' Hd Hc [= <- <-] [= <- <-]. split_and!; [by apply Hf|done..]. Qed.

Lemma scanner_lift (o : outcome A) : scanner (lift o).
Proof.
  intros s t ? ? s' t' Hd Hc (a & Ha & [= <- <-])%bind_Ret_inv (b & Hb & [= <- <-])%bind_Ret_inv.
  split_and!; [congruence|done..].
Qed.

Lemma scanner_fuel : scanner (@out_of_fuel A).
Proof. by intros s t ? ? s' t' _ _ ?. Qed.
End frames.

Lemma quiet_modify (f : Reader -> Reader) :
  (forall s, still s (f s) /\ current_ (f s) = current_ s) -> quiet (modify f).
Proof. intros Hf s a s' [= <- <-]. apply Hf. Qed.

Lemma scanner_rest : scanner (gets rest).
Proof. apply scanner_gets. intros s t Hd Hc. unfold rest. by rewrite Hd, Hc. Qed.

Lemma scanner_current : scanner (gets current_).
Proof. by apply scanner_gets. Qed.

Lemma scanner_document : scanner (gets document_).
Proof. by apply scanner_gets. Qed.

Lemma scanner_move (f : nat -> bytes -> nat) :
  scanner (modify (fun s => set_current (f (current_ s) (document_ s)) s)).
Proof. intros s t ? ? s' t' Hd Hc [= <- <-] [= <- <-]. simpl. by rewrite Hd, Hc. Qed.

Lemma scanner_advance n : scanner (advance n).
Proof. apply (scanner_move (fun c _ => (c + n)%nat)). Qed.

Lemma scanner_addError msg t x : scanner (addError msg t x).
Proof. by intros s s2 ? ? s' t' Hd Hc [= <- <-] [= <- <-]. Qed.

Create HintDb scan.
#[export] Hint Resolve scanner_ret scanner_rest scanner_current scanner_document scanner_advance
  scanner_addError scanner_lift scanner_fuel : scan.

(** A method made of scanners. *)
Ltac scan :=
  repeat first
    [ solve [auto with scan]
    | apply scanner_bind; [|intros ?]
    | progress case_match ].

(** ** The shared methods *)

Lemma scanner_getNextChar : scanner getNextChar.
Proof. unfold getNextChar. scan. Qed.

Lemma scanner_match pat : scanner (match_ pat).
Proof. unfold match_. scan. Qed.

Lemma scanner_readCStyleComment : scanner readCStyleComment.
Proof. unfold readCStyleComment. pose proof scanner_getNextChar. scan. Qed.

Lemma scanner_readCppStyleComment : scanner readCppStyleComment.
Proof. unfold readCppStyleComment. scan. Qed.

Lemma scanner_readNumber : scanner readNumber.
Proof.
  intros s t ? ? s' t' Hd Hc [= <- <-] [= <- <-]. unfold rest. simpl. unfold id. by rewrite Hd, Hc.
Qed.

Lemma scanner_readString : scanner readString.
Proof. unfold readString. scan. Qed.

Lemma scanner_token_text t : scanner (gets (fun s => token_text t (document_ s))).
Proof. apply scanner_gets. by intros s s' ->. Qed.

#[export] Hint Resolve scanner_getNextChar scanner_match scanner_readCStyleComment scanner_readCppStyleComment
  scanner_readNumber scanner_readString scanner_token_text : scan.

Lemma scanner_decodeDouble t : scanner (decodeDouble t).
Proof. unfold decodeDouble. scan. Qed.

Lemma scanner_hex4 n t u cur : scanner (hex4 n t u cur).
Proof. revert u cur. induction n as [|n IH]; intros u [i [|c r]]; cbn [hex4]; scan. Qed.

#[export] Hint Resolve scanner_decodeDouble scanner_hex4 : scan.

Lemma scanner_decodeUnicodeEscapeSequence t cur : scanner (decodeUnicodeEscapeSequence t cur).
Proof. unfold decodeUnicodeEscapeSequence. scan. Qed.
#[export] Hint Resolve scanner_decodeUnicodeEscapeSequence : scan.

Lemma scanner_decodeUnicodeCodePoint t cur : scanner (decodeUnicodeCodePoint t cur).
Proof. unfold decodeUnicodeCodePoint. scan. Qed.
#[export] Hint Resolve scanner_decodeUnicodeCodePoint : scan.

Lemma scanner_decode_string_loop n t cur d : scanner (decode_string_loop n t cur d).
Proof. revert cur d. induction n as [|n IH]; intros [i [|c r]] d; cbn [decode_string_loop]; scan. Qed.
#[export] Hint Resolve scanner_decode_string_loop : scan.

Lemma scanner_decodeString t : scanner (decodeString t).
Proof. unfold decodeString. scan. Qed.
#[export] Hint Resolve scanner_decodeString : scan.

(** ** Changes of the tree *)

Lemma call_at_inv p f s a s' :
  call_at p f s = Ret (a, s') ->
  exists v v', at_path p (root_ s) = Some v /\ f v = Ret v' /\ s' = set_root (alter_path p (fun _ => v') (root_ s)) s.
Proof.
  unfold call_at. intros (r & s1 & [= <- <-] & H)%RM_bind_inv.
  destruct (at_path p (root_ s)) as [v|] eqn:Hv; [|done].
  apply RM_bind_inv in H as (v' & s2 & (w & Hf & [= <- <-])%bind_Ret_inv & [= <- <-]). by exists v, w.
Qed.

Lemma nodes_top_inv s p s' : nodes_top s = Ret (p, s') -> s' = s /\ exists ns, nodes_ s = p :: ns.
Proof.
  unfold nodes_top. intros (ns & s1 & [= <- <-] & H)%RM_bind_inv.
  destruct (nodes_ s) as [|q ns]; [done|].
  injection H as -> ->. by split; [|exists ns].
Qed.

Lemma currentValue_inv f s a s' :
  currentValue f s = Ret (a, s') ->
  exists p ns v v', nodes_ s = p :: ns /\ at_path p (root_ s) = Some v /\ f v = Ret v' /\
    s' = set_root (alter_path p (fun _ => v') (root_ s)) s.
Proof.
  intros (p & s1 & (-> & ns & Hn)%nodes_top_inv & (v & v' & Hv & Hf & ->)%call_at_inv)%RM_bind_inv.
  by exists p, ns, v, v'.
Qed.

(** A call that changes comments or offsets only. *)
Lemma quiet_call_at p f : (forall v v', f v = Ret v' -> norm v' = norm v) -> quiet (call_at p f).
Proof.
  intros Hf s a s' (v & v' & Hv & Hf' & ->)%call_at_inv. split; [|done]. split; try done. simpl.
  rewrite norm_alter_path, (Hf _ _ Hf'). apply alter_path_id. by rewrite norm_at_path, Hv.
Qed.

Lemma quiet_currentValue f : (forall v v', f v = Ret v' -> norm v' = norm v) -> quiet (currentValue f).
Proof.
  intros Hf s a s' (p & s1 & (-> & _)%nodes_top_inv & H)%RM_bind_inv. by eapply quiet_call_at.
Qed.

Lemma quiet_setComment_current c pl : quiet (currentValue (setComment c pl)).
Proof. apply quiet_currentValue, setComment_norm. Qed.

Lemma quiet_setOffsets a b : quiet (setOffsets a b).
Proof. apply quiet_currentValue. intros v v' [= <-]. by apply norm_payload. Qed.

Lemma quiet_addComment b e pl : quiet (addComment b e pl).
Proof.
  unfold addComment. apply quiet_bind; [apply quiet_gets|intros ?].
  apply quiet_bind; [apply quiet_lift|intros _]. apply quiet_bind; [apply quiet_gets|intros ?].
  destruct pl; [by apply quiet_modify| |by apply quiet_modify].
  apply quiet_bind; [apply quiet_gets|intros [p|]]; [|apply quiet_lift]. apply quiet_call_at, setComment_norm.
Qed.

Lemma quiet_before (c : bool) before : quiet
  (if c && negb (bool_decide (before = [])) then
     _ ← currentValue (setComment before commentBefore); modify (set_commentsBefore [])
   else mret tt).
Proof.
  destruct (_ && _); [|apply quiet_ret]. apply quiet_bind; [apply quiet_setComment_current|intros _].
  by apply quiet_modify.
Qed.

Lemma quiet_nodes_top : quiet nodes_top.
Proof. by intros s p s' (-> & _)%nodes_top_inv. Qed.

Lemma quiet_addError msg t x : quiet (addError msg t x).
Proof. by intros s a s' [= <- <-]. Qed.

(** A method that only reads tokens. *)
Definition steady {A} (m : RM A) : Prop := forall s a s', m s = Ret (a, s') -> still s s'.

Lemma steady_quiet {A} (m : RM A) : quiet m -> steady m.
Proof. by intros Hm s a s' [H _]%Hm. Qed.

Lemma steady_scanner {A} (m : RM A) : scanner m -> steady m.
Proof. intros Hm s a s' H. by destruct (Hm s s _ _ _ _ eq_refl eq_refl H H) as (_ & _ & ? & _). Qed.

Lemma steady_bind {A B} (m : RM A) (k : A -> RM B) : steady m -> (forall a, steady (k a)) -> steady (m ≫= k).
Proof. intros Hm Hk s b s' (a & s1 & H1%Hm & H2%Hk)%RM_bind_inv. by etransitivity. Qed.

Lemma steady_ret {A} (a : A) : steady (mret a).
Proof. by intros s b s' [= <- <-]. Qed.

Lemma steady_gets {A} (f : Reader -> A) : steady (gets f).
Proof. by intros s b s' [= <- <-]. Qed.

Lemma steady_readComment : steady readComment.
Proof.
  apply steady_bind; [apply steady_gets|intros cur]. apply steady_bind; [apply steady_scanner; auto with scan|intros c].
  apply steady_bind; [apply steady_scanner; scan|intros ok].
  destruct (negb ok); [apply steady_ret|]. apply steady_bind; [apply steady_gets|intros b].
  apply steady_bind; [|intros _; apply steady_ret]. destruct b; [|apply steady_ret].
  do 3 (apply steady_bind; [apply steady_gets|intros ?]). apply steady_quiet, quiet_addComment.
Qed.

Lemma steady_readToken : steady readToken.
Proof.
  apply steady_bind; [apply steady_scanner; unfold skipSpaces; scan|intros _].
  apply steady_bind; [apply steady_gets|intros start]. apply steady_bind; [apply steady_scanner; auto with scan|intros c].
  apply steady_bind; [|intros [ok ty]; apply steady_bind; [apply steady_gets|intros ?; apply steady_ret]].
  unfold token_switch. pose proof steady_readComment as Hcomment.
  repeat (case_match; [first [apply steady_scanner; solve [scan] | apply steady_bind; [done|intros ?; apply steady_ret]]|]).
  apply steady_ret.
Qed.

Lemma steady_skip_comments n : steady (skip_comments n).
Proof.
  induction n as [|n IH]; [by intros s a s' H|]. apply steady_bind; [apply steady_readToken|intros [ok t]].
  case_match; [apply IH|apply steady_ret].
Qed.

Lemma steady_skipCommentTokens : steady skipCommentTokens.
Proof.
  do 2 (apply steady_bind; [apply steady_gets|intros ?]). case_match; [apply steady_skip_comments|].
  apply steady_bind; [apply steady_readToken|intros [ok t]; apply steady_ret].
Qed.

(** The same on the side of [OurReader]. *)
Definition our_quiet {A} (m : OM A) : Prop :=
  forall s a s', m s = Ret (a, s') ->
    still (our_core s) (our_core s') /\ current_ s' = current_ s /\ our_features_ s' = our_features_ s.

Lemma core_inv {A} (m : RM A) s a s' :
  core m s = Ret (a, s') -> exists c, m (our_core s) = Ret (a, c) /\ s' = set_core c s.
Proof. intros ([b c] & H & [= <- <-])%bind_Ret_inv. by exists c. Qed.

Lemma our_quiet_core {A} (m : RM A) : quiet m -> our_quiet (core m).
Proof. intros Hm s a s' (c & [H C]%Hm & ->)%core_inv. done. Qed.

Lemma our_quiet_ret {A} (a : A) : our_quiet (mret a).
Proof. by intros s b s' [= <- <-]. Qed.

Lemma our_quiet_bind {A B} (m : OM A) (k : A -> OM B) :
  our_quiet m -> (forall a, our_quiet (k a)) -> our_quiet (m ≫= k).
Proof.
  intros Hm Hk s b s' (a & s1 & (H1 & C1 & F1)%Hm & (H2 & C2 & F2)%Hk)%ST_bind_inv.
  split_and!; [by etransitivity|congruence..].
Qed.

Lemma our_quiet_get {A} (f : OurReader -> A) : our_quiet (get f).
Proof. by intros s b s' [= <- <-]. Qed.

Lemma our_quiet_hasAComment b : our_quiet (put (set_hasAComment b)).
Proof. by intros s a s' [= <- <-]. Qed.

Lemma our_quiet_setOffsets a b : our_quiet (our_setOffsets a b).
Proof. apply our_quiet_bind; [apply our_quiet_get|intros ?]. apply our_quiet_core, quiet_setOffsets. Qed.

Lemma our_quiet_setOffsetStart a : our_quiet (our_setOffsetStart a).
Proof.
  apply our_quiet_bind; [apply our_quiet_get|intros ?]. apply our_quiet_core, quiet_currentValue.
  intros v v' [= <-]. by apply norm_payload.
Qed.

Lemma our_quiet_setOffsetLimit a : our_quiet (our_setOffsetLimit a).
Proof.
  apply our_quiet_bind; [apply our_quiet_get|intros ?]. apply our_quiet_core, quiet_currentValue.
  intros v v' [= <-]. by apply norm_payload.
Qed.

(** ** The relation *)

Section relation.
Context (F : OurFeatures).

Record tied (s1 : Reader) (s2 : OurReader) : Prop := {
  td_features1 : features_ s1 = common_features F;
  td_features2 : our_features_ s2 = F;
  td_doc : document_ s1 = document_ s2;
  td_nodes : nodes_ s1 = nodes_ s2;
  td_root : norm (root_ s1) = norm (root_ s2);
}.

Definition sim (s1 : Reader) (s2 : OurReader) : Prop := tied s1 s2 /\ current_ s1 = current_ s2.

(** The same but for spaces. *)
Definition past (s : Reader) : nat := (current_ s + count_spaces (rest s))%nat.
Definition near (s1 : Reader) (s2 : OurReader) : Prop := tied s1 s2 /\ past s1 = past s2.

Lemma sim_near s1 s2 : sim s1 s2 -> near s1 s2.
Proof. intros [Ht Hc]. split; [done|]. unfold past, rest. by rewrite Hc, (td_doc _ _ Ht). Qed.

Lemma sim_rest s1 s2 : sim s1 s2 -> rest s1 = rest s2.
Proof. intros [Ht Hc]. unfold rest. by rewrite Hc, (td_doc _ _ Ht). Qed.

Lemma tied_still s1 s1' s2 s2' :
  tied s1 s2 -> still s1 s1' -> still (our_core s2) (our_core s2') -> our_features_ s2' = our_features_ s2 -> tied s1' s2'.
Proof. intros [] [] [] ?. split; congruence. Qed.

Lemma sim_still s1 s1' s2 s2' :
  sim s1 s2 -> still s1 s1' -> still (our_core s2) (our_core s2') -> our_features_ s2' = our_features_ s2 ->
  current_ s1' = current_ s2' -> sim s1' s2'.
Proof. intros [Ht _] H1 H2 H3 Hc. split; [by eapply tied_still|done]. Qed.

(** If both return, then with [Q]. *)
Definition rel {A B} (m1 : RM A) (m2 : OM B) (s1 : Reader) (s2 : OurReader)
    (Q : A -> B -> Reader -> OurReader -> Prop) : Prop :=
  forall a b s1' s2', m1 s1 = Ret (a, s1') -> m2 s2 = Ret (b, s2') -> Q a b s1' s2'.

Section calculus.
Context {A B C D : Type}.
Implicit Types (Q : C -> D -> Reader -> OurReader -> Prop).

Lemma rel_mono (m1 : RM A) (m2 : OM B) s1 s2 (P P' : A -> B -> Reader -> OurReader -> Prop) :
  rel m1 m2 s1 s2 P -> (forall a b s1' s2', P a b s1' s2' -> P' a b s1' s2') -> rel m1 m2 s1 s2 P'.
Proof. intros H HP a b s1' s2' H1 H2. by apply HP, H. Qed.

Lemma rel_ret (a : A) (b : B) s1 s2 (P : A -> B -> Reader -> OurReader -> Prop) :
  P a b s1 s2 -> rel (mret a) (mret b) s1 s2 P.
Proof. by intros H ? ? ? ? [= <- <-] [= <- <-]. Qed.

Lemma rel_bind (m1 : RM A) (m2 : OM B) (k1 : A -> RM C) (k2 : B -> OM D) s1 s2 Q :
  rel m1 m2 s1 s2 (fun a b s1' s2' => rel (k1 a) (k2 b) s1' s2' Q) -> rel (m1 ≫= k1) (m2 ≫= k2) s1 s2 Q.
Proof.
  intros H c d s1' s2' (a & t1 & H1 & K1)%RM_bind_inv (b & t2 & H2 & K2)%ST_bind_inv. exact (H _ _ _ _ H1 H2 _ _ _ _ K1 K2).
Qed.

Lemma rel_gets (f : Reader -> A) (k1 : A -> RM C) (m2 : OM D) s1 s2 Q :
  rel (k1 (f s1)) m2 s1 s2 Q -> rel (gets f ≫= k1) m2 s1 s2 Q.
Proof. exact (fun H => H). Qed.

Lemma rel_get (f : OurReader -> B) (m1 : RM C) (k2 : B -> OM D) s1 s2 Q :
  rel m1 (k2 (f s2)) s1 s2 Q -> rel m1 (get f ≫= k2) s1 s2 Q.
Proof. exact (fun H => H). Qed.

(** A step of one side that ties nothing loose. *)
Lemma rel_quiet_1 (m : RM A) (k1 : A -> RM C) (m2 : OM D) s1 s2 Q :
  quiet m -> sim s1 s2 -> (forall a s1', sim s1' s2 -> rel (k1 a) m2 s1' s2 Q) -> rel (m ≫= k1) m2 s1 s2 Q.
Proof.
  intros Hm Hs H c d s1' s2' (a & t1 & [H1 C1]%Hm & K1)%RM_bind_inv H2. eapply H; [|exact K1|exact H2].
  eapply sim_still; [done|done|done|done|]. rewrite C1. apply Hs.
Qed.

Lemma rel_quiet_2 (m : OM B) (m1 : RM C) (k2 : B -> OM D) s1 s2 Q :
  our_quiet m -> sim s1 s2 -> (forall b s2', sim s1 s2' -> rel m1 (k2 b) s1 s2' Q) -> rel m1 (m ≫= k2) s1 s2 Q.
Proof.
  intros Hm Hs H c d s1' s2' H1 (b & t2 & (H2 & C2 & F2)%Hm & K2)%ST_bind_inv. eapply H; [|exact H1|exact K2].
  eapply sim_still; [done|done|done|done|]. rewrite C2. apply Hs.
Qed.

(** A shared method. *)
Lemma rel_scan (m : RM A) (k1 : A -> RM C) (k2 : A -> OM D) s1 s2 Q :
  scanner m -> sim s1 s2 ->
  (forall a s1' s2', sim s1' s2' -> still s1 s1' -> rel (k1 a) (k2 a) s1' s2' Q) ->
  rel (m ≫= k1) (core m ≫= k2) s1 s2 Q.
Proof.
  intros Hm Hs H c d s1' s2' (a & t1 & H1 & K1)%RM_bind_inv (b & t2 & (u & H2 & ->)%core_inv & K2)%ST_bind_inv.
  destruct (Hm _ _ _ _ _ _ (td_doc _ _ (proj1 Hs)) (proj2 Hs) H1 H2) as (<- & Hc & S1 & S2).
  eapply H; [|exact S1|exact K1|exact K2]. by eapply sim_still.
Qed.

(** [Reader] does not succeed from here. *)
Lemma rel_fails (m1 : RM bool) (m2 : OM D) s1 s2 (P : D -> Reader -> OurReader -> Prop) :
  (forall a s1', m1 s1 = Ret (a, s1') -> a = false) ->
  rel m1 m2 s1 s2 (fun a d s1' s2' => a = true -> P d s1' s2').
Proof. intros Hf a d s1' s2' H1 _ ->. by apply Hf in H1. Qed.
End calculus.
End relation.
