(* ===== verification/JsonReaderTokens.v ===== *)
(** * The tokens of both readers

    With the same features, and those that only [OurReader] has switched off, both
    read the same tokens, but for two characters: after [-], [OurReader] takes an
    [I] along, and it takes [+] for the start of a number.  Where they part,
    [Reader] is before a character that starts no name, separator or bracket. *)
From S2P Require Export JsonReaderRel.
Open Scope Z_scope.

(** The extensions of [OurReader] that change what a token or a member is. *)
Record plain (F : OurFeatures) : Prop := {
  plain_keys : our_allowNumericKeys_ F = false;
  plain_quotes : allowSingleQuotes_ F = false;
  plain_floats : allowSpecialFloats_ F = false;
  plain_duplicates : rejectDupKeys_ F = false;
}.

(** The document holds [-I]. *)
Definition minus_I (doc : bytes) : Prop := exists i, doc !! i = Some (CH "-") /\ doc !! S i = Some (CH "I").

Definition stuck_char (c : Z) : bool :=
  is_digit c || (c =? CH ".") || (c =? CH "e") || (c =? CH "E") || (c =? CH "I").

(** ** [Reader] alone *)

Lemma skipSpaces_eq s : skipSpaces s = Ret (tt, set_current (past s) s).
Proof. done. Qed.

Lemma getNextChar_inv s c s' :
  getNextChar s = Ret (c, s') ->
  (rest s = [] /\ c = 0 /\ s' = s) \/
  (document_ s !! current_ s = Some c /\ s' = set_current (S (current_ s)) s /\ rest s = c :: rest s').
Proof.
  unfold getNextChar. intros (r & s1 & [= <- <-] & H)%RM_bind_inv. destruct (rest s) as [|d r] eqn:Hr.
  - injection H as <- <-. by left.
  - injection H as <- <-. right. unfold rest in *. simpl.
    pose proof (f_equal (fun l => l !! 0%nat) Hr) as H0. simpl in H0. rewrite lookup_drop, Nat.add_0_r in H0.
    rewrite <- Nat.add_1_r, <- drop_drop, Hr. by rewrite Nat.add_1_r.
Qed.

Lemma count_spaces_nonspace r : is_space (nth 0 r 0) = false -> count_spaces r = O.
Proof. destruct r as [|c r]; [done|]. simpl. by intros ->. Qed.

Lemma stuck_char_cases c : stuck_char c = true -> is_digit c = true \/ c = CH "." \/ c = CH "e" \/ c = CH "E" \/ c = CH "I".
Proof.
  unfold stuck_char. destruct (is_digit c); [by left|]. simpl. intros H. right.
  rewrite !orb_true_iff, !Z.eqb_eq in H. tauto.
Qed.

Lemma stuck_char_space c : stuck_char c = true -> is_space c = false.
Proof.
  intros [Hd|[->|[->|[->| ->]]]]%stuck_char_cases; try done. unfold is_digit in Hd. bool_to_prop.
  unfold is_space. by zbool.
Qed.

(** A number moves on only over characters of a number. *)
Lemma number_end_stays r p : number_end r p = p \/ stuck_char (nth 0 r 0) = true.
Proof.
  destruct r as [|c r]; [by left|]. unfold number_end, stuck_char. cbn [digits_loop nth].
  destruct (is_digit c); [by right|]. destruct (c =? CH "."); [by right|].
  destruct (c =? CH "e"); [by right|]. destruct (c =? CH "E"); [by right|by left].
Qed.

Lemma number_end_I r p : nth 0 r 0 = CH "I" -> number_end r p = p.
Proof. destruct r as [|c r]; [done|]. simpl. by intros ->. Qed.

Section tokens.
Context (F : OurFeatures) (HF : plain F).

(** [Reader] is before a character at which it can only fail inside of a container. *)
Definition stuck (s : Reader) : Prop :=
  features_ s = common_features F /\ stuck_char (nth 0 (rest s) 0) = true.

Lemma stuck_switch c s ok t s' :
  stuck_char c = true -> token_switch c s = Ret ((ok, t), s') -> ok = false \/ t = tokenNumber.
Proof.
  intros [Hd|[->|[->|[->| ->]]]]%stuck_char_cases; try (intros [= <- <- <-]; by left).
  unfold token_switch. rewrite Hd. unfold is_digit in Hd. bool_to_prop.
  change dquote with 34. zbool. cbn [orb]. intros (_ & s1 & _ & [= <- <- <-])%RM_bind_inv. by right.
Qed.

Lemma stuck_readToken s ok t s' :
  stuck s -> readToken s = Ret ((ok, t), s') ->
  type_ t = tokenError /\ ok = false \/ type_ t = tokenNumber.
Proof.
  intros [_ Hc] (u & s1 & [= <- <-] & H)%RM_bind_inv.
  rewrite (count_spaces_nonspace _ (stuck_char_space _ Hc)), Nat.add_0_r in H.
  apply RM_bind_inv in H as (start & s2 & [= <- <-] & (c & s3 & Hn & ([ok' ty] & s4 & Hs & (e & s5 & _ & [= <- <- _])%RM_bind_inv)%RM_bind_inv)%RM_bind_inv).
  assert (rest (set_current (current_ s) s) = rest s) as Hr by done.
  apply getNextChar_inv in Hn as [(Hn & _)|(_ & _ & Hn)]; rewrite Hr in Hn; rewrite Hn in Hc; [done|].
  destruct (stuck_switch _ _ _ _ _ Hc Hs) as [->| ->]; simpl; [by left|]. destruct ok'; [by right|by left].
Qed.

(** ** Both scanners *)

Lemma rel_readComment s0 t0 :
  sim F s0 t0 -> rel readComment our_readComment s0 t0 (fun a b s1' s2' => b = a /\ sim F s1' s2').
Proof.
  intros H0. unfold readComment, our_readComment. apply rel_gets. unfold see at 1. apply rel_get. cbv zeta.
  unfold our_getNextChar at 1. apply rel_scan with (F := F); [auto with scan|done|]. intros c s1 s2 Hs _.
  apply rel_bind. eapply (rel_mono _ _ _ _ (fun a b s1' s2' => b.1 = a /\ sim F s1' s2')).
  { destruct (c =? CH "*"); [|destruct (c =? CH "/"); [|by apply rel_ret]].
    - unfold readCStyleComment, our_readCStyleComment, see.
      apply rel_gets, rel_get. cbv zeta. rewrite <- (sim_rest F s1 s2 Hs).
      apply rel_scan with (F := F); [auto with scan|done|]. intros _ t1 t2 Ht _.
      unfold our_getNextChar. apply rel_scan with (F := F); [auto with scan|done|]. intros d u1 u2 Hu _. by apply rel_ret.
    - intros a [b nl] s1' s2' H1 (b' & t2 & (u & H2 & ->)%core_inv & [= -> <- <-])%ST_bind_inv.
      destruct (scanner_readCppStyleComment _ _ _ _ _ _ (td_doc _ _ _ (proj1 Hs)) (proj2 Hs) H1 H2) as (-> & Hc & S1 & S2).
      split; [done|]. by eapply sim_still. }
  clear s1 s2 Hs. intros ok [ok' nl] s1 s2 [Hok Hs]. simpl in Hok. subst ok'.
  destruct (negb ok); [by apply rel_ret|].
  apply rel_gets. unfold see at 1. apply rel_get.
  apply rel_quiet_1 with (F := F); [|done|].
  { destruct (collectComments_ s1); [|apply quiet_ret]. do 3 (apply quiet_bind; [apply quiet_gets|intros ?]).
    apply quiet_addComment. }
  intros _ t1 Ht. apply rel_quiet_2 with (F := F); [|done|].
  { destruct (collectComments_ s2); [|apply our_quiet_ret]. do 3 (apply our_quiet_bind; [apply our_quiet_get|intros ?]).
    apply our_quiet_bind; [case_match; [apply our_quiet_hasAComment|apply our_quiet_ret]|intros _].
    apply our_quiet_bind; [apply our_quiet_get|intros ?]. apply our_quiet_core, quiet_addComment. }
  intros _ t2 Hu. by apply rel_ret.
Qed.

(** [OurReader] on a sign. *)
Lemma signed_number_inv inf (s : OurReader) r s' :
  our_features_ s = F -> signed_number inf s = Ret (r, s') ->
  nth 0 (rest s) 0 = CH "I" /\ r = (false, inf) \/
  nth 0 (rest s) 0 <> CH "I" /\ r = (true, tokenNumber) /\
    s' = set_core (set_current (number_end (rest s) (current_ s)) s) s.
Proof.
  intros Hf (b & t & H1 & H2)%ST_bind_inv. unfold our_readNumber in H1.
  apply ST_bind_inv in H1 as (x & s1 & [= <- <-] & H1). simpl andb in H1.
  destruct (nth 0 (rest s) 0 =? CH "I") eqn:E; bool_to_prop;
    apply ST_bind_inv in H1 as (u & s2 & (w & [= _ <-] & ->)%core_inv & [= <- <-]).
  - left. split; [done|]. unfold special_float in H2.
    apply ST_bind_inv in H2 as (c & s3 & (f & s4 & [= <- <-] & H2)%ST_bind_inv & [= <- <-]).
    change (our_features_ (set_core _ s)) with (our_features_ s) in H2.
    rewrite Hf, (plain_floats _ HF) in H2. by injection H2 as <- _.
  - right. by injection H2 as <- <-.
Qed.

(** What the [switch]es return, on the character at [start]. *)
Definition switched (doc : bytes) (start : nat) (r1 r2 : bool * TokenType) (s1 : Reader) (s2 : OurReader) : Prop :=
  sim F s1 s2 /\ (r2 = r1 \/ r1.1 = false /\ (r2.1 = false \/ r2 = (true, tokenNumber))) \/
  stuck s1 /\ (r1.1 = false \/ r1 = (true, tokenNumber) /\ current_ s1 = S start /\ doc !! start = Some (CH "-") /\ minus_I doc).

Lemma switched_same doc start r s1 s2 : sim F s1 s2 -> switched doc start r r s1 s2.
Proof. intros H. left. auto. Qed.

(** A branch that runs a shared method. *)
Lemma rel_switch_scan (m : RM bool) ty doc start s1 s2 :
  scanner m -> sim F s1 s2 ->
  rel (ok ← m; mret (ok, ty)) (ok ← core m; mret (ok, ty)) s1 s2 (switched doc start).
Proof.
  intros Hm Hs. apply rel_scan with (F := F); [done..|]. intros ok t1 t2 Ht _. by apply rel_ret, switched_same.
Qed.

Lemma sim_advance n s1 (s2 : OurReader) :
  sim F s1 s2 -> sim F (set_current n s1) (set_core (set_current n s2) s2).
Proof. intros [[] _]. split; [by split|done]. Qed.

Lemma rel_minus s1 s2 start :
  sim F s1 s2 -> document_ s1 !! start = Some (CH "-") -> current_ s1 = S start ->
  rel (_ ← readNumber; mret (true, tokenNumber)) (signed_number tokenNegInf) s1 s2 (switched (document_ s1) start).
Proof.
  intros Hs Hd Hc a b t1 t2 (u & v & [= _ <-] & [= <- <-])%RM_bind_inv H2.
  destruct (signed_number_inv _ _ _ _ (td_features2 _ _ _ (proj1 Hs)) H2) as [[HI _]|(_ & -> & ->)];
    rewrite <- (sim_rest _ _ _ Hs) in *.
  - right. change (id s1) with s1. rewrite (number_end_I _ _ HI). split.
    + split; [apply Hs|]. change (rest (set_current (current_ s1) s1)) with (rest s1). by rewrite HI.
    + right. split_and!; [done|done|done|]. exists start. split; [done|]. rewrite <- Hc.
      unfold rest in HI. destruct (drop (current_ s1) (document_ s1)) as [|c r] eqn:E; [done|]. simpl in HI. subst c.
      pose proof (f_equal (fun l => l !! 0%nat) E) as H0. simpl in H0. by rewrite lookup_drop, Nat.add_0_r in H0.
  - change (id s1) with s1. rewrite <- (proj2 Hs). by apply switched_same, sim_advance.
Qed.

Lemma rel_plus s1 s2 start :
  sim F s1 s2 ->
  rel (mret (false, tokenError)) (signed_number tokenPosInf) s1 s2 (switched (document_ s1) start).
Proof.
  intros Hs a b t1 t2 [= <- <-] H2.
  destruct (signed_number_inv _ _ _ _ (td_features2 _ _ _ (proj1 Hs)) H2) as [[HI _]|(_ & -> & ->)];
    rewrite <- (sim_rest _ _ _ Hs) in *.
  - right. split; [|by left]. split; [apply Hs|]. by rewrite HI.
  - rewrite <- (proj2 Hs). destruct (number_end_stays (rest s1) (current_ s1)) as [->|Hst].
    + left. split; [|right; auto]. split; [|done]. destruct Hs as [[] _]. by split.
    + right. split; [|by left]. split; [apply Hs|done].
Qed.

Lemma rel_special s1 s2 pat ty start :
  sim F s1 s2 ->
  rel (mret (false, tokenError)) (ok ← special_float pat; mret (ok, ty)) s1 s2 (switched (document_ s1) start).
Proof.
  intros Hs a b t1 t2 [= <- <-] (ok & u & H & [= <- <-])%ST_bind_inv.
  apply ST_bind_inv in H as (f & u2 & [= <- <-] & H). rewrite (td_features2 _ _ _ (proj1 Hs)), (plain_floats _ HF) in H.
  injection H as <- <-. left. split; [done|]. right. auto.
Qed.

Lemma rel_token_switch c s1 s2 start :
  sim F s1 s2 -> (c = CH "-" -> document_ s1 !! start = Some c /\ current_ s1 = S start) ->
  rel (token_switch c) (our_token_switch c) s1 s2 (switched (document_ s1) start).
Proof.
  intros Hs Hc. unfold our_token_switch. apply rel_get. rewrite (td_features2 _ _ _ (proj1 Hs)), (plain_quotes _ HF).
  destruct (Z.eqb_spec c (CH "'")) as [->|]; [by apply rel_ret, switched_same|].
  destruct (Z.eqb_spec c (CH "+")) as [->|]; [by apply rel_plus|].
  destruct (Z.eqb_spec c (CH "N")) as [->|]; [by apply rel_special|].
  destruct (Z.eqb_spec c (CH "I")) as [->|]; [by apply rel_special|].
  destruct (Z.eqb_spec c (CH "-")) as [->|]; [by apply rel_minus; [done|apply Hc..]|].
  unfold token_switch. rewrite (proj2 (Z.eqb_neq c (CH "-"))), orb_false_r by done.
  assert (forall d, is_digit d = true ->
    rel (_ ← readNumber; mret (true, tokenNumber)) (_ ← our_readNumber false; mret (true, tokenNumber)) s1 s2
      (switched (document_ s1) start)) as Hdigit.
  { intros _ _ a b t1 t2 (u & v & [= _ <-] & [= <- <-])%RM_bind_inv (nb & t & H & [= <- <-])%ST_bind_inv.
    apply ST_bind_inv in H as (x & t0 & [= <- <-] & (y & t3 & (z & [= _ <-] & ->)%core_inv & [= <- <-])%ST_bind_inv).
    unfold id. rewrite (sim_rest _ _ _ Hs), (proj2 Hs). by apply switched_same, sim_advance. }
  repeat (match goal with |- rel (if ?b then _ else _) _ _ _ _ => destruct b eqn:? end; [first
    [ by apply rel_ret, switched_same
    | apply rel_switch_scan; [auto with scan|done]
    | by eapply Hdigit
    | apply rel_bind; eapply rel_mono; [by apply rel_readComment|];
      intros a b t1 t2 [-> Ht]; by apply rel_ret, switched_same ]|]).
  by apply rel_ret, switched_same.
Qed.

(** What [readToken] returns in both readers, on [doc]: the same token, or one of
    the two differences. *)
Definition apart (doc : bytes) (s1 : Reader) (ok : bool) (t : Token) : Prop :=
  stuck s1 /\
  (ok = false /\ type_ t = tokenError \/
   type_ t = tokenNumber /\ token_text t doc = [CH "-"] /\ minus_I doc).

Definition alike (doc : bytes) (r1 r2 : bool * Token) (s1 : Reader) (s2 : OurReader) : Prop :=
  sim F s1 s2 /\ (r2 = r1 \/ r1.1 = false /\ type_ r1.2 = tokenError /\ type_ r2.2 = tokenNumber) \/
  apart doc s1 r1.1 r1.2.

Lemma slice_one b (doc : bytes) c : doc !! b = Some c -> slice b (S b) doc = [c].
Proof.
  intros Hc. unfold slice. replace (S b - b)%nat with 1%nat by lia. rewrite <- (take_drop_middle doc b c Hc).
  rewrite drop_app_length'; [done|]. rewrite length_take. apply lookup_lt_Some in Hc. lia.
Qed.

Lemma near_start s1 s2 : near F s1 s2 -> sim F (set_current (past s1) s1) (set_core (set_current (past s2) s2) s2).
Proof. intros [[] Hp]. split; [by split|done]. Qed.

Lemma rel_readToken s1 s2 : near F s1 s2 -> rel readToken our_readToken s1 s2 (alike (document_ s1)).
Proof.
  intros Hn r1 r2 u1 u2 (x & t1 & [= <- <-] & H1)%RM_bind_inv (y & t2 & (z & [= <- <-] & ->)%core_inv & H2)%ST_bind_inv.
  pose proof (near_start _ _ Hn) as Hs. destruct Hn as [_ Hp].
  set (a1 := set_current (past s1) s1) in *. set (a2 := set_core (set_current (past s2) s2) s2) in *.
  change (sim F a1 a2) in Hs. change (document_ s1) with (document_ a1).
  apply RM_bind_inv in H1 as (start1 & b1 & [= <- <-] & (c & b2 & Hc & ([ok1 ty1] & b3 & Hsw1 & H1)%RM_bind_inv)%RM_bind_inv).
  apply ST_bind_inv in H2 as (start2 & d1 & [= <- <-] & (c' & d2 & Hc' & ([ok2 ty2] & d3 & Hsw2 & H2)%ST_bind_inv)%ST_bind_inv).
  apply core_inv in Hc' as (e & Hc' & ->).
  destruct (scanner_getNextChar _ _ _ _ _ _ (td_doc _ _ _ (proj1 Hs)) (proj2 Hs) Hc Hc') as (<- & Hcur & S1 & S2).
  assert (sim F b2 (set_core e a2)) as Hs2 by by eapply sim_still.
  assert (c = CH "-" -> document_ b2 !! current_ a1 = Some c /\ current_ b2 = S (current_ a1)) as Hminus.
  { apply getNextChar_inv in Hc as [(_ & -> & _)|(Hl & -> & _)]; [done|]. by intros _. }
  pose proof (rel_token_switch c _ _ (current_ a1) Hs2 Hminus _ _ _ _ Hsw1 Hsw2) as Hsw.
  rewrite (st_doc _ _ S1) in Hsw.
  apply RM_bind_inv in H1 as (stop1 & f1 & [= <- <-] & [= <- <-]).
  apply ST_bind_inv in H2 as (stop2 & f2 & [= <- <-] & [= <- <-]).
  change (alike (document_ a1) (ok1, mkToken (if ok1 then ty1 else tokenError) (past s1) (current_ b3))
    (ok2, mkToken (if ok2 then ty2 else tokenError) (past s2) (current_ d3)) b3 d3).
  rewrite <- Hp. change (past s1) with (current_ a1).
  destruct Hsw as [[Hsim Hr]|(Hk & Hr)]; cbn [fst] in Hr.
  - left. split; [done|]. rewrite <- (proj2 Hsim). cbn [fst snd type_].
    destruct Hr as [[= -> ->]|(-> & [-> |[= -> ->]])]; [by left..|by right].
  - right. split; [done|]. cbn [fst snd type_].
    destruct Hr as [->|([= -> ->] & Hcur3 & Hd & HI)]; [by left|]. right. split_and!; [done| |done].
    unfold token_text. cbn [tok_start_ tok_end_]. rewrite Hcur3. by apply slice_one.
Qed.

Lemma alike_types doc ok1 t1 ok2 t2 s1 s2 :
  alike doc (ok1, t1) (ok2, t2) s1 s2 ->
  type_ t1 = tokenComment -> ok1 = ok2 /\ t2 = t1 /\ sim F s1 s2.
Proof. intros [[Hs [[= -> ->]|(_ & He & _)]]|(_ & [[_ He]|(He & _)])] Ht; cbn [fst snd] in *; [done|congruence..]. Qed.

Lemma rel_skip_comments n1 n2 s1 s2 :
  near F s1 s2 ->
  rel (skip_comments n1) (our_skip_comments n2) s1 s2
    (fun t1 t2 s1' s2' => exists ok1 ok2, alike (document_ s1) (ok1, t1) (ok2, t2) s1' s2').
Proof.
  revert n2 s1 s2. induction n1 as [|n1 IH]; intros [|n2] s1 s2 Hn; try by intros ? ? ? ? ? ?.
  cbn [skip_comments our_skip_comments]. intros t1 t2 u1 u2 ([ok1 t1'] & v1 & H1 & K1)%RM_bind_inv ([ok2 t2'] & v2 & H2 & K2)%ST_bind_inv.
  pose proof (rel_readToken _ _ Hn _ _ _ _ H1 H2) as Ha.
  destruct (token_eqb (type_ t1') tokenComment) eqn:E1.
  - unfold token_eqb in E1. apply bool_decide_eq_true in E1.
    destruct (alike_types _ _ _ _ _ _ _ Ha E1) as (<- & -> & Hs).
    unfold token_eqb in K2. rewrite bool_decide_eq_true_2 in K2 by done.
    rewrite <- (st_doc _ _ (steady_readToken _ _ _ H1)). eapply IH; [|exact K1|exact K2]. by apply sim_near.
  - injection K1 as <- <-. destruct (token_eqb (type_ t2') tokenComment) eqn:E2.
    + destruct Ha as [[Hs [[= -> ->]|(_ & _ & He)]]|Ha]; cbn [fst snd] in *; [congruence| |].
      * unfold token_eqb in E2. rewrite He in E2. done.
      * exists ok1, true. by right.
    + injection K2 as <- <-. by exists ok1, ok2.
Qed.

Lemma rel_skipCommentTokens s1 s2 :
  near F s1 s2 ->
  rel skipCommentTokens our_skipCommentTokens s1 s2
    (fun t1 t2 s1' s2' => exists ok1 ok2, alike (document_ s1) (ok1, t1) (ok2, t2) s1' s2').
Proof.
  intros Hn. unfold skipCommentTokens, our_skipCommentTokens. apply rel_gets, rel_gets, rel_get, rel_get.
  rewrite (td_features1 _ _ _ (proj1 Hn)), (td_features2 _ _ _ (proj1 Hn)). cbn [allowComments_ common_features].
  destruct (our_allowComments_ F); [by apply rel_skip_comments|].
  apply rel_bind. eapply rel_mono; [by apply rel_readToken|]. intros [ok1 t1] [ok2 t2] u1 u2 Ha.
  apply rel_ret. by exists ok1, ok2.
Qed.

Lemma rel_comment_loop n1 n2 ok1 t1 ok2 t2 s1 s2 doc :
  document_ s1 = doc -> alike doc (ok1, t1) (ok2, t2) s1 s2 ->
  rel (comment_loop n1 ok1 t1) (our_comment_loop n2 ok2 t2) s1 s2 (alike doc).
Proof.
  revert n2 ok1 t1 ok2 t2 s1 s2. induction n1 as [|n1 IH]; intros [|n2] ok1 t1 ok2 t2 s1 s2 Hd Ha; try by intros ? ? ? ? ? ?.
  cbn [comment_loop our_comment_loop]. destruct (token_eqb (type_ t1) tokenComment && ok1) eqn:E1.
  - apply andb_true_iff in E1 as [E1 ->]. unfold token_eqb in E1. apply bool_decide_eq_true in E1.
    destruct (alike_types _ _ _ _ _ _ _ Ha E1) as (<- & -> & Hs). unfold token_eqb. rewrite bool_decide_eq_true_2 by done.
    cbn [andb]. intros r1 r2 u1 u2 ([ok1' t1'] & v1 & H1 & K1)%RM_bind_inv ([ok2' t2'] & v2 & H2 & K2)%ST_bind_inv.
    eapply IH; [| |exact K1|exact K2].
    + by rewrite (st_doc _ _ (steady_readToken _ _ _ H1)).
    + rewrite <- Hd. eapply rel_readToken; [|exact H1|exact H2]. by apply sim_near.
  - intros r1 r2 u1 u2 [= <- <-] H2. destruct (token_eqb (type_ t2) tokenComment && ok2) eqn:E2.
    + destruct Ha as [[Hs [[= -> ->]|(_ & _ & He)]]|Ha]; cbn [fst snd] in *; [congruence| |by right].
      unfold token_eqb in E2. rewrite He in E2. done.
    + by injection H2 as <- <-.
Qed.

Lemma rel_skipCommentsAfter ok1 t1 ok2 t2 s1 s2 :
  alike (document_ s1) (ok1, t1) (ok2, t2) s1 s2 ->
  rel (skipCommentsAfter ok1 t1) (our_skipCommentsAfter ok2 t2) s1 s2 (alike (document_ s1)).
Proof. intros Ha. apply rel_gets, rel_get. by apply rel_comment_loop. Qed.
End tokens.
