(* ===== verification/JsonReaderAgree.v ===== *)
(** * [Reader] and [OurReader] agree

    What [Reader] accepts, [OurReader] accepts with the same flags and reads as the
    same tree, up to comments, offsets and the tags of numbers. *)
From S2P Require Export JsonReaderTokens.
Open Scope Z_scope.

(** ** Failures of [Reader] *)

Lemma recoverFromError_false k s a s' : recoverFromError k s = Ret (a, s') -> a = false.
Proof.
  unfold recoverFromError.
  by intros (e & s1 & _ & (r & s2 & _ & (u & s3 & _ & (w & s4 & _ & [= <- _])%RM_bind_inv)%RM_bind_inv)%RM_bind_inv)%RM_bind_inv.
Qed.

Lemma addErrorAndRecover_false msg t k s a s' : addErrorAndRecover msg t k s = Ret (a, s') -> a = false.
Proof. intros (b & s1 & _ & H)%RM_bind_inv. by eapply recoverFromError_false. Qed.

(** The rest of [readValue], once the token is read. *)
Definition value_tail (readObject readArray : Token -> RM bool) (token : Token) : RM bool :=
  collect ← gets collectComments_;
  before ← gets commentsBefore_;
  _ ← (if collect && negb (bool_decide (before = [])) then
         _ ← currentValue (setComment before commentBefore);
         modify (set_commentsBefore [])
       else mret tt);
  successful ← value_switch readObject readArray token;
  match successful with
  | None => mret false
  | Some ok =>
      _ ← (if collect : bool then
             p ← nodes_top; modify (fun s => set_lastValue (Some (current_ s)) (Some p) s)
           else mret tt);
      mret ok
  end.

Lemma syntax_error_none t s (o : option bool) s' :
  (_ ← setOffsets (Z.of_nat (tok_start_ t)) (Z.of_nat (tok_end_ t));
   _ ← addError (STR "Syntax error: value, object or array expected.") t None;
   mret (M:=RM) None) s = Ret (o, s') -> o = None.
Proof. by intros (u & s1 & _ & (b & s2 & _ & [= <- _])%RM_bind_inv)%RM_bind_inv. Qed.

(** The tokens that begin no value. *)
Definition no_value (f : Features) (t : TokenType) : Prop :=
  t = tokenError \/ t = tokenArrayEnd /\ allowDroppedNullPlaceholders_ f = false.

Lemma value_tail_fails ro ra t s a s' :
  no_value (features_ s) (type_ t) -> value_tail ro ra t s = Ret (a, s') -> a = false.
Proof.
  intros Ht (c & s1 & [= <- <-] & (b & s2 & [= <- <-] & (u & s3 & Hq & (o & s4 & Hs & H)%RM_bind_inv)%RM_bind_inv)%RM_bind_inv)%RM_bind_inv.
  apply quiet_before in Hq as [Hq _]. apply RM_bind_inv in Hs as (f & s5 & [= <- <-] & Hs).
  rewrite <- (st_features _ _ Hq) in Ht.
  assert (o = None) as ->; [|by injection H as <- _].
  destruct Ht as [Ht|[Ht Hf]]; rewrite Ht in Hs; [|rewrite Hf in Hs]; by eapply syntax_error_none.
Qed.

(** ** Steps on the tree *)

Section agree.
Context (F : OurFeatures) (HF : plain F).

(** One side, or both, leave the position and the document. *)
Lemma near_tied s1 s1' s2 (s2' : OurReader) :
  near F s1 s2 -> tied F s1' s2' -> current_ s1' = current_ s1 -> document_ s1' = document_ s1 ->
  current_ s2' = current_ s2 -> near F s1' s2'.
Proof.
  intros [Ht Hp] Ht' C1 D1 C2. split; [done|]. unfold past, rest in *.
  by rewrite <- (td_doc _ _ _ Ht'), D1, C1, C2, Hp, <- (td_doc _ _ _ Ht).
Qed.

(** A call on the current values that have the same [norm]. *)
Lemma rel_current f g s1 (s2 : OurReader) :
  tied F s1 s2 ->
  (forall v w v' w', norm v = norm w -> f v = Ret v' -> g w = Ret w' -> norm v' = norm w') ->
  rel (currentValue f) (core (currentValue g)) s1 s2
    (fun _ _ s1' s2' => tied F s1' s2' /\ current_ s1' = current_ s1 /\ document_ s1' = document_ s1 /\
       current_ s2' = current_ s2).
Proof.
  intros Ht Hfg a b s1' s2' (p & ns & v & v' & Hn & Hv & Hf & ->)%currentValue_inv
    (c & (q & ns' & w & w' & Hn' & Hw & Hg & ->)%currentValue_inv & ->)%core_inv.
  split_and!; [|done..]. pose proof (td_nodes _ _ _ Ht) as Hnodes. rewrite Hn, Hn' in Hnodes. injection Hnodes as <- <-.
  assert (norm v = norm w) as Hvw.
  { pose proof (norm_at_path p (root_ s1)) as H1. pose proof (norm_at_path p (root_ s2)) as H2.
    rewrite (td_root _ _ _ Ht), Hv in H1. rewrite Hw, H1 in H2. by injection H2. }
  destruct Ht. split; simpl; try done. rewrite !norm_alter_path. by rewrite (Hfg _ _ _ _ Hvw Hf Hg), td_root.
Qed.

Lemma rel_current_sim f g s1 (s2 : OurReader) :
  sim F s1 s2 ->
  (forall v w v' w', norm v = norm w -> f v = Ret v' -> g w = Ret w' -> norm v' = norm w') ->
  rel (currentValue f) (core (currentValue g)) s1 s2 (fun _ _ s1' s2' => sim F s1' s2').
Proof.
  intros [Ht Hc] Hfg. eapply rel_mono; [by apply rel_current|]. intros _ _ s1' s2' (Ht' & C1 & _ & C2).
  split; [done|congruence].
Qed.

Lemma rel_current_near f g s1 (s2 : OurReader) :
  near F s1 s2 ->
  (forall v w v' w', norm v = norm w -> f v = Ret v' -> g w = Ret w' -> norm v' = norm w') ->
  rel (currentValue f) (core (currentValue g)) s1 s2 (fun _ _ s1' s2' => near F s1' s2').
Proof.
  intros Hn Hfg. eapply rel_mono; [apply rel_current; [apply Hn|done]|]. intros _ _ s1' s2' (Ht' & C1 & D1 & C2).
  by eapply near_tied.
Qed.

Lemma rel_swapPayload v w s1 s2 :
  norm v = norm w -> sim F s1 s2 ->
  rel (swapPayloadCurrent v) (core (swapPayloadCurrent w)) s1 s2 (fun _ _ s1' s2' => sim F s1' s2').
Proof.
  intros Hvw Hs. apply rel_current_sim; [done|]. intros x y x' y' _ [= <-] [= <-].
  transitivity (norm v); [by apply norm_payload|]. rewrite Hvw. by apply norm_payload.
Qed.

Lemma rel_push e s1 s2 :
  near F s1 s2 -> rel (push_edge e) (our_push e) s1 s2 (fun _ _ s1' s2' => near F s1' s2').
Proof.
  intros Hn a b s1' s2' (p & t1 & (-> & ns & Hp)%nodes_top_inv & [= _ <-])%RM_bind_inv
    (c & (q & t2 & (-> & ns' & Hq)%nodes_top_inv & [= _ <-])%RM_bind_inv & ->)%core_inv.
  destruct Hn as [[] Hpast]. assert (q = p) as -> by congruence. split; [|done]. split; try done. simpl. congruence.
Qed.

Lemma rel_pop s1 s2 : near F s1 s2 -> rel nodes_pop our_pop s1 s2 (fun _ _ s1' s2' => near F s1' s2').
Proof.
  intros Hn a b s1' s2' [= _ <-] (c & [= _ <-] & ->)%core_inv.
  destruct Hn as [[] Hpast]. split; [|done]. split; try done. simpl. congruence.
Qed.

Lemma rel_store_token t v w s1 s2 :
  norm v = norm w -> sim F s1 s2 ->
  rel (store_token t v) (our_store_token t w) s1 s2 (fun _ _ s1' s2' => sim F s1' s2').
Proof.
  intros Hvw Hs. unfold store_token, our_store_token. apply rel_bind. eapply rel_mono; [by apply rel_swapPayload|].
  intros [] [] t1 t2 Ht a b u1 u2 [H1 C1]%quiet_setOffsets (H2 & C2 & F2)%our_quiet_setOffsets.
  eapply sim_still; [exact Ht|done..|]. rewrite C1, C2. apply Ht.
Qed.

(** ** Numbers *)

Lemma integer_norm (neg : bool) limit value :
  limit = (if neg then maxLargestInt + 1 else maxLargestUInt) -> 0 <= value <= limit ->
  norm (if neg && (value =? limit) then Value_int minLargestInt
        else if neg then Value_int (- i64 value)
        else if value <=? maxInt then Value_int (i64 value) else Value_uint value) =
  norm (our_integer neg value).
Proof.
  intros -> Hv. unfold our_integer, maxLargestInt, maxLargestUInt in *.
  assert (forall z, 0 <= z < 2 ^ 63 -> i64 z = z) as Hi.
  { intros z Hz. unfold i64, signed. cbv zeta. rewrite Z.mod_small by lia. by rewrite (proj2 (Z.ltb_lt _ _)) by lia. }
  destruct neg; cbn [andb].
  - replace (- (value / 10) * 10 - value mod 10) with (- value) by (pose proof (Z.div_mod value 10); lia).
    destruct (Z.eqb_spec value (2 ^ 63 - 1 + 1)) as [->|]; [done|]. by rewrite Hi by lia.
  - unfold maxInt. destruct (Z.leb_spec value (2 ^ 31 - 1)).
    + rewrite (proj2 (Z.leb_le value _)) by lia. by rewrite Hi by lia.
    + by destruct (value <=? _).
Qed.

Lemma rel_decodeNumber t s1 s2 :
  sim F s1 s2 ->
  rel (decodeNumber t) (our_decodeNumber t) s1 s2 (fun o1 o2 s1' s2' =>
    sim F s1' s2' /\ forall v, o1 = Some v -> exists w, o2 = Some w /\ norm v = norm w).
Proof.
  intros Hs. unfold decodeNumber, our_decodeNumber. apply rel_gets. unfold see. apply rel_get.
  rewrite (td_doc _ _ _ (proj1 Hs)). cbv zeta. set (text := token_text t (document_ s2)).
  set (neg := nth 0 text 0 =? CH "-"). set (limit := if neg then maxLargestInt + 1 else maxLargestUInt).
  destruct (decode_digits limit (if neg then tail text else text) 0) as [value|] eqn:E.
  - apply decode_digits_range in E; [|by destruct neg|by destruct neg].
    apply rel_ret. split; [done|]. intros v [= <-]. eexists. split; [reflexivity|]. by apply integer_norm.
  - intros o1 o2 t1 t2 H1 (u & H2 & ->)%core_inv.
    destruct (scanner_decodeDouble t _ _ _ _ _ _ (td_doc _ _ _ (proj1 Hs)) (proj2 Hs) H1 H2) as (<- & Hc & S1 & S2).
    split; [by eapply sim_still|]. intros v ->. by exists v.
Qed.

Lemma rel_decodeString t s1 s2 :
  sim F s1 s2 -> rel (decodeString t) (our_decodeString t) s1 s2 (fun o1 o2 s1' s2' => o2 = o1 /\ sim F s1' s2').
Proof.
  intros Hs o1 o2 t1 t2 H1 (u & H2 & ->)%core_inv.
  destruct (scanner_decodeString t _ _ _ _ _ _ (td_doc _ _ _ (proj1 Hs)) (proj2 Hs) H1 H2) as (<- & Hc & S1 & S2).
  split; [done|]. by eapply sim_still.
Qed.

(** ** Values *)

(** Both accept, or [Reader] does not. *)
Definition both (ok1 ok2 : bool) (s1 : Reader) (s2 : OurReader) : Prop := ok1 = true -> ok2 = true /\ sim F s1 s2.

(** Or [Reader] has read a lone minus sign as zero, before an [I]. *)
Definition lone_minus (s s1 : Reader) : Prop :=
  stuck F s1 /\ minus_I (document_ s) /\
  exists p ns, nodes_ s = p :: ns /\ JsonReaderWp.shape (root_ s1) p = Some intValue.

Definition valued (s : Reader) (ok1 ok2 : bool) (s1 : Reader) (s2 : OurReader) : Prop :=
  ok1 = true -> ok2 = true /\ sim F s1 s2 \/ lone_minus s s1.

Definition switch_valued (o1 o2 : option bool) (s1 : Reader) (s2 : OurReader) : Prop :=
  o1 = Some true -> o2 = Some true /\ sim F s1 s2.

Lemma rel_literal t v s1 s2 :
  sim F s1 s2 ->
  rel (_ ← store_token t v; mret (Some true)) (_ ← our_store_token t v; mret (Some true)) s1 s2 switch_valued.
Proof.
  intros Hs. apply rel_bind. eapply rel_mono; [by apply rel_store_token|]. intros [] [] t1 t2 Ht.
  apply rel_ret. by split.
Qed.

Lemma rel_decodeNumberCurrent t s1 s2 :
  sim F s1 s2 -> rel (decodeNumberCurrent t) (our_decodeNumberCurrent t) s1 s2 both.
Proof.
  intros Hs. apply rel_bind. eapply rel_mono; [by apply rel_decodeNumber|]. intros [v|] o2 t1 t2 [Ht Hv].
  - destruct (Hv v eq_refl) as (w & -> & Hvw). apply rel_bind. eapply rel_mono; [by apply rel_store_token|].
    intros [] [] u1 u2 Hu. by apply rel_ret.
  - by intros ? ? ? ? [= <- <-] _.
Qed.

Lemma rel_decodeStringCurrent t s1 s2 :
  sim F s1 s2 -> rel (decodeStringCurrent t) (our_decodeStringCurrent t) s1 s2 both.
Proof.
  intros Hs. apply rel_bind. eapply rel_mono; [by apply rel_decodeString|]. intros [v|] o2 t1 t2 [-> Ht].
  - intros a b u1 u2 (x & w1 & (y & Hx & [= <- <-])%bind_Ret_inv & H1)%RM_bind_inv (z & w2 & (z' & Hz & [= <- <-])%bind_Ret_inv & H2)%ST_bind_inv.
    assert (z' = y) as -> by congruence. revert a b u1 u2 H1 H2. apply rel_bind.
    eapply rel_mono; [by apply rel_store_token|]. intros [] [] u1 u2 Hu. by apply rel_ret.
  - by intros ? ? ? ? [= <- <-] _.
Qed.

(** A container, then its limit. *)
Lemma rel_container (m1 : RM bool) (m2 : OM bool) s1 s2 :
  rel m1 m2 s1 s2 both ->
  rel (ok ← m1; cur ← gets current_; _ ← currentValue (fun v => Ret (setOffsetLimit (Z.of_nat cur) v)); mret (Some ok))
      (ok ← m2; cur ← see current_; _ ← our_setOffsetLimit (Z.of_nat cur); mret (Some ok)) s1 s2 switch_valued.
Proof.
  intros Hm. apply rel_bind. eapply rel_mono; [exact Hm|]. intros ok1 ok2 t1 t2 Hb.
  apply rel_gets. unfold see. apply rel_get. intros o1 o2 u1 u2 (a & v1 & H1 & [= <- <-])%RM_bind_inv (b & v2 & H2 & [= <- <-])%ST_bind_inv.
  intros [= ->]. destruct (Hb eq_refl) as [-> Hs]. split; [done|].
  apply our_quiet_setOffsetLimit in H2 as (S2 & C2 & F2).
  assert (quiet (currentValue (fun v => Ret (setOffsetLimit (Z.of_nat (current_ t1)) v)))) as Hq.
  { apply quiet_currentValue. intros v v' [= <-]. by apply norm_payload. }
  apply Hq in H1 as [S1 C1]. eapply sim_still; [exact Hs|done..|]. rewrite C1, C2. apply Hs.
Qed.

Lemma rel_dropped_null s1 s2 :
  sim F s1 s2 ->
  rel (_ ← modify (fun s => set_current (current_ s - 1) s); _ ← swapPayloadCurrent Value_null; cur ← gets current_;
       _ ← setOffsets (Z.of_nat cur - 1) (Z.of_nat cur); mret (Some true))
      our_dropped_null s1 s2 switch_valued.
Proof.
  intros Hs. unfold our_dropped_null. apply rel_scan with (F := F); [apply (scanner_move (fun c _ => (c - 1)%nat))|done|].
  intros _ t1 t2 Ht _. apply rel_bind. eapply rel_mono; [by apply rel_swapPayload|]. intros [] [] u1 u2 Hu.
  apply rel_gets. unfold see. apply rel_get.
  apply rel_quiet_1 with (F := F); [apply quiet_setOffsets|done|]. intros _ v1 Hv.
  apply rel_quiet_2 with (F := F); [apply our_quiet_setOffsets|done|]. intros _ v2 Hw. by apply rel_ret.
Qed.

Lemma rel_value_switch ro1 ra1 ro2 ra2 t s1 s2 :
  sim F s1 s2 -> rel (ro1 t) (ro2 t) s1 s2 both -> rel (ra1 t) (ra2 t) s1 s2 both ->
  rel (value_switch ro1 ra1 t) (our_value_switch ro2 ra2 t) s1 s2 switch_valued.
Proof.
  intros Hs Ho Ha. unfold value_switch, our_value_switch. apply rel_gets, rel_get.
  rewrite (td_features1 _ _ _ (proj1 Hs)), (td_features2 _ _ _ (proj1 Hs)). cbn [allowDroppedNullPlaceholders_ common_features].
  destruct (type_ t); try (by apply rel_literal); try (by apply rel_container);
    try (destruct (our_allowDroppedNullPlaceholders_ F); [by apply rel_dropped_null|]);
    try (intros o1 o2 t1 t2 H1%syntax_error_none _ ->; done).
  - apply rel_bind. eapply rel_mono; [by apply rel_decodeStringCurrent|]. intros ok1 ok2 t1 t2 Hb.
    apply rel_ret. intros [= ->]. by destruct (Hb eq_refl) as [-> ?].
  - apply rel_bind. eapply rel_mono; [by apply rel_decodeNumberCurrent|]. intros ok1 ok2 t1 t2 Hb.
    apply rel_ret. intros [= ->]. by destruct (Hb eq_refl) as [-> ?].
Qed.

Lemma stuck_moves s s' :
  stuck F s -> features_ s' = features_ s -> document_ s' = document_ s -> current_ s' = current_ s -> stuck F s'.
Proof. intros [Hf Hc] H1 H2 H3. split; [congruence|]. unfold rest. by rewrite H2, H3. Qed.

Lemma store_token_inv t w s a s' :
  store_token t w s = Ret (a, s') ->
  exists p ns, nodes_ s = p :: ns /\ JsonReaderWp.shape (root_ s') p = Some (type w) /\
    features_ s' = features_ s /\ document_ s' = document_ s /\ current_ s' = current_ s.
Proof.
  intros (b & s1 & (p & ns & v & v' & Hn & Hv & [= <-] & ->)%currentValue_inv &
    (q & ns' & x & x' & Hn' & Hx & [= <-] & ->)%currentValue_inv)%RM_bind_inv.
  cbn [set_root nodes_] in Hn'. assert (q = p) as -> by congruence. exists p, ns. split_and!; try done.
  unfold JsonReaderWp.shape. simpl. rewrite (at_path_alter _ _ _ _ Hx). simpl in Hx |- *.
  rewrite (at_path_alter _ _ _ _ Hv) in Hx. by injection Hx as <-.
Qed.

Lemma decodeNumber_minus t s o s' :
  token_text t (document_ s) = [CH "-"] -> decodeNumber t s = Ret (o, s') -> o = Some (Value_int 0) /\ s' = s.
Proof.
  intros Ht (text & s1 & [= <- <-] & H)%RM_bind_inv. rewrite Ht in H. by injection H as <- <-.
Qed.

Lemma lone_minus_tail ro ra t s a s' :
  stuck F s -> type_ t = tokenNumber -> token_text t (document_ s) = [CH "-"] -> minus_I (document_ s) ->
  value_tail ro ra t s = Ret (a, s') -> lone_minus s s'.
Proof.
  intros Hk Ht Htext HI
    (c & s1 & [= <- <-] & (b & s2 & [= <- <-] & (u & s3 & Hq & (o & s4 & Hs & H)%RM_bind_inv)%RM_bind_inv)%RM_bind_inv)%RM_bind_inv.
  apply quiet_before in Hq as [Hq C3]. apply RM_bind_inv in Hs as (f & s5 & [= <- <-] & Hs). rewrite Ht in Hs.
  apply RM_bind_inv in Hs as (ok & s5 & (o' & s6 & Hd & Hd')%RM_bind_inv & [= <- <-]).
  rewrite <- (st_doc _ _ Hq) in Htext.
  apply decodeNumber_minus in Hd as [-> ->]; [|done].
  apply RM_bind_inv in Hd' as ([] & s7 & (p & ns & Hn & Hsh & Hf & Hdoc & Hcur)%store_token_inv & [= <- <-]).
  apply RM_bind_inv in H as (y & s8 & Hlast & [= <- <-]).
  assert (root_ s8 = root_ s7 /\ features_ s8 = features_ s7 /\ document_ s8 = document_ s7 /\ current_ s8 = current_ s7)
    as (R8 & F8 & D8 & C8).
  { destruct (collectComments_ s); [|by injection Hlast as _ <-].
    apply RM_bind_inv in Hlast as (q & s9 & (-> & _)%nodes_top_inv & [= _ <-]). done. }
  pose proof (st_features _ _ Hq). pose proof (st_doc _ _ Hq). pose proof (st_nodes _ _ Hq).
  split_and!; [apply (stuck_moves s); [done|congruence..]|done|]. exists p, ns. rewrite R8. split; [congruence|done].
Qed.

(** The rest of [OurReader]'s [readValue]. *)
Definition our_value_tail (readObject readArray : Token -> OM bool) (token : Token) : OM bool :=
  collect ← see collectComments_;
  before ← see commentsBefore_;
  _ ← core (if collect && negb (bool_decide (before = [])) then
              _ ← currentValue (setComment before commentBefore);
              modify (set_commentsBefore [])
            else mret tt);
  successful ← our_value_switch readObject readArray token;
  match successful with
  | None => mret false
  | Some ok =>
      _ ← (if collect : bool then
             p ← core nodes_top;
             _ ← core (modify (fun s => set_lastValue (Some (current_ s)) (Some p) s));
             put (set_hasAComment false)
           else mret tt);
      mret ok
  end.

Lemma quiet_last (c : bool) : quiet
  (if c then p ← nodes_top; modify (fun s => set_lastValue (Some (current_ s)) (Some p) s) else mret tt).
Proof.
  destruct c; [|apply quiet_ret]. apply quiet_bind; [apply quiet_nodes_top|intros p]. by apply quiet_modify.
Qed.

Lemma our_quiet_last (c : bool) : our_quiet
  (if c then p ← core nodes_top; _ ← core (modify (fun s => set_lastValue (Some (current_ s)) (Some p) s));
             put (set_hasAComment false) else mret tt).
Proof.
  destruct c; [|apply our_quiet_ret]. apply our_quiet_bind; [apply our_quiet_core, quiet_nodes_top|intros p].
  apply our_quiet_bind; [|intros _; apply our_quiet_hasAComment]. by apply our_quiet_core, quiet_modify.
Qed.

Lemma rel_value_tail ro1 ra1 ro2 ra2 t s1 s2 :
  sim F s1 s2 ->
  (forall u1 u2, sim F u1 u2 -> rel (ro1 t) (ro2 t) u1 u2 both) ->
  (forall u1 u2, sim F u1 u2 -> rel (ra1 t) (ra2 t) u1 u2 both) ->
  rel (value_tail ro1 ra1 t) (our_value_tail ro2 ra2 t) s1 s2 both.
Proof.
  intros Hs Ho Ha. unfold value_tail, our_value_tail. do 2 apply rel_gets. unfold see. do 2 apply rel_get.
  apply rel_quiet_1 with (F := F); [apply quiet_before|done|]. intros _ t1 Ht.
  apply rel_quiet_2 with (F := F); [apply our_quiet_core, quiet_before|done|]. intros _ t2 Hu.
  apply rel_bind. eapply rel_mono; [by apply rel_value_switch; auto|]. intros o1 o2 u1 u2 Hsw.
  destruct o1 as [[|]|].
  - destruct (Hsw eq_refl) as [-> Hs2].
    apply rel_quiet_1 with (F := F); [apply quiet_last|done|]. intros _ v1 Hv.
    apply rel_quiet_2 with (F := F); [apply our_quiet_last|done|]. intros _ v2 Hw. by apply rel_ret.
  - intros a b v1 v2 (y & w1 & _ & [= <- _])%RM_bind_inv _ ?. done.
  - by intros a b v1 v2 [= <- _] _ ?.
Qed.

Lemma rel_readValue_body ro1 ra1 ro2 ra2 s1 s2 :
  near F s1 s2 ->
  (forall t u1 u2, sim F u1 u2 -> rel (ro1 t) (ro2 t) u1 u2 both) ->
  (forall t u1 u2, sim F u1 u2 -> rel (ra1 t) (ra2 t) u1 u2 both) ->
  rel (readValue_body ro1 ra1) (our_readValue_body ro2 ra2) s1 s2 (valued s1).
Proof.
  intros Hn Ho Ha. unfold readValue_body, our_readValue_body. apply rel_gets. unfold see at 1. do 2 apply rel_get.
  destruct (_ <? _)%nat; [by intros ? ? ? ? ?|]. destruct (_ <? _); [by intros ? ? ? ? ? ?|].
  intros a b v1 v2 (t1 & u1 & H1 & K1)%RM_bind_inv (t2 & u2 & H2 & K2)%ST_bind_inv.
  destruct (rel_skipCommentTokens F HF _ _ Hn _ _ _ _ H1 H2) as (ok1 & ok2 & Hal).
  pose proof (steady_skipCommentTokens _ _ _ H1) as Hst.
  change (value_tail ro1 ra1 t1 u1 = Ret (a, v1)) in K1. change (our_value_tail ro2 ra2 t2 u2 = Ret (b, v2)) in K2.
  intros Hok.
  destruct Hal as [[Hs [[= -> ->]|(_ & He & _)]]|(Hk & [[_ He]|(Ht & Htext & HI)])]; cbn [fst snd] in *.
  - left. by eapply rel_value_tail; [exact Hs|apply Ho|apply Ha|exact K1|exact K2|].
  - apply value_tail_fails in K1; [congruence|by left].
  - apply value_tail_fails in K1; [congruence|by left].
  - right. rewrite <- (st_doc _ _ Hst) in Htext, HI. apply lone_minus_tail in K1 as (Hk' & HI' & p & ns & Hn' & Hsh); [|done..].
    rewrite (st_doc _ _ Hst) in HI'. rewrite (st_nodes _ _ Hst) in Hn'. split_and!; [done|done|]. by exists p, ns.
Qed.

(** ** Objects *)

(** The parts a member needs: the values, and the next turn, where [Reader] fails
    before a character that starts no name. *)
Definition value_rel (m1 : RM bool) (m2 : OM bool) : Prop :=
  forall s1 s2, near F s1 s2 -> rel m1 m2 s1 s2 (valued s1).

Record members_rel (l1 : bytes -> RM bool) (l2 : bytes -> OM bool) : Prop := {
  mr_near name s1 s2 : near F s1 s2 -> rel (l1 name) (l2 name) s1 s2 both;
  mr_stuck name s a s' : stuck F s -> l1 name s = Ret (a, s') -> a = false;
}.

Lemma type_false t ty : type_ t <> ty -> token_eqb (type_ t) ty = false.
Proof. apply bool_decide_eq_false_2. Qed.

Lemma skipCommentsAfter_other ok t s r s' :
  type_ t <> tokenComment -> skipCommentsAfter ok t s = Ret (r, s') -> r = (ok, t) /\ s' = s.
Proof.
  intros Ht (x & s1 & [= <- <-] & H)%RM_bind_inv. cbn [comment_loop] in H. rewrite type_false in H by done.
  by injection H as <- <-.
Qed.

Lemma object_name_number t s o s' :
  features_ s = common_features F -> type_ t = tokenNumber -> object_name t s = Ret (o, s') -> o = None.
Proof.
  intros Hf Ht (f & s1 & [= <- <-] & H)%RM_bind_inv. rewrite Ht, Hf in H. cbn in H. rewrite (plain_keys _ HF) in H.
  by injection H as <- _.
Qed.

Lemma object_name_other t s o s' :
  type_ t <> tokenString -> type_ t <> tokenNumber -> object_name t s = Ret (o, s') -> o = None.
Proof.
  intros H1 H2 (f & s1 & [= <- <-] & H)%RM_bind_inv. rewrite !type_false in H by done. by injection H as <- _.
Qed.

(** A token that is no name ends the object with an error, except for the first
    closing brace. *)
Lemma object_body_no_name rv loop name s a s' ok t u :
  readToken s = Ret ((ok, t), u) -> features_ u = common_features F ->
  ok = false \/ type_ t = tokenNumber -> object_body rv loop name s = Ret (a, s') -> a = false.
Proof.
  intros H1 Hf Ht (r & s1 & H1' & H)%RM_bind_inv. rewrite H1 in H1'. injection H1' as <- <-. cbv beta iota zeta in H.
  destruct (negb ok) eqn:E; [by eapply addErrorAndRecover_false|].
  destruct Ht as [->|Ht]; [done|].
  apply RM_bind_inv in H as ([ok' t'] & s2 & [[= -> ->] ->]%skipCommentsAfter_other & H); [|by rewrite Ht].
  cbn [negb] in H. rewrite (type_false _ tokenObjectEnd) in H by by rewrite Ht.
  cbn [andb] in H. apply RM_bind_inv in H as (o & s3 & Ho & H). apply object_name_number in Ho as ->; [|done..].
  by eapply addErrorAndRecover_false.
Qed.

Lemma stuck_object_body rv loop name s a s' :
  stuck F s -> object_body rv loop name s = Ret (a, s') -> a = false.
Proof.
  intros Hk H. pose proof H as ([ok t] & s1 & H1 & _)%RM_bind_inv.
  eapply object_body_no_name; [exact H1| | |exact H].
  - rewrite (st_features _ _ (steady_readToken _ _ _ H1)). apply Hk.
  - destruct (stuck_readToken F _ _ _ _ Hk H1) as [[_ ?]|?]; auto.
Qed.

(** After a token at which they part, or from where [Reader] is stuck. *)
Lemma stuck_object_next loop name s a s' : stuck F s -> object_next loop name s = Ret (a, s') -> a = false.
Proof.
  intros Hk ([ok t] & s1 & H1 & H)%RM_bind_inv. cbv beta iota in H.
  destruct (stuck_readToken F _ _ _ _ Hk H1) as [[_ ->]|Ht]; cbn [negb orb] in H; [by eapply addErrorAndRecover_false|].
  rewrite !type_false in H by by rewrite Ht. cbn [negb andb] in H. rewrite orb_true_r in H. by eapply addErrorAndRecover_false.
Qed.

Lemma rel_object_next l1 l2 name s1 s2 :
  members_rel l1 l2 -> near F s1 s2 -> rel (object_next l1 name) (our_object_next l2 name) s1 s2 both.
Proof.
  intros Hl Hn a b v1 v2 ([ok1 t1] & u1 & H1 & K1)%RM_bind_inv ([ok2 t2] & u2 & H2 & K2)%ST_bind_inv Hok.
  cbv beta iota in K1, K2.
  pose proof (rel_readToken F HF _ _ Hn _ _ _ _ H1 H2) as Ha.
  rewrite <- (st_doc _ _ (steady_readToken _ _ _ H1)) in Ha.
  destruct (negb ok1 || _) eqn:E1; [apply addErrorAndRecover_false in K1; congruence|].
  apply orb_false_iff in E1 as [->%negb_false_iff E1].
  destruct Ha as [[Hs [[= -> ->]|(? & _)]]|(_ & [[? _]|(Ht & _)])]; cbn [fst snd] in *; [|done|done|].
  2: { rewrite !type_false in E1 by by rewrite Ht. done. }
  cbn [negb orb] in K2. rewrite E1 in K2.
  apply RM_bind_inv in K1 as ([ok1' t1'] & w1 & H3 & K1). apply ST_bind_inv in K2 as ([ok2' t2'] & w2 & H4 & K2).
  assert (alike F (document_ u1) (true, t1) (true, t1) u1 u2) as Ha by (left; auto).
  pose proof (rel_skipCommentsAfter F HF _ _ _ _ _ _ Ha _ _ _ _ H3 H4) as Ha'.
  destruct Ha' as [[Hs' [[= -> ->]|(_ & He & He2)]]|(Hk & Ht)]; cbn [fst snd] in *.
  - destruct (token_eqb (type_ t1') tokenObjectEnd).
    + injection K1 as <- <-. by injection K2 as <- <-.
    + by eapply (mr_near _ _ Hl); [apply sim_near|exact K1|exact K2|].
  - rewrite type_false in K1 by by rewrite He. rewrite type_false in K2 by by rewrite He2.
    by eapply (mr_near _ _ Hl); [apply sim_near|exact K1|exact K2|].
  - assert (type_ t1' <> tokenObjectEnd) as Hne by (destruct Ht as [[_ ->]|(-> & _)]; done).
    rewrite type_false in K1 by done. apply (mr_stuck _ _ Hl) in K1; [congruence|done].
Qed.

(** From the colon on. *)
Definition object_member (readValue : RM bool) (loop : bytes -> RM bool) (name : bytes) : RM bool :=
  '(ok, colon) ← readToken;
  if negb ok || negb (token_eqb (type_ colon) tokenMemberSeparator) then
    addErrorAndRecover (STR "Missing ':' after object member name") colon tokenObjectEnd
  else
    _ ← currentValue (resolveReference name);
    _ ← push_edge (EKey (CZString name));
    ok ← readValue;
    _ ← nodes_pop;
    if negb ok then recoverFromError tokenObjectEnd else object_next loop name.

(** A value between [push] and [pop]. *)
Lemma rel_child rv1 rv2 e (next1 : RM bool) (next2 fail2 : OM bool) k s1 s2 :
  value_rel rv1 rv2 -> near F s1 s2 ->
  (forall u1 u2, near F u1 u2 -> rel next1 next2 u1 u2 both) ->
  (forall s a s', stuck F s -> next1 s = Ret (a, s') -> a = false) ->
  rel (_ ← push_edge e; ok ← rv1; _ ← nodes_pop; if negb ok then recoverFromError k else next1)
      (_ ← our_push e; ok ← rv2; _ ← our_pop; if negb ok then fail2 else next2) s1 s2 both.
Proof.
  intros Hv Hn Hnext Hstuck. apply rel_bind. eapply rel_mono; [by apply rel_push|]. intros [] [] t1 t2 Ht.
  apply rel_bind. eapply rel_mono; [by apply Hv|]. intros ok1 ok2 u1 u2 Hok.
  destruct ok1; [|apply rel_fails; intros a s' (y & w & _ & H)%RM_bind_inv; by apply recoverFromError_false in H].
  destruct (Hok eq_refl) as [[-> Hs]|(Hk & _)].
  - apply rel_bind. eapply rel_mono; [apply rel_pop; by apply sim_near|]. intros [] [] v1 v2 Hw. by apply Hnext.
  - apply rel_fails. intros a s' (y & w & [= _ <-] & H)%RM_bind_inv. eapply Hstuck; [|exact H]. done.
Qed.

Lemma rel_object_member rv1 rv2 l1 l2 name s1 s2 :
  value_rel rv1 rv2 -> members_rel l1 l2 -> near F s1 s2 ->
  rel (object_member rv1 l1 name) (our_object_member rv2 l2 name) s1 s2 both.
Proof.
  intros Hv Hl Hn a b v1 v2 ([ok1 t1] & u1 & H1 & K1)%RM_bind_inv ([ok2 t2] & u2 & H2 & K2)%ST_bind_inv Hok.
  cbv beta iota in K1, K2.
  pose proof (rel_readToken F HF _ _ Hn _ _ _ _ H1 H2) as Ha.
  destruct (negb ok1 || _) eqn:E1; [apply addErrorAndRecover_false in K1; congruence|].
  apply orb_false_iff in E1 as [->%negb_false_iff E1].
  destruct Ha as [[Hs [[= -> ->]|(? & _)]]|(_ & [[? _]|(Ht & _)])]; cbn [fst snd] in *; [|done|done|].
  2: { rewrite !type_false in E1 by by rewrite Ht. done. }
  cbn [negb orb] in K2. rewrite E1 in K2.
  eapply (rel_bind _ _ _ _ _ _ both); [|exact K1|exact K2|exact Hok]. eapply rel_mono.
  { apply rel_current_sim; [exact Hs|]. intros v w v' w'. apply resolveReference_norm. }
  intros [] [] w1 w2 Hw. apply rel_child; [done|by apply sim_near|..].
  - intros. by apply rel_object_next.
  - intros s a' s'. apply stuck_object_next.
Qed.

(** [OurReader] may only stop on a long name. *)
Lemma rel_name rv1 rv2 l1 l2 name t s1 s2 :
  value_rel rv1 rv2 -> members_rel l1 l2 -> near F s1 s2 ->
  rel (object_member rv1 l1 name)
      (if 2 ^ 30 <=? Z.of_nat (length name) then run (Abort "keylength >= 2^30")
       else
         duplicate ← duplicate_key name;
         if duplicate : bool then
           our_addErrorAndRecover (STR "Duplicate key: '" ++ name ++ STR "'") t tokenObjectEnd
         else our_object_member rv2 l2 name) s1 s2 both.
Proof.
  intros Hv Hl Hn. destruct (_ <=? _); [by intros ? ? ? ? _ ?|].
  intros a b v1 v2 K1 (d & w & (f & w2 & [= <- <-] & Hd)%ST_bind_inv & K2)%ST_bind_inv.
  rewrite (td_features2 _ _ _ (proj1 Hn)), (plain_duplicates _ HF) in Hd. injection Hd as <- <-.
  revert a b v1 v2 K1 K2. by apply rel_object_member.
Qed.

(** The token of the name. *)
Lemma rel_named rv1 rv2 l1 l2 (name : bytes) t s1 s2 :
  value_rel rv1 rv2 -> members_rel l1 l2 -> sim F s1 s2 ->
  rel (if token_eqb (type_ t) tokenObjectEnd && bool_decide (name = []) then mret true
       else
         o ← object_name t;
         match o with
         | None => addErrorAndRecover (STR "Missing '}' or object member name") t tokenObjectEnd
         | Some None => recoverFromError tokenObjectEnd
         | Some (Some name) => object_member rv1 l1 name
         end)
      (if token_eqb (type_ t) tokenObjectEnd && (bool_decide (name = []) || allowTrailingCommas_ F) then mret true
       else
         o ← our_object_name t;
         match o with
         | None => our_addErrorAndRecover (STR "Missing '}' or object member name") t tokenObjectEnd
         | Some None => our_recoverFromError tokenObjectEnd
         | Some (Some name) =>
             if 2 ^ 30 <=? Z.of_nat (length name) then run (Abort "keylength >= 2^30")
             else
               duplicate ← duplicate_key name;
               if duplicate : bool then
                 our_addErrorAndRecover (STR "Duplicate key: '" ++ name ++ STR "'") t tokenObjectEnd
               else our_object_member rv2 l2 name
         end) s1 s2 both.
Proof.
  intros Hv Hl Hs. destruct (token_eqb (type_ t) tokenObjectEnd) eqn:E; cbn [andb].
  - destruct (bool_decide (name = [])); [by apply rel_ret|]. unfold token_eqb in E. apply bool_decide_eq_true in E.
    apply rel_fails. intros a s' (o & s3 & ->%object_name_other & H)%RM_bind_inv; [|by rewrite E..].
    by apply addErrorAndRecover_false in H.
  - destruct (decide (type_ t = tokenString)) as [Ht|Ht].
    + unfold object_name, our_object_name. intros a b v1 v2 (o & u1 & (f & u2 & [= <- <-] & H1)%RM_bind_inv & K1)%RM_bind_inv
        (o' & w1 & (f' & w2 & [= <- <-] & H2)%ST_bind_inv & K2)%ST_bind_inv.
      unfold token_eqb in H1, H2. rewrite bool_decide_eq_true_2 in H1, H2 by done.
      apply RM_bind_inv in H1 as (n & u3 & H1 & [= <- <-]). apply ST_bind_inv in H2 as (n' & w3 & H2 & [= <- <-]).
      destruct (rel_decodeString t _ _ Hs _ _ _ _ H1 H2) as [-> Hs2]. destruct n as [n|].
      * eapply rel_name; [exact Hv|exact Hl|by apply sim_near|exact K1|exact K2].
      * apply recoverFromError_false in K1. by intros ->.
    + apply rel_fails. intros a s' (o & s3 & Ho & H)%RM_bind_inv.
      assert (o = None) as ->; [|by apply addErrorAndRecover_false in H].
      destruct (decide (type_ t = tokenNumber)); [|by eapply object_name_other].
      eapply object_name_number; [apply Hs|done|exact Ho].
Qed.

Lemma rel_object_body rv1 rv2 l1 l2 name s1 s2 :
  value_rel rv1 rv2 -> members_rel l1 l2 -> near F s1 s2 ->
  rel (object_body rv1 l1 name) (our_object_body rv2 l2 name) s1 s2 both.
Proof.
  intros Hv Hl Hn. unfold our_object_body. apply rel_get. rewrite (td_features2 _ _ _ (proj1 Hn)).
  intros a b v1 v2 H K2 Hok. pose proof H as ([ok1 t1] & u1 & H1 & K1)%RM_bind_inv.
  apply ST_bind_inv in K2 as ([ok2 t2] & u2 & H2 & K2). cbv beta iota zeta in K1, K2.
  pose proof (rel_readToken F HF _ _ Hn _ _ _ _ H1 H2) as Ha.
  pose proof (st_features _ _ (steady_readToken _ _ _ H1)) as Hf. rewrite (td_features1 _ _ _ (proj1 Hn)) in Hf.
  assert (ok1 = true /\ sim F u1 u2 /\ ok2 = true /\ t2 = t1) as (-> & Hs & -> & ->).
  { assert (ok1 = false \/ type_ t1 = tokenNumber -> a = false) as Hno by by intros; eapply object_body_no_name.
    destruct ok1; [|by rewrite Hno in Hok by auto].
    destruct Ha as [[Hs [[= -> ->]|(? & _)]]|(_ & [[? _]|(Ht & _)])]; cbn [fst snd] in *; [done..|].
    by rewrite Hno in Hok by auto. }
  clear H Ha. cbn [negb] in K1, K2.
  apply RM_bind_inv in K1 as ([ok1 t1'] & w1 & H3 & K1). apply ST_bind_inv in K2 as ([ok2 t2'] & w2 & H4 & K2).
  assert (alike F (document_ u1) (true, t1) (true, t1) u1 u2) as Ha by (left; auto).
  pose proof (rel_skipCommentsAfter F HF _ _ _ _ _ _ Ha _ _ _ _ H3 H4) as Ha'. cbv beta iota in K1, K2.
  destruct (negb ok1) eqn:E1; [apply addErrorAndRecover_false in K1; congruence|]. apply negb_false_iff in E1 as ->.
  destruct Ha' as [[Hs' [[= -> ->]|(? & _)]]|(Hk & [[? _]|(Ht & _)])]; cbn [fst snd] in *; [|done|done|].
  2: { rewrite (type_false _ tokenObjectEnd) in K1 by by rewrite Ht. cbn [andb] in K1.
       apply RM_bind_inv in K1 as (o & w3 & Ho & K1). apply object_name_number in Ho as ->; [|apply Hk|done].
       apply addErrorAndRecover_false in K1. congruence. }
  cbn [negb] in K2. eapply (rel_named rv1 rv2 l1 l2 name t1' w1 w2); [done..|exact K1|exact K2|exact Hok].
Qed.

(** ** Arrays *)

(** The next character that is no space. *)
Definition past_char (s : Reader) : Z := nth 0 (drop (past s) (document_ s)) 0.

Lemma count_spaces_twice r : count_spaces (drop (count_spaces r) r) = O.
Proof. induction r as [|c r IH]; [done|]. simpl. destruct (is_space c) eqn:E; [done|]. simpl. by rewrite E. Qed.

Lemma past_past s : past (set_current (past s) s) = past s.
Proof.
  unfold past at 1, rest. cbn [set_current current_ document_]. unfold past at 2.
  rewrite <- drop_drop. change (drop (current_ s) (document_ s)) with (rest s). rewrite count_spaces_twice. lia.
Qed.

Lemma bracket_readToken s :
  past_char s = CH "]" ->
  readToken s = Ret ((true, mkToken tokenArrayEnd (past s) (S (past s))), set_current (S (past s)) s).
Proof.
  intros Hc. unfold past_char in Hc. destruct (drop (past s) (document_ s)) as [|c r] eqn:E; [done|]. simpl in Hc. subst c.
  unfold readToken. unfold mbind at 1, RM_bind at 1. rewrite skipSpaces_eq. simpl.
  unfold mbind, RM_bind, gets, getNextChar, rest, mbind, RM_bind. simpl. rewrite E. simpl. by rewrite Nat.add_1_r.
Qed.

Lemma readValue_fails n s ok t u a s' :
  readToken s = Ret ((ok, t), u) -> no_value (features_ s) (type_ t) -> readValue n s = Ret (a, s') -> a = false.
Proof.
  intros Hr Ht. destruct n as [|n]; [done|]. intros (d & s1 & [= <- <-] & H)%RM_bind_inv.
  destruct (_ <? _)%nat; [done|]. apply RM_bind_inv in H as (t' & s2 & Htok & H).
  change (value_tail (readObject n) (readArray n) t' s2 = Ret (a, s')) in H.
  assert (t' = t /\ features_ s2 = features_ s) as [-> Hs2].
  { apply RM_bind_inv in Htok as (f & s3 & [= <- <-] & (r & s4 & [= <- <-] & Htok)%RM_bind_inv).
    rewrite <- (st_features _ _ (steady_readToken _ _ _ Hr)).
    destruct (allowComments_ (features_ s)); [cbn [skip_comments] in Htok|];
      apply RM_bind_inv in Htok as ([ok' t''] & s5 & H5 & Htok); rewrite Hr in H5; injection H5 as <- <- <-;
      [|by injection Htok as <- <-].
    rewrite type_false in Htok by (by destruct Ht as [->|[-> _]]). by injection Htok as <- <-. }
  eapply value_tail_fails; [|exact H]. by rewrite Hs2.
Qed.

Lemma bracket_value n s a s' :
  past_char s = CH "]" -> allowDroppedNullPlaceholders_ (features_ s) = false ->
  readValue n s = Ret (a, s') -> a = false.
Proof. intros Hc Hf. eapply readValue_fails; [by apply bracket_readToken|]. by right. Qed.

Record elements_rel (l1 : Z -> RM bool) (l2 : Z -> OM bool) : Prop := {
  er_near k s1 s2 : 0 <= k -> near F s1 s2 -> (k = 0 -> past_char s1 <> CH "]") -> rel (l1 k) (l2 k) s1 s2 both;
  er_close s1 s2 : near F s1 s2 -> past_char s1 = CH "]" -> rel (_ ← readToken; mret true) (l2 0) s1 s2 both;
}.

Lemma stuck_array_next loop k s a s' : stuck F s -> array_next loop k s = Ret (a, s') -> a = false.
Proof.
  intros Hk ([ok t] & s1 & H1 & ([ok' t'] & s2 & H2 & H)%RM_bind_inv)%RM_bind_inv. cbv beta iota zeta in H.
  apply skipCommentsAfter_other in H2 as [[= -> ->] ->].
  2: { destruct (stuck_readToken F _ _ _ _ Hk H1) as [[-> _]| ->]; done. }
  assert (negb ok || negb (token_eqb (type_ t) tokenArraySeparator) && negb (token_eqb (type_ t) tokenArrayEnd) = true) as Hbad.
  { destruct (stuck_readToken F _ _ _ _ Hk H1) as [[_ ->]| Ht]; [done|]. rewrite !type_false by by rewrite Ht. apply orb_true_r. }
  rewrite Hbad in H. by eapply addErrorAndRecover_false.
Qed.

Lemma rel_array_next l1 l2 k s1 s2 :
  0 <= k -> elements_rel l1 l2 -> near F s1 s2 -> rel (array_next l1 k) (our_array_next l2 k) s1 s2 both.
Proof.
  intros Hk Hl Hn a b v1 v2 ([ok1 t1] & u1 & H1 & K1)%RM_bind_inv ([ok2 t2] & u2 & H2 & K2)%ST_bind_inv Hok.
  pose proof (rel_readToken F HF _ _ Hn _ _ _ _ H1 H2) as Ha.
  rewrite <- (st_doc _ _ (steady_readToken _ _ _ H1)) in Ha.
  apply RM_bind_inv in K1 as ([ok1' t1'] & w1 & H3 & K1). apply ST_bind_inv in K2 as ([ok2' t2'] & w2 & H4 & K2).
  pose proof (rel_skipCommentsAfter F HF _ _ _ _ _ _ Ha _ _ _ _ H3 H4) as Ha'. cbv beta iota zeta in K1, K2.
  destruct (negb ok1' || _) eqn:E1; [apply addErrorAndRecover_false in K1; congruence|].
  apply orb_false_iff in E1 as [->%negb_false_iff E1].
  destruct Ha' as [[Hs [[= -> ->]|(? & _)]]|(_ & [[? _]|(Ht & _)])]; cbn [fst snd] in *; [|done|done|].
  2: { rewrite !type_false in E1 by by rewrite Ht. done. }
  cbn [negb orb] in K2. rewrite E1 in K2. destruct (token_eqb (type_ t1') tokenArrayEnd).
  - injection K1 as <- <-. by injection K2 as <- <-.
  - eapply (er_near _ _ Hl (k + 1)); [lia|by apply sim_near|lia|exact K1|exact K2|done].
Qed.

(** [OurReader] skips spaces before it looks for the bracket. *)
Lemma near_skip s1 (s2 : OurReader) :
  near F s1 s2 -> near F s1 (set_core (set_current (past s2) s2) s2) /\
    nth 0 (rest (set_current (past s2) s2)) 0 = past_char s1.
Proof.
  intros [Ht Hp]. split; [split|].
  - destruct Ht. by split.
  - cbn [our_core set_core]. by rewrite past_past.
  - unfold past_char. by rewrite Hp, (td_doc _ _ _ Ht).
Qed.

Lemma index_ref_int_norm k v w v' w' :
  norm v = norm w -> index_ref_int k v = Ret v' -> index_ref_int k w = Ret w' -> norm v' = norm w'.
Proof. intros Hn [_ H1]%json_assert_bind [_ H2]%json_assert_bind. by eapply index_ref_norm. Qed.

Lemma bracket_array_body n loop k s a s' :
  past_char s = CH "]" -> allowDroppedNullPlaceholders_ (features_ s) = false ->
  array_body (readValue n) loop k s = Ret (a, s') -> a = false.
Proof.
  intros Hc Hf (u & s1 & (p & ns & v & v' & _ & _ & _ & ->)%currentValue_inv &
    (u2 & s2 & (q & s3 & (-> & _)%nodes_top_inv & [= _ <-])%RM_bind_inv & (ok & s4 & Hv & (u3 & s5 & _ & H)%RM_bind_inv)%RM_bind_inv)%RM_bind_inv)%RM_bind_inv.
  apply bracket_value in Hv as ->; [|exact Hc|exact Hf]. by apply recoverFromError_false in H.
Qed.

Lemma rel_element rv1 rv2 l1 l2 k s1 s2 :
  0 <= k -> value_rel rv1 rv2 -> elements_rel l1 l2 -> near F s1 s2 ->
  rel (array_body rv1 l1 k)
      (_ ← our_currentValue (index_ref_int k);
       _ ← our_push (EIdx (u32 k));
       ok ← rv2;
       _ ← our_pop;
       if negb ok then our_recoverFromError tokenArrayEnd else our_array_next l2 k) s1 s2 both.
Proof.
  intros Hk Hv Hl Hn. apply rel_bind. eapply rel_mono.
  { apply rel_current_near; [exact Hn|]. intros v w v' w'. apply index_ref_int_norm. }
  intros [] [] t1 t2 Ht. apply rel_child; [done|done|..].
  - intros. by apply rel_array_next.
  - intros s a s'. apply stuck_array_next.
Qed.

Lemma rel_array_body n rv2 l1 l2 k s1 s2 :
  0 <= k -> value_rel (readValue n) rv2 -> elements_rel l1 l2 -> near F s1 s2 -> (k = 0 -> past_char s1 <> CH "]") ->
  rel (array_body (readValue n) l1 k) (our_array_body rv2 l2 k) s1 s2 both.
Proof.
  intros Hk Hv Hl Hn Hb a b v1 v2 H1 H2. unfold our_array_body in H2.
  apply ST_bind_inv in H2 as (f & t2 & [= <- <-] & (x & t3 & (z & [= <- <-] & ->)%core_inv & (r & t4 & [= <- <-] & H2)%ST_bind_inv)%ST_bind_inv).
  change (set_current (current_ s2 + count_spaces (rest s2)) s2) with (set_current (past s2) s2) in H2.
  destruct (near_skip _ _ Hn) as [Hn2 Hc2]. cbn [our_core set_core] in H2. rewrite Hc2, (td_features2 _ _ _ (proj1 Hn)) in H2.
  destruct (past_char s1 =? CH "]") eqn:E; cbn [andb] in H2; bool_to_prop.
  - destruct (Z.eqb_spec k 0) as [Hk0|_]; [by destruct (Hb Hk0)|]. cbn [orb] in H2.
    destruct (our_allowDroppedNullPlaceholders_ F) eqn:Ed.
    + rewrite andb_false_r in H2. by apply (rel_element _ rv2 l1 l2 k _ _ Hk Hv Hl Hn2 _ _ _ _ H1 H2).
    + apply bracket_array_body in H1 as ->; [done|done|]. by rewrite (td_features1 _ _ _ (proj1 Hn)).
  - by apply (rel_element _ rv2 l1 l2 k _ _ Hk Hv Hl Hn2 _ _ _ _ H1 H2).
Qed.

(** ** The recursion *)

Lemma rel_readArray_body l1 l2 t s1 s2 :
  elements_rel l1 l2 -> sim F s1 s2 -> rel (readArray_body l1 t) (our_readArray_body l2 t) s1 s2 both.
Proof.
  intros Hl Hs. unfold readArray_body, our_readArray_body. apply rel_bind.
  eapply rel_mono; [by apply rel_swapPayload|]. intros [] [] t1 t2 Ht.
  apply rel_quiet_1 with (F := F); [|done|].
  { apply quiet_currentValue. intros v v' [= <-]. by apply norm_payload. }
  intros _ u1 Hu. apply rel_quiet_2 with (F := F); [apply our_quiet_setOffsetStart|done|]. intros _ u2 Hu2.
  apply sim_near in Hu2. set (v1 := set_current (past u1) u1).
  assert (near F v1 u2) as Hv by (split; [destruct Hu2 as [[] _]; by split|unfold v1; rewrite past_past; apply Hu2]).
  assert (past_char v1 = nth 0 (rest v1) 0) as Hc by (unfold past_char, v1; by rewrite past_past).
  change (rel (r ← gets rest; if nth 0 r 0 =? CH "]" then _ ← readToken; mret true else l1 0) (l2 0) v1 u2 both).
  apply rel_gets. rewrite <- Hc. destruct (Z.eqb_spec (past_char v1) (CH "]")).
  - by apply (er_close _ _ Hl).
  - by apply (er_near _ _ Hl).
Qed.

Lemma rel_readObject_body l1 l2 t s1 s2 :
  members_rel l1 l2 -> sim F s1 s2 -> rel (readObject_body l1 t) (our_readObject_body l2 t) s1 s2 both.
Proof.
  intros Hl Hs. unfold readObject_body, our_readObject_body. apply rel_bind.
  eapply rel_mono; [by apply rel_swapPayload|]. intros [] [] t1 t2 Ht.
  apply rel_quiet_1 with (F := F); [|done|].
  { apply quiet_currentValue. intros v v' [= <-]. by apply norm_payload. }
  intros _ u1 Hu. apply rel_quiet_2 with (F := F); [apply our_quiet_setOffsetStart|done|]. intros _ u2 Hu2.
  by apply (mr_near _ _ Hl), sim_near.
Qed.

(** An empty array. *)
Lemma rel_array_close rv2 l2 s1 s2 :
  near F s1 s2 -> past_char s1 = CH "]" -> rel (_ ← readToken; mret true) (our_array_body rv2 l2 0) s1 s2 both.
Proof.
  intros Hn Hc a b v1 v2 ([ok1 t1] & u1 & H1 & [= <- <-])%RM_bind_inv H2. unfold our_array_body in H2.
  apply ST_bind_inv in H2 as (f & t2 & [= <- <-] & (x & t3 & (z & [= <- <-] & ->)%core_inv & (r & t4 & [= <- <-] & H2)%ST_bind_inv)%ST_bind_inv).
  change (set_current (current_ s2 + count_spaces (rest s2)) s2) with (set_current (past s2) s2) in H2.
  destruct (near_skip _ _ Hn) as [Hn2 Hc2]. cbn [our_core set_core] in H2. rewrite Hc2, Hc in H2.
  apply ST_bind_inv in H2 as ([ok2 t5] & u2 & H2 & [= <- <-]). intros _. split; [done|].
  pose proof (rel_readToken F HF _ _ Hn2 _ _ _ _ H1 H2) as Ha. rewrite bracket_readToken in H1 by done.
  injection H1 as <- <- <-. destruct Ha as [[Hs _]|(_ & [[? _]|(? & _)])]; done.
Qed.

Lemma object_loop_stuck n name s a s' : stuck F s -> object_loop n name s = Ret (a, s') -> a = false.
Proof. intros Hk. destruct n; [done|]. by apply stuck_object_body. Qed.

Lemma array_loop_close n s1 s2 :
  near F s1 s2 -> past_char s1 = CH "]" -> rel (_ ← readToken; mret true) (our_array_loop n 0) s1 s2 both.
Proof. intros Hn Hc. destruct n; [by intros ? ? ? ? _ ?|]. by apply rel_array_close. Qed.

Definition readers (n n2 : nat) : Prop :=
  value_rel (readValue n) (our_readValue n2) /\
  (forall t s1 s2, sim F s1 s2 -> rel (readObject n t) (our_readObject n2 t) s1 s2 both) /\
  members_rel (object_loop n) (our_object_loop n2) /\
  (forall t s1 s2, sim F s1 s2 -> rel (readArray n t) (our_readArray n2 t) s1 s2 both) /\
  elements_rel (array_loop n) (our_array_loop n2).

Lemma readers_rel n n2 : readers n n2.
Proof.
  revert n2. induction n as [|n IH]; intros n2.
  - do 2 (split; [by intros|]). split; [by split|]. split; [by intros|]. split; [by intros|]. intros s1 s2. apply array_loop_close.
  - destruct n2 as [|n2].
    + split; [by intros s1 s2 Hn ? ? ? ? _ ?|]. split; [by intros t s1 s2 Hn ? ? ? ? _ ?|].
      split; [split; [by intros name s1 s2 Hn ? ? ? ? _ ?|intros name s a s'; apply object_loop_stuck]|].
      split; [by intros t s1 s2 Hn ? ? ? ? _ ?|].
      split; [by intros k s1 s2 _ _ _ ? ? ? ? _ ?|]. intros s1 s2. apply array_loop_close.
    + destruct (IH n2) as (Hv & Ho & Hm & Ha & He).
      split; [intros s1 s2 Hn; by apply rel_readValue_body|]. split; [intros t s1 s2; by apply rel_readObject_body|].
      split; [split; [intros name s1 s2 Hn; by apply rel_object_body|intros name s a s'; apply object_loop_stuck]|].
      split; [intros t s1 s2; by apply rel_readArray_body|].
      split; [intros k s1 s2 Hk Hn Hb; by apply rel_array_body|]. intros s1 s2. apply array_loop_close.
Qed.

(** ** Documents *)

(** A byte order mark is no value for [Reader]. *)
Lemma bom_value n s a s' :
  current_ s = O -> take 3 (document_ s) = [0xEF; 0xBB; 0xBF] -> readValue n s = Ret (a, s') -> a = false.
Proof.
  intros Hc Hd. destruct (document_ s) as [|c r] eqn:E; [done|]. assert (c = 0xEF) as -> by by injection Hd.
  assert (readToken s = Ret ((false, mkToken tokenError 0 1), set_current 1 (set_current 0 s))) as Hr; [|by eapply readValue_fails; [exact Hr|left]].
  unfold readToken. unfold mbind at 1, RM_bind at 1. rewrite skipSpaces_eq.
  assert (past s = O) as -> by by unfold past, rest; rewrite Hc, E. simpl.
  unfold mbind, RM_bind, gets, getNextChar, rest, mbind, RM_bind. simpl. by rewrite E.
Qed.

(** Reading tokens at the end leaves the tree of [OurReader] too. *)
Definition our_steady {A} (m : OM A) : Prop :=
  forall s a s', m s = Ret (a, s') -> still (our_core s) (our_core s') /\ our_features_ s' = our_features_ s.

Lemma our_steady_quiet {A} (m : OM A) : our_quiet m -> our_steady m.
Proof. by intros Hm s a s' (H & _ & Hf)%Hm. Qed.

Lemma our_steady_core {A} (m : RM A) : steady m -> our_steady (core m).
Proof. intros Hm s a s' (c & H%Hm & ->)%core_inv. done. Qed.

Lemma our_steady_bind {A B} (m : OM A) (k : A -> OM B) :
  our_steady m -> (forall a, our_steady (k a)) -> our_steady (m ≫= k).
Proof.
  intros Hm Hk s b s' (a & s1 & (H1 & F1)%Hm & (H2 & F2)%Hk)%ST_bind_inv. split; [by etransitivity|congruence].
Qed.

Lemma our_steady_ret {A} (a : A) : our_steady (mret a).
Proof. apply our_steady_quiet, our_quiet_ret. Qed.

Lemma our_steady_get {A} (f : OurReader -> A) : our_steady (get f).
Proof. apply our_steady_quiet, our_quiet_get. Qed.

(** A scanner behind one or two tests. *)
Ltac our_steps :=
  repeat first
    [ apply our_steady_ret | apply our_steady_get
    | apply our_steady_core, steady_scanner; solve [scan]
    | apply our_steady_bind; [|intros ?]
    | progress case_match ].

Lemma our_steady_readComment : our_steady our_readComment.
Proof.
  unfold our_readComment, our_readCStyleComment, our_readCppStyleComment, our_getNextChar, see. our_steps.
  - apply our_steady_quiet, our_quiet_hasAComment.
  - apply our_steady_core, steady_quiet, quiet_addComment.
Qed.

Lemma our_steady_readToken : our_steady our_readToken.
Proof.
  pose proof our_steady_readComment as Hcomment.
  unfold our_readToken, our_skipSpaces, our_getNextChar, see. apply our_steady_bind.
  { apply our_steady_core, steady_scanner. unfold skipSpaces. scan. }
  intros _. apply our_steady_bind; [our_steps|intros start]. apply our_steady_bind; [our_steps|intros c].
  apply our_steady_bind; [|intros [ok ty]; our_steps].
  unfold our_token_switch, signed_number, special_float, our_readNumber, our_readString, readStringSingleQuote, our_match, see.
  apply our_steady_bind; [our_steps|intros f].
  repeat (case_match; [first [exact (our_steady_bind _ _ Hcomment (fun ok => our_steady_ret (ok, tokenComment))) | solve [our_steps]]|]).
  our_steps.
Qed.

Lemma our_steady_skipCommentTokens : our_steady our_skipCommentTokens.
Proof.
  assert (forall n, our_steady (our_skip_comments n)) as Hn.
  { induction n as [|n IH]; [by intros s a s' H|]. apply our_steady_bind; [apply our_steady_readToken|intros [ok t]].
    case_match; [apply IH|apply our_steady_ret]. }
  do 2 (apply our_steady_bind; [apply our_steady_get|intros ?]). case_match; [apply Hn|].
  apply our_steady_bind; [apply our_steady_readToken|intros [ok t]; apply our_steady_ret].
Qed.
End agree.
