(* ===== verification/JsonReaderDocs.v ===== *)
(** * Documents: what [Reader] accepts, [OurReader] accepts *)
From S2P Require Import JsonOurReaderFacts JsonReaderAgree.
Open Scope Z_scope.


(** The document holds no number by itself, or no [-I]. *)
Definition no_lone_minus (doc : bytes) (v : Value) : Prop := isNumeric v = false \/ ~ minus_I doc.

Lemma norm_numeric v w : norm v = norm w -> isNumeric v = isNumeric w.
Proof.
  intros Hn. apply (f_equal value_) in Hn. destruct v as [[] ? ? ?], w as [[] ? ? ?]; try done;
    simpl in Hn; unfold norm_number in Hn; repeat destruct (_ <=? _); done.
Qed.

(** The end of [Reader::parse]. *)
Definition parse_end (doc : bytes) (successful : bool) : RM bool :=
  _ ← skipCommentTokens;
  collect ← gets collectComments_;
  before ← gets commentsBefore_;
  _ ← (if collect && negb (bool_decide (before = [])) then call_at [] (setComment before commentAfter)
       else mret tt);
  f ← gets features_;
  root ← gets root_;
  if strictRoot_ f && negb (isArray root) && negb (isObject root) then
    addError (STR "A valid JSON document must be either an array or an object value.")
      (mkToken tokenError 0 (length doc)) None
  else mret successful.

Lemma quiet_after (c : bool) before : quiet
  (if c && negb (bool_decide (before = [])) then call_at [] (setComment before commentAfter) else mret tt).
Proof. destruct (_ && _); [|apply quiet_ret]. apply quiet_call_at. intros v v'. apply setComment_norm. Qed.

Lemma addError_false msg t x s a s' : addError msg t x s = Ret (a, s') -> a = false.
Proof. by intros [= <- _]. Qed.

Lemma parse_end_true doc ok s s' :
  parse_end doc ok s = Ret (true, s') ->
  ok = true /\ still s s' /\
  (strictRoot_ (features_ s) = true -> isArray (root_ s') || isObject (root_ s') = true).
Proof.
  intros (t & s1 & S1%steady_skipCommentTokens & (c & s2 & [= <- <-] & (b & s3 & [= <- <-] &
    (u & s4 & [S2 _]%quiet_after & (f & s5 & [= <- <-] & (r & s6 & [= <- <-] & H)%RM_bind_inv)%RM_bind_inv)%RM_bind_inv)%RM_bind_inv)%RM_bind_inv)%RM_bind_inv.
  assert (still s s4) as S by by etransitivity. rewrite (st_features _ _ S) in H.
  destruct (_ && negb (isObject _)) eqn:E; [by apply addError_false in H|]. injection H as -> <-.
  split_and!; [done|done|]. intros Hf. rewrite Hf in E. by destruct (isArray _), (isObject _).
Qed.

(** [OurReader] ends as it was told, when [failIfExtra_] is off and the root is as
    [strictRoot_] wants it. *)
Lemma our_parse_end_true token (s : OurReader) a s' :
  failIfExtra_ (our_features_ s) = false ->
  (our_strictRoot_ (our_features_ s) = true -> isArray (root_ s) || isObject (root_ s) = true) ->
  our_parse_end true token s = Ret (a, s') -> a = true /\ norm (root_ s') = norm (root_ s).
Proof.
  intros He Hr (f & s1 & [= <- <-] & H)%ST_bind_inv. rewrite He in H.
  apply ST_bind_inv in H as (c & s1 & [= <- <-] & (b & s2 & [= <- <-] & (u & s3 & Hq & (r & s4 & [= <- <-] & (d & s5 & [= <- <-] & H)%ST_bind_inv)%ST_bind_inv)%ST_bind_inv)%ST_bind_inv).
  apply our_quiet_core in Hq as (Hq & _ & _); [|apply quiet_after].
  destruct (norm_container _ _ (st_root _ _ Hq)) as (Ha & Ho & _). rewrite Ha, Ho in H.
  destruct (_ && negb (isObject _)) eqn:E.
  - apply andb_true_iff in E as [[E E1]%andb_true_iff E2]. specialize (Hr E). cbn [our_core set_core] in *.
    by destruct (isArray _), (isObject _).
  - injection H as <- <-. split; [done|apply Hq].
Qed.
(** The states both readers start in. *)
Lemma start_sim F doc root c1 c2 s (t : OurReader) :
  features_ s = common_features F -> our_features_ t = F ->
  skipBom_ F && bytes_eqb (take 3 doc) [0xEF; 0xBB; 0xBF] = false ->
  sim F (parse_init doc root c1 s) (our_start doc root c2 t).
Proof. intros Hs Ht Hb. unfold our_start. rewrite Ht, Hb. split; [|done]. by split. Qed.

Lemma lone_minus_int F v doc s c w :
  lone_minus F (parse_init doc v c s) w -> minus_I doc /\ type (root_ w) = intValue.
Proof. intros (_ & HI & p & ns & [= <- _] & Hs). split; [done|]. by injection Hs. Qed.

(** If both readers return, and [Reader] accepts, so does [OurReader]. *)
Lemma parse_agree F doc root c1 c2 s (t : OurReader) s' ok t' :
  plain F -> failIfExtra_ F = false -> features_ s = common_features F -> our_features_ t = F ->
  parse doc root c1 s = Ret (true, s') -> our_parse doc root c2 t = Ret (ok, t') ->
  no_lone_minus doc (root_ s') -> ok = true /\ norm (root_ t') = norm (root_ s').
Proof.
  intros HF He Hs Ht (u & s0 & [= _ <-] & (ok1 & s1 & V1 & E1)%RM_bind_inv)%RM_bind_inv H2 Hm.
  rewrite our_parse_unfold in H2. apply ST_bind_inv in H2 as (ok2 & t1 & V2 & (x & t2 & P2 & (tok & t3 & T2 & E2)%ST_bind_inv)%ST_bind_inv).
  change (parse_end doc ok1 s1 = Ret (true, s')) in E1. apply parse_end_true in E1 as (-> & S1 & Hr).
  assert (skipBom_ F && bytes_eqb (take 3 doc) [0xEF; 0xBB; 0xBF] = false) as Hb.
  { apply not_true_iff_false. intros [_ Hb%bool_decide_eq_true]%andb_true_iff. by apply bom_value in V1. }
  pose proof (start_sim F doc root c1 c2 s t Hs Ht Hb) as Hst.
  destruct (readers_rel F HF (parse_fuel doc) (parse_fuel doc)) as (Hv & _).
  destruct (Hv _ _ (sim_near F _ _ Hst) _ _ _ _ V1 V2 eq_refl) as [[-> H]|[HI Hty]%lone_minus_int].
  - injection P2 as _ <-. apply our_steady_skipCommentTokens in T2 as [S3 F3].
    change (our_features_ t3 = our_features_ t1) in F3. change (still (set_nodes (tl (nodes_ t1)) t1) t3) in S3.
    destruct H as [[H1 H2 H3 H4 H5] _].
    assert (norm (root_ t3) = norm (root_ s')) as Hn by by rewrite (st_root _ _ S3), (st_root _ _ S1).
    apply our_parse_end_true in E2 as [-> Hn']; [by rewrite Hn'|congruence|].
    destruct (norm_container _ _ Hn) as (-> & -> & _). rewrite F3, H2. rewrite H1 in Hr. apply Hr.
  - destruct Hm as [Hm|Hm]; [|by destruct Hm].
    rewrite (norm_numeric _ _ (st_root _ _ S1)) in Hm.
    destruct (root_ s1) as [[] ? ? ?]; done.
Qed.

(** ** Properties *)

(** C18: a document that [Reader::parse] accepts is accepted by [OurReader::parse]
    with the same features, from any earlier states and with or without comments,
    when numeric keys, single quotes, special floats, the rejection of duplicate
    keys and of extra text are off, whatever comments, dropped nulls, trailing
    commas, strict roots and byte order marks are; and when the document is no
    number or holds no [-I].  Both trees are the same up to comments, offsets and
    the choice between int and uint.  Only the nesting limit or a name of 2^30
    bytes may stop [OurReader]. *)
Theorem readers_agree F doc root c1 c2 s (t : OurReader) s' :
  plain F -> failIfExtra_ F = false -> features_ s = common_features F -> our_features_ t = F ->
  our_doc_ok doc -> wf root ->
  parse doc root c1 s = Ret (true, s') -> no_lone_minus doc (root_ s') ->
  match our_parse doc root c2 t with
  | Ret (ok, t') => ok = true /\ norm (root_ t') = norm (root_ s')
  | Abort msg => our_stops F msg doc
  | Undef _ | Fuel => False
  end.
Proof.
  intros HF He Hs Ht Hd Hw H1 Hm.
  pose proof (our_parse_ok doc root c2 t (fun _ _ => True) Hd Hw (fun _ _ _ _ => I)) as H.
  destruct (our_start_inv doc root c2 t Hd Hw) as (_ & Hf & Hdoc & _).
  unfold owp in H. rewrite Hf, Hdoc, Ht in H.
  destruct (our_parse doc root c2 t) as [[ok t']| | |] eqn:H2; [|done..]. by eapply parse_agree.
Qed.

(** Comments, trailing commas, dropped nulls and a byte order mark are let through. *)
Definition tolerant_features : OurFeatures := mkOurFeatures true true true true false false false false false true 1000.

Definition shared_doc : bytes := STR "{'a': [1, -2.5, /* c */ [,], {}], 'b': null} rest" ≫= fun c => [if c =? CH "'" then dquote else c].

Lemma readers_agree_witness :
  exists s', parse shared_doc Value_null true (Reader_new (common_features tolerant_features)) = Ret (true, s') /\
  match our_parse shared_doc Value_null false (OurReader_new tolerant_features) with
  | Ret (ok, t') => ok = true /\ norm (root_ t') = norm (root_ s')
  | Abort msg => our_stops tolerant_features msg shared_doc
  | Undef _ | Fuel => False
  end.
Proof.
  destruct (parse shared_doc Value_null true (Reader_new (common_features tolerant_features))) as [[ok s']| | |] eqn:E;
    [|by vm_compute in E..].
  destruct ok; [|by vm_compute in E].
  exists s'. split; [done|]. apply (readers_agree tolerant_features shared_doc Value_null true false
    (Reader_new (common_features tolerant_features)) (OurReader_new tolerant_features) s');
    [by split|reflexivity..|split; [repeat constructor; by vm_compute|by vm_compute]|exact I|exact E|].
  left. vm_compute in E. by injection E as <-.
Defined.

(** Without the condition on [-I] the readers part: [Reader] takes a number to
    end after its sign, [OurReader] looks for [-Infinity]. *)
Lemma lone_minus_parts :
  (exists s', parse (STR "-Infinity") Value_null false (Reader_new Features_all) = Ret (true, s') /\
     value_ (root_ s') = PInt 0) /\
  let F := mkOurFeatures true false false false false false false false false false 1000 in
  common_features F = Features_all /\
  exists t', our_parse (STR "-Infinity") Value_null false (OurReader_new F) = Ret (false, t').
Proof.
  split; [eexists; split; vm_compute; reflexivity|]. split; [reflexivity|]. eexists. vm_compute. reflexivity.
Qed.

(** [OurReader] accepts more. *)
Lemma trailing_comma_parts :
  let doc := [CH "{"; dquote; CH "a"; dquote; CH ":"; CH "1"; CH ","; CH "}"] in
  (exists s', parse doc Value_null false (Reader_new (common_features tolerant_features)) = Ret (false, s')) /\
  exists t', our_parse doc Value_null false (OurReader_new tolerant_features) = Ret (true, t').
Proof. split; eexists; vm_compute; reflexivity. Qed.
