(* ===== verification/JsonStream.v ===== *)
(** * Values through streams

    [operator<<] writes with the defaults of [StreamWriterBuilder], [operator>>]
    reads with those of [CharReaderBuilder]: what the one writes, the other reads
    back as the same tree.  The proof composes the layout of the built writer with
    the agreement of both readers. *)
From S2P Require Import JsonReaderTokens JsonReaderBuilderFacts JsonReaderDocs JsonRoundtrip JsonBuilderFacts.
Open Scope Z_scope.

(** ** The bytes of a text *)

Section text_bytes.
Context (g : Tokens) (P : Z -> Prop).

(** The tokens of [v] itself consist of such bytes. *)
Definition tokens_of (v : Value) : Prop :=
  (forall text, scalar_text g v text -> Forall P text) /\
  match value_ v with PObject m => Forall (fun kv => Forall P (name_token g kv.1)) m | _ => True end.

Context (Hblank : forall sp, blank g sp -> Forall P sp) (Hmarks : Forall P (STR "[]{},:")).

Lemma mark_byte c : c ∈ STR "[]{},:" -> P c.
Proof. intros Hc. rewrite Forall_forall in Hmarks. by apply Hmarks. Qed.

Lemma layout_bytes v text : every tokens_of v -> tokens_of Value_null -> layout g v text -> Forall P text.
Proof.
  intros Hv H0 Hl. revert Hv.
  assert (forall c, bool_decide (c ∈ STR "[]{},:") = true -> P c) as Hm by by (intros c Hc; apply mark_byte; by eapply bool_decide_eq_true_1).
  assert (forall v, every tokens_of v -> Forall (fun kv => Forall P (name_token g kv.1)) (fields v)) as Hfields.
  { intros w [_ Hw]%every_here. unfold fields. destruct (value_ w); try constructor.
    unfold om_keys. rewrite map_map, Forall_fmap. exact Hw. }
  induction Hl as [v text Ht|v sp Hv Hi Hsp|v sp body Hsp He IH|v sp Hv Hi Hsp|v sp body Hsp Hmm IH|
    x t sp Ht IHt Hsp|x l t sp1 sp2 body Ht IHt Hsp1 Hsp2 He IH|
    k x t spa spb sp Ht IHt Hspa Hspb Hsp|k x m t spa spb sp1 sp2 body Ht IHt Hspa Hspb Hsp1 Hsp2 Hmm IH]
    using layout_mut with
      (P0 := fun l body _ => Forall (every tokens_of) l -> Forall P body)
      (P1 := fun m body _ => Forall (fun kv => every tokens_of kv.2) m ->
               Forall (fun kv => Forall P (name_token g kv.1)) m -> Forall P body); intros Hn.
  all: try (rewrite Forall_cons in Hn; destruct Hn as [Hx Hn]).
  all: try (intros [Hk Hks]%Forall_cons).
  all: repeat (rewrite Forall_cons || rewrite Forall_app).
  all: split_and?; auto.
  all: try (by apply Hm).
  - by apply every_here in Hn as [Hn _]; apply Hn.
  - apply IH. by apply every_children.
  - apply IH; [by apply every_children|by apply Hfields].
Qed.
End text_bytes.

Lemma spaces_bytes sp : spaces sp -> Forall byte_ok sp.
Proof.
  intros Hsp. eapply Forall_impl; [exact Hsp|]. intros c Hc. cbv beta in Hc. unfold is_space in Hc.
  rewrite !orb_true_iff, !Z.eqb_eq in Hc. unfold byte_ok. lia.
Qed.

Lemma hex_digit_byte c d : hex_digit c = Some d -> byte_ok c.
Proof. unfold hex_digit, byte_ok. repeat case_match; intros; bool_to_prop; simplify_eq; lia. Qed.

Lemma toHex16Bit_bytes x : 0 <= x < 0x10000 -> Forall byte_ok (toHex16Bit x).
Proof.
  intros Hx. destruct (toHex16Bit_digits x Hx) as (a & b & c & d & -> & Ha & Hb & Hc & Hd).
  repeat apply Forall_cons_2; try apply Forall_nil_2; by eapply hex_digit_byte.
Qed.

Lemma quoted_bytes cp t : quoted cp t -> Forall byte_ok t.
Proof.
  assert (forall c, 0 <= c < 256 -> byte_ok c) as H by done.
  intros [Hc _ _|e Hc He|Hc _|hi lo _ Hhi Hlo].
  - apply Forall_singleton. unfold byte_ok. lia.
  - repeat apply Forall_cons_2; [by apply H| |apply Forall_nil_2]. unfold simple_escape in He.
    repeat (destruct (_ =? _) eqn:E in He; [bool_to_prop; subst e; by apply H|clear E]). done.
  - apply Forall_app; split; [by repeat constructor|]. by apply toHex16Bit_bytes.
  - repeat (apply Forall_app; split); try (by repeat constructor); apply toHex16Bit_bytes; lia.
Qed.

Lemma quote_bytes s : utf8_text s -> Forall byte_ok (valueToQuotedStringN s false).
Proof.
  intros (cps & Hcps & ->). rewrite quoted_text by done. apply Forall_cons_2; [by vm_compute|].
  apply Forall_app; split; [|by repeat constructor; vm_compute].
  induction Hcps as [|cp cps Hcp _ IH]; [apply Forall_nil_2|]. cbn [mbind list_bind].
  apply Forall_app. split; [by eapply quoted_bytes, quote_cp_quoted|done].
Qed.

Lemma writable_tokens v : writable v -> tokens_of json_tokens byte_ok v.
Proof.
  intros Hw. split.
  - intros text Ht. unfold scalar_text in Ht. destruct v as [[| | | |s|b| |] ? ? ?]; simpl in *; subst; try done.
    + by repeat constructor; vm_compute.
    + apply dec_signed_bytes.
    + apply dec_digits_bytes.
    + apply valueToString_real_bytes.
    + by apply quote_bytes.
    + by destruct b; repeat constructor; vm_compute.
  - destruct v as [[] ? ? ?]; simpl in *; try done. destruct Hw as (_ & Hk & _).
    eapply Forall_impl; [exact Hk|]. intros kv [Hu _]. by apply quote_bytes.
Qed.

Lemma document_bytes v text : writable v -> document_of json_tokens v text -> Forall byte_ok text.
Proof.
  intros Hw (sp1 & t & sp2 & -> & H1%spaces_bytes & Ht & H2%spaces_bytes).
  apply Forall_app; split; [done|]. apply Forall_app; split; [|done].
  eapply (layout_bytes json_tokens byte_ok spaces_bytes); [..|exact Ht].
  - by repeat constructor; vm_compute.
  - eapply writable_every; [exact writable_tokens|done].
  - by apply writable_tokens.
Qed.

(** ** Trees up to [norm] *)

Lemma om_map_map_all {K} (f g h : Value -> Value) (m : list (K * Value)) :
  om_all (fun x => f (g x) = h x) m -> om_map f (om_map g m) = om_map h m.
Proof. induction m as [|[k x] m IH]; simpl; [done|]. intros [-> Hm]. by rewrite IH. Qed.

Lemma norm_strip v : norm (strip v) = norm v.
Proof.
  induction v as [v IHa IHo] using Value_ind. destruct v as [[| | | | | |m|m] ? ? ?]; try done; simpl; do 2 f_equal.
  - by apply om_map_map_all, IHa.
  - by apply om_map_map_all, IHo.
Qed.

Lemma norm_norm v : norm (norm v) = norm v.
Proof.
  induction v as [v IHa IHo] using Value_ind.
  destruct v as [[| | | | | |m|m] ? ? ?]; try done; simpl; unfold norm_number.
  1,2: by destruct (_ <=? _) eqn:E; simpl; unfold norm_number; rewrite E.
  - do 2 f_equal. by apply om_map_map_all, IHa.
  - do 2 f_equal. by apply om_map_map_all, IHo.
Qed.

(** The characters of a number and of the blanks around it. *)
Definition number_char (c : Z) : Prop := is_space c || is_digit c || existsb (Z.eqb c) (STR ".e+-") = true.

Lemma number_chars v t : writable v -> isNumeric v = true -> scalar_text json_tokens v t -> Forall number_char t.
Proof.
  assert (forall n, 0 <= n -> Forall number_char (dec_digits n)) as Hd.
  { intros n Hn. destruct (dec_digits_spec n Hn) as (_ & Hd & _). eapply Forall_impl; [exact Hd|].
    intros c Hc. unfold number_char. cbv beta in Hc. by rewrite Hc, orb_true_r. }
  unfold scalar_text. intros Hw Hv Ht. destruct v as [[] ? ? ?]; simpl in *; try done; subst t.
  - unfold dec_signed. destruct (_ <? _) eqn:E; bool_to_prop; [apply Forall_cons_2; [done|]|]; apply Hd; lia.
  - apply Hd, Hw.
  - destruct Hw as [H1 H2]. destruct (real_decimal _ H1 H2) as (sg & t & m & f & k & -> & Hdec%decimal_chars & _).
    apply Forall_app; split; [by destruct sg; repeat constructor|]. eapply Forall_impl; [exact Hdec|].
    intros c Hc. unfold number_char. cbv beta in Hc. by rewrite <- orb_assoc, Hc, orb_true_r.
Qed.

Lemma number_no_minus_I v text :
  writable v -> isNumeric v = true -> document_of json_tokens v text -> ~ minus_I text.
Proof.
  intros Hw Hv (sp1 & t & sp2 & -> & H1 & Ht%layout_inv & H2) (i & _ & HI).
  assert (forall sp, spaces sp -> Forall number_char sp) as Hsp.
  { intros sp Hsp. eapply Forall_impl; [exact Hsp|]. unfold number_char. by intros c ->. }
  assert (Forall number_char (sp1 ++ t ++ sp2)) as H.
  { repeat (apply Forall_app; split); [by apply Hsp| |by apply Hsp]. apply (number_chars v); [done|done|].
    unfold shape_of in Ht. by destruct v as [[] ? ? ?]. }
  rewrite Forall_lookup in H. by apply H in HI.
Qed.

(** ** Writing, then reading *)

(** A text of [v] that [Reader] accepts is accepted by [operator>>]. *)
Lemma operator_read_back v text root :
  writable v -> document_of json_tokens v text -> reads_back text v -> wf root ->
  Z.of_nat (length text) < 2 ^ 30 -> Z.of_nat (opens text) < 1000 ->
  exists v', operator_read text root = Ret v' /\ norm v' = norm v.
Proof.
  intros Hw Hdoc Hrd Hroot Hlen Hopens.
  assert (our_doc_ok text) as Hd by (split; [by eapply document_bytes|unfold maxInt; lia]).
  destruct (Hrd root true (Reader_new (common_features default_reader_features))) as (s' & Hp & Hs');
    [apply Hd|by left|].
  assert (norm (root_ s') = norm v) as Hnv by by rewrite <- norm_strip, Hs', norm_norm.
  set (t := OurReader_new default_reader_features).
  rewrite operator_read_default. unfold OurCharReader_parse. simpl reader_. simpl our_collectComments_. fold t.
  pose proof (our_parse_ok text root true t (fun _ _ => True) Hd Hroot (fun _ _ _ _ => I)) as H.
  destruct (our_start_inv text root true t Hd Hroot) as (_ & Hf & Hdoc' & _).
  unfold owp in H. rewrite Hf, Hdoc' in H.
  destruct (our_parse text root true t) as [[ok t']| | |] eqn:E; [|destruct H as [[_ H]|[_ H]]; simpl in H; lia|done..].
  destruct (parse_agree default_reader_features text root true true (Reader_new (common_features default_reader_features)) t s' ok t') as [-> Hn];
    [by split|reflexivity..|exact Hp|exact E| |].
  - destruct (isNumeric v) eqn:Ev; [right; by eapply number_no_minus_I|left].
    by rewrite (norm_numeric _ _ Hnv).
  - exists (root_ t'). split; [done|]. by rewrite Hn.
Qed.

(** C17: [stream << v] returns a text for every tree without NaN, holes and
    comments, with UTF-8 strings and at most 1000 levels, and [stream >> w] reads
    that text back, as a tree that is [v] up to offsets and the choice between int
    and uint, whatever [w] was; the text has to be shorter than 2^30 bytes with
    fewer than 1000 opening brackets, the limits of [OurReader]. *)
Theorem stream_roundtrip v root :
  writable v -> (depth v <= 1000)%nat -> every small_object v -> every uncommented v -> wf root ->
  exists text, operator_write v = Ret text /\
    (Z.of_nat (length text) < 2 ^ 30 -> Z.of_nat (opens text) < 1000 ->
     exists v', operator_read text root = Ret v' /\ norm v' = norm v).
Proof.
  intros Hw Hd Hs Hu Hroot. rewrite operator_write_default.
  set (cfg := mkBuiltConfig [9] CommentStyle_All (STR " : ") (STR "null") [] false false 17 significantDigits).
  assert (newStreamWriter default_builder = Ret cfg) as Hb by (vm_compute; reflexivity).
  destruct (writeString_layout default_builder cfg spaces v Hb Blank_spaces) as (text & E & Hr).
  - apply (builder_blank default_builder); [done|apply Blank_spaces|by repeat constructor|done].
  - by apply writable_numbers.
  - done.
  - apply quiet_hushed. by right.
  - exists text. split; [done|]. intros Hlen Hopens.
    assert (document_of json_tokens v text) as Hj.
    { eapply document_mono; [| |exact Hr]; [done|]. intros t. apply built_json; [done|done|].
      apply every_all. intros w. unfold default_real. by destruct (value_ w). }
    apply operator_read_back; [done|done|by apply document_reads_back|done..].
Qed.

Lemma demo_written :
  exists text, operator_write demo_tree = Ret text /\ Z.of_nat (length text) < 2 ^ 30 /\ Z.of_nat (opens text) < 1000.
Proof. eexists. split; [vm_compute; reflexivity|]. split; vm_compute; reflexivity. Qed.

Lemma stream_roundtrip_witness :
  exists text v', operator_write demo_tree = Ret text /\ operator_read text Value_null = Ret v' /\
    norm v' = norm demo_tree.
Proof.
  destruct demo_written as (text & Et & Hl & Ho).
  destruct (stream_roundtrip demo_tree Value_null) as (text' & E & H).
  - exact demo_tree_writable.
  - vm_compute. lia.
  - by repeat constructor.
  - repeat split; by intros [].
  - exact I.
  - rewrite Et in E. injection E as <-. destruct (H Hl Ho) as (v' & Hr & Hv). exists text, v'.
    split; [exact Et|]. split; [exact Hr|exact Hv].
Defined.
