(* ===== verification/JsonMembers.v ===== *)
(** * The other members of [Json::Value], and its iterators (json_value.cpp, json_valueiterator.inl, value.h)

    What JsonValue.v leaves out: the overloads for [int], C strings and static
    strings, [demand], [toStyledString], and the iterators.

    An iterator holds a [std::map] iterator: the node it designates, by its key,
    or the end of the map.  The nodes of a map stay where they are until they are
    erased, so an iterator is used with the container as it is at that moment. *)
From S2P Require Export JsonBuilder JsonReader.
Open Scope Z_scope.

(** ** Overloads *)

(** [Value(Int)], [Value(UInt)]: no conversion changes the number. *)
Definition Value_Int (value : Z) : Value := initBasic (PInt value).
Definition Value_UInt (value : Z) : Value := initBasic (PUInt value).

(** [Value(const StaticString&)]: the pointer is kept, and read to its first
    NUL. *)
Definition Value_static (value : bytes) : Value := initBasic (PString (c_str value)).

Definition operator_bool (v : Value) : bool := negb (isNull v).

(** [operator[](int) const]. *)
Definition index_const_int (index : Z) (v : Value) : outcome Value :=
  _ ← json_assert (0 <=? index)
    "in Json::Value::operator[](int index) const: index cannot be negative";
  index_const (u32 index) v.

(** [resolveReference(key)] for a C string, and [operator[](const StaticString&)]. *)
Definition resolveReference_cstring (key : bytes) (v : Value) : outcome Value :=
  _ ← json_assert (isNull v || isObject v)
    "in Json::Value::resolveReference(): requires objectValue";
  let v := as_object v in
  Ret (set_payload (PObject (om_emplace (CZString (c_str key)) Value_null (object_map v))) v).

Definition operator_index_static (key : bytes) (v : Value) : outcome Value :=
  resolveReference_cstring key v.

(** [demand(begin, end)]: the container after the call; the pointer designates
    node [CZString key]. *)
Definition demand (key : bytes) (v : Value) : outcome Value :=
  _ ← json_assert (isNull v || isObject v)
    "in Json::Value::demand(begin, end): requires objectValue or nullValue";
  resolveReference key v.

(** [removeMember(const String&)], the one that returns nothing. *)
Definition removeMember_string (key : bytes) (v : Value) : outcome Value :=
  removeMember_void (c_str key) v.

(** [swap(Value&, Value&)]. *)
Definition swap_values (a b : Value) : Value * Value := swap a b.

Definition toStyledString (v : Value) : outcome bytes :=
  builder ← StreamWriterBuilder_new;
  text ← writeString builder v;
  Ret ((if hasComment commentBefore v then [10] else []) ++ text ++ [10]).

(** [as<T>()] and [is<T>()]. *)
Inductive as_type : Type -> Type :=
  | as_bool : as_type bool
  | as_Int : as_type Z
  | as_UInt : as_type Z
  | as_Int64 : as_type Z
  | as_UInt64 : as_type Z
  | as_double : as_type float64
  | as_float : as_type float32
  | as_String : as_type bytes
  | as_CString : as_type bytes.

Definition as_ {T} (t : as_type T) (v : Value) : outcome T :=
  match t in as_type T return outcome T with
  | as_bool => asBool v
  | as_Int => asInt v
  | as_UInt => asUInt v
  | as_Int64 => asInt64 v
  | as_UInt64 => asUInt64 v
  | as_double => asDouble v
  | as_float => asFloat v
  | as_String => asString v
  | as_CString => asCString v
  end.

(** [None]: no such specialisation. *)
Definition is_ {T} (t : as_type T) (v : Value) : option bool :=
  match t with
  | as_bool => Some (isBool v)
  | as_Int => Some (isInt v)
  | as_UInt => Some (isUInt v)
  | as_Int64 => Some (isInt64 v)
  | as_UInt64 => Some (isUInt64 v)
  | as_double => Some (isDouble v)
  | as_String => Some (isString v)
  | as_float | as_CString => None
  end.

(** ** Iterators *)

(** The nodes of the map, in its order. *)
Definition map_nodes (v : Value) : list (edge * Value) :=
  match value_ v with
  | PArray m => map (fun kv => (EIdx kv.1, kv.2)) m
  | PObject m => map (fun kv => (EKey kv.1, kv.2)) m
  | _ => []
  end.

(** [it_node]: the key of the node, [None] at the end. *)
Record ValueIterator := mkIterator { it_node : option edge; it_isNull : bool }.

(** The default constructor. *)
Definition ValueIterator_new : ValueIterator := mkIterator None true.

(** [begin() const] and [end() const]. *)
Definition begin_ (v : Value) : ValueIterator :=
  match value_ v with
  | PArray _ | PObject _ => mkIterator (fst <$> head (map_nodes v)) false
  | _ => ValueIterator_new
  end.

Definition end_ (v : Value) : ValueIterator :=
  match value_ v with
  | PArray _ | PObject _ => mkIterator None false
  | _ => ValueIterator_new
  end.

(** [Value::iterator] and [Value::const_iterator] hold the same two members. *)
Definition begin_iterator (v : Value) : ValueIterator := begin_ v.
Definition end_iterator (v : Value) : ValueIterator := end_ v.

Definition no_node {A} : outcome A := Undef "iterator that designates no node".

(** The node an iterator designates: [*current_]. *)
Fixpoint node_at (k : edge) (l : list (edge * Value)) : option (edge * Value) :=
  match l with
  | [] => None
  | (k', w) :: l' => if bool_decide (k = k') then Some (k', w) else node_at k l'
  end.

Definition it_entry (v : Value) (it : ValueIterator) : outcome (edge * Value) :=
  match k ← it_node it; node_at k (map_nodes v) with
  | Some kw => Ret kw
  | None => no_node
  end.

Definition deref (v : Value) (it : ValueIterator) : outcome Value := kw ← it_entry v it; Ret kw.2.

(** The node after [k]: [Some None] is the end. *)
Fixpoint node_after (k : edge) (l : list (edge * Value)) : option (option edge) :=
  match l with
  | [] => None
  | (k', _) :: l' => if bool_decide (k = k') then Some (fst <$> head l') else node_after k l'
  end.

(** [++it]. *)
Definition increment (v : Value) (it : ValueIterator) : outcome ValueIterator :=
  match k ← it_node it; node_after k (map_nodes v) with
  | Some n => Ret (mkIterator n (it_isNull it))
  | None => no_node
  end.

(** The node before [k], or before the end. *)
Fixpoint node_before (k : option edge) (l : list (edge * Value)) : option edge :=
  match l with
  | [] => None
  | (k', _) :: l' =>
      if bool_decide (k = fst <$> head l') then Some k' else node_before k l'
  end.

(** [--it]. *)
Definition decrement (v : Value) (it : ValueIterator) : outcome ValueIterator :=
  match node_before (it_node it) (map_nodes v) with
  | Some k => if it_isNull it then no_node else Ret (mkIterator (Some k) false)
  | None => no_node
  end.

(** [for (it = current_; it != other.current_; ++it) ++myDistance]. *)
Fixpoint distance_loop (fuel : nat) (v : Value) (it other : ValueIterator) (myDistance : Z) : outcome Z :=
  match fuel with
  | O => Fuel
  | S fuel =>
      if bool_decide (it_node it = it_node other) then Ret myDistance
      else if maxInt <=? myDistance then Undef "int overflow"
      else it ← increment v it; distance_loop fuel v it other (myDistance + 1)
  end.

Definition computeDistance (v : Value) (it other : ValueIterator) : outcome Z :=
  if it_isNull it && it_isNull other then Ret 0
  else if it_isNull it || it_isNull other then Undef "comparison with an iterator of no map"
  else distance_loop (S (length (map_nodes v))) v it other 0.

(** [a - b] is [b.computeDistance(a)]. *)
Definition operator_minus (v : Value) (a b : ValueIterator) : outcome Z := computeDistance v b a.

Definition isEqual (it other : ValueIterator) : outcome bool :=
  if it_isNull it then Ret (it_isNull other)
  else if it_isNull other then Undef "comparison with an iterator of no map"
  else Ret (bool_decide (it_node it = it_node other)).

(** [key()]: the index or the name, as a value. *)
Definition it_key (v : Value) (it : ValueIterator) : outcome Value :=
  kw ← it_entry v it;
  match kw.1 with
  | EKey name => Value_string name
  | EIdx index => Ret (Value_UInt index)
  end.

Definition it_index (v : Value) (it : ValueIterator) : outcome Z :=
  kw ← it_entry v it;
  Ret (match kw.1 with EIdx index => index | EKey _ => u32 (-1) end).

(** [memberName(&end)]: the characters, or a null pointer. *)
Definition memberName_end (v : Value) (it : ValueIterator) : outcome (option bytes) :=
  kw ← it_entry v it;
  Ret (match kw.1 with EIdx _ => None | EKey name => Some name end).

Definition it_name (v : Value) (it : ValueIterator) : outcome bytes :=
  o ← memberName_end v it; Ret (default [] o).

(** [memberName()]: a C string. *)
Definition memberName (v : Value) (it : ValueIterator) : outcome bytes :=
  o ← memberName_end v it; Ret (match o with Some name => c_str name | None => [] end).

(** [ValueIterator(const ValueConstIterator&)]. *)
Definition ValueIterator_of_const (it : ValueIterator) : outcome ValueIterator :=
  Abort "ConstIterator to Iterator should never be allowed.".

(** [for (it = v.begin(); it != v.end(); ++it)], collecting the nodes. *)
Fixpoint for_each (fuel : nat) (v : Value) (it : ValueIterator) : outcome (list (edge * Value)) :=
  match fuel with
  | O => Fuel
  | S fuel =>
      stop ← isEqual it (end_ v);
      if stop : bool then Ret []
      else
        kw ← it_entry v it;
        it ← increment v it;
        l ← for_each fuel v it;
        Ret (kw :: l)
  end.

Definition iterate (v : Value) : outcome (list (edge * Value)) :=
  for_each (S (length (map_nodes v))) v (begin_ v).
