(* ===== verification/JsonMembersFacts.v ===== *)
(** * Iterating over a value, and what the remaining members do

    A loop from [begin()] to [end()] meets the nodes of the map in order, each
    once; distances count them; [--] undoes [++]. *)
From S2P Require Export JsonMembers JsonValueFacts.
Open Scope Z_scope.

(** ** Definitions *)

(** The iterator at the start of the part [l] of the nodes. *)
Definition at_part (l : list (edge * Value)) : ValueIterator := mkIterator (fst <$> head l) false.

(** The map behind [v], if there is one, has keys that differ. *)
Definition distinct_nodes (v : Value) : Prop := NoDup (map_nodes v).*1.

Definition is_container (v : Value) : bool := isArray v || isObject v.

(** ** Positions *)

Lemma wf_distinct v : wf v -> distinct_nodes v.
Proof.
  intros Hw. unfold distinct_nodes, map_nodes. destruct (value_ v) as [| | | | | |m|m] eqn:E; try constructor.
  - apply wf_array_map in Hw as (Hs & _ & _). unfold array_map in Hs. rewrite E in Hs.
    apply om_sorted_NoDup in Hs. rewrite <- list_fmap_compose.
    change (NoDup (((EIdx ∘ fst) : (Z * Value)%type -> edge) <$> m)). rewrite list_fmap_compose. by apply NoDup_fmap_2; [intros ?? [=]|].
  - apply wf_object_map in Hw as (Hs & _ & _). unfold object_map in Hs. rewrite E in Hs.
    apply om_sorted_NoDup in Hs. rewrite <- list_fmap_compose.
    change (NoDup (((EKey ∘ fst) : (bytes * Value)%type -> edge) <$> m)). rewrite list_fmap_compose. by apply NoDup_fmap_2; [intros ?? [=]|].
Qed.

Section parts.
Context (v : Value) (Hd : distinct_nodes v).

Lemma part_keys l1 k w l2 : map_nodes v = l1 ++ (k, w) :: l2 -> (k ∉ l1.*1) /\ (k ∉ l2.*1).
Proof.
  intros Hl. unfold distinct_nodes in Hd. rewrite Hl, fmap_app in Hd.
  apply NoDup_app in Hd as (_ & H1 & H2). apply NoDup_cons in H2 as [H2 _]. split; [|done].
  intros Hin. by destruct (H1 k Hin); left.
Qed.

Lemma node_at_part l1 k w l2 : k ∉ l1.*1 -> node_at k (l1 ++ (k, w) :: l2) = Some (k, w).
Proof.
  induction l1 as [|[k' w'] l1 IH]; intros Hk; cbn [node_at app].
  - by rewrite bool_decide_eq_true_2.
  - apply not_elem_of_cons in Hk as [Hne Hk]. by rewrite bool_decide_eq_false_2, IH.
Qed.

Lemma node_after_part l1 k w l2 : k ∉ l1.*1 -> node_after k (l1 ++ (k, w) :: l2) = Some (fst <$> head l2).
Proof.
  induction l1 as [|[k' w'] l1 IH]; intros Hk; cbn [node_after app].
  - by rewrite bool_decide_eq_true_2.
  - apply not_elem_of_cons in Hk as [Hne Hk]. by rewrite bool_decide_eq_false_2, IH.
Qed.

Lemma entry_part l1 k w l2 : map_nodes v = l1 ++ (k, w) :: l2 -> it_entry v (at_part ((k, w) :: l2)) = Ret (k, w).
Proof.
  intros Hl. destruct (part_keys _ _ _ _ Hl) as [Hk _]. unfold it_entry. simpl. by rewrite Hl, node_at_part.
Qed.

Lemma increment_part l1 k w l2 :
  map_nodes v = l1 ++ (k, w) :: l2 -> increment v (at_part ((k, w) :: l2)) = Ret (at_part l2).
Proof.
  intros Hl. destruct (part_keys _ _ _ _ Hl) as [Hk _]. unfold increment. simpl. by rewrite Hl, node_after_part.
Qed.

Lemma decrement_part l1 k w l2 :
  map_nodes v = l1 ++ (k, w) :: l2 -> decrement v (at_part l2) = Ret (at_part ((k, w) :: l2)).
Proof.
  intros Hl. unfold decrement. cbn [it_node it_isNull at_part].
  assert (node_before (fst <$> head l2) (map_nodes v) = Some k) as ->; [|done].
  pose proof Hd as Hn. unfold distinct_nodes in Hn. rewrite Hl in Hn |- *. clear Hl.
  induction l1 as [|[k' w'] l1 IH]; cbn [node_before app].
  - by rewrite bool_decide_eq_true_2.
  - cbn in Hn. apply NoDup_cons in Hn as [_ Hn].
    rewrite bool_decide_eq_false_2; [by apply IH|]. intros Heq.
    rewrite fmap_app in Hn. apply NoDup_app in Hn as (_ & H1 & H2).
    destruct l2 as [|[k2 w2] l2]; [by destruct l1|]. cbn in Heq, H2.
    apply NoDup_cons in H2 as [H2 _]. destruct l1 as [|[k1 w1] l1]; cbn in Heq; injection Heq as ->.
    + by destruct H2; left.
    + apply (H1 k1); [by left|]. cbn. by right; left.
Qed.
End parts.

Lemma begin_at_part v : is_container v = true -> begin_ v = at_part (map_nodes v) /\ end_ v = at_part [].
Proof. by destruct v as [[] ? ? ?]. Qed.

Lemma at_part_end v l1 l2 : distinct_nodes v -> map_nodes v = l1 ++ l2 -> at_part l2 = at_part [] -> l2 = [].
Proof. by destruct l2 as [|[]]. Qed.

(** The loops, from any position on. *)
Lemma for_each_part v l1 l2 fuel :
  distinct_nodes v -> is_container v = true -> map_nodes v = l1 ++ l2 -> (length l2 < fuel)%nat ->
  for_each fuel v (at_part l2) = Ret l2.
Proof.
  intros Hd Hc. revert l1 fuel. induction l2 as [|[k w] l2 IH]; intros l1 fuel Hl Hf;
    (destruct fuel as [|fuel]; [simpl in Hf; lia|]); cbn [for_each];
    destruct (begin_at_part v Hc) as [_ ->]; unfold isEqual; cbn [it_isNull at_part it_node head fmap option_fmap option_map].
  - by rewrite bool_decide_eq_true_2.
  - rewrite bool_decide_eq_false_2 by done. rewrite Ret_bind.
    rewrite (entry_part v Hd l1), Ret_bind, (increment_part v Hd l1), Ret_bind by done.
    rewrite (IH (l1 ++ [(k, w)])), Ret_bind; [done|by rewrite <- app_assoc|simpl in Hf; lia].
Qed.

Lemma distance_part v l1 l2 fuel n :
  distinct_nodes v -> map_nodes v = l1 ++ l2 -> (length l2 < fuel)%nat ->
  n + Z.of_nat (length l2) <= maxInt -> distance_loop fuel v (at_part l2) (at_part []) n = Ret (n + Z.of_nat (length l2)).
Proof.
  intros Hd. revert l1 fuel n. induction l2 as [|[k w] l2 IH]; intros l1 fuel n Hl Hf Hn;
    (destruct fuel as [|fuel]; [simpl in Hf; lia|]); cbn [distance_loop].
  - rewrite bool_decide_eq_true_2 by done. by rewrite Z.add_0_r.
  - rewrite bool_decide_eq_false_2 by done. cbn [length] in *.
    rewrite (proj2 (Z.leb_gt _ _)) by lia. rewrite (increment_part v Hd l1), Ret_bind by done.
    rewrite (IH (l1 ++ [(k, w)])); [f_equal; lia|by rewrite <- app_assoc|lia|lia].
Qed.

(** The names and values that [validate] looks at are those of the iterators. *)
Lemma named_nodes_iterated v :
  named_nodes v = (fun kw => (match kw.1 with EKey name => name | EIdx _ => [] end, kw.2)) <$> map_nodes v.
Proof.
  unfold named_nodes, map_nodes. destruct (value_ v) as [| | | | | |m|m]; try done;
    by induction m as [|[k w] m IH]; cbn; f_equal.
Qed.

(** [removeMember(const String&)] without a result goes through [c_str()]: it
    removes the member whose name is the part before a NUL. *)
Lemma removeMember_cut :
  let v := initBasic (PObject [(STR "a", Value_int 1); (STR "a" ++ [0; CH "b"], Value_int 2)]) in
  exists v', removeMember_string (STR "a" ++ [0; CH "b"]) v = Ret v' /\
    getMemberNames v' = Ret [STR "a" ++ [0; CH "b"]].
Proof. eexists. split; vm_compute; reflexivity. Qed.

(** ** Properties *)

(** On an array or object of fewer than 2^31 nodes, a loop from [begin()] to
    [end()] ends and meets every node once, in the order of the map; [end() -
    begin()] is their number; and at each node [++] moves to the rest, [--]
    moves back, and nothing is dereferenced that is not there. *)
Theorem iteration_complete v :
  wf v -> is_container v = true -> Z.of_nat (length (map_nodes v)) <= maxInt ->
  iterate v = Ret (map_nodes v) /\
  operator_minus v (end_ v) (begin_ v) = Ret (Z.of_nat (length (map_nodes v))) /\
  forall l1 k w l2, map_nodes v = l1 ++ (k, w) :: l2 ->
    let it := at_part ((k, w) :: l2) in
    deref v it = Ret w /\ increment v it = Ret (at_part l2) /\ decrement v (at_part l2) = Ret it.
Proof.
  intros Hw%wf_distinct Hc Hn. destruct (begin_at_part v Hc) as [Hb He]. unfold iterate. split; [|split].
  - rewrite Hb. by apply (for_each_part v []); [..|lia].
  - unfold operator_minus, computeDistance. rewrite Hb, He. cbn [it_isNull at_part andb orb].
    by apply (distance_part v []); [..|lia|].
  - intros l1 k w l2 Hl. cbv zeta. unfold deref. rewrite (entry_part v Hw l1) by done.
    split_and!; [done|by eapply increment_part|by eapply decrement_part].
Qed.

Definition demo_nodes : Value :=
  initBasic (PObject [(STR "a", Value_int 1); (STR "b", Value_null); (STR "c", Value_bool true)]).

Lemma iteration_complete_witness :
  iterate demo_nodes = Ret (map_nodes demo_nodes) /\
  operator_minus demo_nodes (end_ demo_nodes) (begin_ demo_nodes) = Ret 3 /\
  forall l1 k w l2, map_nodes demo_nodes = l1 ++ (k, w) :: l2 ->
    let it := at_part ((k, w) :: l2) in
    deref demo_nodes it = Ret w /\ increment demo_nodes it = Ret (at_part l2) /\
    decrement demo_nodes (at_part l2) = Ret it.
Proof.
  apply (iteration_complete demo_nodes); [|reflexivity|by vm_compute].
  split; [|split]; repeat constructor; by vm_compute.
Defined.
