(* ===== verification/JsonPath.v ===== *)
(** * [Json::Path] (json_value.cpp, value.h)

    A path is text: names, indices between brackets, and the placeholders for the
    arguments of the constructor.  [makePath] reads it, [resolve] follows it in a
    tree, [make] creates what is missing on the way. *)
From S2P Require Export JsonReader.
Open Scope Z_scope.

(** ** Data *)

Inductive Kind := kindNone | kindIndex | kindKey.

#[export] Instance Kind_eq_dec : EqDecision Kind.
Proof. solve_decision. Defined.

Record PathArgument := mkPathArgument { key_ : bytes; index_ : Z; kind_ : Kind }.

Definition PathArgument_new : PathArgument := mkPathArgument [] 0 kindNone.
Definition PathArgument_index (index : Z) : PathArgument := mkPathArgument [] index kindIndex.
Definition PathArgument_cstring (key : bytes) : PathArgument := mkPathArgument (c_str key) 0 kindKey.
Definition PathArgument_key (key : bytes) : PathArgument := mkPathArgument key 0 kindKey.

(** [args_]. *)
Record Path := mkPath { args_ : list PathArgument }.

(** ** Reading the text *)

(** [addPathInArg]: the arguments left ([itInArg] to [in.end()]) and [args_]. *)
Definition addPathInArg (kind : Kind) (inArgs args : list PathArgument) : list PathArgument * list PathArgument :=
  match inArgs with
  | [] => (inArgs, args)
  | a :: inArgs' =>
      if bool_decide (kind_ a <> kind) then (inArgs, args) else (inArgs', args ++ [a])
  end.

(** The digits of an index, in 32 bits; the rest of the text. *)
Fixpoint index_digits (s : bytes) (index : Z) : Z * bytes :=
  match s with
  | [] => (index, s)
  | c :: s' => if is_digit c then index_digits s' (u32 (index * 10 + (c - CH "0"))) else (index, s)
  end.

(** The characters of a name: [strchr] finds the dot, the bracket, and the NUL
    that ends its list. *)
Fixpoint name_chars (s : bytes) : bytes * bytes :=
  match s with
  | [] => ([], s)
  | c :: s' =>
      if (c =? CH "[") || (c =? CH ".") || (c =? 0) then ([], s)
      else let '(name, r) := name_chars s' in (c :: name, r)
  end.

(** [if (current == end || *++current != ']') invalidPath(...)]: where [current]
    is left; [invalidPath] does nothing. *)
Definition after_index (s : bytes) : bytes := tail s.

(** The loop of [makePath] on the text from [current]. *)
Fixpoint makePath (fuel : nat) (s : bytes) (inArgs args : list PathArgument) : outcome (list PathArgument) :=
  match fuel with
  | O => Fuel
  | S fuel =>
      match s with
      | [] => Ret args
      | c :: s' =>
          if c =? CH "[" then
            if nth 0 s' 0 =? CH "%" then
              let '(inArgs, args) := addPathInArg kindIndex inArgs args in
              makePath fuel (after_index s') inArgs args
            else
              let '(index, r) := index_digits s' 0 in
              makePath fuel (after_index r) inArgs (args ++ [PathArgument_index index])
          else if c =? CH "%" then
            let '(inArgs, args) := addPathInArg kindKey inArgs args in
            makePath fuel s' inArgs args
          else if (c =? CH ".") || (c =? CH "]") then makePath fuel s' inArgs args
          else
            let '(name, r) := name_chars s in
            makePath fuel r inArgs (args ++ [PathArgument_key name])
      end
  end.

(** [Path(path, a1, ..., a5)]: the arguments not given are [PathArgument()]. *)
Definition Path_new (path : bytes) (a1 a2 a3 a4 a5 : PathArgument) : outcome Path :=
  args ← makePath (S (length path)) path [a1; a2; a3; a4; a5] [];
  Ret (mkPath args).

(** ** Following a path *)

(** One step of [resolve]; [None] is the early return.  A member that is missing
    is [nullSingleton()], which the code compares by address; a hole in an array
    is too, but there the code does not look. *)
Definition resolve_step (arg : PathArgument) (node : Value) : outcome (option Value) :=
  match kind_ arg with
  | kindNone => Ret (Some node)
  | kindIndex =>
      if negb (isArray node) || negb (isValidIndex (index_ arg) node) then Ret None
      else v ← index_const (index_ arg) node; Ret (Some v)
  | kindKey => if negb (isObject node) then Ret None else find (key_ arg) node
  end.

Fixpoint resolve_loop (args : list PathArgument) (node : Value) : outcome (option Value) :=
  match args with
  | [] => Ret (Some node)
  | arg :: args =>
      o ← resolve_step arg node;
      match o with None => Ret None | Some node => resolve_loop args node end
  end.

(** [resolve(root)]. *)
Definition resolve (p : Path) (root : Value) : outcome Value :=
  o ← resolve_loop (args_ p) root; Ret (default Value_null o).

(** [resolve(root, defaultValue)]. *)
Definition resolve_default (p : Path) (root defaultValue : Value) : outcome Value :=
  o ← resolve_loop (args_ p) root; Ret (default defaultValue o).

(** [make(root)]: the tree after the call, and where the reference leads from
    [root]; the type tests of the code have empty branches. *)
Fixpoint make_loop (args : list PathArgument) (node : Value) : outcome (Value * path) :=
  match args with
  | [] => Ret (node, [])
  | arg :: args =>
      match kind_ arg with
      | kindNone => make_loop args node
      | kindIndex =>
          node ← index_ref (index_ arg) node;
          match edge_get (EIdx (index_ arg)) node with
          | None => Undef "reference to no node"
          | Some child =>
              '(child, p) ← make_loop args child;
              Ret (edge_write (EIdx (index_ arg)) (fun _ => child) node, EIdx (index_ arg) :: p)
          end
      | kindKey =>
          node ← resolveReference (key_ arg) node;
          match edge_get (EKey (CZString (key_ arg))) node with
          | None => Undef "reference to no node"
          | Some child =>
              '(child, p) ← make_loop args child;
              Ret (edge_write (EKey (CZString (key_ arg))) (fun _ => child) node,
                   EKey (CZString (key_ arg)) :: p)
          end
      end
  end.

Definition make (p : Path) (root : Value) : outcome (Value * path) := make_loop (args_ p) root.
