(* ===== verification/JsonPathFacts.v ===== *)
(** * Paths are read, printed, followed and made

    The text of a path is read in finitely many steps, unless it holds a NUL; the
    printed form of names and indices is read back; and what [make] returns is
    what [resolve] then finds. *)
From S2P Require Export JsonPath JsonReaderWp JsonGrammar JsonArray.
Open Scope Z_scope.

(** ** Definitions *)

(** A name that [makePath] reads whole. *)
Definition plain_name (name : bytes) : Prop :=
  Forall (fun c => c <> CH "[" /\ c <> CH "." /\ c <> 0) name /\
  exists c r, name = c :: r /\ c <> CH "%" /\ c <> CH "]".

(** An argument that has a printed form. *)
Definition printable (a : PathArgument) : Prop :=
  (exists i, a = PathArgument_index i /\ 0 <= i < 2 ^ 32) \/
  (exists name, a = PathArgument_key name /\ plain_name name).

Definition print_argument (a : PathArgument) : bytes :=
  match kind_ a with
  | kindNone => []
  | kindIndex => CH "[" :: dec_digits (index_ a) ++ [CH "]"]
  | kindKey => CH "." :: key_ a
  end.

Definition print_path (args : list PathArgument) : bytes := concat (map print_argument args).

(** No array holds the last index of all: its size would wrap to zero. *)
Definition sized (v : Value) : Prop := Forall (fun kv => kv.1 < 2 ^ 32 - 1) (array_map v).

(** An argument [make] and [resolve] agree on. *)
Definition usable (a : PathArgument) : Prop :=
  match kind_ a with
  | kindNone => True
  | kindIndex => 0 <= index_ a < 2 ^ 32 - 1
  | kindKey => Forall byte_ok (key_ a)
  end.

(** ** Reading *)

Lemma index_digits_spec s index : exists d, s = d ++ (index_digits s index).2 /\ Forall (fun c => is_digit c = true) d.
Proof.
  revert index. induction s as [|c s IH]; intros index; [by exists []|]. cbn [index_digits].
  destruct (is_digit c) eqn:E; [|by exists []].
  destruct (IH (u32 (index * 10 + (c - CH "0")))) as (d & Hd & Hall). exists (c :: d).
  split; [simpl; by rewrite <- Hd|by constructor].
Qed.

Lemma name_chars_app name r :
  Forall (fun c => c <> CH "[" /\ c <> CH "." /\ c <> 0) name ->
  (r = [] \/ exists c r', r = c :: r' /\ (c = CH "[" \/ c = CH ".")) -> name_chars (name ++ r) = (name, r).
Proof.
  intros Hn Hr. induction Hn as [|c name (H1 & H2 & H3) _ IH].
  - destruct Hr as [->|(c & r' & -> & [->| ->])]; done.
  - cbn [name_chars app]. zbool. cbn [orb]. by rewrite IH.
Qed.

Lemma name_chars_spec s : 0 ∉ s ->
  exists name r, name_chars s = (name, r) /\ s = name ++ r /\
    (r = [] \/ exists c r', r = c :: r' /\ (c = CH "[" \/ c = CH ".")).
Proof.
  induction s as [|c s IH]; intros H0; [exists [], []; auto|]. cbn [name_chars].
  apply not_elem_of_cons in H0 as [Hc H0].
  destruct (_ || _) eqn:E.
  - exists [], (c :: s). split_and!; [done|done|]. right. exists c, s. split; [done|].
    apply orb_true_iff in E as [E|E]; bool_to_prop; [|lia]. destruct E; bool_to_prop; auto.
  - destruct (IH H0) as (name & r & -> & -> & Hr). by exists (c :: name), r.
Qed.

Lemma digits_val_ge ds acc : Forall (fun c => is_digit c = true) ds -> 0 <= acc -> acc <= digits_val acc ds.
Proof.
  intros Hd. revert acc. induction Hd as [|d ds Hd _ IH]; intros acc Ha; [done|]. cbn [digits_val].
  unfold is_digit in Hd. bool_to_prop. etransitivity; [|apply IH]; lia.
Qed.

(** A decimal index that fits is read exactly. *)
Lemma index_digits_app ds r acc :
  Forall (fun c => is_digit c = true) ds -> 0 <= acc -> digits_val acc ds < 2 ^ 32 ->
  (r = [] \/ exists c r', r = c :: r' /\ is_digit c = false) ->
  index_digits (ds ++ r) acc = (digits_val acc ds, r).
Proof.
  intros Hd. revert acc. induction Hd as [|d ds Hd Hds IH]; intros acc Ha Hv Hr.
  - destruct Hr as [->|(c & r' & -> & Hc)]; [done|]. cbn. by rewrite Hc.
  - cbn [index_digits digits_val app] in *. rewrite Hd. unfold is_digit in Hd. bool_to_prop.
    pose proof (digits_val_ge ds (acc * 10 + (d - CH "0")) Hds ltac:(lia)).
    unfold u32. rewrite Z.mod_small by lia. apply IH; [lia|done|done].
Qed.

(** Enough fuel for every text without a NUL. *)
Lemma makePath_ret fuel s inArgs args :
  (length s < fuel)%nat -> 0 ∉ s -> exists r, makePath fuel s inArgs args = Ret r.
Proof.
  revert s inArgs args. induction fuel as [|fuel IH]; intros s inArgs args Hf H0; [lia|].
  cbn [makePath]. destruct s as [|c s']; [by eexists|]. simpl in Hf.
  pose proof H0 as [Hc H0']%not_elem_of_cons.
  assert (Htail : forall t, (length t <= length s')%nat -> 0 ∉ t ->
    (length (tail t) < fuel)%nat /\ 0 ∉ tail t).
  { intros [|x t] Hl Ht; simpl in *; [split; [lia|done]|]. apply not_elem_of_cons in Ht as [_ Ht].
    split; [lia|done]. }
  destruct (c =? CH "[") eqn:E1.
  { destruct (nth 0 s' 0 =? _).
    - destruct (addPathInArg _ _ _) as [i a]. destruct (Htail s') as [Hl Hn]; [lia|done|]. by apply IH.
    - destruct (index_digits_spec s' 0) as (d & Hd & _).
      destruct (index_digits s' 0) as [index r] eqn:E. simpl in Hd.
      destruct (Htail r) as [Hl Hn]; [rewrite Hd, length_app; lia| |by apply IH].
      rewrite Hd in H0'. by apply not_elem_of_app in H0' as [_ ?]. }
  destruct (c =? CH "%").
  { destruct (addPathInArg _ _ _) as [i a]. apply IH; [lia|done]. }
  destruct (_ || _) eqn:E; [apply IH; [lia|done]|].
  destruct (name_chars_spec (c :: s') H0) as (name & r & -> & Hs & Hr).
  destruct name as [|x name].
  { simpl in Hs. subst r. by destruct Hr as [|(c2 & r' & [= <- <-] & [->| ->])]. }
  injection Hs as <- Hs. apply IH; [|].
  - rewrite Hs, length_app in Hf. lia.
  - rewrite Hs in H0'. by apply not_elem_of_app in H0' as [_ ?].
Qed.

(** A NUL in the text: the loop pushes empty names for ever. *)
Lemma makePath_nul_loops fuel s inArgs args : makePath fuel (0 :: s) inArgs args = Fuel.
Proof. revert args. induction fuel as [|fuel IH]; intros args; [done|]. cbn. apply IH. Qed.

(** What the printed arguments begin with. *)
Lemma print_path_head args : Forall printable args ->
  print_path args = [] \/ exists c r, print_path args = c :: r /\ (c = CH "[" \/ c = CH ".").
Proof.
  destruct 1 as [|a args [(i & -> & _)|(name & -> & _)] _]; [by left|right..].
  - eexists _, _. split; [done|by left].
  - eexists _, _. split; [done|by right].
Qed.

Lemma makePath_print fuel args inArgs acc :
  (length (print_path args) < fuel)%nat -> Forall printable args ->
  makePath fuel (print_path args) inArgs acc = Ret (acc ++ args).
Proof.
  revert fuel acc. induction args as [|a args IH]; intros fuel acc Hf Hp.
  { destruct fuel; [lia|]. cbn. by rewrite app_nil_r. }
  apply Forall_cons in Hp as [Ha Hp]. pose proof (print_path_head args Hp) as Hhead.
  unfold print_path in Hf |- *. cbn [map concat] in *. fold (print_path args) in *.
  destruct Ha as [(i & -> & Hi)|(name & -> & Hn & c & r & Hname & Hc1 & Hc2)].
  - unfold print_argument in *. cbn [kind_ index_ PathArgument_index app length] in *.
    destruct (dec_digits_spec i ltac:(lia)) as (Hne & Hd & Hv & _).
    destruct fuel as [|fuel]; [lia|]. cbn [makePath]. rewrite <- app_assoc. cbn [app].
    replace (nth 0 (dec_digits i ++ CH "]" :: print_path args) 0 =? CH "%") with false.
    2: { destruct (dec_digits i) as [|d ds]; [done|]. apply Forall_cons in Hd as [Hd _].
         unfold is_digit in Hd. bool_to_prop. simpl. by zbool. }
    simpl (_ =? _). cbv iota.
    rewrite index_digits_app; [|done|done|lia|right; by eexists _, _]. rewrite Hv. cbn [after_index tail].
    rewrite IH; [by rewrite <- app_assoc| |done].
    rewrite !length_app in Hf. cbn [length] in Hf. lia.
  - unfold print_argument in *. cbn [kind_ key_ PathArgument_key app length] in *.
    destruct fuel as [|fuel]; [lia|]. cbn [makePath]. simpl (_ =? _). cbv iota. cbn [orb].
    destruct fuel as [|fuel]; [rewrite length_app in Hf; subst name; simpl in Hf; lia|].
    subst name. cbn [makePath app]. apply Forall_cons in Hn as Hn'. destruct Hn' as [(Hx & Hy & Hz) _].
    zbool. cbn [orb]. change (c :: r ++ print_path args) with ((c :: r) ++ print_path args).
    rewrite name_chars_app by done. rewrite IH; [by rewrite <- app_assoc| |done].
    rewrite length_app in Hf. cbn [length] in Hf. lia.
Qed.

(** ** Making and following *)

Lemma every_edge P v e w : every P v -> edge_get e v = Some w -> every P w.
Proof.
  intros Hv. destruct v as [[| | | | | |m|m] cm st lm], e; simpl in Hv |- *; try done;
    destruct Hv as [_ Hm]; intros Hf%om_find_elem;
    rewrite om_all_Forall, Forall_forall in Hm; exact (Hm _ Hf).
Qed.

(** What an access with creation leaves: a container that holds the node, which
    is the one that was there or null. *)
Record holds (t : ValueType) (e : edge) (node : Value) (child : Value) : Prop := {
  h_type : type node = t;
  h_wf : wf node;
  h_sized : sized node;
  h_get : edge_get e node = Some child;
  h_child : every sized child;
}.

Lemma index_ref_holds i node node1 :
  index_ref i node = Ret node1 -> 0 <= i < 2 ^ 32 - 1 -> wf node -> every sized node ->
  exists child, holds arrayValue (EIdx i) node1 child.
Proof.
  intros H Hi Hw Hs. pose proof (wf_index_ref i node node1 H ltac:(unfold in_u; lia) Hw) as Hw1.
  unfold index_ref in H. apply json_assert_bind in H as [Ht [= <-]].
  assert (exists m, value_ (as_array node) = PArray m /\ om_sorted m /\
    Forall (fun kv => kv.1 < 2 ^ 32 - 1) m /\ forall c, om_find i m = Some c -> every sized c) as (m & Hm & Hsort & Hsz & Hch).
  { pose proof (every_here _ _ Hs) as Hsz. apply wf_array_map in Hw as (Hsort & _ & _).
    destruct node as [[| | | | | |m|m] cm st lm]; try done;
      [exists []; by split_and!|exists m; split_and!; [done|exact Hsort|exact Hsz|]].
    intros c Hc. by apply (every_edge _ _ (EIdx i) c) in Hs. }
  unfold array_map. rewrite Hm. exists (default Value_null (om_find i m)). split.
  - done.
  - unfold array_map in Hw1. by rewrite Hm in Hw1.
  - unfold sized. apply om_emplace_Forall; [simpl; lia|done].
  - change (om_find i (om_emplace i Value_null m) = Some (default Value_null (om_find i m))).
    by rewrite om_find_emplace_eq.
  - destruct (om_find i m) as [c|] eqn:E; [by apply Hch|]. simpl. repeat split; constructor.
Qed.

Lemma resolveReference_holds k node node1 :
  resolveReference k node = Ret node1 -> Forall byte_ok k -> wf node -> every sized node ->
  exists child, holds objectValue (EKey (CZString k)) node1 child.
Proof.
  intros H Hk Hw Hs. pose proof (wf_resolveReference k node node1 Hk Hw H) as Hw1.
  unfold resolveReference in H. apply json_assert_bind in H as [Ht [= <-]].
  assert (exists m, value_ (as_object node) = PObject m /\ om_sorted m /\
    forall c, om_find (CZString k) m = Some c -> every sized c) as (m & Hm & Hsort & Hch).
  { apply wf_object_map in Hw as (Hsort & _ & _).
    destruct node as [[| | | | | |m|m] cm st lm]; try done;
      [exists []; by split_and!|exists m; split_and!; [done|exact Hsort|]].
    intros c Hc. by apply (every_edge _ _ (EKey (CZString k)) c) in Hs. }
  unfold object_map. rewrite Hm. exists (default Value_null (om_find (CZString k) m)). split.
  - done.
  - unfold object_map in Hw1. by rewrite Hm in Hw1.
  - constructor.
  - change (om_find (CZString k) (om_emplace (CZString k) Value_null m) =
            Some (default Value_null (om_find (CZString k) m))).
    by rewrite om_find_emplace_eq.
  - destruct (om_find _ m) as [c|] eqn:E; [by apply Hch|]. simpl. repeat split; constructor.
Qed.

(** [resolve] finds the node in the container, whatever was written to it. *)
Lemma holds_step_index a t e node child f :
  kind_ a = kindIndex -> e = EIdx (index_ a) -> t = arrayValue -> holds t e node child -> 0 <= index_ a ->
  resolve_step a (edge_write e f node) = Ret (Some (f child)).
Proof.
  intros Hk -> -> [Ht Hw Hsz Hg _] Hi. unfold resolve_step. rewrite Hk.
  destruct node as [[| | | | | |m|m] cm st lm]; try discriminate Ht.
  change (om_find (index_ a) m = Some child) in Hg.
  apply wf_array_map in Hw as (Hsort & _ & _). change (om_sorted m) in Hsort.
  change (Forall (fun kv : Z * Value => kv.1 < 2 ^ 32 - 1) m) in Hsz.
  set (m2 := om_alter (index_ a) f m).
  change (edge_write (EIdx (index_ a)) f (mkValue (PArray m) cm st lm)) with (mkValue (PArray m2) cm st lm).
  assert (om_find (index_ a) m2 = Some (f child)) as Hf by (unfold m2; by rewrite om_find_alter_eq, Hg).
  assert (isValidIndex (index_ a) (mkValue (PArray m2) cm st lm) = true) as ->.
  { unfold isValidIndex, size. simpl value_. cbv iota. unfold om_last.
    pose proof (om_find_elem _ _ _ Hf) as Hin.
    destruct (last m2) as [[k y]|] eqn:El; [|by apply last_None in El; rewrite El in Hin; apply not_elem_of_nil in Hin].
    assert (index_ a <= k) as Hle by (eapply sorted_last_max; [by apply om_alter_sorted|exact El|exact Hin]).
    assert (k < 2 ^ 32 - 1) as Hk2.
    { apply (om_alter_Forall_key (fun k => k < 2 ^ 32 - 1) (index_ a) f) in Hsz.
      rewrite Forall_forall in Hsz. apply (Hsz (k, y)).
      apply last_Some in El as [l' El]. unfold m2 in El. rewrite El. apply elem_of_app. right.
      by apply list_elem_of_here. }
    apply Z.ltb_lt. unfold u32. rewrite Z.mod_small by lia. lia. }
  cbn [isArray value_ negb orb]. unfold index_const, index_const_opt. cbn. by rewrite Hf.
Qed.

Lemma holds_step_key a t e node child f :
  kind_ a = kindKey -> e = EKey (CZString (key_ a)) -> t = objectValue -> holds t e node child ->
  resolve_step a (edge_write e f node) = Ret (Some (f child)).
Proof.
  intros Hk -> -> [Ht Hw Hsz Hg _]. unfold resolve_step. rewrite Hk.
  destruct node as [[| | | | | |m|m] cm st lm]; try discriminate Ht.
  change (om_find (CZString (key_ a)) m = Some child) in Hg.
  change (Ret (om_find (CZString (key_ a)) (om_alter (CZString (key_ a)) f m)) = Ret (Some (f child))).
  by rewrite om_find_alter_eq, Hg.
Qed.

Lemma edge_write_write e f g v : edge_write e f (edge_write e g v) = edge_write e (fun w => f (g w)) v.
Proof.
  destruct v as [[| | | | | |m|m] cm st lm], e; try done;
    unfold edge_write, write_index, write_key, set_payload; cbn [value_ comments_ start_ limit_];
    by rewrite om_alter_compose.
Qed.

(** Reading the node that a step made, through the rest of the path. *)
Lemma make_step a args e node child child' p w :
  edge_get e node = Some child ->
  (forall f, resolve_step a (edge_write e f node) = Ret (Some (f child))) ->
  at_path p child' = Some w -> resolve_loop args child' = Ret (Some w) ->
  (forall f, resolve_loop args (alter_path p f child') = Ret (Some (f w))) ->
  let root' := edge_write e (fun _ => child') node in
  at_path (e :: p) root' = Some w /\ resolve_loop (a :: args) root' = Ret (Some w) /\
  forall f, resolve_loop (a :: args) (alter_path (e :: p) f root') = Ret (Some (f w)).
Proof.
  intros Hg Hstep Hw Hr Hrf root'. split_and!.
  - unfold root'. simpl. by rewrite edge_get_write_eq, Hg.
  - unfold root'. cbn [resolve_loop]. by rewrite Hstep, Ret_bind.
  - intros f. assert (alter_path (e :: p) f root' = edge_write e (fun _ => alter_path p f child') node) as ->.
    { apply edge_write_write. }
    cbn [resolve_loop]. rewrite Hstep, Ret_bind. apply Hrf.
Qed.

Lemma make_loop_resolves args root root' ref :
  Forall usable args -> wf root -> every sized root -> make_loop args root = Ret (root', ref) ->
  exists w, at_path ref root' = Some w /\ resolve_loop args root' = Ret (Some w) /\
    forall f, resolve_loop args (alter_path ref f root') = Ret (Some (f w)).
Proof.
  revert root root' ref. induction args as [|a args IH]; intros root root' ref Hu Hw Hs H.
  { injection H as <- <-. by exists root. }
  apply Forall_cons in Hu as [Ha Hu]. cbn [make_loop] in H. unfold usable in Ha.
  destruct (kind_ a) eqn:Ek.
  - destruct (IH _ _ _ Hu Hw Hs H) as (w & H1 & H2 & H3). exists w. cbn [resolve_loop].
    unfold resolve_step. rewrite Ek, Ret_bind. split_and!; [done|done|]. intros f. by rewrite Ret_bind.
  - apply bind_Ret_inv in H as (node & Hn & H).
    destruct (index_ref_holds _ _ _ Hn Ha Hw Hs) as (child & Hh). rewrite (h_get _ _ _ _ Hh) in H.
    apply bind_Ret_inv in H as ([child' p] & Hm & [= <- <-]).
    destruct (IH child child' p Hu) as (w & H1 & H2 & H3); [| |done|].
    { eapply wf_edge_get; [apply Hh|apply Hh]. } { apply Hh. }
    exists w. apply (make_step a args (EIdx (index_ a)) node child); [apply Hh| |done..].
    intros f. eapply holds_step_index; [done..|lia].
  - apply bind_Ret_inv in H as (node & Hn & H).
    destruct (resolveReference_holds _ _ _ Hn Ha Hw Hs) as (child & Hh). rewrite (h_get _ _ _ _ Hh) in H.
    apply bind_Ret_inv in H as ([child' p] & Hm & [= <- <-]).
    destruct (IH child child' p Hu) as (w & H1 & H2 & H3); [| |done|].
    { eapply wf_edge_get; [apply Hh|apply Hh]. } { apply Hh. }
    exists w. apply (make_step a args (EKey (CZString (key_ a))) node child); [apply Hh| |done..].
    intros f. by eapply holds_step_key.
Qed.

(** ** Properties *)

(** C26: the constructor of [Path] ends for every text without a NUL and all
    arguments, within one step for each character; and it reads the printed form
    of any list of 32-bit indices and names that can be printed (not empty,
    without a bracket that opens, a point or a NUL in them, nor a percent sign or a
    closing bracket at their start) back as that list, whatever the arguments
    are. *)
Theorem path_text_read path a1 a2 a3 a4 a5 args :
  0 ∉ path -> Forall printable args ->
  (exists p, Path_new path a1 a2 a3 a4 a5 = Ret p) /\
  Path_new (print_path args) a1 a2 a3 a4 a5 = Ret (mkPath args).
Proof.
  intros H0 Hp. unfold Path_new. split.
  - destruct (makePath_ret (S (length path)) path [a1; a2; a3; a4; a5] []) as [r Hr]; [lia|done|].
    rewrite Hr. by eexists.
  - by rewrite makePath_print by (done || lia).
Qed.

Definition demo_args : list PathArgument :=
  [PathArgument_key (STR "name1"); PathArgument_index 0; PathArgument_index 4294967295; PathArgument_key (STR "b]%")].

Lemma path_text_read_witness :
  (exists p, Path_new (STR "[%.]x[9x%") PathArgument_new PathArgument_new PathArgument_new PathArgument_new
               PathArgument_new = Ret p) /\
  Path_new (print_path demo_args) PathArgument_new PathArgument_new PathArgument_new PathArgument_new
    PathArgument_new = Ret (mkPath demo_args).
Proof.
  apply path_text_read.
  - intros H. repeat (apply elem_of_cons in H as [H|H]; [discriminate H|]). by apply not_elem_of_nil in H.
  - repeat apply Forall_cons_2; [right|left|left|right|apply Forall_nil_2]; eexists; (split; [reflexivity|]);
      try lia; (split; [repeat apply Forall_cons_2; [lia..|apply Forall_nil_2]|]);
      eexists _, _; (split; [reflexivity|lia]).
Defined.

(** C25: when [make] returns, the reference it returns leads to a node of the
    tree, [resolve] of the same path in that tree, with or without a default,
    finds exactly this node, and it still finds it after anything was written
    through the reference; for indices and arrays below the largest 32-bit
    number. *)
Theorem make_then_resolve p root root' ref d :
  Forall usable (args_ p) -> wf root -> every sized root -> make p root = Ret (root', ref) ->
  exists w, at_path ref root' = Some w /\ resolve p root' = Ret w /\ resolve_default p root' d = Ret w /\
    forall f, resolve p (alter_path ref f root') = Ret (f w).
Proof.
  intros Hu Hw Hs Hm. destruct (make_loop_resolves _ _ _ _ Hu Hw Hs Hm) as (w & H1 & H2 & H3).
  exists w. unfold resolve, resolve_default. rewrite H2. split_and!; [done..|]. intros f. by rewrite H3.
Qed.

Definition made_args : list PathArgument :=
  [PathArgument_key (STR "dir"); PathArgument_index 2; PathArgument_key []].

Lemma make_then_resolve_witness :
  exists root' ref, make (mkPath made_args) Value_null = Ret (root', ref) /\
    exists w, at_path ref root' = Some w /\ resolve (mkPath made_args) root' = Ret w /\
      resolve_default (mkPath made_args) root' (Value_int 1) = Ret w /\
      forall f, resolve (mkPath made_args) (alter_path ref f root') = Ret (f w).
Proof.
  eexists _, _. split; [vm_compute; reflexivity|].
  eapply (make_then_resolve (mkPath made_args) Value_null); [| | |vm_compute; reflexivity].
  - apply Forall_cons_2; [|apply Forall_cons_2; [cbn; lia|apply Forall_cons_2; [|apply Forall_nil_2]]];
      [repeat apply Forall_cons_2; [unfold byte_ok; lia..|]|]; apply Forall_nil_2.
  - exact I.
  - repeat split. constructor.
Defined.
