(* ===== verification/JsonConvertFacts.v ===== *)
(** * Conversions of a [Json::Value]

    [isConvertibleTo] is the type test of the library; the [as...] methods stop
    the process on a value they cannot convert.  The test decides exactly which
    of them return, and integers come back within the range of their type. *)
From S2P Require Export FloatBounds JsonReaderWp.
From Stdlib Require Import SpecFloat.
Open Scope Z_scope.

(** ** Definitions *)

(** A [double] as the machine has it. *)
Definition double_ok (v : Value) : Prop :=
  match value_ v with PReal d => valid_binary 53 1024 d = true | _ => True end.

(** The conversion or access that needs the type [t] returns. *)
Definition converts (v : Value) (t : ValueType) : Prop :=
  match t with
  | nullValue => True
  | intValue => exists z, asInt v = Ret z /\ in_s 32 z
  | uintValue => exists z, asUInt v = Ret z /\ in_u 32 z
  | realValue => exists d, asDouble v = Ret d
  | stringValue => exists s, asString v = Ret s
  | booleanValue => exists b, asBool v = Ret b
  | arrayValue => exists v', index_ref 0 v = Ret v'
  | objectValue => exists v', resolveReference [] v = Ret v'
  end.

(** ** Doubles in a range *)

Lemma valid_mantissa s m e : valid_binary 53 1024 (S754_finite s m e) = true -> Zpos m < 2 ^ 53.
Proof.
  unfold valid_binary, bounded, canonical_mantissa, fexp, emin. intros H.
  apply andb_true_iff in H as [H _]. apply Z.eqb_eq in H.
  pose proof (digits2_bounds m) as [_ Hd]. eapply Z.lt_le_trans; [exact Hd|].
  apply Z.pow_le_mono_r; lia.
Qed.

(** The truncation of a finite double below a bound [mh * 2^eh] that has its
    point inside the mantissa. *)
Lemma shiftl_below m e mh eh h :
  Zpos m < 2 ^ 53 -> -53 <= eh < 0 -> mh = h * 2 ^ (- eh) -> 2 ^ 53 <= 2 * mh ->
  e < eh \/ (e = eh /\ Zpos m <= mh) -> 0 <= Z.shiftl (Zpos m) e <= h.
Proof.
  intros Hm He Hmh Hh Hc. rewrite <- (Z.opp_involutive e), Z.shiftl_opp_r, Z.shiftr_div_pow2 by lia.
  split; [apply Z.div_pos; [lia|apply Z.pow_pos_nonneg; lia]|].
  destruct Hc as [Hlt|[-> Hle]].
  - assert (2 ^ 1 * 2 ^ (- eh) <= 2 ^ (- e)) as Hp.
    { rewrite <- Z.pow_add_r by lia. apply Z.pow_le_mono_r; lia. }
    apply Z.div_le_upper_bound; [apply Z.pow_pos_nonneg; lia|].
    assert (0 < h) by (assert (0 < 2 ^ (- eh)) by (apply Z.pow_pos_nonneg; lia); nia). nia.
  - apply Z.div_le_upper_bound; [apply Z.pow_pos_nonneg; lia|]. lia.
Qed.

Lemma SFleb_pos m e mh eh :
  SFleb (S754_finite false m e) (S754_finite false mh eh) = true -> e < eh \/ (e = eh /\ Zpos m <= Zpos mh).
Proof.
  unfold SFleb, SFcompare. destruct (Z.compare_spec e eh) as [->|Hlt|Hgt]; [|by left|done].
  intros H. right. split; [done|]. rewrite Pos.compare_cont_spec in H.
  destruct (Pos.compare_spec m mh); simpl in H; lia || done.
Qed.

Lemma SFleb_neg m e mh eh :
  SFleb (S754_finite true mh eh) (S754_finite true m e) = true -> e < eh \/ (e = eh /\ Zpos m <= Zpos mh).
Proof.
  unfold SFleb, SFcompare. destruct (Z.compare_spec eh e) as [->|Hlt|Hgt]; [|done|left; lia].
  intros H. right. split; [done|]. rewrite Pos.compare_cont_spec in H.
  destruct (Pos.compare_spec mh m); simpl in H; lia || done.
Qed.

Lemma trunc_int d :
  valid_binary 53 1024 d = true -> InRange d (b64_of_Z minInt) (b64_of_Z maxInt) = true ->
  double_to_int minInt maxInt d = Ret (sf_trunc d) /\ in_s 32 (sf_trunc d).
Proof.
  intros Hv [Hlo Hhi]%andb_true_iff.
  assert (sf_isfinite d = true /\ minInt <= sf_trunc d <= maxInt) as [Hf Hr].
  { change (b64_of_Z maxInt) with (S754_finite false 9007199250546688 (-22)) in Hhi.
    change (b64_of_Z minInt) with (S754_finite true 4503599627370496 (-21)) in Hlo.
    unfold minInt, maxInt. destruct d as [s|[]| |[] m e]; try done; (split; [done|]); cbn [sf_trunc].
    - apply SFleb_neg in Hlo. apply valid_mantissa in Hv.
      pose proof (shiftl_below m e _ (-21) 2147483648 Hv ltac:(lia) eq_refl ltac:(lia) Hlo).
      unfold cond_Zopp. lia.
    - apply SFleb_pos in Hhi. apply valid_mantissa in Hv.
      pose proof (shiftl_below m e _ (-22) 2147483647 Hv ltac:(lia) eq_refl ltac:(lia) Hhi).
      unfold cond_Zopp. lia. }
  unfold double_to_int. rewrite Hf. destruct Hr as [H1 H2].
  rewrite (proj2 (Z.leb_le _ _) H1), (proj2 (Z.leb_le _ _) H2). split; [done|].
  unfold in_s, minInt, maxInt in *. lia.
Qed.

Lemma trunc_uint d :
  valid_binary 53 1024 d = true -> InRange d (b64_of_Z 0) (b64_of_Z maxUInt) = true ->
  double_to_int 0 maxUInt d = Ret (sf_trunc d) /\ in_u 32 (sf_trunc d).
Proof.
  intros Hv [Hlo Hhi]%andb_true_iff.
  assert (sf_isfinite d = true /\ 0 <= sf_trunc d <= maxUInt) as [Hf Hr].
  { change (b64_of_Z maxUInt) with (S754_finite false 9007199252643840 (-21)) in Hhi.
    change (b64_of_Z 0) with (S754_zero false) in Hlo.
    unfold maxUInt. destruct d as [s|[]| |[] m e]; try done; (split; [done|]); cbn [sf_trunc].
    apply SFleb_pos in Hhi. apply valid_mantissa in Hv.
    pose proof (shiftl_below m e _ (-21) 4294967295 Hv ltac:(lia) eq_refl ltac:(lia) Hhi).
    unfold cond_Zopp. lia. }
  unfold double_to_int. rewrite Hf. destruct Hr as [H1 H2].
  rewrite (proj2 (Z.leb_le _ _) H1), (proj2 (Z.leb_le _ _) H2). split; [done|].
  unfold in_u, maxUInt in *. lia.
Qed.

(** ** Each conversion *)

Lemma i32_id z : (minInt <=? z) && (z <=? maxInt) = true -> i32 z = z /\ in_s 32 z.
Proof.
  intros [H1 H2]%andb_true_iff. bool_to_prop. unfold minInt, maxInt in *. split; [|unfold in_s; lia].
  unfold i32, signed. cbv zeta. destruct (Z.lt_ge_cases z 0).
  - assert (z mod 2 ^ 32 = z + 2 ^ 32) as ->.
    { rewrite <- (Z.mod_small (z + 2 ^ 32) (2 ^ 32)) by lia. by rewrite <- Z.add_mod_idemp_r, Z.add_0_r by lia. }
    rewrite (proj2 (Z.ltb_ge _ _)) by lia. lia.
  - rewrite Z.mod_small by lia. by rewrite (proj2 (Z.ltb_lt _ _)) by lia.
Qed.

Lemma asInt_returns v : wf v -> double_ok v ->
  isConvertibleTo v intValue = Ret true <-> exists z, asInt v = Ret z /\ in_s 32 z.
Proof.
  intros Hw Hd. rewrite wf_unfold in Hw. unfold isConvertibleTo, asInt, double_ok, is_type, type in *. unfold isInt.
  destruct (value_ v) as [|i|u|d|s|b|m|m]; try (split; [discriminate|by intros (? & ? & ?)]);
    try (split; [intros _|done]).
  - by exists 0.
  - split.
    + intros [= H]. rewrite !orb_false_r in H. rewrite H. simpl. destruct (i32_id i H) as [-> Hi]. by exists i.
    + intros (z & [H _]%json_assert_bind & _). by rewrite H.
  - split.
    + intros [= H]. rewrite !orb_false_r in H. rewrite H. simpl.
      assert ((minInt <=? u) && (u <=? maxInt) = true) as Hu.
      { rewrite H, andb_true_r. apply Z.leb_le. unfold in_u, minInt in *. lia. }
      destruct (i32_id u Hu) as [-> Hi]. by exists u.
    + intros (z & [H _]%json_assert_bind & _). by rewrite H.
  - unfold integerToDouble. split.
    + intros [= H]. rewrite !orb_false_r in H.
      assert (InRange d (b64_of_Z minInt) (b64_of_Z maxInt) = true) as Hr.
      { apply orb_true_iff in H as [H|H]; [|done]. by apply andb_true_iff in H as [H _]. }
      rewrite Hr. exists (sf_trunc d). by apply trunc_int.
    + intros (z & [H _]%json_assert_bind & _). by rewrite H, orb_true_r.
  - exists (if b then 1 else 0). by destruct b.
Qed.

Lemma asUInt_returns v : wf v -> double_ok v ->
  isConvertibleTo v uintValue = Ret true <-> exists z, asUInt v = Ret z /\ in_u 32 z.
Proof.
  intros Hw Hd. rewrite wf_unfold in Hw. unfold isConvertibleTo, asUInt, double_ok, is_type, type in *. unfold isUInt.
  assert (forall z, in_u 32 (u32 z)) as Hu32 by (intros z; apply Z.mod_pos_bound; lia).
  destruct (value_ v) as [|i|u|d|s|b|m|m]; try (split; [discriminate|by intros (? & ? & ?)]);
    try (split; [intros _|done]).
  - by exists 0.
  - split.
    + intros [= H]. rewrite !orb_false_r in H. rewrite H. simpl. by eexists.
    + intros (z & [H _]%json_assert_bind & _). by rewrite H.
  - split.
    + intros [= H]. rewrite !orb_false_r in H. rewrite H. simpl. by eexists.
    + intros (z & [H _]%json_assert_bind & _). by rewrite H.
  - unfold integerToDouble. split.
    + intros [= H]. rewrite !orb_false_r in H.
      assert (InRange d (b64_of_Z 0) (b64_of_Z maxUInt) = true) as Hr.
      { apply orb_true_iff in H as [H|H]; [|done]. by apply andb_true_iff in H as [H _]. }
      rewrite Hr. exists (sf_trunc d). by apply trunc_uint.
    + intros (z & [H _]%json_assert_bind & _). by rewrite H, orb_true_r.
  - exists (if b then 1 else 0). by destruct b.
Qed.

(** The other types: a test of the tag. *)
Lemma plain_returns v t : wf v -> t <> nullValue -> t <> intValue -> t <> uintValue ->
  isConvertibleTo v t = Ret true <-> converts v t.
Proof.
  intros Hw H0 H1 H2. rewrite wf_unfold in Hw.
  destruct v as [[|i|u|d|s|b|m|m] cm st lm], t; try done; simpl in Hw |- *; unfold converts;
    try (split; [discriminate|by intros [? ?]]); try (split; [intros _|done]);
    try (by eexists).
  - destruct (asString_numeric (mkValue (PInt i) cm st lm)) as (s & Hs & _); [by rewrite wf_unfold|done|by exists s].
  - destruct (asString_numeric (mkValue (PUInt u) cm st lm)) as (s & Hs & _); [by rewrite wf_unfold|done|by exists s].
Qed.

(** The test itself always returns. *)
Lemma isConvertibleTo_returns v t : wf v -> exists b, isConvertibleTo v t = Ret b.
Proof.
  intros Hw. destruct t; try (by eexists). unfold isConvertibleTo.
  destruct v as [[|i|u|d|s|b|m|m] cm st lm]; by eexists.
Qed.

(** ** Properties *)

(** C24: for a well-formed value with a machine double, [isConvertibleTo(t)]
    always returns, and for every type but null it says true exactly when the
    method that needs that type - [asInt], [asUInt], [asDouble], [asString],
    [asBool], [operator[]] with an index or with a name - does not stop the
    process; an integer that comes back is in the range of [int] or of
    [unsigned]. *)
Theorem conversions_decided v t :
  wf v -> double_ok v ->
  (exists b, isConvertibleTo v t = Ret b) /\
  (t <> nullValue -> isConvertibleTo v t = Ret true <-> converts v t).
Proof.
  intros Hw Hd. split; [by apply isConvertibleTo_returns|]. intros Ht.
  destruct (decide (t = intValue)) as [->|H1]; [by apply asInt_returns|].
  destruct (decide (t = uintValue)) as [->|H2]; [by apply asUInt_returns|].
  by apply plain_returns.
Qed.

Definition almost_max : Value := Value_double (b64_of_Z 2147483648).

Lemma conversions_decided_witness :
  wf almost_max /\ double_ok almost_max /\
  (exists b, isConvertibleTo almost_max uintValue = Ret b) /\
  (uintValue <> nullValue -> isConvertibleTo almost_max uintValue = Ret true <-> converts almost_max uintValue).
Proof.
  split; [exact I|]. split; [vm_compute; reflexivity|].
  apply conversions_decided; [exact I|vm_compute; reflexivity].
Defined.
