(* ===== verification/Memory.v ===== *)
(** * The heap of the C library

    [malloc], [free] and the functions that read and write characters.  The heap
    is the map of the live blocks; using a block that is not live, leaving a block,
    or freeing one twice is undefined. *)
From stdpp Require Export gmap.
From S2P Require Export StateMonad CLib.
Open Scope Z_scope.

Definition heap : Type := gmap positive bytes.

(** [malloc]: an address that is not in use, or a null pointer; which one, is not
    known. *)
Class Allocator := {
  malloc_at : heap -> Z -> option positive;
  malloc_fresh h n l : malloc_at h n = Some l -> h !! l = None;
}.

(** What a [char*] points to: nothing; characters with a NUL behind them that
    live for ever; characters of the caller, for the time of a call; a place in
    a block. *)
Inductive ptr :=
  | nullptr
  | static_ptr (s : bytes)
  | caller_ptr (s : bytes)
  | heap_ptr (l : positive) (offset : Z).

Definition is_nullptr (p : ptr) : bool := match p with nullptr => true | _ => false end.

(** [p + n]. *)
Definition ptr_add (p : ptr) (n : Z) : ptr :=
  match p with
  | nullptr => nullptr
  | static_ptr s => static_ptr (drop (Z.to_nat n) s)
  | caller_ptr s => caller_ptr (drop (Z.to_nat n) s)
  | heap_ptr l offset => heap_ptr l (offset + n)
  end.

Section memory.
Context `{Allocator}.

Definition malloc (n : Z) : ST heap ptr := fun h =>
  match malloc_at h n with
  | Some l => Ret (heap_ptr l 0, <[l := replicate (Z.to_nat n) 0]> h)
  | None => Ret (nullptr, h)
  end.

Definition live_block (l : positive) : ST heap bytes := fun h =>
  match h !! l with
  | Some b => Ret (b, h)
  | None => Undef "use of a block that is not live"
  end.

(** [free(p)]. *)
Definition free (p : ptr) : ST heap unit :=
  match p with
  | nullptr => mret tt
  | heap_ptr l 0 => _ ← live_block l; put (delete l)
  | _ => run (Undef "free of a pointer not from malloc")
  end.

(** The [n] characters at [p]. *)
Definition read_bytes (p : ptr) (n : Z) : ST heap bytes :=
  let part s :=
    if (0 <=? n) && (n <=? Z.of_nat (length s)) then Ret (take (Z.to_nat n) s)
    else Undef "read outside of a block" in
  match p with
  | nullptr => run (Undef "read through a null pointer")
  | static_ptr s => run (part (s ++ [0]))
  | caller_ptr s => run (part s)
  | heap_ptr l offset =>
      b ← live_block l;
      if 0 <=? offset then run (part (drop (Z.to_nat offset) b))
      else run (Undef "read outside of a block")
  end.

(** [memcpy(p, s, length(s))]. *)
Definition write_bytes (p : ptr) (s : bytes) : ST heap unit :=
  match p with
  | heap_ptr l offset =>
      b ← live_block l;
      if (0 <=? offset) && (offset + Z.of_nat (length s) <=? Z.of_nat (length b)) then
        let o := Z.to_nat offset in
        put <[l := take o b ++ s ++ drop (o + length s) b]>
      else run (Undef "write outside of a block")
  | _ => run (Undef "write to memory that is not the program's")
  end.

(** [strlen(p)]. *)
Definition strlen (p : ptr) : ST heap Z :=
  match p with
  | static_ptr s => mret (Z.of_nat (length (c_str s)))
  | heap_ptr l offset =>
      b ← live_block l;
      match cstr (drop (Z.to_nat offset) b) with
      | Some s => mret (Z.of_nat (length s))
      | None => run (Undef "string without an end")
      end
  | _ => run (Undef "strlen of no string")
  end.
End memory.

(** An [unsigned] in memory: four bytes, the lowest first. *)
Definition unsigned_bytes (n : Z) : bytes :=
  [n mod 256; n / 256 mod 256; n / 256 / 256 mod 256; n / 256 / 256 / 256 mod 256].

Definition unsigned_of (b : bytes) : Z :=
  nth 0 b 0 + 256 * (nth 1 b 0 + 256 * (nth 2 b 0 + 256 * nth 3 b 0)).
