(* ===== verification/JsonMemory.v ===== *)
(** * The memory of [Json::Value] (json_value.cpp, value.h)

    JsonValue.v takes strings and maps for values.  Here they are what they are in
    the code: a string is a pointer, to a block with its length in front or to
    static text; a name is a [CZString], with a pointer, a duplication policy and
    30 bits of length in one word; a map is an object on the heap whose nodes own
    their names and values.  The nodes themselves belong to [std::map]. *)
From S2P Require Export Memory JsonValue.
Open Scope Z_scope.

(** ** Strings on the heap *)

Section strings.
Context `{Allocator}.

Definition duplicateStringValue (value : ptr) (length : Z) : ST heap ptr :=
  let length := if maxInt <=? length then maxInt - 1 else length in
  newString ← malloc (length + 1);
  if is_nullptr newString then
    run (Abort "in Json::Value::duplicateStringValue(): Failed to allocate string value buffer")
  else
    s ← read_bytes value length;
    _ ← write_bytes newString s;
    _ ← write_bytes (ptr_add newString length) [0];
    mret newString.

Definition duplicateAndPrefix (value : ptr) (length : Z) : ST heap ptr :=
  _ ← run (json_assert (length <=? maxInt - 4 - 1)
    "in Json::Value::duplicateAndPrefixStringValue(): length too big for prefixing");
  let actualLength := 4 + length + 1 in
  newString ← malloc actualLength;
  if is_nullptr newString then
    run (Abort "in Json::Value::duplicateAndPrefixStringValue(): Failed to allocate string value buffer")
  else
    _ ← write_bytes newString (unsigned_bytes length);
    s ← read_bytes value length;
    _ ← write_bytes (ptr_add newString 4) s;
    _ ← write_bytes (ptr_add newString (actualLength - 1)) [0];
    mret newString.

(** The length and the characters. *)
Definition decodePrefixedString (isPrefixed : bool) (prefixed : ptr) : ST heap (Z * ptr) :=
  if negb isPrefixed then
    length ← strlen prefixed; mret (u32 length, prefixed)
  else
    b ← read_bytes prefixed 4; mret (unsigned_of b, ptr_add prefixed 4).

Definition releasePrefixedStringValue (value : ptr) : ST heap unit := free value.
Definition releaseStringValue (value : ptr) (length : Z) : ST heap unit := free value.
End strings.

(** ** [CZString] *)

Inductive DuplicationPolicy := noDuplication | duplicate | duplicateOnCopy.

Definition policy_num (p : DuplicationPolicy) : Z :=
  match p with noDuplication => 0 | duplicate => 1 | duplicateOnCopy => 2 end.

(** [cstr_], and the word of the union: [index_], or [policy_] in its two low bits
    and [length_] in the others. *)
Record MCZString := mkCZString { cstr_ : ptr; word_ : Z }.

Definition cz_index (c : MCZString) : Z := word_ c.
Definition policy_ (c : MCZString) : Z := Z.land (word_ c) 3.
Definition length_ (c : MCZString) : Z := Z.shiftr (word_ c) 2.
Definition storage (policy length : Z) : Z :=
  Z.lor (Z.land policy 3) (Z.shiftl (Z.land length 0x3FFFFFFF) 2).

(** [CZString(ArrayIndex)], [CZString(str, length, allocate)]. *)
Definition CZString_ofIndex (index : Z) : MCZString := mkCZString nullptr index.
Definition CZString_new (str : ptr) (length : Z) (allocate : DuplicationPolicy) : MCZString :=
  mkCZString str (storage (policy_num allocate) length).

Definition CZString_move (other : MCZString) : MCZString * MCZString :=
  (mkCZString (cstr_ other) (word_ other), mkCZString nullptr (word_ other)).

Definition CZString_swap (a b : MCZString) : MCZString * MCZString := (b, a).

(** [operator=]: only the members are copied. *)
Definition CZString_assign (this other : MCZString) : MCZString :=
  mkCZString (cstr_ other) (cz_index other).
Definition CZString_assign_move (this other : MCZString) : MCZString * MCZString :=
  (mkCZString (cstr_ other) (cz_index other), mkCZString nullptr (word_ other)).

Definition isStaticString (c : MCZString) : bool := policy_ c =? 0.

Section czstrings.
Context `{Allocator}.

Definition CZString_copy (other : MCZString) : ST heap MCZString :=
  cstr ← (if negb (policy_ other =? policy_num noDuplication) && negb (is_nullptr (cstr_ other))
          then duplicateStringValue (cstr_ other) (length_ other)
          else mret (cstr_ other));
  let policy :=
    if negb (is_nullptr (cstr_ other)) then
      if policy_ other =? policy_num noDuplication then policy_num noDuplication
      else policy_num duplicate
    else policy_ other in
  mret (mkCZString cstr (storage policy (length_ other))).

Definition CZString_destroy (c : MCZString) : ST heap unit :=
  if negb (is_nullptr (cstr_ c)) && (policy_ c =? policy_num duplicate)
  then releaseStringValue (cstr_ c) (length_ c + 1)
  else mret tt.

(** [operator<] and [operator==]. *)
Definition CZString_less (this other : MCZString) : ST heap bool :=
  if is_nullptr (cstr_ this) then mret (cz_index this <? cz_index other)
  else
    let min_len := Z.min (length_ this) (length_ other) in
    _ ← run (json_assert (negb (is_nullptr (cstr_ other))) "assert json failed");
    a ← read_bytes (cstr_ this) min_len;
    b ← read_bytes (cstr_ other) min_len;
    let comp := memcmp (Z.to_nat min_len) a b in
    mret (if comp <? 0 then true
          else if 0 <? comp then false
          else length_ this <? length_ other).

Definition CZString_equal (this other : MCZString) : ST heap bool :=
  if is_nullptr (cstr_ this) then mret (cz_index this =? cz_index other)
  else if negb (length_ this =? length_ other) then mret false
  else
    _ ← run (json_assert (negb (is_nullptr (cstr_ other))) "assert json failed");
    a ← read_bytes (cstr_ this) (length_ this);
    b ← read_bytes (cstr_ other) (length_ this);
    mret (memcmp (Z.to_nat (length_ this)) a b =? 0).
End czstrings.

(** ** Values *)

(** The members of the union, with the tag; a string also has [allocated_].  The
    object of a map is block [object_]; its nodes are here. *)
Inductive mpayload (V : Type) : Type :=
  | MNull
  | MInt (int_ : Z)
  | MUInt (uint_ : Z)
  | MReal (real_ : float64)
  | MString (allocated_ : bool) (string_ : ptr)
  | MBool (bool_ : bool)
  | MArray (object_ : positive) (map_ : list (MCZString * V))
  | MObject (object_ : positive) (map_ : list (MCZString * V)).
Arguments MNull {V}.
Arguments MInt {V} int_.
Arguments MUInt {V} uint_.
Arguments MReal {V} real_.
Arguments MString {V} allocated_ string_.
Arguments MBool {V} bool_.
Arguments MArray {V} object_ map_.
Arguments MObject {V} object_ map_.

Unset Elimination Schemes.
Inductive MValue : Type := mkMValue {
  mvalue_ : mpayload MValue;
  mcomments_ : Comments;
  mstart_ : Z;
  mlimit_ : Z;
}.
Set Elimination Schemes.

Definition mem_initBasic (p : mpayload MValue) : MValue := mkMValue p None 0 0.
Definition mem_null : MValue := mem_initBasic MNull.
Definition mem_set_payload (p : mpayload MValue) (v : MValue) : MValue :=
  mkMValue p (mcomments_ v) (mstart_ v) (mlimit_ v).

Definition mem_type (v : MValue) : ValueType :=
  match mvalue_ v with
  | MNull => nullValue
  | MInt _ => intValue
  | MUInt _ => uintValue
  | MReal _ => realValue
  | MString _ _ => stringValue
  | MBool _ => booleanValue
  | MArray _ _ => arrayValue
  | MObject _ _ => objectValue
  end.

Definition mem_nodes (v : MValue) : list (MCZString * MValue) :=
  match mvalue_ v with MArray _ m | MObject _ m => m | _ => [] end.

(** The map in [*this] after a change of its nodes. *)
Definition mem_set_nodes (m : list (MCZString * MValue)) (v : MValue) : MValue :=
  match mvalue_ v with
  | MArray l _ => mem_set_payload (MArray l m) v
  | MObject l _ => mem_set_payload (MObject l m) v
  | _ => v
  end.

Definition mem_swap (a b : MValue) : MValue * MValue := (b, a).
Definition mem_swapPayload (a b : MValue) : MValue * MValue :=
  (mem_set_payload (mvalue_ b) a, mem_set_payload (mvalue_ a) b).

Section nodes.
Context `{Allocator} {V : Type} (copy : V -> ST heap V) (destroy : V -> ST heap unit).

(** [new ObjectValues()] and [delete]. *)
Definition map_new : ST heap positive :=
  p ← malloc 24; (* sizeof(ObjectValues) *)
  match p with heap_ptr l 0 => mret l | _ => run (Abort "operator new") end.
Definition map_delete (l : positive) : ST heap unit := free (heap_ptr l 0).

(** The nodes of a copied map, and of a destroyed one: a node is a pair. *)
Fixpoint copy_nodes (m : list (MCZString * V)) : ST heap (list (MCZString * V)) :=
  match m with
  | [] => mret []
  | (k, v) :: m =>
      k' ← CZString_copy k;
      v' ← copy v;
      m' ← copy_nodes m;
      mret ((k', v') :: m')
  end.

Fixpoint destroy_nodes (m : list (MCZString * V)) : ST heap unit :=
  match m with
  | [] => mret tt
  | (k, v) :: m =>
      _ ← destroy v;
      _ ← CZString_destroy k;
      destroy_nodes m
  end.

(** [dupPayload]: the payload, and [releasePayload]. *)
Definition dup_payload (other : mpayload V) : ST heap (mpayload V) :=
  match other with
  | MString allocated string =>
      if negb (is_nullptr string) && allocated then
        '(len, str) ← decodePrefixedString allocated string;
        p ← duplicateAndPrefix str len;
        mret (MString true p)
      else mret (MString false string)
  | MArray l m => _ ← live_block l; l' ← map_new; m' ← copy_nodes m; mret (MArray l' m')
  | MObject l m => _ ← live_block l; l' ← map_new; m' ← copy_nodes m; mret (MObject l' m')
  | p => mret p
  end.

Definition release_payload (p : mpayload V) : ST heap unit :=
  match p with
  | MString allocated string => if allocated then releasePrefixedStringValue string else mret tt
  | MArray l m | MObject l m => _ ← destroy_nodes m; map_delete l
  | _ => mret tt
  end.
End nodes.

Section values.
Context `{Allocator}.

(** [Value(const Value&)] and [~Value()]. *)
Fixpoint value_copy (other : MValue) : ST heap MValue :=
  p ← dup_payload value_copy (mvalue_ other);
  mret (mkMValue p (mcomments_ other) (mstart_ other) (mlimit_ other)).

Fixpoint value_destroy (v : MValue) : ST heap unit := release_payload value_destroy (mvalue_ v).

Definition mem_dupPayload (other this : MValue) : ST heap MValue :=
  p ← dup_payload value_copy (mvalue_ other); mret (mem_set_payload p this).
Definition releasePayload (this : MValue) : ST heap unit := release_payload value_destroy (mvalue_ this).
Definition mem_copyPayload (other this : MValue) : ST heap MValue :=
  _ ← releasePayload this; mem_dupPayload other this.
Definition mem_dupMeta (other this : MValue) : MValue :=
  mkMValue (mvalue_ this) (mcomments_ other) (mstart_ other) (mlimit_ other).
Definition mem_copy (other this : MValue) : ST heap MValue :=
  v ← mem_copyPayload other this; mret (mem_dupMeta other v).

(** [Value(Value&&)]: the new value, and what is left of the other. *)
Definition value_move (other : MValue) : MValue * MValue := mem_swap mem_null other.

(** [Value(other).swap( *this)], and [other.swap( *this)]. *)
Definition mem_assign (this other : MValue) : ST heap MValue :=
  temp ← value_copy other;
  let '(temp, this) := mem_swap temp this in
  _ ← value_destroy temp;
  mret this.
Definition mem_assign_move (this other : MValue) : MValue * MValue :=
  let '(other, this) := mem_swap other this in (this, other).

(** The assignment of a temporary, which ends with it. *)
Definition mem_assign_temp (this temp : MValue) : ST heap MValue :=
  let '(this, temp) := mem_assign_move this temp in
  _ ← value_destroy temp;
  mret this.

(** [Value(ValueType)], [Value(const String&)] and [Value(begin, end)],
    [Value(const char* )], [Value(const StaticString&)]. *)
Definition mem_ofType (t : ValueType) : ST heap MValue :=
  p ← match t with
      | nullValue => mret MNull
      | intValue => mret (MInt 0)
      | uintValue => mret (MUInt 0)
      | realValue => mret (MReal (S754_zero false))
      | stringValue => mret (MString false (static_ptr []))
      | booleanValue => mret (MBool false)
      | arrayValue => l ← map_new; mret (MArray l [])
      | objectValue => l ← map_new; mret (MObject l [])
      end;
  mret (mem_initBasic p).

Definition mem_string (value : bytes) : ST heap MValue :=
  p ← duplicateAndPrefix (caller_ptr value) (u32 (Z.of_nat (length value)));
  mret (mem_initBasic (MString true p)).
Definition mem_cstring (value : bytes) : ST heap MValue := mem_string (c_str value).
Definition mem_static (value : bytes) : MValue := mem_initBasic (MString false (static_ptr value)).

(** ** Maps *)

(** [lower_bound(key)]: the nodes before it and the nodes from it on. *)
Fixpoint lower_bound (key : MCZString) (m : list (MCZString * MValue)) :
    ST heap (list (MCZString * MValue) * list (MCZString * MValue)) :=
  match m with
  | [] => mret ([], [])
  | (k, v) :: m' =>
      less ← CZString_less k key;
      if less : bool then
        '(pre, post) ← lower_bound key m'; mret ((k, v) :: pre, post)
      else mret ([], m)
  end.

(** [it != end() && ( *it).first == key]. *)
Definition key_here (key : MCZString) (post : list (MCZString * MValue)) : ST heap bool :=
  match post with [] => mret false | (k, _) :: _ => CZString_equal k key end.

(** What [resolveReference] and [operator[]] do with their key: a node is looked
    for; if there is none, [ObjectValues::value_type defaultValue(key,
    nullSingleton())] is made and [insert]ed, which copies it. *)
Definition mem_reference (actualKey : MCZString) (this : MValue) : ST heap MValue :=
  '(pre, post) ← lower_bound actualKey (mem_nodes this);
  here ← key_here actualKey post;
  if here : bool then mret this
  else
    first ← CZString_copy actualKey;
    second ← value_copy mem_null;
    first' ← CZString_copy first;
    second' ← value_copy second;
    _ ← value_destroy second;
    _ ← CZString_destroy first;
    mret (mem_set_nodes (pre ++ (first', second') :: post) this).

(** [if (type() == nullValue) *this = Value(t)]. *)
Definition null_to (t : ValueType) (this : MValue) : ST heap MValue :=
  if bool_decide (mem_type this = nullValue) then temp ← mem_ofType t; mem_assign_temp this temp
  else mret this.

Definition is_null_or (t : ValueType) (v : MValue) : bool :=
  bool_decide (mem_type v = nullValue) || bool_decide (mem_type v = t).

(** [operator[](ArrayIndex)]. *)
Definition mem_index_ref (index : Z) (this : MValue) : ST heap MValue :=
  _ ← run (json_assert (is_null_or arrayValue this)
    "in Json::Value::operator[](ArrayIndex): requires arrayValue");
  this ← null_to arrayValue this;
  mem_reference (CZString_ofIndex index) this.

(** [resolveReference(key, end)]; the key ends with the call. *)
Definition mem_resolveReference (key : bytes) (this : MValue) : ST heap MValue :=
  _ ← run (json_assert (is_null_or objectValue this)
    "in Json::Value::resolveReference(key, end): requires objectValue");
  this ← null_to objectValue this;
  let actualKey := CZString_new (caller_ptr key) (Z.of_nat (length key)) duplicateOnCopy in
  this ← mem_reference actualKey this;
  _ ← CZString_destroy actualKey;
  mret this.

(** [resolveReference(key)], for the text of a [StaticString]. *)
Definition mem_resolveReference_static (key : bytes) (this : MValue) : ST heap MValue :=
  _ ← run (json_assert (is_null_or objectValue this)
    "in Json::Value::resolveReference(): requires objectValue");
  this ← null_to objectValue this;
  len ← strlen (static_ptr key);
  let actualKey := CZString_new (static_ptr key) len noDuplication in
  this ← mem_reference actualKey this;
  _ ← CZString_destroy actualKey;
  mret this.

(** [map_->find(key)]: the nodes before, the node, the nodes behind. *)
Definition mem_find (key : MCZString) (m : list (MCZString * MValue)) :
    ST heap (option (list (MCZString * MValue) * (MCZString * MValue) * list (MCZString * MValue))) :=
  '(pre, post) ← lower_bound key m;
  match post with
  | [] => mret None
  | (k, v) :: post =>
      less ← CZString_less key k;
      mret (if less : bool then None else Some (pre, (k, v), post))
  end.

(** [find(begin, end)]. *)
Definition mem_find_key (key : bytes) (this : MValue) : ST heap (option MValue) :=
  _ ← run (json_assert (is_null_or objectValue this)
    "in Json::Value::find(begin, end): requires objectValue or nullValue");
  if bool_decide (mem_type this = nullValue) then mret None
  else
    let actualKey := CZString_new (caller_ptr key) (Z.of_nat (length key)) noDuplication in
    o ← mem_find actualKey (mem_nodes this);
    _ ← CZString_destroy actualKey;
    mret ((fun n => n.1.2.2) <$> o).

(** [append(Value&&)], [append(const Value&)]: the array, and what is left of the
    argument. *)
Definition mem_size (v : MValue) : Z :=
  match mvalue_ v with
  | MArray _ m => match om_last m with Some (k, _) => u32 (cz_index k + 1) | None => 0 end
  | MObject _ m => u32 (Z.of_nat (length m))
  | _ => 0
  end.

Definition mem_append_move (value this : MValue) : ST heap (MValue * MValue) :=
  _ ← run (json_assert (is_null_or arrayValue this) "in Json::Value::append: requires arrayValue");
  this ← null_to arrayValue this;
  let key := CZString_ofIndex (mem_size this) in
  let '(second, value) := value_move value in
  '(pre, post) ← lower_bound key (mem_nodes this);
  here ← key_here key post;
  if here : bool then
    _ ← value_destroy second; mret (this, value)
  else mret (mem_set_nodes (pre ++ (key, second) :: post) this, value).

Definition mem_append (value this : MValue) : ST heap MValue :=
  temp ← value_copy value;
  '(this, temp) ← mem_append_move temp this;
  _ ← value_destroy temp;
  mret this.

(** [removeMember(begin, end, removed)], with a [removed]. *)
Definition mem_removeMember (key : bytes) (removed this : MValue) : ST heap (bool * MValue * MValue) :=
  if negb (bool_decide (mem_type this = objectValue)) then mret (false, removed, this)
  else
    let actualKey := CZString_new (caller_ptr key) (Z.of_nat (length key)) noDuplication in
    o ← mem_find actualKey (mem_nodes this);
    match o with
    | None => _ ← CZString_destroy actualKey; mret (false, removed, this)
    | Some (pre, (k, v), post) =>
        let '(removed, v) := mem_assign_move removed v in
        _ ← destroy_nodes value_destroy [(k, v)];
        _ ← CZString_destroy actualKey;
        mret (true, removed, mem_set_nodes (pre ++ post) this)
    end.

Definition mem_clear (this : MValue) : ST heap MValue :=
  _ ← run (json_assert (bool_decide (mem_type this = nullValue) ||
                        bool_decide (mem_type this = arrayValue) ||
                        bool_decide (mem_type this = objectValue))
    "in Json::Value::clear(): requires complex value");
  let this := mkMValue (mvalue_ this) (mcomments_ this) 0 0 in
  _ ← destroy_nodes value_destroy (mem_nodes this);
  mret (mem_set_nodes [] this).

(** Writing and reading through the reference to the value of node [key]. *)
Definition mem_write_node (key : MCZString) (f : MValue -> ST heap MValue) (this : MValue) : ST heap MValue :=
  o ← mem_find key (mem_nodes this);
  match o with
  | None => run (Undef "reference to no node")
  | Some (pre, (k, v), post) => v ← f v; mret (mem_set_nodes (pre ++ (k, v) :: post) this)
  end.

Definition mem_read_node (key : MCZString) (this : MValue) : ST heap MValue :=
  o ← mem_find key (mem_nodes this);
  match o with
  | None => run (Undef "reference to no node")
  | Some (_, (_, v), _) => mret v
  end.

(** [map_->erase(key)]. *)
Definition mem_erase (key : MCZString) (this : MValue) : ST heap MValue :=
  o ← mem_find key (mem_nodes this);
  match o with
  | None => mret this
  | Some (pre, n, post) => _ ← destroy_nodes value_destroy [n]; mret (mem_set_nodes (pre ++ post) this)
  end.

(** [removeMember(key)]. *)
Definition mem_removeMember_void (key : bytes) (this : MValue) : ST heap MValue :=
  _ ← run (json_assert (is_null_or objectValue this)
    "in Json::Value::removeMember(): requires objectValue");
  if bool_decide (mem_type this = nullValue) then mret this
  else
    let key := c_str key in
    let actualKey := CZString_new (caller_ptr key) (Z.of_nat (length key)) noDuplication in
    this ← mem_erase actualKey this;
    _ ← CZString_destroy actualKey;
    mret this.

(** ** Arrays *)

(** [( *this)[dst] = std::move(( *this)[src])]: the two values are exchanged. *)
Definition mem_move_node (dst src : Z) (this : MValue) : ST heap MValue :=
  this ← mem_index_ref src this;
  this ← mem_index_ref dst this;
  a ← mem_read_node (CZString_ofIndex dst) this;
  b ← mem_read_node (CZString_ofIndex src) this;
  let '(a, b) := mem_assign_move a b in
  this ← mem_write_node (CZString_ofIndex dst) (fun _ => mret a) this;
  mem_write_node (CZString_ofIndex src) (fun _ => mret b) this.

(** [for (i = length; i > index; i--)], [n] turns from [i]. *)
Fixpoint mem_insert_shift (n : nat) (i : Z) (this : MValue) : ST heap MValue :=
  match n with
  | O => mret this
  | S n => this ← mem_move_node i (i - 1) this; mem_insert_shift n (i - 1) this
  end.

(** [insert(index, Value&&)], [insert(index, const Value&)]: the former also leaves
    its argument. *)
Definition mem_insert_move (index : Z) (newValue this : MValue) : ST heap (bool * MValue * MValue) :=
  _ ← run (json_assert (is_null_or arrayValue this) "in Json::Value::insert: requires arrayValue");
  let length := mem_size this in
  if length <? index then mret (false, newValue, this)
  else
    this ← mem_insert_shift (Z.to_nat (length - index)) length this;
    this ← mem_index_ref index this;
    old ← mem_read_node (CZString_ofIndex index) this;
    let '(old, newValue) := mem_assign_move old newValue in
    this ← mem_write_node (CZString_ofIndex index) (fun _ => mret old) this;
    mret (true, newValue, this).

Definition mem_insert (index : Z) (newValue this : MValue) : ST heap (bool * MValue) :=
  temp ← value_copy newValue;
  '(b, temp, this) ← mem_insert_move index temp this;
  _ ← value_destroy temp;
  mret (b, this).

(** [( *map_)[key]]: the node is made in its place. *)
Definition mem_map_ref (key : MCZString) (this : MValue) : ST heap MValue :=
  '(pre, post) ← lower_bound key (mem_nodes this);
  less ← match post with [] => mret true | (k, _) :: _ => CZString_less key k end;
  if less : bool then
    first ← CZString_copy key;
    mret (mem_set_nodes (pre ++ (first, mem_null) :: post) this)
  else mret this.

(** [for (i = index; i < oldSize - 1; ++i) ( *map_)[i] = ( *this)[i + 1]]: the
    value is copied, the old one destroyed. *)
Fixpoint mem_remove_shift (n : nat) (i : Z) (this : MValue) : ST heap MValue :=
  match n with
  | O => mret this
  | S n =>
      this ← mem_index_ref (i + 1) this;
      this ← mem_map_ref (CZString_ofIndex i) this;
      src ← mem_read_node (CZString_ofIndex (i + 1)) this;
      temp ← value_copy src;
      this ← mem_write_node (CZString_ofIndex i) (fun old => mem_assign_temp old temp) this;
      mem_remove_shift n (i + 1) this
  end.

(** [removeIndex(index, removed)], with a [removed]. *)
Definition mem_removeIndex (index : Z) (removed this : MValue) : ST heap (bool * MValue * MValue) :=
  if negb (bool_decide (mem_type this = arrayValue)) then mret (false, removed, this)
  else
    o ← mem_find (CZString_ofIndex index) (mem_nodes this);
    match o with
    | None => mret (false, removed, this)
    | Some (_, (_, v), _) =>
        removed ← mem_assign removed v;
        let oldSize := mem_size this in
        this ← mem_remove_shift (Z.to_nat (oldSize - 1 - index)) index this;
        o ← mem_find (CZString_ofIndex (oldSize - 1)) (mem_nodes this);
        match o with
        | None => run (Undef "erase(end())")
        | Some (pre, n, post) =>
            _ ← destroy_nodes value_destroy [n];
            mret (true, removed, mem_set_nodes (pre ++ post) this)
        end
    end.

(** The loops of [resize]. *)
Fixpoint mem_resize_grow (n : nat) (i : Z) (this : MValue) : ST heap MValue :=
  match n with
  | O => mret this
  | S n => this ← mem_index_ref i this; mem_resize_grow n (i + 1) this
  end.

Fixpoint mem_erase_range (n : nat) (i : Z) (this : MValue) : ST heap MValue :=
  match n with
  | O => mret this
  | S n => this ← mem_erase (CZString_ofIndex i) this; mem_erase_range n (i + 1) this
  end.

Definition mem_resize (newSize : Z) (this : MValue) : ST heap MValue :=
  _ ← run (json_assert (is_null_or arrayValue this) "in Json::Value::resize(): requires arrayValue");
  this ← null_to arrayValue this;
  let oldSize := mem_size this in
  if newSize =? 0 then mem_clear this
  else if oldSize <? newSize then mem_resize_grow (Z.to_nat (newSize - oldSize)) oldSize this
  else
    this ← mem_erase_range (Z.to_nat (oldSize - newSize)) newSize this;
    _ ← run (json_assert (mem_size this =? newSize) "assert(size() == newSize)");
    mret this.

(** [asCString], [getString], [asString] of a string. *)
Definition mem_getString (v : MValue) : ST heap (option bytes) :=
  match mvalue_ v with
  | MString allocated string =>
      if is_nullptr string then mret None
      else
        '(length, value) ← decodePrefixedString allocated string;
        s ← read_bytes value length;
        mret (Some s)
  | _ => mret None
  end.
End values.
