(* ===== verification/HeapLogic.v ===== *)
(** * A separation logic for programs over a heap

    Programs of [ST heap] own blocks of memory.  Assertions are predicates on
    heaps, a BI in the sense of Iris: the logic is linear, so an assertion tells
    exactly which blocks there are, and a block nobody owns any more is a leak.
    [wp] is the weakest precondition of a program that may stop the process for
    the reasons [stops] and must do nothing undefined. *)
From iris.proofmode Require Export proofmode.
From S2P Require Export Memory.
Open Scope Z_scope.

(** ** The BI of heap predicates *)

Record hprop := HProp { holds : heap -> Prop }.
Add Printing Constructor hprop.

Section bi.
Inductive hprop_entails (P Q : hprop) : Prop :=
  | entails_intro (entails_elim : forall h, holds P h -> holds Q h).

Lemma entailed P Q h : hprop_entails P Q -> holds P h -> holds Q h.
Proof. intros [HPQ]. apply HPQ. Qed.

Definition hprop_emp : hprop := HProp (fun h => h = ∅).
Definition hprop_pure (φ : Prop) : hprop := HProp (fun _ => φ).
Definition hprop_and (P Q : hprop) : hprop := HProp (fun h => holds P h /\ holds Q h).
Definition hprop_or (P Q : hprop) : hprop := HProp (fun h => holds P h \/ holds Q h).
Definition hprop_impl (P Q : hprop) : hprop := HProp (fun h => holds P h -> holds Q h).
Definition hprop_forall A (P : A -> hprop) : hprop := HProp (fun h => forall a, holds (P a) h).
Definition hprop_exist A (P : A -> hprop) : hprop := HProp (fun h => exists a, holds (P a) h).
Definition hprop_sep (P Q : hprop) : hprop :=
  HProp (fun h => exists h1 h2, h = h1 ∪ h2 /\ h1 ##ₘ h2 /\ holds P h1 /\ holds Q h2).
Definition hprop_wand (P Q : hprop) : hprop :=
  HProp (fun h => forall h', h ##ₘ h' -> holds P h' -> holds Q (h ∪ h')).
Definition hprop_persistently (P : hprop) : hprop := hprop_pure (hprop_entails hprop_emp P).
Definition hprop_later (P : hprop) : hprop := P.

Local Instance hprop_equiv : Equiv hprop := fun P Q => forall h, holds P h <-> holds Q h.
Local Instance hprop_equivalence : Equivalence (≡@{hprop}).
Proof.
  split; [done|by intros P Q H h; rw (H h)|].
  intros P Q R H1 H2 h. by rw (H1 h) (H2 h).
Qed.
Canonical Structure hpropO := discreteO hprop.

Lemma sep_assoc_2 P Q R : hprop_entails (hprop_sep (hprop_sep P Q) R) (hprop_sep P (hprop_sep Q R)).
Proof.
  split. intros h (h12 & h3 & -> & Hd & (h1 & h2 & -> & Hd' & HP & HQ) & HR).
  apply map_disjoint_union_l in Hd as [H13 H23].
  exists h1, (h2 ∪ h3). split_and!; [by rw assoc_L|by apply map_disjoint_union_r|done|].
  by exists h2, h3.
Qed.

Lemma hprop_bi_mixin :
  BiMixin hprop_entails hprop_emp hprop_pure hprop_and hprop_or hprop_impl hprop_forall
    hprop_exist hprop_sep hprop_wand.
Proof.
  split.
  - split; [done|]. intros P Q R [H1] [H2]. split. auto.
  - intros P Q. split; [intros H; split; split; intros h; apply H|intros [[H1] [H2]] h; split; auto].
  - intros n φ1 φ2 H h. apply H.
  - intros n P P' HP Q Q' HQ h. simpl. by rw (HP h) (HQ h).
  - intros n P P' HP Q Q' HQ h. simpl. by rw (HP h) (HQ h).
  - intros n P P' HP Q Q' HQ h. simpl. by rw (HP h) (HQ h).
  - intros A n P Q HP h. split; intros H a; by apply (HP a h).
  - intros A n P Q HP h. split; intros [a H]; exists a; by apply (HP a h).
  - intros n P P' HP Q Q' HQ h.
    split; intros (h1 & h2 & ? & ? & H1 & H2); exists h1, h2; split_and!; try done.
    all: by apply HP || by apply HQ.
  - intros n P P' HP Q Q' HQ h.
    split; intros H h' Hd H'; apply HQ, H; [done|by apply HP|done|by apply HP].
  - intros φ P Hφ. by split.
  - intros φ P H. split. intros h Hφ. by eapply entailed; [apply (H Hφ)|].
  - intros P Q. by split; intros h [? ?].
  - intros P Q. by split; intros h [? ?].
  - intros P Q R [H1] [H2]. split. intros h HP. split; auto.
  - intros P Q. split. by left.
  - intros P Q. split. by right.
  - intros P Q R [H1] [H2]. split. intros h [HP|HP]; auto.
  - intros P Q R [H]. split. intros h HP HQ. by apply H.
  - intros P Q R [H]. split. intros h [HP HQ]. by apply H.
  - intros A P Q H. split. intros h HP a. by eapply entailed; [apply (H a)|].
  - intros A P a. split. intros h H. apply H.
  - intros A P a. split. intros h H. by exists a.
  - intros A P Q H. split. intros h [a HP]. by eapply entailed; [apply (H a)|].
  - intros P P' Q Q' [H1] [H2]. split. intros h (h1 & h2 & ? & ? & ? & ?). exists h1, h2. auto.
  - intros P. split. intros h HP. exists ∅, h. split_and!; [by rw left_id_L|apply map_disjoint_empty_l|done|done].
  - intros P. split. intros h (h1 & h2 & -> & _ & -> & HP). by rw left_id_L.
  - intros P Q. split. intros h (h1 & h2 & -> & Hd & HP & HQ). exists h2, h1.
    split_and!; [by apply map_union_comm|done|done|done].
  - exact sep_assoc_2.
  - intros P Q R [H]. split. intros h HP h' Hd HQ. apply H. by exists h, h'.
  - intros P Q R [H]. split. intros h (h1 & h2 & -> & Hd & HP & HQ). by apply H.
Qed.

Lemma hprop_persistently_mixin :
  BiPersistentlyMixin hprop_entails hprop_emp hprop_and hprop_exist hprop_sep hprop_persistently.
Proof.
  eapply bi_persistently_mixin_discrete, hprop_bi_mixin; [done| |done].
  intros A Φ [H]. destruct (H ∅ eq_refl) as [a Ha]. exists a. split. by intros h ->.
Qed.

Lemma hprop_later_mixin :
  BiLaterMixin hprop_entails hprop_pure hprop_or hprop_impl hprop_forall hprop_exist hprop_sep
    hprop_persistently hprop_later.
Proof. eapply bi_later_mixin_id, hprop_bi_mixin. done. Qed.

Canonical Structure hpropI : bi := {|
  bi_ofe_mixin := ofe_mixin_of hprop;
  bi_bi_mixin := hprop_bi_mixin;
  bi_bi_persistently_mixin := hprop_persistently_mixin;
  bi_bi_later_mixin := hprop_later_mixin;
|}.
End bi.

#[export] Instance hprop_pure_forall : BiPureForall hpropI.
Proof. intros A φ. split. intros h H a. apply H. Qed.

(** ** Weakest preconditions *)

(** Block [l] holds [b]. *)
Definition points_to (l : positive) (b : bytes) : hprop := HProp (fun h => h = {[l := b]}).
Notation "l ↦ b" := (points_to l b) (at level 20, b at level 50) : bi_scope.

(** The program run in any larger heap, of which it leaves the rest alone. *)
Definition mwp (stops : string -> Prop) {A} (m : ST heap A) (Q : A -> hprop) : hprop :=
  HProp (fun h => forall rest, h ##ₘ rest ->
    match m (h ∪ rest) with
    | Ret (a, h') => exists h1, h' = h1 ∪ rest /\ h1 ##ₘ rest /\ holds (Q a) h1
    | Abort msg => stops msg
    | Undef _ | Fuel => False
    end).

Section rules.
Context `{Allocator} (stops : string -> Prop).
Implicit Types (P R : hpropI).

Lemma holds_sep P R h :
  holds (P ∗ R)%I h <-> exists h1 h2, h = h1 ∪ h2 /\ h1 ##ₘ h2 /\ holds P h1 /\ holds R h2.
Proof. done. Qed.

Lemma mwp_ret {A} (a : A) (Q : A -> hpropI) : Q a ⊢ mwp stops (mret a) Q.
Proof. split. intros h HQ rest Hd. by exists h. Qed.

Lemma mwp_bind {A B} (m : ST heap A) (f : A -> ST heap B) (Q : B -> hpropI) :
  mwp stops m (fun a => mwp stops (f a) Q) ⊢ mwp stops (m ≫= f) Q.
Proof.
  split. intros h Hm rest Hd. specialize (Hm rest Hd). unfold mbind, ST_bind, mbind, outcome_bind.
  destruct (m (h ∪ rest)) as [[a h']| | |]; [|done..].
  destruct Hm as (h1 & -> & Hd1 & Hf). exact (Hf rest Hd1).
Qed.

(** The frame rule and monotonicity in one. *)
Lemma mwp_wand {A} (m : ST heap A) (Φ Ψ : A -> hpropI) :
  mwp stops m Φ ∗ (∀ a, Φ a -∗ Ψ a) ⊢ mwp stops m Ψ.
Proof.
  split. intros h (h1 & h2 & -> & Hd & Hm & HR) rest [H1r H2r]%map_disjoint_union_l.
  specialize (Hm (h2 ∪ rest)). rw assoc_L in Hm.
  destruct (m (h1 ∪ h2 ∪ rest)) as [[a h']| | |]; try (apply Hm; by apply map_disjoint_union_r).
  destruct Hm as (h3 & -> & Hd3 & HQ); [by apply map_disjoint_union_r|].
  apply map_disjoint_union_r in Hd3 as [H32 H3r].
  exists (h2 ∪ h3). split_and!.
  - by rw assoc_L (map_union_comm h3 h2).
  - by apply map_disjoint_union_l.
  - apply (HR a); [done|exact HQ].
Qed.

Lemma mwp_run {A} (o : outcome A) (Q : A -> hpropI) :
  match o with
  | Ret a => Q a
  | Abort msg => ⌜stops msg⌝
  | _ => False
  end ⊢ mwp stops (run o) Q.
Proof.
  split. intros h HQ rest Hd. unfold run, mbind, outcome_bind. destruct o; [by exists h|done..].
Qed.

Lemma insert_singleton_disjoint l (b : bytes) (h : heap) : h !! l = None -> {[l := b]} ##ₘ h.
Proof. apply map_disjoint_singleton_l_2. Qed.

Lemma mwp_malloc n (Q : ptr -> hpropI) :
  (Q nullptr ∧ ∀ l, l ↦ replicate (Z.to_nat n) 0 -∗ Q (heap_ptr l 0)) ⊢ mwp stops (malloc n) Q.
Proof.
  split. intros h [Hnull Hl] rest Hd. unfold malloc. destruct (malloc_at (h ∪ rest) n) as [l|] eqn:E.
  - apply malloc_fresh, lookup_union_None in E as [Eh Er].
    exists (h ∪ {[l := replicate (Z.to_nat n) 0]}). split_and!.
    + rw insert_union_singleton_l assoc_L. f_equal. apply map_union_comm. by apply insert_singleton_disjoint.
    + apply map_disjoint_union_l. split; [done|by apply insert_singleton_disjoint].
    + apply (Hl l); [|done]. by apply map_disjoint_singleton_r_2.
  - by exists h.
Qed.

Lemma owned_lookup l (b : bytes) (h rest : heap) : ({[l := b]} ∪ h ∪ rest) !! l = Some b.
Proof. do 2 apply lookup_union_Some_l. by apply lookup_singleton_eq. Qed.

Lemma mwp_live_block l b (Q : bytes -> hpropI) : l ↦ b ∗ (l ↦ b -∗ Q b) ⊢ mwp stops (live_block l) Q.
Proof.
  split. intros h (h1 & h2 & -> & Hd & -> & HQ) rest Hr. unfold live_block. rw owned_lookup.
  exists ({[l := b]} ∪ h2). split_and!; [done|done|]. rw map_union_comm //. by apply (HQ {[l := b]}).
Qed.

Lemma mwp_put l b (f : bytes) (Q : unit -> hpropI) :
  l ↦ b ∗ (l ↦ f -∗ Q tt) ⊢ mwp stops (put <[l := f]>) Q.
Proof.
  split. intros h (h1 & h2 & -> & Hd & -> & HQ) rest [H1 H2]%map_disjoint_union_l. unfold put.
  exists ({[l := f]} ∪ h2). split_and!.
  - by rw insert_union_l insert_union_l insert_singleton_eq.
  - apply map_disjoint_union_l. split; [|done]. by eapply map_disjoint_singleton_l, map_disjoint_singleton_l.
  - assert ({[l := f]} ##ₘ h2) by by eapply map_disjoint_singleton_l, map_disjoint_singleton_l.
    rw map_union_comm //. by apply (HQ {[l := f]}).
Qed.

Lemma mwp_free l b (Q : unit -> hpropI) : l ↦ b ∗ Q tt ⊢ mwp stops (free (heap_ptr l 0)) Q.
Proof.
  split. intros h (h1 & h2 & -> & Hd & -> & HQ) rest [H1 H2]%map_disjoint_union_l.
  unfold free, live_block, put, mbind, ST_bind, mbind, outcome_bind. rw owned_lookup.
  exists h2. split_and!; [|done|done].
  rw -assoc_L delete_union delete_singleton_eq left_id_L delete_id //.
  apply map_disjoint_singleton_l in Hd, H1. by apply lookup_union_None.
Qed.

(** What a closed program does. *)
Lemma mwp_adequate {A} (m : ST heap A) (Q : A -> hpropI) :
  (⊢ mwp stops m Q) ->
  match m ∅ with
  | Ret (a, h) => holds (Q a) h
  | Abort msg => stops msg
  | Undef _ | Fuel => False
  end.
Proof.
  intros [Hm]. pose proof (Hm ∅ eq_refl ∅ (map_disjoint_empty_l _)) as Hr. simpl in Hr.
  change (m (∅ ∪ ∅)) with (m ∅) in Hr. destruct (m ∅) as [[a h]| | |]; try exact Hr.
  destruct Hr as (h1 & -> & _ & HQ). by rw right_id_L.
Qed.
End rules.
