(* ===== verification/JsonMemoryKeys.v ===== *)
(** * Strings and keys on the heap

    What a [CZString] in a map owns, and the interface [KeyRep] of a kind of keys:
    comparing keys reads them, copying one makes a key of its own, destroying one
    gives its memory back.  The indices of arrays and the names of objects are its
    instances; the operations on maps are verified against it. *)
From S2P Require Export HeapLogic JsonMemory JsonValueFacts.
Open Scope Z_scope.

(** Why the memory functions stop the process. *)
Definition memory_stop (msg : string) : Prop :=
  msg = "in Json::Value::duplicateStringValue(): Failed to allocate string value buffer"%string \/
  msg = "in Json::Value::duplicateAndPrefixStringValue(): Failed to allocate string value buffer"%string \/
  msg = "operator new"%string.

Notation mem := (mwp memory_stop).

(** A pure fact that owns no memory. *)
Notation "'⟨' φ '⟩'" := (<affine> ⌜φ⌝)%I : bi_scope.

(** ** Blocks *)

Section blocks.
Context `{Allocator}.

Lemma wp_live_block l b (Q : bytes -> hpropI) : l ↦ b ∗ (l ↦ b -∗ Q b) ⊢ mem (live_block l) Q.
Proof. apply mwp_live_block. Qed.

Lemma wp_run_ret {A} (a : A) (Q : A -> hpropI) : Q a ⊢ mem (run (Ret a)) Q.
Proof. apply (mwp_run _ (Ret a)). Qed.

(** [p] points to at least [n] characters, the first [n] of which are [s]; [R]
    is the memory they are in. *)
Definition readable (p : ptr) (n : Z) (s : bytes) (R : hpropI) : Prop :=
  forall Q, R ∗ (R -∗ Q s) ⊢ mem (read_bytes p n) Q.

Lemma readable_heap l off n b :
  0 <= off -> 0 <= n -> off + n <= Z.of_nat (length b) ->
  readable (heap_ptr l off) n (take (Z.to_nat n) (drop (Z.to_nat off) b)) (l ↦ b).
Proof.
  intros Ho Hn Hl Q. iIntros "[Hl HQ]". unfold read_bytes. iApply mwp_bind. iApply wp_live_block.
  iFrame "Hl". iIntros "Hl". rw (proj2 (Z.leb_le 0 off)) // (proj2 (Z.leb_le 0 n)) //.
  rw (proj2 (Z.leb_le n _)); [|by rw length_drop; lia].
  iApply wp_run_ret. by iApply "HQ".
Qed.

Lemma readable_caller s n :
  0 <= n <= Z.of_nat (length s) -> readable (caller_ptr s) n (take (Z.to_nat n) s) emp.
Proof.
  intros Hn Q. iIntros "[_ HQ]". unfold read_bytes.
  rw (proj2 (Z.leb_le 0 n)) ?(proj2 (Z.leb_le n _)); [|lia..]. iApply wp_run_ret. by iApply "HQ".
Qed.

Lemma readable_static s n :
  0 <= n <= Z.of_nat (length s) -> readable (static_ptr s) n (take (Z.to_nat n) s) emp.
Proof.
  intros Hn Q. iIntros "[_ HQ]". unfold read_bytes.
  rw (proj2 (Z.leb_le 0 n)) ?(proj2 (Z.leb_le n _)); [|rw ?length_app; simpl; lia..].
  iApply wp_run_ret. rw take_app_le; [|lia]. by iApply "HQ".
Qed.

(** Writing over the part [b] of a block. *)
Lemma wp_write l off a b c s (Q : unit -> hpropI) :
  off = Z.of_nat (length a) -> length b = length s ->
  l ↦ (a ++ b ++ c) ∗ (l ↦ (a ++ s ++ c) -∗ Q tt) ⊢ mem (write_bytes (heap_ptr l off) s) Q.
Proof.
  intros -> Hl. iIntros "[Hl HQ]". unfold write_bytes. iApply mwp_bind. iApply wp_live_block.
  iFrame "Hl". iIntros "Hl". rw (proj2 (Z.leb_le 0 _)); [|lia].
  rw (proj2 (Z.leb_le _ _)); [|rw !length_app; lia]. iApply mwp_put. iFrame "Hl".
  rw Nat2Z.id take_app_length -Hl -drop_drop drop_app_length drop_app_length. iFrame.
Qed.

(** ** Strings *)

Lemma wp_duplicateStringValue p n s R (Q : ptr -> hpropI) :
  0 <= n < maxInt -> length s = Z.to_nat n -> readable p n s R ->
  R ∗ (∀ l, R -∗ l ↦ (s ++ [0]) -∗ Q (heap_ptr l 0)) ⊢ mem (duplicateStringValue p n) Q.
Proof.
  intros Hn Hs Hr. iIntros "[HR HQ]". unfold duplicateStringValue.
  rw (proj2 (Z.leb_gt maxInt n)); [|lia]. iApply mwp_bind. iApply mwp_malloc. iSplit.
  { iApply mwp_run. iPureIntro. by left. }
  iIntros (l) "Hl". cbn [is_nullptr ptr_add]. iApply mwp_bind. iApply Hr. iFrame "HR". iIntros "HR".
  replace (Z.to_nat (n + 1)) with (length s + 1)%nat by lia. rw replicate_add.
  iApply mwp_bind. iApply (wp_write _ _ [] (replicate (length s) 0) [0]); [done|by rw length_replicate|]. iFrame "Hl". iIntros "Hl".
  iApply mwp_bind. iApply (wp_write _ _ s [0] []); [lia|done|]. iFrame "Hl". iIntros "Hl".
  iApply mwp_ret. iApply ("HQ" with "HR"). iFrame.
Qed.

Lemma unsigned_of_bytes n s : in_u 32 n -> unsigned_of (unsigned_bytes n ++ s) = n.
Proof.
  unfold in_u, unsigned_of, unsigned_bytes. intros Hn. cbn [app nth].
  pose proof (Z.div_mod n 256). pose proof (Z.div_mod (n / 256) 256). pose proof (Z.div_mod (n / 256 / 256) 256).
  assert (n / 256 / 256 / 256 < 256) by (rw !Z.div_div; [apply Z.div_lt_upper_bound; lia|lia..]).
  rw (Z.mod_small (n / 256 / 256 / 256)); [lia|]. split; [|done]. repeat apply Z.div_pos; lia.
Qed.

(** A string on the heap: the length, the characters, a NUL. *)
Definition prefixed (s : bytes) : bytes := unsigned_bytes (Z.of_nat (length s)) ++ s ++ [0].

Lemma wp_duplicateAndPrefix p n s R (Q : ptr -> hpropI) :
  0 <= n <= maxInt - 5 -> length s = Z.to_nat n -> readable p n s R ->
  R ∗ (∀ l, R -∗ l ↦ prefixed s -∗ Q (heap_ptr l 0)) ⊢ mem (duplicateAndPrefix p n) Q.
Proof.
  intros Hn Hs Hr. iIntros "[HR HQ]". unfold duplicateAndPrefix, json_assert.
  rw (proj2 (Z.leb_le n _)); [|lia]. iApply mwp_bind. iApply wp_run_ret.
  iApply mwp_bind. iApply mwp_malloc. iSplit.
  { iApply mwp_run. iPureIntro. right. by left. }
  iIntros (l) "Hl". cbn [is_nullptr ptr_add].
  replace (Z.to_nat (4 + n + 1)) with (4 + (length s + 1))%nat by lia. rw !replicate_add.
  iApply mwp_bind. iApply (wp_write _ _ [] (replicate 4 0) (replicate (length s) 0 ++ [0])); [done|done|]. iFrame "Hl". iIntros "Hl".
  iApply mwp_bind. iApply Hr. iFrame "HR". iIntros "HR".
  iApply mwp_bind. iApply (wp_write _ _ (unsigned_bytes n) (replicate (length s) 0) [0]); [done|by rw length_replicate|]. iFrame "Hl". iIntros "Hl".
  iApply mwp_bind. iApply (wp_write _ _ (unsigned_bytes n ++ s) [0] []).
  { rw length_app. simpl. lia. } { done. }
  rw -!assoc_L. iFrame "Hl". iIntros "Hl". iApply mwp_ret. iApply ("HQ" with "HR").
  unfold prefixed. rw Hs Z2Nat.id; [iFrame|lia].
Qed.

(** A string value: what [value_.string_] owns. *)
Definition string_at (allocated : bool) (p : ptr) (s : bytes) : hpropI :=
  match allocated, p with
  | true, heap_ptr l 0 => ⟨Z.of_nat (length s) <= maxInt - 5⟩ ∗ l ↦ prefixed s
  | false, static_ptr t => ⟨s = c_str t /\ Z.of_nat (length s) < 2 ^ 32⟩
  | _, _ => False
  end.

Lemma readable_affine p n s φ R : readable p n s R -> readable p n s (⟨φ⟩ ∗ R).
Proof.
  intros Hr Q. iIntros "[[%Hφ HR] HQ]". iApply Hr. iFrame "HR". iIntros "HR". iApply "HQ". by iFrame.
Qed.

Lemma take_c_str t : take (length (c_str t)) t = c_str t.
Proof. induction t as [|c t IH]; [done|]. simpl. destruct (c =? 0); [done|]. simpl. by f_equal. Qed.

(** The length and the characters of a string value. *)
Lemma wp_decode a p s Q :
  string_at a p s ∗
  (∀ q, ⟨readable q (Z.of_nat (length s)) s (string_at a p s)⟩ -∗ string_at a p s -∗ Q (Z.of_nat (length s), q)) ⊢
  mem (decodePrefixedString a p) Q.
Proof.
  iIntros "[Hs HQ]". destruct a, p as [|t|t|l [| |]]; try done; unfold decodePrefixedString; cbn [negb string_at].
  - iDestruct "Hs" as "[%Hl Hs]". iApply mwp_bind.
    iApply (readable_heap l 0 4 (prefixed s)); [done|done|rw !length_app; simpl; lia|].
    iFrame "Hs". iIntros "Hs". iApply mwp_ret. cbn [take drop app]. unfold prefixed.
    change (take (Z.to_nat 4) _) with (unsigned_bytes (Z.of_nat (length s))).
    rw -(app_nil_r (unsigned_bytes _)) unsigned_of_bytes; [|unfold in_u, maxInt in *; lia].
    iApply "HQ"; [|by iFrame]. iPureIntro. apply readable_affine. cbn [ptr_add].
    replace s with (take (Z.to_nat (Z.of_nat (length s))) (drop (Z.to_nat (0 + 4)) (prefixed s))) at 2.
    { apply readable_heap; [lia..|]. unfold prefixed. rw !length_app. simpl. lia. }
    by rw Nat2Z.id take_app_length.
  - iDestruct "Hs" as "[%Hst %Hl]". iApply mwp_bind. iApply mwp_ret. unfold u32. rw -Hst. iApply mwp_ret.
    rw Z.mod_small; [|lia]. iApply "HQ"; [|by iFrame "%"]. iPureIntro.
    assert (readable (static_ptr t) (Z.of_nat (length s)) s emp) as Hr.
    { rw {2}Hst -(take_c_str t) -Hst -{2}(Nat2Z.id (length s)). apply readable_static.
      pose proof (f_equal length (take_c_str t)) as Ht. rw length_take -Hst in Ht. lia. }
    intros Q'. iIntros "[[%H1 %H2] HQ]". iApply Hr. iSplitR; [done|]. iIntros "_". iApply "HQ". by iFrame "%".
Qed.
End blocks.

(** ** The word of a key *)

Lemma storage_add p n : storage p n = n mod 2 ^ 30 * 4 + p mod 4.
Proof.
  unfold storage. change 0x3FFFFFFF with (Z.ones 30). change 3 with (Z.ones 2) at 1.
  rw !Z.land_ones // Z.lor_comm lor_shiftl //. by apply Z.mod_pos_bound.
Qed.

Lemma policy_storage p s n : 0 <= s < 4 -> policy_ (mkCZString p (storage s n)) = s.
Proof.
  intros Hs. unfold policy_. cbn [word_]. change 3 with (Z.ones 2).
  rw storage_add Z.land_ones // (Z.mod_small s 4) // Z.add_comm Z_mod_plus_full. by apply Z.mod_small.
Qed.

Lemma length_storage p s n : length_ (mkCZString p (storage s n)) = n mod 2 ^ 30.
Proof.
  unfold length_. cbn [word_]. rw storage_add Z.shiftr_div_pow2 //.
  pose proof (Z.mod_pos_bound s 4). rw Z.add_comm Z_div_plus_full // Z.div_small //. by apply Z.mod_pos_bound.
Qed.

Lemma storage_word c : in_u 32 (word_ c) -> storage (policy_ c) (length_ c) = word_ c.
Proof.
  unfold in_u, policy_, length_. intros Hw. change 3 with (Z.ones 2).
  rw storage_add Z.land_ones // Z.shiftr_div_pow2 // Z.mod_mod // (Z.mod_small (_ / _)).
  - pose proof (Z.div_mod (word_ c) 4). change (2 ^ 2) with 4. lia.
  - split; [apply Z.div_pos; lia|apply Z.div_lt_upper_bound; lia].
Qed.

(** ** The interface of keys *)

(** [key_at c k]: a key of a map, with what it owns.  [sought c k]: a key that a
    map is searched for, in memory of the caller; [seed c k]: one that also may be
    copied into a map. *)
Class KeyRep `{Allocator} (K : Type) `{KeyOrdLaws K} := {
  key_at : MCZString -> K -> hpropI;
  sought : MCZString -> K -> Prop;
  seed : MCZString -> K -> Prop;
  seed_sought c k : seed c k -> sought c k;
  stored_less c k d k' Q : sought c k ->
    key_at d k' ∗ (key_at d k' -∗ Q (key_ltb k' k)) ⊢ mem (CZString_less d c) Q;
  sought_less c k d k' Q : sought c k ->
    key_at d k' ∗ (key_at d k' -∗ Q (key_ltb k k')) ⊢ mem (CZString_less c d) Q;
  stored_equal c k d k' Q : sought c k ->
    key_at d k' ∗ (key_at d k' -∗ Q (key_eqb k' k)) ⊢ mem (CZString_equal d c) Q;
  seed_copy c k Q : seed c k -> (∀ c', key_at c' k -∗ Q c') ⊢ mem (CZString_copy c) Q;
  stored_copy c k Q : key_at c k ∗ (∀ c', key_at c k -∗ key_at c' k -∗ Q c') ⊢ mem (CZString_copy c) Q;
  stored_destroy c k Q : key_at c k ∗ Q tt ⊢ mem (CZString_destroy c) Q;
}.

(** ** Indices *)

Section indices.
Context `{Allocator}.

Definition index_key (c : MCZString) (i : Z) : Prop := c = CZString_ofIndex i /\ in_u 32 i.

Lemma index_copy c i Q : index_key c i -> Q c ⊢ mem (CZString_copy c) Q.
Proof.
  intros [-> Hi]. iIntros "HQ". unfold CZString_copy. cbn [CZString_ofIndex cstr_ is_nullptr negb].
  rw andb_false_r. iApply mwp_bind. iApply mwp_ret. iApply mwp_ret.
  by rw (storage_word (CZString_ofIndex i)).
Qed.

#[export, refine] Instance index_KeyRep : KeyRep Z := {|
  key_at c i := ⟨index_key c i⟩%I;
  sought := index_key;
  seed := index_key;
|}.
Proof.
  - done.
  - intros c k d k' Q [-> Hk]. iIntros "[[%Hd %Hk'] HQ]". subst. iApply mwp_ret. iApply "HQ". by iPureIntro.
  - intros c k d k' Q [-> Hk]. iIntros "[[%Hd %Hk'] HQ]". subst. iApply mwp_ret. iApply "HQ". by iPureIntro.
  - intros c k d k' Q [-> Hk]. iIntros "[[%Hd %Hk'] HQ]". subst. iApply mwp_ret.
    replace (cz_index _ =? cz_index _) with (key_eqb k' k). { iApply "HQ". by iPureIntro. }
    unfold key_eqb, key_ltb, Z_KeyOrd, cz_index. simpl. destruct (Z.eqb_spec k' k); zbool; lia.
  - intros c k Q Hk. iIntros "HQ". iApply index_copy; [done|]. iApply "HQ". by iPureIntro.
  - intros c k Q. iIntros "[%Hk HQ]". iApply index_copy; [done|]. by iApply "HQ".
  - intros c k Q. iIntros "[[%Hc %Hk] HQ]". subst. by iApply mwp_ret.
Defined.
End indices.

(** ** Names *)

Section names.
Context `{Allocator}.

(** The key can be read: [R] is the memory its characters are in. *)
Definition reads (c : MCZString) (name : bytes) (R : hpropI) : Prop :=
  is_nullptr (cstr_ c) = false /\ length_ c = Z.of_nat (length name) /\
  forall n, 0 <= n <= Z.of_nat (length name) -> readable (cstr_ c) n (take (Z.to_nat n) name) R.

(** The two kinds of keys in a map: copied, and static. *)
Definition name_at (c : MCZString) (name : bytes) : hpropI :=
  match cstr_ c with
  | heap_ptr l 0 =>
      ⟨word_ c = storage 1 (Z.of_nat (length name)) /\ Z.of_nat (length name) < 2 ^ 30⟩ ∗ l ↦ (name ++ [0])
  | static_ptr s =>
      ⟨word_ c = storage 0 (Z.of_nat (length name)) /\ Z.of_nat (length name) < 2 ^ 30 /\
       take (length name) s = name⟩
  | _ => False
  end.

Definition name_seed (c : MCZString) (name : bytes) : Prop :=
  reads c name emp /\ Z.of_nat (length name) < 2 ^ 30 /\
  (policy_ c = 2 \/
   exists s, c = mkCZString (static_ptr s) (storage 0 (Z.of_nat (length name))) /\ take (length name) s = name).

Lemma length_small p s (name : bytes) :
  Z.of_nat (length name) < 2 ^ 30 ->
  length_ (mkCZString p (storage s (Z.of_nat (length name)))) = Z.of_nat (length name).
Proof. intros Hl. rw length_storage. apply Z.mod_small. lia. Qed.

Lemma reads_caller (s name : bytes) pol :
  name = take (length name) s -> Z.of_nat (length name) = Z.of_nat (length s) mod 2 ^ 30 ->
  reads (CZString_new (caller_ptr s) (Z.of_nat (length s)) pol) name emp.
Proof.
  intros Hs Hl. split_and!; [done|by unfold CZString_new; rw length_storage|].
  intros n Hn. rw Hs take_take Nat.min_l; [|lia]. apply readable_caller.
  pose proof (f_equal length Hs) as Ht. rw length_take in Ht. lia.
Qed.

Lemma CZString_take s : CZString s = take (length (CZString s)) s /\
  Z.of_nat (length (CZString s)) = Z.of_nat (length s) mod 2 ^ 30.
Proof.
  unfold CZString. change 0x3FFFFFFF with (Z.ones 30). rw Z.land_ones // length_take.
  pose proof (Z.mod_pos_bound (Z.of_nat (length s)) (2 ^ 30)).
  pose proof (Z.mod_le (Z.of_nat (length s)) (2 ^ 30)). split; [f_equal|]; lia.
Qed.

(** The keys of the member functions. *)
Lemma reads_key s pol : reads (CZString_new (caller_ptr s) (Z.of_nat (length s)) pol) (CZString s) emp.
Proof. destruct (CZString_take s). by apply reads_caller. Qed.

Lemma seed_key s : name_seed (CZString_new (caller_ptr s) (Z.of_nat (length s)) duplicateOnCopy) (CZString s).
Proof.
  destruct (CZString_take s) as [_ Hl]. split_and!; [apply reads_key| |left].
  - rw Hl. by apply Z.mod_pos_bound.
  - by unfold CZString_new; rw policy_storage.
Qed.

Lemma name_at_reads c name :
  name_at c name ⊢ ⟨reads c name (name_at c name) /\ Z.of_nat (length name) < 2 ^ 30⟩ ∗ name_at c name.
Proof.
  destruct c as [[|s|s|l [| |]] w]; unfold name_at; cbn [cstr_ word_]; iIntros "Hk"; try done.
  - iDestruct "Hk" as "(%Hw & %Hl & %Hs)". subst w. iSplitL; [|by iPureIntro]. iPureIntro. split; [|done].
    split_and!; [done|by apply length_small|]. intros n Hn Q. cbn [cstr_].
    replace (take (Z.to_nat n) name) with (take (Z.to_nat n) s) by (rw -Hs take_take; f_equal; lia).
    iIntros "[_ HQ]". iApply (readable_static s n).
    { pose proof (f_equal length Hs) as Ht. rw length_take in Ht. lia. }
    iSplitR; [done|]. iIntros "_". iApply "HQ". by iPureIntro.
  - iDestruct "Hk" as "[(%Hw & %Hl) Hk]". subst w. iSplitR; [|by iFrame]. iPureIntro. split; [|done].
    split_and!; [done|by apply length_small|]. intros n Hn. apply readable_affine. cbn [cstr_].
    rw -(take_app_le name [0]); [|lia].
    apply (readable_heap l 0 n (name ++ [0])); [done|lia|rw length_app; simpl; lia].
Qed.

(** Comparison reads both keys up to the shorter length. *)
Lemma memcmp_take n a b : memcmp n (take n a) (take n b) = memcmp n a b.
Proof.
  revert a b. induction n as [|n IH]; intros [|x a] [|y b]; try done. cbn [take memcmp]. by rw IH.
Qed.

Lemma wp_less a n1 R1 b n2 R2 Q :
  reads a n1 R1 -> reads b n2 R2 ->
  R1 ∗ R2 ∗ (R1 -∗ R2 -∗ Q (CZString_lt n1 n2)) ⊢ mem (CZString_less a b) Q.
Proof.
  intros (Ha & La & Ra) (Hb & Lb & Rb). iIntros "(H1 & H2 & HQ)". unfold CZString_less. rw Ha Hb La Lb.
  iApply mwp_bind. iApply wp_run_ret. iApply mwp_bind. iApply Ra; [lia|]. iFrame "H1". iIntros "H1".
  iApply mwp_bind. iApply Rb; [lia|]. iFrame "H2". iIntros "H2". iApply mwp_ret.
  iSpecialize ("HQ" with "H1 H2"). unfold CZString_lt. rw memcmp_take -Nat2Z.inj_min Nat2Z.id.
  destruct (_ <? 0); [done|]. destruct (0 <? _); [done|].
  assert ((Z.of_nat (length n1) <? Z.of_nat (length n2)) = (length n1 <? length n2)%nat) as ->; [|done].
  destruct (Nat.ltb_spec (length n1) (length n2)); zbool; lia.
Qed.

Lemma wp_equal a n1 R1 b n2 R2 Q :
  reads a n1 R1 -> reads b n2 R2 ->
  R1 ∗ R2 ∗ (R1 -∗ R2 -∗ Q (CZString_eq n1 n2)) ⊢ mem (CZString_equal a b) Q.
Proof.
  intros (Ha & La & Ra) (Hb & Lb & Rb). iIntros "(H1 & H2 & HQ)". unfold CZString_equal, CZString_eq. rw Ha Hb La Lb.
  destruct (Nat.eqb_spec (length n1) (length n2)) as [Hl|Hl].
  - rw Hl Z.eqb_refl. iApply mwp_bind. iApply wp_run_ret. iApply mwp_bind. iApply Ra; [lia|]. iFrame "H1".
    iIntros "H1". iApply mwp_bind. iApply Rb; [lia|]. iFrame "H2". iIntros "H2". iApply mwp_ret.
    iSpecialize ("HQ" with "H1 H2"). by rw Nat2Z.id memcmp_take.
  - rw (proj2 (Z.eqb_neq (Z.of_nat (length n1)) (Z.of_nat (length n2)))); [|lia].
    iApply mwp_ret. iApply ("HQ" with "H1 H2").
Qed.

(** A copy of a key that is not static is a block of its own. *)
Lemma wp_copy_block c name R Q :
  reads c name R -> Z.of_nat (length name) < 2 ^ 30 -> policy_ c <> 0 ->
  R ∗ (∀ c', R -∗ name_at c' name -∗ Q c') ⊢ mem (CZString_copy c) Q.
Proof.
  intros (Hn & Hl & Hr) Hs Hp. iIntros "[HR HQ]". unfold CZString_copy.
  change (policy_num noDuplication) with 0. rw (proj2 (Z.eqb_neq _ _) Hp) Hn. cbn [negb andb].
  iApply mwp_bind. iApply (wp_duplicateStringValue _ _ name); [unfold maxInt; lia|lia| |].
  { rw Hl. specialize (Hr (Z.of_nat (length name))). rw Nat2Z.id firstn_all in Hr. apply Hr. lia. }
  iFrame "HR". iIntros (l) "HR Hc". iApply mwp_ret. iApply ("HQ" with "HR"). unfold name_at. cbn [cstr_ word_].
  rw Hl. by iFrame.
Qed.

Lemma key_eqb_CZString n1 n2 : CZString_eq n1 n2 = key_eqb n1 n2.
Proof.
  destruct (CZString_eq n1 n2) eqn:E.
  - apply CZString_eq_spec in E. subst. symmetry. apply key_eqb_refl.
  - symmetry. apply key_eqb_ne. intros ->. by rw (proj2 (CZString_eq_spec n2 n2)) in E.
Qed.

Lemma static_key_copy c s (name : bytes) Q :
  c = mkCZString (static_ptr s) (storage 0 (Z.of_nat (length name))) -> Z.of_nat (length name) < 2 ^ 30 ->
  Q c ⊢ mem (CZString_copy c) Q.
Proof.
  intros -> Hl. iIntros "HQ". unfold CZString_copy. rw policy_storage // length_small //. cbn.
  iApply mwp_bind. iApply mwp_ret. by iApply mwp_ret.
Qed.

#[export, refine] Instance name_KeyRep : KeyRep bytes := {|
  key_at := name_at;
  sought c name := reads c name emp;
  seed := name_seed;
|}.
Proof.
  - by intros c k (? & _).
  - intros c k d k' Q Hc. iIntros "[Hd HQ]". iDestruct (name_at_reads with "Hd") as "[[%Hd _] Hd]".
    iApply (wp_less d k' _ c k emp); [done..|]. iFrame "Hd". iSplitR; [done|]. iIntros "Hd _". by iApply "HQ".
  - intros c k d k' Q Hc. iIntros "[Hd HQ]". iDestruct (name_at_reads with "Hd") as "[[%Hd _] Hd]".
    iApply (wp_less c k emp d k'); [done..|]. iFrame "Hd". iIntros "_ Hd". by iApply "HQ".
  - intros c k d k' Q Hc. iIntros "[Hd HQ]". iDestruct (name_at_reads with "Hd") as "[[%Hd _] Hd]".
    iApply (wp_equal d k' _ c k emp); [done..|]. iFrame "Hd". iSplitR; [done|]. iIntros "Hd _".
    rw key_eqb_CZString. by iApply "HQ".
  - intros c k Q (Hr & Hl & [Hp|(s & Hc & Hk)]); iIntros "HQ".
    + iApply (wp_copy_block c k emp); [done|done|lia|]. iSplitR; [done|]. iIntros (c') "_". iApply "HQ".
    + iApply static_key_copy; [done..|]. iApply "HQ". subst c. by iPureIntro.
  - intros c k Q. iIntros "[Hc HQ]". destruct c as [[|s|s|l [| |]] w]; try done.
    + iDestruct "Hc" as "(%Hw & %Hl & %Hs)". cbn [word_] in Hw. subst w.
      iApply static_key_copy; [done..|]. iApply "HQ"; by iPureIntro.
    + iDestruct (name_at_reads with "Hc") as "[[%Hr %Hl] Hc]".
      iDestruct "Hc" as "[[%Hw _] Hl]". cbn [word_] in Hw. subst w.
      iApply wp_copy_block; [done|done|by rw policy_storage|]. iSplitL "Hl"; [by iFrame|].
      iIntros (c') "Hc Hc'". iApply ("HQ" with "Hc Hc'").
  - intros c k Q. iIntros "[Hc HQ]". destruct c as [[|s|s|l [| |]] w]; try done.
    + iDestruct "Hc" as "(%Hw & _)". cbn [word_] in Hw. subst w. unfold CZString_destroy.
      rw policy_storage //. by iApply mwp_ret.
    + iDestruct "Hc" as "[[%Hw _] Hl]". cbn [word_] in Hw. subst w. unfold CZString_destroy.
      rw policy_storage //. iApply mwp_free. iFrame.
Defined.
End names.
