(* ===== verification/JsonMemoryMaps.v ===== *)
(** * Values on the heap

    [value_at m v]: the value [m] in memory stands for [v] and owns exactly the
    blocks it needs.  Copying makes a second such value, destroying gives all
    blocks back, and the operations on maps do what those on sorted lists do. *)
From S2P Require Export JsonMemoryKeys.
Open Scope Z_scope.

(** ** Definitions *)

Section nodes_at.
Context `{Allocator} {K V W : Type} (key : MCZString -> K -> hpropI) (val : V -> W -> hpropI).

(** The nodes of a map, one for one. *)
Fixpoint nodes_at (m : list (MCZString * V)) (n : list (K * W)) : hpropI :=
  match m, n with
  | [], [] => emp
  | (c, x) :: m, (k, y) :: n => key c k ∗ val x y ∗ nodes_at m n
  | _, _ => False
  end.
End nodes_at.

(** The object of a map. *)
Definition map_object (l : positive) : hpropI := ∃ b, l ↦ b.

Definition payload_at `{Allocator} (val : MValue -> Value -> hpropI) (p : mpayload MValue) (q : payload Value) : hpropI :=
  match p, q with
  | MNull, PNull => emp
  | MInt i, PInt j => ⟨i = j⟩
  | MUInt i, PUInt j => ⟨i = j⟩
  | MReal d, PReal e => ⟨d = e⟩
  | MBool b, PBool c => ⟨b = c⟩
  | MString a s, PString t => string_at a s t
  | MArray l m, PArray n => map_object l ∗ nodes_at key_at val m n
  | MObject l m, PObject n => map_object l ∗ nodes_at key_at val m n
  | _, _ => False
  end.

Fixpoint value_at `{Allocator} (m : MValue) (v : Value) : hpropI :=
  ⟨mcomments_ m = comments_ v /\ mstart_ m = start_ v /\ mlimit_ m = limit_ v⟩ ∗
  payload_at value_at (mvalue_ m) (value_ v).

(** ** Induction on a value in memory *)

Definition payload_all (P : MValue -> Prop) (p : mpayload MValue) : Prop :=
  match p with MArray _ m | MObject _ m => Forall P m.*2 | _ => True end.

Lemma MValue_ind (P : MValue -> Prop) :
  (forall m, payload_all P (mvalue_ m) -> P m) -> forall m, P m.
Proof.
  intros Hstep. fix IH 1. intros [p c s l]. apply Hstep. cbn [mvalue_].
  assert (forall m : list (MCZString * MValue), Forall P m.*2) as Hall.
  { induction m as [|[k x] m IHm]; [by apply Forall_nil|]. apply Forall_cons. split; [apply IH|exact IHm]. }
  destruct p; [exact I..|apply Hall|apply Hall].
Qed.

Section values.
Context `{Allocator}.
Implicit Types (m : MValue) (v : Value).

Lemma value_at_unfold m v :
  value_at m v =
  (⟨mcomments_ m = comments_ v /\ mstart_ m = start_ v /\ mlimit_ m = limit_ v⟩ ∗
   payload_at value_at (mvalue_ m) (value_ v))%I.
Proof. by destruct m. Qed.

Section nodes.
Context {K : Type} `{!KeyOrd K, !KeyOrdLaws K, !KeyRep K}.
Implicit Types (l : list (MCZString * MValue)) (n : list (K * Value)).

(** Every value of the map is copied, or destroyed, as it should be. *)
Lemma wp_copy_nodes l n Q :
  Forall (fun m => forall v Q, value_at m v ∗ (∀ m', value_at m v -∗ value_at m' v -∗ Q m') ⊢ mem (value_copy m) Q) l.*2 ->
  nodes_at key_at value_at l n ∗
  (∀ l', nodes_at key_at value_at l n -∗ nodes_at key_at value_at l' n -∗ Q l') ⊢ mem (copy_nodes value_copy l) Q.
Proof.
  revert n Q. induction l as [|[c x] l IH]; intros [|[k y] n] Q Hl; iIntros "[Hn HQ]"; try done.
  - iApply mwp_ret. by iApply "HQ".
  - apply Forall_cons in Hl as [Hx Hl]. iDestruct "Hn" as "(Hc & Hx & Hn)". cbn [copy_nodes].
    iApply mwp_bind. iApply stored_copy. iFrame "Hc". iIntros (c') "Hc Hc'".
    iApply mwp_bind. iApply Hx. iFrame "Hx". iIntros (x') "Hx Hx'".
    iApply mwp_bind. iApply IH; [done|]. iFrame "Hn". iIntros (l') "Hn Hn'".
    iApply mwp_ret. iApply ("HQ" $! ((c', x') :: l') with "[$Hc $Hx $Hn] [$Hc' $Hx' $Hn']").
Qed.

Lemma wp_destroy_nodes l n Q :
  Forall (fun m => forall v Q, value_at m v ∗ Q tt ⊢ mem (value_destroy m) Q) l.*2 ->
  nodes_at key_at value_at l n ∗ Q tt ⊢ mem (destroy_nodes value_destroy l) Q.
Proof.
  revert n Q. induction l as [|[c x] l IH]; intros [|[k y] n] Q Hl; iIntros "[Hn HQ]"; try done.
  - by iApply mwp_ret.
  - apply Forall_cons in Hl as [Hx Hl]. iDestruct "Hn" as "(Hc & Hx & Hn)". cbn [destroy_nodes].
    iApply mwp_bind. iApply Hx. iFrame "Hx".
    iApply mwp_bind. iApply stored_destroy. iFrame "Hc". iApply IH; [done|]. iFrame.
Qed.
End nodes.

(** ** Copies and the end of values *)

Lemma wp_map_new Q : (∀ l, map_object l -∗ Q l) ⊢ mem map_new Q.
Proof.
  iIntros "HQ". unfold map_new. iApply mwp_bind. iApply mwp_malloc. iSplit.
  { iApply mwp_run. iPureIntro. right. by right. }
  iIntros (l) "Hl". iApply mwp_ret. iApply "HQ". by iExists _.
Qed.

Lemma wp_map_delete l Q : map_object l ∗ Q tt ⊢ mem (map_delete l) Q.
Proof. iIntros "[[%b Hl] HQ]". iApply mwp_free. iFrame. Qed.

Lemma wp_map_live l Q : map_object l ∗ (∀ b, map_object l -∗ Q b) ⊢ mem (live_block l) Q.
Proof.
  iIntros "[[%b Hl] HQ]". iApply wp_live_block. iFrame "Hl". iIntros "Hl". iApply "HQ". by iExists _.
Qed.

Lemma wp_dup_string a s t (Q : mpayload MValue -> hpropI) :
  string_at a s t ∗ (∀ p, string_at a s t -∗ payload_at value_at p (PString t) -∗ Q p) ⊢
  mem (dup_payload value_copy (MString a s)) Q.
Proof.
  iIntros "[Hs HQ]". cbn [dup_payload]. destruct a.
  - assert (is_nullptr s = false \/ s = nullptr) as [Hs| ->] by (destruct s; auto); [|done].
    rw Hs. cbn [negb andb]. iApply mwp_bind. iApply wp_decode. iFrame "Hs". iIntros (q) "%Hr Hs".
    iAssert (⟨Z.of_nat (length t) <= maxInt - 5⟩ ∗ string_at true s t)%I with "[Hs]" as "[%Hl Hs]".
    { destruct s as [| | |l [| |]]; try done. iDestruct "Hs" as "[%Hl Hs]". iFrame. by iPureIntro. }
    iApply mwp_bind. iApply (wp_duplicateAndPrefix _ _ t); [lia|lia|done|]. iFrame "Hs". iIntros (l) "Hs Hl".
    iApply mwp_ret. iApply ("HQ" with "Hs"). by iFrame.
  - rw andb_false_r. iApply mwp_ret. destruct s as [|t'|t'|l o]; try done.
    iDestruct "Hs" as %Hs. iApply "HQ"; by iPureIntro.
Qed.

Lemma wp_value_copy m v Q :
  value_at m v ∗ (∀ m', value_at m v -∗ value_at m' v -∗ Q m') ⊢ mem (value_copy m) Q.
Proof.
  revert v Q. induction m as [m IH] using MValue_ind. intros v Q. rw !value_at_unfold.
  iIntros "[[%Hm Hp] HQ]".
  assert (value_copy m = (p ← dup_payload value_copy (mvalue_ m);
    mret (mkMValue p (mcomments_ m) (mstart_ m) (mlimit_ m)))) as -> by by destruct m.
  iApply mwp_bind.
  iAssert (∀ p, payload_at value_at (mvalue_ m) (value_ v) -∗ payload_at value_at p (value_ v) -∗
    mem (mret (mkMValue p (mcomments_ m) (mstart_ m) (mlimit_ m))) Q)%I with "[HQ]" as "HQ".
  { iIntros (p) "Hp Hp'". iApply mwp_ret. iApply ("HQ" with "[$Hp //]"). rw value_at_unfold. by iFrame. }
  destruct (mvalue_ m) as [|i|i|d|a s|b|l n|l n], (value_ v) as [|j|j|e|t|c|n'|n']; try done; cbn [dup_payload payload_at].
  - iApply mwp_ret. by iApply "HQ".
  - iApply mwp_ret. iDestruct "Hp" as %->. by iApply "HQ".
  - iApply mwp_ret. iDestruct "Hp" as %->. by iApply "HQ".
  - iApply mwp_ret. iDestruct "Hp" as %->. by iApply "HQ".
  - iApply wp_dup_string. iFrame.
  - iApply mwp_ret. iDestruct "Hp" as %->. by iApply "HQ".
  - iDestruct "Hp" as "[Hl Hn]". iApply mwp_bind. iApply wp_map_live. iFrame "Hl". iIntros (b) "Hl".
    iApply mwp_bind. iApply wp_map_new. iIntros (l') "Hl'". iApply mwp_bind. iApply (wp_copy_nodes _ n'); [done|].
    iFrame "Hn". iIntros (m') "Hn Hn'". iApply mwp_ret. iApply ("HQ" $! (MArray l' m') with "[$Hl $Hn] [$Hl' $Hn']").
  - iDestruct "Hp" as "[Hl Hn]". iApply mwp_bind. iApply wp_map_live. iFrame "Hl". iIntros (b) "Hl".
    iApply mwp_bind. iApply wp_map_new. iIntros (l') "Hl'". iApply mwp_bind. iApply (wp_copy_nodes _ n'); [done|].
    iFrame "Hn". iIntros (m') "Hn Hn'". iApply mwp_ret. iApply ("HQ" $! (MObject l' m') with "[$Hl $Hn] [$Hl' $Hn']").
Qed.

Lemma wp_value_destroy m v Q : value_at m v ∗ Q tt ⊢ mem (value_destroy m) Q.
Proof.
  revert v Q. induction m as [m IH] using MValue_ind. intros v Q. rw value_at_unfold.
  iIntros "[[_ Hp] HQ]".
  assert (value_destroy m = release_payload value_destroy (mvalue_ m)) as -> by by destruct m.
  destruct (mvalue_ m) as [|i|i|d|a s|b|l n|l n], (value_ v) as [|j|j|e|t|c|n'|n']; try done;
    cbn [release_payload payload_at].
  1-4,6: by iApply mwp_ret; try iDestruct "Hp" as "%Hp".
  - destruct a, s as [|t'|t'|l [| |]]; try done.
    + iDestruct "Hp" as "[_ Hl]". iApply mwp_free. iFrame.
    + iDestruct "Hp" as "%Hp". by iApply mwp_ret.
  - iDestruct "Hp" as "[Hl Hn]". iApply mwp_bind. iApply (wp_destroy_nodes _ n'); [done|]. iFrame "Hn".
    iApply wp_map_delete. iFrame.
  - iDestruct "Hp" as "[Hl Hn]". iApply mwp_bind. iApply (wp_destroy_nodes _ n'); [done|]. iFrame "Hn".
    iApply wp_map_delete. iFrame.
Qed.

(** ** Looking for a node

    Whatever the nodes hold. *)

Section lookups.
Context {K W : Type} `{!KeyOrd K, !KeyOrdLaws K, !KeyRep K} {val : MValue -> W -> hpropI}.
Implicit Types (l : list (MCZString * MValue)) (n : list (K * W)) (w y : W).

Lemma nodes_at_app l1 l2 n1 n2 :
  nodes_at key_at val l1 n1 ∗ nodes_at key_at val l2 n2 ⊢ nodes_at key_at val (l1 ++ l2) (n1 ++ n2).
Proof.
  revert n1. induction l1 as [|[c x] l1 IH]; intros [|[k y] n1]; simpl; iIntros "[H1 H2]"; try done.
  iDestruct "H1" as "($ & $ & H1)". iApply IH. iFrame.
Qed.

(** The first of these nodes is not before [k]; it is node [k]. *)
Definition not_below (k : K) n : Prop := match n with [] => True | (k', _) :: _ => key_ltb k' k = false end.
Definition here (k : K) n : bool := match n with [] => false | (k', _) :: _ => key_eqb k' k end.

Lemma wp_lower_bound c k l n Q :
  sought c k ->
  nodes_at key_at val l n ∗
  (∀ l1 l2 n1 n2,
     ⟨l = l1 ++ l2 /\ n = n1 ++ n2 /\ Forall (fun kv => key_ltb kv.1 k = true) n1 /\ not_below k n2⟩ -∗
     nodes_at key_at val l1 n1 -∗ nodes_at key_at val l2 n2 -∗ Q (l1, l2)) ⊢
  mem (lower_bound c l) Q.
Proof.
  intros Hc. revert n Q. induction l as [|[d x] l IH]; intros [|[k' y] n] Q; iIntros "[Hn HQ]"; try done.
  - iApply mwp_ret. iApply ("HQ" $! [] [] [] []); [iPureIntro; split_and!; [done|done|by apply Forall_nil|done]|done|done].
  - iDestruct "Hn" as "(Hd & Hx & Hn)". cbn [lower_bound]. iApply mwp_bind. iApply stored_less; [done|].
    iFrame "Hd". iIntros "Hd". destruct (key_ltb k' k) eqn:E.
    + iApply mwp_bind. iApply IH. iFrame "Hn". iIntros (l1 l2 n1 n2 (-> & -> & Hall & Hnot)) "H1 H2".
      iApply mwp_ret. iApply ("HQ" $! ((d, x) :: l1) l2 ((k', y) :: n1) n2 with "[] [$Hd $Hx $H1] H2").
      iPureIntro. split_and!; [done|done|by apply Forall_cons|done].
    + iApply mwp_ret. iApply ("HQ" $! [] ((d, x) :: l) [] ((k', y) :: n) with "[] [] [$Hd $Hx $Hn]"); [|done].
      iPureIntro. split_and!; [done|done|by apply Forall_nil|done].
Qed.

Lemma wp_key_here c k l n Q :
  sought c k ->
  nodes_at key_at val l n ∗ (nodes_at key_at val l n -∗ Q (here k n)) ⊢ mem (key_here c l) Q.
Proof.
  intros Hc. destruct l as [|[d x] l], n as [|[k' y] n]; iIntros "[Hn HQ]"; try done.
  - iApply mwp_ret. by iApply "HQ".
  - iDestruct "Hn" as "(Hd & Hx & Hn)". cbn [key_here]. iApply stored_equal; [done|]. iFrame "Hd".
    iIntros "Hd". iApply "HQ". iFrame.
Qed.

Lemma om_emplace_split k w n1 n2 :
  Forall (fun kv => key_ltb kv.1 k = true) n1 -> not_below k n2 ->
  om_emplace k w (n1 ++ n2) = if here k n2 then n1 ++ n2 else n1 ++ (k, w) :: n2.
Proof.
  intros Hall Hn. induction Hall as [|[k' y] n1 Hk _ IH]; cbn [app om_emplace].
  - destruct n2 as [|[k' y] n2]; [done|]. cbn [om_emplace here not_below] in *. rw Hn.
    destruct (key_eqb k' k) eqn:E.
    + apply key_eqb_spec in E. subst. by rw key_ltb_irrefl.
    + destruct (key_ltb k k') eqn:E'; [done|]. unfold key_eqb in E. by rw Hn E' in E.
  - cbn [fst] in Hk. rw Hk IH (key_ltb_asym _ _ Hk). by destruct (here k n2).
Qed.

(** [find]: the node between the others. *)
Lemma om_find_split k n1 n2 :
  om_sorted (n1 ++ n2) -> Forall (fun kv => key_ltb kv.1 k = true) n1 -> not_below k n2 ->
  om_find k (n1 ++ n2) = match n2 with (k', w) :: _ => if key_eqb k' k then Some w else None | [] => None end.
Proof.
  intros Hs Hall Hn. induction Hall as [|[k' y] n1 Hk _ IH]; cbn [app].
  - destruct n2 as [|[k' w] n2]; [done|]. cbn [not_below] in Hn. destruct (key_eqb k' k) eqn:E.
    + apply key_eqb_spec in E. subst. cbn [om_find]. by rw key_eqb_refl.
    + apply om_find_head_lt; [|done]. unfold key_eqb in E. rw Hn in E. by destruct (key_ltb k k').
  - cbn [fst] in Hk. destruct Hs as [_ Hs]. cbn [om_find]. rw key_eqb_ne; [by apply IH|].
    intros ->. by rw key_ltb_irrefl in Hk.
Qed.

Lemma before_ne k k' y : key_ltb k' k = true -> key_eqb k k' = false.
Proof. intros Hk. apply key_eqb_ne. intros ->. by rw key_ltb_irrefl in Hk. Qed.

Lemma om_at_node k y n1 n2 (f : W -> W) :
  Forall (fun kv => key_ltb kv.1 k = true) n1 ->
  om_find k (n1 ++ (k, y) :: n2) = Some y /\
  om_alter k f (n1 ++ (k, y) :: n2) = n1 ++ (k, f y) :: n2 /\
  om_erase k (n1 ++ (k, y) :: n2) = n1 ++ n2.
Proof.
  induction 1 as [|[k' z] n1 Hk _ (IH1 & IH2 & IH3)]; cbn [app om_find om_alter om_erase].
  - by rw key_eqb_refl.
  - by rw (before_ne k k' z) // IH1 IH2 IH3.
Qed.

Lemma wp_mem_find c k l n Q :
  sought c k -> om_sorted n ->
  nodes_at key_at val l n ∗
  ((⟨om_find k n = None⟩ -∗ nodes_at key_at val l n -∗ Q None) ∧
   (∀ l1 d x l2 n1 y n2, ⟨l = l1 ++ (d, x) :: l2 /\ n = n1 ++ (k, y) :: n2 /\ Forall (fun kv => key_ltb kv.1 k = true) n1⟩ -∗
      nodes_at key_at val l1 n1 -∗ key_at d k -∗ val x y -∗ nodes_at key_at val l2 n2 -∗
      Q (Some (l1, (d, x), l2)))) ⊢
  mem (mem_find c l) Q.
Proof.
  intros Hc Hsort. iIntros "[Hn HQ]". unfold mem_find. iApply mwp_bind. iApply (wp_lower_bound _ _ _ n); [done|].
  iFrame "Hn". iIntros (l1 l2 n1 n2 (-> & -> & Hall & Hnot)) "H1 H2".
  pose proof (om_find_split _ _ _ Hsort Hall Hnot) as Hf.
  destruct l2 as [|[d x] l2], n2 as [|[k' y] n2]; try by iDestruct "H2" as "[]".
  - iApply mwp_ret. iDestruct "HQ" as "[HQ _]". iApply ("HQ" with "[//]"). iApply nodes_at_app. iFrame.
  - iDestruct "H2" as "(Hd & Hx & H2)". iApply mwp_bind. iApply sought_less; [done|]. iFrame "Hd". iIntros "Hd".
    iApply mwp_ret. cbn [not_below] in Hnot. unfold key_eqb in Hf. rw Hnot in Hf. cbn [negb andb] in Hf.
    destruct (key_ltb k k') eqn:E.
    + iDestruct "HQ" as "[HQ _]". iApply ("HQ" with "[//]"). iApply nodes_at_app. iFrame.
    + iDestruct "HQ" as "[_ HQ]". assert (k' = k) as -> by by apply key_ltb_total.
      iApply ("HQ" with "[//] H1 Hd Hx H2").
Qed.

End lookups.

(** ** Maps *)

Section maps.
Context {K : Type} `{!KeyOrd K, !KeyOrdLaws K, !KeyRep K}.
Implicit Types (l : list (MCZString * MValue)) (n : list (K * Value)).

Lemma mem_set_nodes_id m : mem_set_nodes (mem_nodes m) m = m.
Proof. by destruct m as [[] c s l]. Qed.

Lemma null_at : ⊢ value_at mem_null Value_null.
Proof. rw value_at_unfold. iSplit; [by iPureIntro|done]. Qed.

(** A null value owns nothing. *)
Lemma null_drop m : value_at m Value_null ⊢ emp.
Proof.
  rw value_at_unfold. iIntros "[%Hm Hp]". destruct (mvalue_ m); try done.
Qed.

Lemma wp_reference c k this n Q :
  seed c k ->
  nodes_at key_at value_at (mem_nodes this) n ∗
  (∀ l, nodes_at key_at value_at l (om_emplace k Value_null n) -∗ Q (mem_set_nodes l this)) ⊢
  mem (mem_reference c this) Q.
Proof.
  intros Hc. pose proof (seed_sought _ _ Hc) as Hs. iIntros "[Hn HQ]". unfold mem_reference.
  iApply mwp_bind. iApply (wp_lower_bound _ _ _ n); [done|]. iFrame "Hn".
  iIntros (l1 l2 n1 n2 (Hl & -> & Hall & Hnot)) "H1 H2".
  iApply mwp_bind. iApply (wp_key_here _ k _ n2); [done|]. iFrame "H2". iIntros "H2".
  rw (om_emplace_split _ _ _ _ Hall Hnot). destruct (here k n2).
  - iApply mwp_ret. rw -{2}(mem_set_nodes_id this) Hl. iApply "HQ". iApply nodes_at_app. iFrame.
  - iApply mwp_bind. iApply seed_copy; [done|]. iIntros (c1) "Hc1".
    iApply mwp_bind. iApply (wp_value_copy _ Value_null). iSplitR; [iApply null_at|]. iIntros (v1) "Hv0 Hv1".
    iApply mwp_bind. iApply stored_copy. iFrame "Hc1". iIntros (c2) "Hc1 Hc2".
    iApply mwp_bind. iApply wp_value_copy. iFrame "Hv1". iIntros (v2) "Hv1 Hv2".
    iApply mwp_bind. iApply wp_value_destroy. iFrame "Hv1".
    iApply mwp_bind. iApply stored_destroy. iFrame "Hc1". iApply mwp_ret.
    iApply "HQ". iApply nodes_at_app. iFrame "H1". simpl. iFrame.
Qed.

(** Writing through a reference to a node. *)
Lemma wp_write_nodes c k f this n w w' R Q :
  sought c k -> om_sorted n -> om_find k n = Some w ->
  (forall x Q', value_at x w ∗ R ∗ (∀ x', value_at x' w' -∗ Q' x') ⊢ mem (f x) Q') ->
  nodes_at key_at value_at (mem_nodes this) n ∗ R ∗
  (∀ l, nodes_at key_at value_at l (om_alter k (fun _ => w') n) -∗ Q (mem_set_nodes l this)) ⊢
  mem (mem_write_node c f this) Q.
Proof.
  intros Hc Hs Hf Hstep. iIntros "(Hn & HR & HQ)". unfold mem_write_node. iApply mwp_bind.
  iApply (wp_mem_find _ k); [done..|]. iFrame "Hn". iSplit.
  - iIntros (Hnone). congruence.
  - iIntros (l1 d x l2 n1 y n2 (Hl & -> & Hall)) "H1 Hd Hx H2".
    destruct (om_at_node k y n1 n2 (fun _ => w') Hall) as (Hf' & Ha & _).
    assert (y = w) as -> by congruence. rw Ha. iApply mwp_bind. iApply Hstep. iFrame "Hx HR".
    iIntros (x') "Hx'". iApply mwp_ret. iApply "HQ". iApply nodes_at_app. iFrame.
Qed.
End maps.
End values.
