(* ===== verification/JsonMemoryOps.v ===== *)
(** * The operations on values in memory

    Each, on values in memory, does what the operation of JsonValue.v does on the
    values they stand for. *)
From S2P Require Export JsonMemoryMaps.
Open Scope Z_scope.

Section operations.
Context `{Allocator}.
Implicit Types (m : MValue) (v : Value).

Lemma value_at_type m v : value_at m v ⊢ ⟨mem_type m = type v⟩ ∗ value_at m v.
Proof.
  rw value_at_unfold. iIntros "[%Hm Hp]". unfold mem_type, type.
  destruct (mvalue_ m), (value_ v); try done; iFrame; by iPureIntro.
Qed.

(** ** Assignment *)

Lemma wp_assign_temp this v temp Q : value_at this v ∗ Q temp ⊢ mem (mem_assign_temp this temp) Q.
Proof.
  iIntros "[Hthis HQ]". unfold mem_assign_temp. cbn. iApply mwp_bind. iApply wp_value_destroy. iFrame "Hthis".
  by iApply mwp_ret.
Qed.

Lemma wp_assign this v other w Q :
  value_at this v ∗ value_at other w ∗ (∀ m', value_at other w -∗ value_at m' w -∗ Q m') ⊢
  mem (mem_assign this other) Q.
Proof.
  iIntros "(Hthis & Hother & HQ)". unfold mem_assign. iApply mwp_bind. iApply wp_value_copy. iFrame "Hother".
  iIntros (m') "Hother Hm'". cbn. iApply mwp_bind. iApply wp_value_destroy. iFrame "Hthis".
  iApply mwp_ret. iApply ("HQ" with "Hother Hm'").
Qed.

(** ** Construction *)

Lemma wp_ofType t Q : (∀ m, value_at m (Value_ofType t) -∗ Q m) ⊢ mem (mem_ofType t) Q.
Proof.
  iIntros "HQ". unfold mem_ofType. iApply mwp_bind.
  iAssert (∀ p, payload_at value_at p (value_ (Value_ofType t)) -∗ mem (mret (mem_initBasic p)) Q)%I
    with "[HQ]" as "HQ".
  { iIntros (p) "Hp". iApply mwp_ret. iApply "HQ". rw value_at_unfold. iFrame. by iPureIntro. }
  destruct t; try (iApply mwp_ret; iApply "HQ"; first [done|by iPureIntro]).
  - iApply mwp_bind. iApply wp_map_new. iIntros (l) "Hl". iApply mwp_ret. iApply ("HQ" $! (MArray l [])).
    by iFrame.
  - iApply mwp_bind. iApply wp_map_new. iIntros (l) "Hl". iApply mwp_ret. iApply ("HQ" $! (MObject l [])).
    by iFrame.
Qed.

Lemma wp_string s v Q :
  Value_string s = Ret v -> (∀ m, value_at m v -∗ Q m) ⊢ mem (mem_string s) Q.
Proof.
  unfold Value_string, duplicateAndPrefixStringValue.
  intros (s' & [Hl%Z.leb_le [= <-]]%json_assert_bind & [= <-])%bind_Ret_inv. iIntros "HQ". unfold mem_string, u32.
  rw Z.mod_small; [|unfold maxInt in *; lia]. iApply mwp_bind.
  iApply (wp_duplicateAndPrefix _ _ s emp); [lia|lia| |].
  { pose proof (readable_caller s (Z.of_nat (length s))) as Hr. rw Nat2Z.id firstn_all in Hr. apply Hr. lia. }
  iSplitR; [done|]. iIntros (l) "_ Hl". iApply mwp_ret. iApply "HQ". rw value_at_unfold. simpl. iFrame.
  iPureIntro. by split_and!.
Qed.

Lemma static_at s : Z.of_nat (length (c_str s)) < 2 ^ 32 -> ⊢ value_at (mem_static s) (initBasic (PString (c_str s))).
Proof. intros Hs. rw value_at_unfold. iSplit; by iPureIntro. Qed.

(** ** Containers *)

(** [if (type() == nullValue) *this = Value(t)]. *)
Lemma wp_null_to t m v Q :
  value_at m v ∗ (∀ m', value_at m' (if isNull v then Value_ofType t else v) -∗ Q m') ⊢ mem (null_to t m) Q.
Proof.
  iIntros "[Hm HQ]". iDestruct (value_at_type with "Hm") as "[%Ht Hm]". unfold null_to, isNull. rw Ht.
  destruct (bool_decide _).
  - iApply mwp_bind. iApply wp_ofType. iIntros (temp) "Htemp". iApply wp_assign_temp. iFrame "Hm". by iApply "HQ".
  - iApply mwp_ret. by iApply "HQ".
Qed.

(** An array, an object: the nodes, and what they may be replaced by. *)
Lemma array_open m v n :
  value_ v = PArray n ->
  value_at m v ⊢ nodes_at key_at value_at (mem_nodes m) n ∗
    (∀ l n', nodes_at key_at value_at l n' -∗ value_at (mem_set_nodes l m) (set_payload (PArray n') v)).
Proof.
  intros Hv. rw value_at_unfold Hv. iIntros "[%Hm Hp]". unfold mem_nodes, mem_set_nodes.
  destruct m as [[] c s l]; try done. cbn [mvalue_ payload_at]. iDestruct "Hp" as "[Ho $]".
  iIntros (l' n') "Hn". rw value_at_unfold. simpl. iFrame. by iPureIntro.
Qed.

Lemma object_open m v n :
  value_ v = PObject n ->
  value_at m v ⊢ nodes_at key_at value_at (mem_nodes m) n ∗
    (∀ l n', nodes_at key_at value_at l n' -∗ value_at (mem_set_nodes l m) (set_payload (PObject n') v)).
Proof.
  intros Hv. rw value_at_unfold Hv. iIntros "[%Hm Hp]". unfold mem_nodes, mem_set_nodes.
  destruct m as [[] c s l]; try done. cbn [mvalue_ payload_at]. iDestruct "Hp" as "[Ho $]".
  iIntros (l' n') "Hn". rw value_at_unfold. simpl. iFrame. by iPureIntro.
Qed.

Lemma as_array_payload v : isNull v || isArray v = true -> value_ (as_array v) = PArray (array_map (as_array v)).
Proof.
  unfold as_array, array_map, isNull, isArray, type. destruct (value_ v) eqn:E; simpl; try done. by rw E.
Qed.

Lemma as_object_payload v : isNull v || isObject v = true -> value_ (as_object v) = PObject (object_map (as_object v)).
Proof.
  unfold as_object, object_map, isNull, isObject, type. destruct (value_ v) eqn:E; simpl; try done. by rw E.
Qed.

Lemma write_index_alter i f v n : value_ v = PArray n -> write_index i f v = set_payload (PArray (om_alter i f n)) v.
Proof. intros Hv. unfold write_index. by rw Hv. Qed.

Lemma write_key_alter k f v n : value_ v = PObject n -> write_key k f v = set_payload (PObject (om_alter k f n)) v.
Proof. intros Hv. unfold write_key. by rw Hv. Qed.

(** What [index_ref] and [resolveReference] leave is a map with the node. *)
Lemma index_ref_node i v v' :
  wf v -> in_u 32 i -> index_ref i v = Ret v' ->
  exists n w, value_ v' = PArray n /\ om_sorted n /\ om_find i n = Some w.
Proof.
  intros Hw Hi Hv. pose proof (wf_index_ref _ _ _ Hv Hi Hw) as Hw'.
  apply json_assert_bind in Hv as [Ht [= <-]]. eexists _, _. split; [done|].
  rw wf_unfold in Hw'. simpl in Hw'. destruct Hw' as [Hs _]. split; [done|].
  apply om_find_emplace_eq. apply wf_as_array in Hw. rw wf_unfold (as_array_payload _ Ht) in Hw. apply Hw.
Qed.

Lemma resolveReference_node k v v' :
  wf v -> Forall byte_ok k -> resolveReference k v = Ret v' ->
  exists n w, value_ v' = PObject n /\ om_sorted n /\ om_find (CZString k) n = Some w.
Proof.
  intros Hw Hk Hv. pose proof (wf_resolveReference _ _ _ Hk Hw Hv) as Hw'.
  apply json_assert_bind in Hv as [Ht [= <-]]. eexists _, _. split; [done|].
  rw wf_unfold in Hw'. simpl in Hw'. destruct Hw' as [Hs _]. split; [done|].
  apply om_find_emplace_eq. apply wf_as_object in Hw. rw wf_unfold (as_object_payload _ Ht) in Hw. apply Hw.
Qed.

Lemma wp_index_ref i m v v' Q :
  in_u 32 i -> index_ref i v = Ret v' ->
  value_at m v ∗ (∀ m', value_at m' v' -∗ Q m') ⊢ mem (mem_index_ref i m) Q.
Proof.
  intros Hi [Ht [= <-]]%json_assert_bind. iIntros "[Hm HQ]".
  iDestruct (value_at_type with "Hm") as "[%Hty Hm]". unfold mem_index_ref, is_null_or. rw Hty.
  iApply mwp_bind. unfold isNull, isArray in Ht. rw Ht. iApply wp_run_ret.
  iApply mwp_bind. iApply wp_null_to. iFrame "Hm". iIntros (m1) "Hm".
  iDestruct (array_open _ _ _ (as_array_payload _ Ht) with "Hm") as "[Hn Hm]".
  iApply (wp_reference _ i); [done|]. iFrame "Hn". iIntros (l) "Hn". iApply "HQ". by iApply "Hm".
Qed.

Lemma wp_resolveReference key m v v' Q :
  resolveReference key v = Ret v' ->
  value_at m v ∗ (∀ m', value_at m' v' -∗ Q m') ⊢ mem (mem_resolveReference key m) Q.
Proof.
  intros [Ht [= <-]]%json_assert_bind. iIntros "[Hm HQ]".
  iDestruct (value_at_type with "Hm") as "[%Hty Hm]". unfold mem_resolveReference, is_null_or. rw Hty.
  iApply mwp_bind. unfold isNull, isObject in Ht. rw Ht. iApply wp_run_ret.
  iApply mwp_bind. iApply wp_null_to. iFrame "Hm". iIntros (m1) "Hm".
  iDestruct (object_open _ _ _ (as_object_payload _ Ht) with "Hm") as "[Hn Hm]".
  iApply mwp_bind. iApply (wp_reference _ (CZString key)); [apply seed_key|]. iFrame "Hn". iIntros (l) "Hn".
  iApply mwp_bind. unfold CZString_destroy, CZString_new. rw policy_storage //. cbn.
  iApply mwp_ret. iApply mwp_ret. iApply "HQ". by iApply "Hm".
Qed.

Lemma seed_static s :
  name_seed (CZString_new (static_ptr s) (Z.of_nat (length (c_str s))) noDuplication) (CZString (c_str s)).
Proof.
  destruct (CZString_take (c_str s)) as [Hs Hl]. set (name := CZString (c_str s)) in *.
  assert (take (length name) s = name) as Ht.
  { transitivity (take (length name) (take (length (c_str s)) s)); [|by rw take_c_str -Hs].
    rw take_take. f_equal. pose proof (f_equal length Hs) as Hn. rw length_take in Hn. lia. }
  assert (storage 0 (Z.of_nat (length (c_str s))) = storage 0 (Z.of_nat (length name))) as Hw.
  { rw !storage_add Hl. by rw Z.mod_mod. }
  assert (Z.of_nat (length name) < 2 ^ 30) by (rw Hl; by apply Z.mod_pos_bound).
  split_and!; [|done|right; exists s; unfold CZString_new; simpl; by rw Hw].
  split_and!; [done|unfold CZString_new; by rw length_storage|]. intros n Hn. cbn [CZString_new cstr_].
  replace (take (Z.to_nat n) name) with (take (Z.to_nat n) s) by (rw -Ht take_take; f_equal; lia).
  apply readable_static. pose proof (f_equal length Ht) as Hlen. rw length_take in Hlen. lia.
Qed.

Lemma wp_resolveReference_static key m v v' Q :
  resolveReference (c_str key) v = Ret v' ->
  value_at m v ∗ (∀ m', value_at m' v' -∗ Q m') ⊢ mem (mem_resolveReference_static key m) Q.
Proof.
  intros [Ht [= <-]]%json_assert_bind. iIntros "[Hm HQ]".
  iDestruct (value_at_type with "Hm") as "[%Hty Hm]". unfold mem_resolveReference_static, is_null_or. rw Hty.
  iApply mwp_bind. unfold isNull, isObject in Ht. rw Ht. iApply wp_run_ret.
  iApply mwp_bind. iApply wp_null_to. iFrame "Hm". iIntros (m1) "Hm".
  iDestruct (object_open _ _ _ (as_object_payload _ Ht) with "Hm") as "[Hn Hm]".
  iApply mwp_bind. iApply mwp_ret.
  iApply mwp_bind. iApply (wp_reference _ (CZString (c_str key))); [apply seed_static|].
  iFrame "Hn". iIntros (l) "Hn".
  iApply mwp_bind. unfold CZString_destroy, CZString_new. rw policy_storage //. cbn.
  iApply mwp_ret. iApply mwp_ret. iApply "HQ". by iApply "Hm".
Qed.

(** ** [append] *)

Lemma nodes_indices l (n : list (Z * Value)) :
  nodes_at key_at value_at l n ⊢ ⟨(fun kv : MCZString * MValue => cz_index kv.1) <$> l = n.*1⟩ ∗ nodes_at key_at value_at l n.
Proof.
  revert n. induction l as [|[c x] l IH]; intros [|[i y] n]; iIntros "Hn"; try done.
  iDestruct "Hn" as "([%Hc %Hi] & Hx & Hn)". iDestruct (IH with "Hn") as "[%Hl Hn]". subst c.
  iSplitR; [iPureIntro; by rw fmap_cons Hl|]. iFrame. by iPureIntro.
Qed.

Lemma array_size m v n :
  value_ v = PArray n -> value_at m v ⊢ ⟨mem_size m = size v⟩ ∗ value_at m v.
Proof.
  intros Hv. rw value_at_unfold. unfold mem_size, size. rw Hv. iIntros "[%Hm Hp]".
  destruct m as [[] c s l]; try done. cbn [mvalue_ payload_at]. iDestruct "Hp" as "[Ho Hn]".
  iDestruct (nodes_indices with "Hn") as "[%Hl Hn]". iSplitR; [|iFrame; by iPureIntro]. iPureIntro.
  apply (f_equal last) in Hl. rw !fmap_last in Hl. unfold om_last.
  destruct (last map_) as [[c1 x]|], (last n) as [[i y]|]; try done. injection Hl as Hl. by f_equal; f_equal.
Qed.

Lemma size_in_range v : in_u 32 (size v).
Proof. apply size_range. Qed.

Lemma wp_append_move m2 w m v v' Q :
  append w v = Ret v' ->
  value_at m2 w ∗ value_at m v ∗ (∀ m', value_at m' v' -∗ Q (m', mem_null)) ⊢ mem (mem_append_move m2 m) Q.
Proof.
  intros [Ht [= <-]]%json_assert_bind. iIntros "(H2 & Hm & HQ)".
  iDestruct (value_at_type with "Hm") as "[%Hty Hm]". unfold mem_append_move, is_null_or. rw Hty.
  iApply mwp_bind. unfold isNull, isArray in Ht. rw Ht. iApply wp_run_ret.
  iApply mwp_bind. iApply wp_null_to. iFrame "Hm". iIntros (m1) "Hm". fold (isNull v). fold (as_array v).
  iDestruct (array_size _ _ _ (as_array_payload _ Ht) with "Hm") as "[%Hsize Hm]". rw Hsize.
  set (a := as_array v) in *.
  iDestruct (array_open _ _ _ (as_array_payload _ Ht) with "Hm") as "[Hn Hm]". fold a.
  assert (index_key (CZString_ofIndex (size a)) (size a)) as Hk by (split; [done|apply size_in_range]).
  cbn [value_move mem_swap]. iApply mwp_bind. iApply (wp_lower_bound _ (size a)); [exact Hk|]. iFrame "Hn".
  iIntros (l1 l2 n1 n2 (Hl & Hn & Hall & Hnot)) "H1 Hn2".
  iApply mwp_bind. iApply (wp_key_here _ (size a) _ n2); [exact Hk|]. iFrame "Hn2". iIntros "Hn2".
  rw Hn (om_emplace_split _ _ _ _ Hall Hnot). destruct (here (size a) n2).
  - iApply mwp_bind. iApply wp_value_destroy. iFrame "H2". iApply mwp_ret.
    rw -{2}(mem_set_nodes_id m1) Hl. iApply "HQ". iApply "Hm". iApply nodes_at_app. iFrame.
  - iApply mwp_ret. iApply "HQ". iApply "Hm". iApply nodes_at_app. iFrame "H1". simpl. iFrame. by iPureIntro.
Qed.

Lemma wp_append m2 w m v v' Q :
  append w v = Ret v' ->
  value_at m2 w ∗ value_at m v ∗ (∀ m', value_at m2 w -∗ value_at m' v' -∗ Q m') ⊢ mem (mem_append m2 m) Q.
Proof.
  intros Hv. iIntros "(H2 & Hm & HQ)". unfold mem_append. iApply mwp_bind. iApply wp_value_copy. iFrame "H2".
  iIntros (temp) "H2 Htemp". iApply mwp_bind. iApply wp_append_move; [done|]. iFrame "Htemp Hm".
  iIntros (m') "Hm'". cbn. iApply mwp_bind. iApply mwp_ret. iApply mwp_ret. iApply ("HQ" with "H2 Hm'").
Qed.

(** ** [removeMember], [clear] and writing through a reference *)

Lemma set_nodes_nodes l m : mem_set_nodes l (mem_set_nodes (mem_nodes m) m) = mem_set_nodes l m.
Proof. by destruct m as [[] c s li]. Qed.

Lemma wp_removeMember key removed w0 m v b r v' Q :
  wf v -> removeMember key v = (b, r, v') ->
  value_at removed w0 ∗ value_at m v ∗
  (∀ removed' m', value_at removed' (default w0 r) -∗ value_at m' v' -∗ Q (b, removed', m')) ⊢
  mem (mem_removeMember key removed m) Q.
Proof.
  intros Hw Hr. iIntros "(Hrem & Hm & HQ)". iDestruct (value_at_type with "Hm") as "[%Hty Hm]".
  unfold mem_removeMember. rw Hty. unfold removeMember, type in *.
  destruct (value_ v) as [|i|i|d|s|c|n|n] eqn:Hv;
    try (injection Hr as <- <- <-; iApply mwp_ret; iApply ("HQ" with "Hrem Hm")).
  cbn [negb]. iDestruct (object_open _ _ _ Hv with "Hm") as "[Hn Hm]".
  assert (om_sorted n) as Hs. { rw wf_unfold Hv in Hw. apply Hw. }
  iApply mwp_bind. iApply (wp_mem_find _ (CZString key)); [apply reads_key|done|]. iFrame "Hn". iSplit.
  - iIntros (Hf) "Hn". rw Hf in Hr. injection Hr as <- <- <-.
    iApply mwp_bind. unfold CZString_destroy, CZString_new. rw policy_storage //. cbn. iApply mwp_ret.
    iApply mwp_ret. iApply ("HQ" with "Hrem"). iSpecialize ("Hm" with "Hn"). rw mem_set_nodes_id.
    by assert (set_payload (PObject n) v = v) as -> by (rw -Hv; by destruct v).
  - iIntros (l1 d x l2 n1 y n2 (Hl & -> & Hall)) "H1 Hd Hx H2".
    destruct (om_at_node (CZString key) y n1 n2 (fun w => w) Hall) as (Hf & _ & He). rw Hf He in Hr.
    injection Hr as <- <- <-. cbn [mem_assign_move mem_swap].
    iApply mwp_bind. cbn [destroy_nodes]. iApply mwp_bind. iApply wp_value_destroy. iFrame "Hrem".
    iApply mwp_bind. iApply stored_destroy. iFrame "Hd". iApply mwp_ret.
    iApply mwp_bind. unfold CZString_destroy, CZString_new. rw policy_storage //. cbn. iApply mwp_ret.
    iApply mwp_ret. iApply ("HQ" with "Hx"). iApply "Hm". iApply (nodes_at_app (K:=bytes)). iFrame.
Qed.

Lemma all_destroyed (l : list (MCZString * MValue)) :
  Forall (fun m => forall v Q, value_at m v ∗ Q tt ⊢ mem (value_destroy m) Q) l.*2.
Proof. apply Forall_forall. intros m _ v Q. apply wp_value_destroy. Qed.

Lemma wp_clear m v v' Q :
  clear v = Ret v' -> value_at m v ∗ (∀ m', value_at m' v' -∗ Q m') ⊢ mem (mem_clear m) Q.
Proof.
  intros [Ht [= <-]]%json_assert_bind. iIntros "[Hm HQ]".
  iDestruct (value_at_type with "Hm") as "[%Hty Hm]". unfold mem_clear. rw Hty.
  iApply mwp_bind. unfold isNull, isArray, isObject in Ht. rw Ht. iApply wp_run_ret.
  rw value_at_unfold. iDestruct "Hm" as "[(%Hc & %Hs & %Hl) Hp]". unfold setOffsetLimit, setOffsetStart.
  unfold type in Ht. destruct m as [p c s l]. cbn [mem_nodes mem_set_nodes mvalue_ value_ mcomments_] in *.
  destruct p, (value_ v) eqn:Hv; try done; cbn [payload_at].
  - iApply mwp_bind. iApply mwp_ret. iApply mwp_ret. iApply "HQ". rw value_at_unfold. simpl.
    iSplit; [by iPureIntro|done].
  - iDestruct "Hp" as "[Ho Hn]". iApply mwp_bind. iApply (wp_destroy_nodes _ map_0); [apply all_destroyed|].
    iFrame "Hn". iApply mwp_ret. iApply "HQ". rw value_at_unfold. simpl. iFrame. by iPureIntro.
  - iDestruct "Hp" as "[Ho Hn]". iApply mwp_bind. iApply (wp_destroy_nodes _ map_0); [apply all_destroyed|].
    iFrame "Hn". iApply mwp_ret. iApply "HQ". rw value_at_unfold. simpl. iFrame. by iPureIntro.
Qed.

(** [node = v], for a copy [temp] of [v]: it is exchanged with the value of the node. *)
Lemma wp_store_key key m v n old temp w Q :
  value_ v = PObject n -> om_sorted n -> om_find (CZString key) n = Some old ->
  value_at m v ∗ value_at temp w ∗ (∀ m', value_at m' (write_key (CZString key) (fun _ => w) v) -∗ Q m') ⊢
  mem (mem_write_node (CZString_new (caller_ptr key) (Z.of_nat (length key)) noDuplication)
         (fun x => mem_assign_temp x temp) m) Q.
Proof.
  intros Hv Hs Hf. iIntros "(Hm & Ht & HQ)". iDestruct (object_open _ _ _ Hv with "Hm") as "[Hn Hm]".
  iApply (wp_write_nodes _ (CZString key) _ _ n old w (value_at temp w)); [apply reads_key|done|done| |].
  { intros x Q'. iIntros "(Hx & Ht & HQ)". iApply wp_assign_temp. iFrame "Hx". by iApply "HQ". }
  iFrame "Hn Ht". iIntros (l) "Hn". iApply "HQ". rw (write_key_alter _ _ _ _ Hv). by iApply "Hm".
Qed.

Lemma wp_store_index i m v n old temp w Q :
  in_u 32 i -> value_ v = PArray n -> om_sorted n -> om_find i n = Some old ->
  value_at m v ∗ value_at temp w ∗ (∀ m', value_at m' (write_index i (fun _ => w) v) -∗ Q m') ⊢
  mem (mem_write_node (CZString_ofIndex i) (fun x => mem_assign_temp x temp) m) Q.
Proof.
  intros Hi Hv Hs Hf. iIntros "(Hm & Ht & HQ)". iDestruct (array_open _ _ _ Hv with "Hm") as "[Hn Hm]".
  iApply (wp_write_nodes _ i _ _ n old w (value_at temp w)); [by split|done|done| |].
  { intros x Q'. iIntros "(Hx & Ht & HQ)". iApply wp_assign_temp. iFrame "Hx". by iApply "HQ". }
  iFrame "Hn Ht". iIntros (l) "Hn". iApply "HQ". rw (write_index_alter _ _ _ _ Hv). by iApply "Hm".
Qed.

End operations.
