(* ===== verification/JsonMemoryArrays.v ===== *)
(** * Arrays in memory

    [insert], [removeIndex] and [resize]: the loops move values between the nodes
    of a map, so a node may lend its value for a while. *)
From S2P Require Export JsonMemoryOps.
Open Scope Z_scope.

(** ** Nodes that have lent their values *)

Section holes.
Context `{Allocator}.
Implicit Types (l : list (MCZString * MValue)) (n : list (Z * Value)) (o : list (Z * option Value)).

Definition lent_at (x : MValue) (o : option Value) : hpropI :=
  match o with Some v => value_at x v | None => emp end.

Definition whole n : list (Z * option Value) := prod_map id Some <$> n.

Lemma whole_at l n : nodes_at key_at value_at l n ⊣⊢ nodes_at key_at lent_at l (whole n).
Proof.
  revert n. induction l as [|[c x] l IH]; intros [|[k y] n]; [done..|]. simpl. by rw IH.
Qed.

Lemma whole_sorted n : om_sorted n -> om_sorted (whole n).
Proof.
  induction n as [|[k y] n IH]; [done|]. intros [Hk Hs]. split; [|by apply IH].
  apply Forall_fmap. by eapply Forall_impl.
Qed.

Lemma whole_find i n : om_find i (whole n) = Some <$> om_find i n.
Proof. induction n as [|[k y] n IH]; [done|]. cbn. by destruct (key_eqb i k). Qed.

Lemma whole_alter i w n : om_alter i (fun _ => Some w) (whole n) = whole (om_alter i (fun _ => w) n).
Proof. induction n as [|[k y] n IH]; [done|]. cbn. destruct (key_eqb i k); [done|]. by rw IH. Qed.
Lemma alter_comm i j (f g : option Value -> option Value) o :
  i <> j -> om_alter i f (om_alter j g o) = om_alter j g (om_alter i f o).
Proof.
  intros Hij. induction o as [|[k y] o IH]; [done|]. cbn [om_alter].
  destruct (key_eqb j k) eqn:Ej, (key_eqb i k) eqn:Ei; cbn [om_alter]; rw ?Ei ?Ej //.
  - apply key_eqb_spec in Ei, Ej. congruence.
  - by rw IH.
Qed.

(** The value of node [i] is read; it is given back, or kept. *)
Lemma wp_lend i this o w Q :
  in_u 32 i -> om_sorted o -> om_find i o = Some (Some w) ->
  nodes_at key_at lent_at (mem_nodes this) o ∗
  (∀ x, value_at x w -∗
     (value_at x w -∗ nodes_at key_at lent_at (mem_nodes this) o) ∧
     nodes_at key_at lent_at (mem_nodes this) (om_alter i (fun _ => None) o) -∗ Q x) ⊢
  mem (mem_read_node (CZString_ofIndex i) this) Q.
Proof.
  intros Hi Hs Hf. iIntros "[Hn HQ]". unfold mem_read_node. iApply mwp_bind.
  iApply (wp_mem_find _ i); [by split|done|]. iFrame "Hn". iSplit.
  - iIntros (Hnone). congruence.
  - iIntros (l1 d x l2 n1 y n2 (Hl & -> & Hall)) "H1 Hd Hx H2". iApply mwp_ret.
    destruct (om_at_node i y n1 n2 (fun _ => None) Hall) as (Hf' & Ha & _).
    assert (y = Some w) as -> by congruence. rw Ha Hl. iApply ("HQ" with "Hx").
    iSplit; [iIntros "Hx"|]; iApply nodes_at_app; simpl; iFrame.
Qed.

(** A node that has lent its value gets one. *)
Lemma wp_give i this o x w Q :
  in_u 32 i -> om_sorted o -> om_find i o = Some None ->
  nodes_at key_at lent_at (mem_nodes this) o ∗ value_at x w ∗
  (∀ l, nodes_at key_at lent_at l (om_alter i (fun _ => Some w) o) -∗ Q (mem_set_nodes l this)) ⊢
  mem (mem_write_node (CZString_ofIndex i) (fun _ => mret x) this) Q.
Proof.
  intros Hi Hs Hf. iIntros "(Hn & Hx & HQ)". unfold mem_write_node. iApply mwp_bind.
  iApply (wp_mem_find _ i); [by split|done|]. iFrame "Hn". iSplit.
  - iIntros (Hnone). congruence.
  - iIntros (l1 d z l2 n1 y n2 (Hl & -> & Hall)) "H1 Hd Hz H2". iApply mwp_bind. iApply mwp_ret. iApply mwp_ret.
    destruct (om_at_node i y n1 n2 (fun _ => Some w) Hall) as (Hf' & Ha & _).
    assert (y = None) as -> by congruence. rw Ha. iApply "HQ". iApply nodes_at_app. simpl. iFrame.
Qed.
End holes.

(** ** Containers *)

Section arrays.
Context `{Allocator}.
Implicit Types (m : MValue) (v : Value).

Lemma set_set_nodes l1 l2 m : mem_set_nodes l2 (mem_set_nodes l1 m) = mem_set_nodes l2 m.
Proof. by destruct m as [[] c s li]. Qed.

Lemma nodes_of_set l m : mem_type m = arrayValue -> mem_nodes (mem_set_nodes l m) = l.
Proof. by destruct m as [[] c s li]. Qed.

Lemma type_array v n : value_ v = PArray n -> type v = arrayValue.
Proof. intros Hv. unfold type. by rw Hv. Qed.

(** A sorted array, and its values. *)
Lemma wf_sorted v n : wf v -> value_ v = PArray n -> om_sorted n.
Proof. intros Hw Hv. rw wf_unfold Hv in Hw. apply Hw. Qed.

Lemma set_payload_id v p : value_ v = p -> set_payload p v = v.
Proof. intros <-. by destruct v. Qed.

(** The nodes of an array, which may lend their values until the array is put
    together again. *)
Lemma array_lends m v n :
  value_ v = PArray n ->
  value_at m v ⊢ ⟨mem_type m = arrayValue⟩ ∗ nodes_at key_at lent_at (mem_nodes m) (whole n) ∗
    (∀ l n', nodes_at key_at lent_at l (whole n') -∗ value_at (mem_set_nodes l m) (set_payload (PArray n') v)).
Proof.
  intros Hv. iIntros "Hm". iDestruct (value_at_type with "Hm") as "[%Ht Hm]".
  rw (type_array _ _ Hv) in Ht. iDestruct (array_open _ _ _ Hv with "Hm") as "[Hn Hm]".
  iSplitR; [done|]. rw whole_at. iFrame "Hn". iIntros (l n') "Hn". rw -whole_at. by iApply "Hm".
Qed.
Lemma index_ref_keeps i j v n v' w :
  i <> j -> value_ v = PArray n -> om_find j n = Some w -> index_ref i v = Ret v' ->
  exists n', value_ v' = PArray n' /\ om_find j n' = Some w.
Proof.
  intros Hij Hv Hf [_ [= <-]]%json_assert_bind. eexists. split; [done|].
  rw om_find_emplace_ne; [|done]. unfold as_array, array_map, isNull, type. rw Hv. simpl. by rw Hv.
Qed.

(** ** [insert] *)

(** Two nodes exchange their values. *)
Lemma wp_exchange i j m v n a b Q :
  in_u 32 i -> in_u 32 j -> i <> j -> value_ v = PArray n -> om_sorted n ->
  om_find i n = Some a -> om_find j n = Some b ->
  value_at m v ∗ (∀ m', value_at m' (write_index j (fun _ => a) (write_index i (fun _ => b) v)) -∗ Q m') ⊢
  mem (x ← mem_read_node (CZString_ofIndex i) m;
       y ← mem_read_node (CZString_ofIndex j) m;
       let '(x, y) := mem_assign_move x y in
       m ← mem_write_node (CZString_ofIndex i) (fun _ => mret x) m;
       mem_write_node (CZString_ofIndex j) (fun _ => mret y) m) Q.
Proof.
  intros Hi Hj Hij Hv Hs%whole_sorted Ha Hb. iIntros "[Hm HQ]".
  iDestruct (array_lends _ _ _ Hv with "Hm") as "(%Ht & Hn & Hm)".
  set (o := om_alter j (fun _ => None) (om_alter i (fun _ => None) (whole n))).
  assert (om_sorted o) as Ho by by do 2 apply om_alter_sorted.
  iApply mwp_bind. iApply (wp_lend i _ (whole n) a); [done|done|by rw whole_find Ha|]. iFrame "Hn".
  iIntros (x) "Hx [_ Hn]". iApply mwp_bind.
  iApply (wp_lend j _ (om_alter i (fun _ => None) (whole n)) b); [done|by apply om_alter_sorted|by rw om_find_alter_ne // whole_find Hb|]. iFrame "Hn".
  iIntros (y) "Hy [_ Hn]". cbn [mem_assign_move mem_swap]. iApply mwp_bind. iApply (wp_give i _ o y b); [done..| |].
  { by rw om_find_alter_ne // om_find_alter_eq whole_find Ha. }
  iFrame "Hn Hy". iIntros (l1) "Hn". iApply (wp_give j _ (om_alter i (fun _ => Some b) o) x a); [done|by apply om_alter_sorted|..].
  { by rw om_find_alter_ne // om_find_alter_eq om_find_alter_ne // whole_find Hb. }
  rw nodes_of_set //. iFrame "Hn Hx". iIntros (l2) "Hn". rw set_set_nodes. iApply "HQ". unfold o.
  rw (alter_comm i j) // !om_alter_compose !whole_alter.
  rw (write_index_alter i _ v n Hv) (write_index_alter j _ _ (om_alter i (fun _ => b) n)) //.
  iApply ("Hm" with "Hn").
Qed.

Lemma wp_move_node i j m v v' Q :
  in_u 32 i -> in_u 32 j -> i <> j -> wf v -> move_node i j v = Ret v' ->
  value_at m v ∗ (∀ m', value_at m' v' -∗ Q m') ⊢ mem (mem_move_node i j m) Q.
Proof.
  intros Hi Hj Hij Hw (v1 & H1 & (v2 & H2 & [= <-])%bind_Ret_inv)%bind_Ret_inv.
  assert (wf v1) as Hw1 by by eapply wf_index_ref.
  destruct (index_ref_node _ _ _ Hw Hj H1) as (n1 & b & Hv1 & _ & Hb1).
  destruct (index_ref_node _ _ _ Hw1 Hi H2) as (n2 & a & Hv2 & Hs & Ha).
  destruct (index_ref_keeps _ _ _ _ _ _ Hij Hv1 Hb1 H2) as (n & Hv2' & Hb).
  assert (n = n2) as -> by congruence. iIntros "[Hm HQ]". unfold mem_move_node.
  iApply mwp_bind. iApply wp_index_ref; [done|done|]. iFrame "Hm". iIntros (m1) "Hm".
  iApply mwp_bind. iApply wp_index_ref; [done|done|]. iFrame "Hm". iIntros (m2) "Hm".
  iApply (wp_exchange i j _ _ n2 a b); [done..|]. iFrame "Hm". unfold array_map. by rw Hv2 Ha Hb.
Qed.

Lemma wp_insert_shift k i m v v' Q :
  Z.of_nat k <= i -> i < 2 ^ 32 -> wf v -> insert_shift k i v = Ret v' ->
  value_at m v ∗ (∀ m', value_at m' v' -∗ Q m') ⊢ mem (mem_insert_shift k i m) Q.
Proof.
  revert i m v. induction k as [|k IH]; intros i m v Hk Hi Hw Hv; iIntros "[Hm HQ]".
  - injection Hv as <-. iApply mwp_ret. by iApply "HQ".
  - apply bind_Ret_inv in Hv as (v1 & H1 & Hv). iApply mwp_bind.
    iApply (wp_move_node i (i - 1)); [unfold in_u; lia..|done|exact H1|]. iFrame "Hm". iIntros (m1) "Hm".
    iApply (IH _ _ v1); [lia|lia| |done|iFrame].
    eapply wf_move_node; [| |exact Hw|exact H1]; unfold in_u; lia.
Qed.

Lemma value_size m v :
  isNull v || isArray v = true -> value_at m v ⊢ ⟨mem_size m = size v⟩ ∗ value_at m v.
Proof.
  unfold isNull, isArray, type. destruct (value_ v) as [| | | | | |n|] eqn:Hv; try done; intros _.
  - rw value_at_unfold Hv. iIntros "[%Hm Hp]". unfold mem_size, size. rw Hv.
    destruct (mvalue_ m); try done.
  - by apply (array_size _ _ n).
Qed.

Lemma requires_array v : isNull v || isArray v = true ->
  bool_decide (type v = nullValue) || bool_decide (type v = arrayValue) = true.
Proof. done. Qed.

Lemma wp_insert_move i x w m v b v' Q :
  in_u 32 i -> wf v -> insert i w v = Ret (b, v') ->
  value_at x w ∗ value_at m v ∗
  (∀ x' w' m', value_at x' w' -∗ value_at m' v' -∗ Q (b, x', m')) ⊢ mem (mem_insert_move i x m) Q.
Proof.
  intros Hi Hw [Ht Hv]%json_assert_bind. cbv zeta in Hv. pose proof (size_in_range v) as Hr. unfold in_u in Hi, Hr.
  iIntros "(Hx & Hm & HQ)". iDestruct (value_at_type with "Hm") as "[%Hty Hm]".
  iDestruct (value_size _ _ Ht with "Hm") as "[%Hs Hm]". unfold mem_insert_move, is_null_or.
  rw Hty (requires_array _ Ht) Hs. iApply mwp_bind. iApply wp_run_ret. destruct (size v <? i) eqn:E.
  - injection Hv as <- <-. iApply mwp_ret. iApply ("HQ" with "Hx Hm").
  - zbool. apply bind_Ret_inv in Hv as (v1 & H1 & (v2 & H2 & [= <- <-])%bind_Ret_inv).
    assert (wf v1) as Hw1 by (eapply wf_insert_shift; [..|exact H1]; [lia|lia|done]).
    destruct (index_ref_node _ _ _ Hw1 Hi H2) as (n & old & Hv2 & Hsort & Hf).
    iApply mwp_bind. iApply (wp_insert_shift _ _ _ v v1); [lia|lia|done|exact H1|]. iFrame "Hm". iIntros (m1) "Hm".
    iApply mwp_bind. iApply wp_index_ref; [done|exact H2|]. iFrame "Hm". iIntros (m2) "Hm".
    iDestruct (array_lends _ _ _ Hv2 with "Hm") as "(%Hty2 & Hn & Hm)".
    iApply mwp_bind. iApply (wp_lend i _ (whole n) old); [done|by apply whole_sorted|by rw whole_find Hf|].
    iFrame "Hn". iIntros (y) "Hy [_ Hn]". cbn [mem_assign_move mem_swap].
    iApply mwp_bind. iApply (wp_give i _ (om_alter i (fun _ => None) (whole n)) x w); [done|..].
    { by apply om_alter_sorted, whole_sorted. }
    { by rw om_find_alter_eq whole_find Hf. }
    iFrame "Hn Hx". iIntros (l) "Hn". iApply mwp_ret. iApply ("HQ" with "Hy").
    rw om_alter_compose whole_alter (write_index_alter _ _ _ n) //. iApply ("Hm" with "Hn").
Qed.

Lemma wp_insert i x w m v b v' Q :
  in_u 32 i -> wf v -> insert i w v = Ret (b, v') ->
  value_at x w ∗ value_at m v ∗ (∀ m', value_at x w -∗ value_at m' v' -∗ Q (b, m')) ⊢ mem (mem_insert i x m) Q.
Proof.
  intros Hi Hw Hv. iIntros "(Hx & Hm & HQ)". unfold mem_insert. iApply mwp_bind. iApply wp_value_copy. iFrame "Hx".
  iIntros (temp) "Hx Ht". iApply mwp_bind. iApply wp_insert_move; [done..|]. iFrame "Ht Hm".
  iIntros (x' w' m') "Ht Hm". cbn. iApply mwp_bind. iApply wp_value_destroy. iFrame "Ht". iApply mwp_ret.
  iApply ("HQ" with "Hx Hm").
Qed.

(** ** [erase] *)

Lemma wp_erase_nodes {K} `{!KeyOrd K, !KeyOrdLaws K, !KeyRep K} c (k : K) m n Q :
  sought c k -> om_sorted n ->
  nodes_at key_at value_at (mem_nodes m) n ∗
  (∀ l, nodes_at key_at value_at l (om_erase k n) -∗ Q (mem_set_nodes l m)) ⊢ mem (mem_erase c m) Q.
Proof.
  intros Hc Hs. iIntros "[Hn HQ]". unfold mem_erase. iApply mwp_bind.
  iApply (wp_mem_find _ k); [done..|]. iFrame "Hn". iSplit.
  - iIntros (Hf) "Hn". rw om_erase_notin //. iApply mwp_ret. iSpecialize ("HQ" with "Hn"). by rw mem_set_nodes_id.
  - iIntros (l1 d x l2 n1 y n2 (Hl & -> & Hall)) "H1 Hd Hx H2".
    destruct (om_at_node k y n1 n2 (fun w => w) Hall) as (_ & _ & He). rw He.
    iApply mwp_bind. iApply (wp_destroy_nodes [(d, x)] [(k, y)]).
    { apply all_destroyed. }
    simpl. iFrame "Hd Hx". iApply mwp_ret. iApply "HQ". iApply nodes_at_app. iFrame.
Qed.

Lemma wp_erase i m v n Q :
  in_u 32 i -> wf v -> value_ v = PArray n ->
  value_at m v ∗ (∀ m', value_at m' (set_payload (PArray (om_erase i n)) v) -∗ Q m') ⊢
  mem (mem_erase (CZString_ofIndex i) m) Q.
Proof.
  intros Hi Hw Hv. iIntros "[Hm HQ]". iDestruct (array_open _ _ _ Hv with "Hm") as "[Hn Hm]".
  iApply (wp_erase_nodes _ i _ n); [by split|by eapply wf_sorted|]. iFrame "Hn". iIntros (l) "Hn". iApply "HQ".
  by iApply "Hm".
Qed.

Lemma wp_removeMember_void key m v v' Q :
  wf v -> removeMember_void key v = Ret v' ->
  value_at m v ∗ (∀ m', value_at m' v' -∗ Q m') ⊢ mem (mem_removeMember_void key m) Q.
Proof.
  intros Hw [Ht Hv]%json_assert_bind. iIntros "[Hm HQ]".
  iDestruct (value_at_type with "Hm") as "[%Hty Hm]". unfold mem_removeMember_void, is_null_or. rw Hty.
  iApply mwp_bind. unfold isNull, isObject in *. rw Ht. iApply wp_run_ret. destruct (bool_decide (type v = nullValue)).
  - injection Hv as <-. iApply mwp_ret. by iApply "HQ".
  - simpl in Ht. injection Hv as <-. unfold type, object_map in *. destruct (value_ v) as [| | | | | | |n] eqn:Hv; try done.
    iDestruct (object_open _ _ _ Hv with "Hm") as "[Hn Hm]".
    iApply mwp_bind. iApply (wp_erase_nodes _ (CZString (c_str key)) _ n); [apply reads_key| |].
    { rw wf_unfold Hv in Hw. apply Hw. }
    iFrame "Hn". iIntros (l) "Hn". iApply mwp_bind. unfold CZString_destroy, CZString_new. rw policy_storage //. cbn.
    iApply mwp_ret. iApply mwp_ret. iApply "HQ". by iApply "Hm".
Qed.

(** ** [removeIndex] *)

Lemma wp_before {K} `{!KeyOrd K, !KeyOrdLaws K, !KeyRep K} c (k : K) l n Q :
  sought c k -> not_below k n ->
  nodes_at key_at value_at l n ∗ (nodes_at key_at value_at l n -∗ Q (negb (here k n))) ⊢
  mem (match l with [] => mret true | (d, _) :: _ => CZString_less c d end) Q.
Proof.
  intros Hc Hn. destruct l as [|[d x] l], n as [|[k' y] n]; iIntros "[Hn HQ]"; try done.
  - iApply mwp_ret. by iApply "HQ".
  - iDestruct "Hn" as "(Hd & Hx & Hn)". iApply sought_less; [done|]. iFrame "Hd". iIntros "Hd".
    cbn [here not_below] in *. unfold key_eqb. rw Hn negb_involutive. iApply "HQ". iFrame.
Qed.

Lemma wp_map_ref i m v n v' Q :
  in_u 32 i -> value_ v = PArray n -> index_ref i v = Ret v' ->
  value_at m v ∗ (∀ m', value_at m' v' -∗ Q m') ⊢ mem (mem_map_ref (CZString_ofIndex i) m) Q.
Proof.
  intros Hi Hv [_ [= <-]]%json_assert_bind. assert (as_array v = v) as ->.
  { unfold as_array, isNull, type. by rw Hv. }
  unfold array_map. rw Hv. iIntros "[Hm HQ]". iDestruct (array_open _ _ _ Hv with "Hm") as "[Hn Hm]".
  assert (index_key (CZString_ofIndex i) i) as Hk by by split.
  iApply mwp_bind. iApply (wp_lower_bound _ i _ n); [exact Hk|]. iFrame "Hn".
  iIntros (l1 l2 n1 n2 (Hl & -> & Hall & Hnot)) "H1 H2". rw (om_emplace_split _ _ _ _ Hall Hnot).
  iApply mwp_bind. iApply (wp_before _ i l2 n2); [exact Hk|done|]. iFrame "H2". iIntros "H2".
  destruct (here i n2); cbn [negb].
  - iApply mwp_ret. iSpecialize ("Hm" $! (l1 ++ l2) with "[H1 H2]"); [iApply nodes_at_app; iFrame|].
    rw -Hl mem_set_nodes_id. by iApply "HQ".
  - iApply mwp_bind. iApply (index_copy _ i); [exact Hk|]. iApply mwp_ret. iApply "HQ". iApply "Hm".
    iApply nodes_at_app. iFrame "H1". simpl. iFrame "H2". iSplit; [by iPureIntro|]. iApply null_at.
Qed.

(** A node is copied to another one. *)
Lemma wp_copy_node {A} i j m v n old src (rest : MValue -> ST heap A) Q :
  in_u 32 i -> in_u 32 j -> value_ v = PArray n -> om_sorted n ->
  om_find i n = Some old -> om_find j n = Some src ->
  value_at m v ∗ (∀ m', value_at m' (write_index i (fun _ => src) v) -∗ mem (rest m') Q) ⊢
  mem (x ← mem_read_node (CZString_ofIndex j) m;
       temp ← value_copy x;
       m ← mem_write_node (CZString_ofIndex i) (fun old => mem_assign_temp old temp) m;
       rest m) Q.
Proof.
  intros Hi Hj Hv Hs Hf Hg. iIntros "[Hm HQ]".
  iDestruct (array_lends _ _ _ Hv with "Hm") as "(%Ht & Hn & Hm)".
  iApply mwp_bind. iApply (wp_lend j _ (whole n) src); [done|by apply whole_sorted|by rw whole_find Hg|].
  iFrame "Hn". iIntros (x) "Hx [Hn _]". iApply mwp_bind. iApply wp_value_copy. iFrame "Hx". iIntros (temp) "Hx Ht".
  iSpecialize ("Hn" with "Hx"). iSpecialize ("Hm" with "Hn"). rw mem_set_nodes_id (set_payload_id _ _ Hv).
  iApply mwp_bind. iApply (wp_store_index i _ _ n old temp src); [done..|]. iFrame.
Qed.

Lemma wp_remove_shift k i m v v' Q :
  0 <= i -> i + Z.of_nat k < 2 ^ 32 -> wf v -> remove_shift k i v = Ret v' ->
  value_at m v ∗ (∀ m', value_at m' v' -∗ Q m') ⊢ mem (mem_remove_shift k i m) Q.
Proof.
  revert i m v. induction k as [|k IH]; intros i m v Hi Hk Hw Hv; iIntros "[Hm HQ]".
  - injection Hv as <-. iApply mwp_ret. by iApply "HQ".
  - assert (in_u 32 i /\ in_u 32 (i + 1)) as [Hri Hrj] by (unfold in_u; lia).
    apply bind_Ret_inv in Hv as (v1 & H1 & (v2 & H2 & Hv)%bind_Ret_inv).
    assert (wf v1) as Hw1 by by eapply wf_index_ref.
    destruct (index_ref_node _ _ _ Hw Hrj H1) as (n1 & src & Hv1 & _ & Hs1).
    destruct (index_ref_node _ _ _ Hw1 Hri H2) as (n2 & old & Hv2 & Hs & Hf).
    destruct (index_ref_keeps i (i + 1) _ _ _ _ ltac:(lia) Hv1 Hs1 H2) as (n & Hv2' & Hg).
    assert (n = n2) as -> by congruence. cbn [mem_remove_shift].
    iApply mwp_bind. iApply wp_index_ref; [done|exact H1|]. iFrame "Hm". iIntros (m1) "Hm".
    iApply mwp_bind. iApply wp_map_ref; [done|exact Hv1|exact H2|]. iFrame "Hm". iIntros (m2) "Hm".
    unfold array_map in Hv. rw Hv2 Hg in Hv.
    iApply (wp_copy_node i (i + 1) _ _ n2 old src); [done..|]. iFrame "Hm". iIntros (m3) "Hm".
    iApply IH; [| | |exact Hv|iFrame]; [lia|lia|].
    apply wf_write_index; [|by eapply wf_index_ref]. intros ? _. eapply (wf_map_find (in_u 32)); [|exact Hg].
    replace n2 with (array_map v2); [|by unfold array_map; rw Hv2]. apply wf_array_map. by eapply wf_index_ref.
Qed.

Lemma wf_index i v n (w : Value) : wf v -> value_ v = PArray n -> om_find i n = Some w -> in_u 32 i.
Proof.
  intros Hw Hv Hf%om_find_elem. rw wf_unfold Hv in Hw. destruct Hw as (_ & Hk & _).
  rw Forall_forall in Hk. by specialize (Hk _ Hf).
Qed.

(** [map_->erase(it)], where [it] is the last node. *)
Lemma wp_erase_last i (removed : MValue) m v n w Q :
  in_u 32 i -> wf v -> value_ v = PArray n -> om_find i n = Some w ->
  value_at m v ∗ (∀ m', value_at m' (set_payload (PArray (om_erase i n)) v) -∗ Q (true, removed, m')) ⊢
  mem (o ← mem_find (CZString_ofIndex i) (mem_nodes m);
       match o with
       | None => run (Undef "erase(end())")
       | Some (pre, n, post) =>
           _ ← destroy_nodes value_destroy [n];
           mret (true, removed, mem_set_nodes (pre ++ post) m)
       end) Q.
Proof.
  intros Hi Hw Hv Hf. iIntros "[Hm HQ]". iDestruct (array_open _ _ _ Hv with "Hm") as "[Hn Hm]".
  iApply mwp_bind. iApply (wp_mem_find _ i _ n); [by split|by eapply wf_sorted|]. iFrame "Hn". iSplit.
  - iIntros (Hnone). congruence.
  - iIntros (l1 d x l2 n1 y n2 (Hl & -> & Hall)) "H1 Hd Hx H2".
    destruct (om_at_node i y n1 n2 (fun w => w) Hall) as (_ & _ & ->).
    iApply mwp_bind. iApply (wp_destroy_nodes [(d, x)] [(i, y)]). { apply all_destroyed. }
    simpl. iFrame "Hd Hx". iApply mwp_ret. iApply "HQ". iApply "Hm". iApply (nodes_at_app (K:=Z)). iFrame.
Qed.

Lemma wp_removeIndex i removed w0 m v b r v' Q :
  in_u 32 i -> wf v -> removeIndex i v = Ret (b, r, v') ->
  value_at removed w0 ∗ value_at m v ∗
  (∀ removed' m', value_at removed' (default w0 r) -∗ value_at m' v' -∗ Q (b, removed', m')) ⊢
  mem (mem_removeIndex i removed m) Q.
Proof.
  intros Hi Hw Hr. iIntros "(Hrem & Hm & HQ)". iDestruct (value_at_type with "Hm") as "[%Hty Hm]".
  unfold mem_removeIndex. rw Hty. unfold removeIndex, type in *.
  destruct (value_ v) as [|z|z|d|s|c|n|n] eqn:Hv;
    try (injection Hr as <- <- <-; iApply mwp_ret; iApply ("HQ" with "Hrem Hm")).
  cbn [negb bool_decide]. pose proof (wf_sorted _ _ Hw Hv) as Hs.
  iDestruct (array_lends _ _ _ Hv with "Hm") as "(_ & Hn & Hm)".
  iApply mwp_bind. iApply (wp_mem_find _ i _ (whole n)); [by split|by apply whole_sorted|]. iFrame "Hn". iSplit.
  - iIntros (Hf) "Hn". rw whole_find in Hf. destruct (om_find i n); [done|]. injection Hr as <- <- <-.
    iApply mwp_ret. iSpecialize ("Hm" with "Hn"). rw mem_set_nodes_id (set_payload_id _ _ Hv).
    iApply ("HQ" with "Hrem Hm").
  - iIntros (l1 c x l2 n1 y n2 (Hl & Hn & Hall)) "H1 Hc Hx H2".
    destruct (om_at_node i y n1 n2 (fun w => w) Hall) as (Hf & _ & _). rw -Hn whole_find in Hf.
    destruct (om_find i n) as [w|]; [|done]. injection Hf as <-.
    apply bind_Ret_inv in Hr as (v1 & H1 & Hr).
    iApply mwp_bind. iApply wp_assign. iFrame "Hrem Hx". iIntros (removed') "Hx Hrem".
    iAssert (value_at m v) with "[Hm H1 Hc Hx H2]" as "Hm".
    { iSpecialize ("Hm" $! (l1 ++ (c, x) :: l2) n with "[H1 Hc Hx H2]").
      - rw Hn. iApply nodes_at_app. simpl. iFrame.
      - by rw -Hl mem_set_nodes_id (set_payload_id _ _ Hv). }
    iDestruct (array_size _ _ _ Hv with "Hm") as "[%Hsz Hm]". rw Hsz. pose proof (size_in_range v) as Hr32.
    unfold in_u in *. iApply mwp_bind. iApply (wp_remove_shift _ _ _ v v1); [lia|lia|done|exact H1|]. iFrame "Hm".
    iIntros (m1) "Hm".
    assert (wf v1) as Hw1 by (eapply wf_remove_shift; [..|exact H1]; [lia|lia|done]).
    unfold array_map in Hr. destruct (value_ v1) as [| | | | | |n3|] eqn:Hv1; try done.
    destruct (om_find (size v - 1) n3) as [w2|] eqn:Hlast; [|done]. injection Hr as <- <- <-.
    iApply (wp_erase_last _ _ _ _ n3 w2); [by eapply wf_index|done..|].
    iFrame "Hm". iIntros (m2) "Hm". iApply ("HQ" with "Hrem Hm").
Qed.

(** ** [resize] *)

Lemma wp_resize_grow k i m v v' Q :
  0 <= i -> i + Z.of_nat k < 2 ^ 32 -> resize_grow k i v = Ret v' ->
  value_at m v ∗ (∀ m', value_at m' v' -∗ Q m') ⊢ mem (mem_resize_grow k i m) Q.
Proof.
  revert i m v. induction k as [|k IH]; intros i m v Hi Hk Hv; iIntros "[Hm HQ]".
  - injection Hv as <-. iApply mwp_ret. by iApply "HQ".
  - apply bind_Ret_inv in Hv as (v1 & H1 & Hv). cbn [mem_resize_grow].
    iApply mwp_bind. iApply wp_index_ref; [unfold in_u; lia|exact H1|]. iFrame "Hm". iIntros (m1) "Hm".
    iApply IH; [| |exact Hv|iFrame]; lia.
Qed.

Lemma wp_erase_range k i m v n Q :
  0 <= i -> i + Z.of_nat k < 2 ^ 32 -> wf v -> value_ v = PArray n ->
  value_at m v ∗ (∀ m', value_at m' (set_payload (PArray (erase_range k i n)) v) -∗ Q m') ⊢
  mem (mem_erase_range k i m) Q.
Proof.
  revert i m v n. induction k as [|k IH]; intros i m v n Hi Hk Hw Hv; iIntros "[Hm HQ]".
  - iApply mwp_ret. iApply "HQ". by rw (set_payload_id _ _ Hv).
  - cbn [mem_erase_range erase_range]. iApply mwp_bind.
    iApply (wp_erase i _ _ n); [unfold in_u; lia|done..|]. iFrame "Hm". iIntros (m1) "Hm".
    iApply (IH _ _ (set_payload (PArray (om_erase i n)) v) (om_erase i n)); [lia|lia| |done|iFrame].
    apply wf_array, (wf_map_erase (in_u 32)). rw wf_unfold Hv in Hw. exact Hw.
Qed.

Lemma wp_resize i m v v' Q :
  in_u 32 i -> wf v -> resize i v = Ret v' ->
  value_at m v ∗ (∀ m', value_at m' v' -∗ Q m') ⊢ mem (mem_resize i m) Q.
Proof.
  intros Hi Hw [Ht Hv]%json_assert_bind. cbv zeta in Hv. iIntros "[Hm HQ]".
  iDestruct (value_at_type with "Hm") as "[%Hty Hm]". unfold mem_resize, is_null_or.
  rw Hty (requires_array _ Ht). iApply mwp_bind. iApply wp_run_ret.
  iApply mwp_bind. iApply wp_null_to. iFrame "Hm". iIntros (m1) "Hm". fold (isNull v). fold (as_array v).
  pose proof (as_array_payload _ Ht) as Ha. pose proof (wf_as_array _ Hw) as Hwa. set (a := as_array v) in *.
  iDestruct (array_size _ _ _ Ha with "Hm") as "[%Hs Hm]". rw Hs. pose proof (size_in_range a) as Hr.
  unfold in_u in *. destruct (i =? 0). { iApply wp_clear; [exact Hv|]. iFrame. }
  destruct (size a <? i) eqn:E; zbool.
  - iApply (wp_resize_grow _ _ _ a v'); [lia|lia|done|]. iFrame.
  - apply json_assert_bind in Hv as [Hsz [= <-]].
    iApply mwp_bind. iApply (wp_erase_range _ _ _ a (array_map a)); [lia|lia|done|done|]. iFrame "Hm".
    iIntros (m2) "Hm". iDestruct (array_size _ _ (erase_range (Z.to_nat (size a - i)) i (array_map a)) with "Hm") as "[%Hs2 Hm]"; [done|].
    rw Hs2 Hsz. iApply mwp_bind. iApply wp_run_ret. iApply mwp_ret. by iApply "HQ".
Qed.
End arrays.
