(* ===== verification/JsonMemoryFacts.v ===== *)
(** * The memory of values is managed as it should be

    Every operation on values in memory does what the operation of JsonValue.v
    does on the values they stand for, and owns afterwards what it should: nothing
    is read after it was freed, freed twice, or left behind. *)
From S2P Require Export JsonMemoryArrays.
Open Scope Z_scope.

(** ** Programs over values *)

(** What a new value is made of. *)
Inductive constructor :=
  | FromType (t : ValueType)
  | FromInt (value : Z)
  | FromString (value : bytes)
  | FromStatic (value : bytes).

(** Statements over variables [v_0], [v_1], ... *)
Inductive statement :=
  | Construct (i : nat) (c : constructor)          (* v_i = Value(c) *)
  | Assign (i j : nat)                             (* v_i = v_j *)
  | Swap (i j : nat)                               (* v_i.swap(v_j) *)
  | Member (i : nat) (key : bytes) (j : nat)       (* v_i[key] = v_j *)
  | Element (i : nat) (index : Z) (j : nat)        (* v_i[index] = v_j *)
  | Append (i j : nat)                             (* v_i.append(v_j) *)
  | Remove (i : nat) (key : bytes) (j : nat)       (* v_i.removeMember(key, &r); v_j = std::move(r) *)
  | Discard (i : nat) (key : bytes)                (* v_i.removeMember(key) *)
  | Insert (i : nat) (index : Z) (j : nat)         (* v_i.insert(index, v_j) *)
  | RemoveAt (i : nat) (index : Z) (j : nat)       (* v_i.removeIndex(index, &r); v_j = std::move(r) *)
  | Resize (i : nat) (newSize : Z)                 (* v_i.resize(newSize) *)
  | Clear (i : nat).                               (* v_i.clear() *)

Definition variable {A} (i : nat) (l : list A) : outcome A :=
  match l !! i with Some x => Ret x | None => Undef "no such variable" end.

Section programs.
Context `{Allocator}.

Definition mem_construct (c : constructor) : ST heap MValue :=
  match c with
  | FromType t => mem_ofType t
  | FromInt value => mret (mem_initBasic (MInt value))
  | FromString value => mem_string value
  | FromStatic value => mret (mem_static value)
  end.

(** [node = v_j], through a reference to a node: [Value(other).swap( *this)]. *)
Definition mem_store (key : MCZString) (other this : MValue) : ST heap MValue :=
  temp ← value_copy other;
  mem_write_node key (fun old => mem_assign_temp old temp) this.

Definition mem_step (s : statement) (vars : list MValue) : ST heap (list MValue) :=
  match s with
  | Construct i c =>
      this ← run (variable i vars);
      temp ← mem_construct c;
      this ← mem_assign_temp this temp;
      mret (<[i := this]> vars)
  | Assign i j =>
      this ← run (variable i vars);
      other ← run (variable j vars);
      this ← mem_assign this other;
      mret (<[i := this]> vars)
  | Swap i j =>
      this ← run (variable i vars);
      other ← run (variable j vars);
      let '(this, other) := mem_swap this other in
      mret (<[i := this]> (<[j := other]> vars))
  | Member i key j =>
      this ← run (variable i vars);
      this ← mem_resolveReference key this;
      let vars := <[i := this]> vars in
      other ← run (variable j vars);
      this ← mem_store (CZString_new (caller_ptr key) (Z.of_nat (length key)) noDuplication) other this;
      mret (<[i := this]> vars)
  | Element i index j =>
      this ← run (variable i vars);
      this ← mem_index_ref index this;
      let vars := <[i := this]> vars in
      other ← run (variable j vars);
      this ← mem_store (CZString_ofIndex index) other this;
      mret (<[i := this]> vars)
  | Append i j =>
      this ← run (variable i vars);
      other ← run (variable j vars);
      this ← mem_append other this;
      mret (<[i := this]> vars)
  | Remove i key j =>
      this ← run (variable i vars);
      '(_, removed, this) ← mem_removeMember key mem_null this;
      let vars := <[i := this]> vars in
      other ← run (variable j vars);
      other ← mem_assign_temp other removed;
      mret (<[j := other]> vars)
  | Discard i key =>
      this ← run (variable i vars);
      this ← mem_removeMember_void key this;
      mret (<[i := this]> vars)
  | Insert i index j =>
      this ← run (variable i vars);
      other ← run (variable j vars);
      '(_, this) ← mem_insert index other this;
      mret (<[i := this]> vars)
  | RemoveAt i index j =>
      this ← run (variable i vars);
      '(_, removed, this) ← mem_removeIndex index mem_null this;
      let vars := <[i := this]> vars in
      other ← run (variable j vars);
      other ← mem_assign_temp other removed;
      mret (<[j := other]> vars)
  | Resize i newSize =>
      this ← run (variable i vars);
      this ← mem_resize newSize this;
      mret (<[i := this]> vars)
  | Clear i =>
      this ← run (variable i vars);
      this ← mem_clear this;
      mret (<[i := this]> vars)
  end.

Fixpoint mem_run (p : list statement) (vars : list MValue) : ST heap (list MValue) :=
  match p with
  | [] => mret vars
  | s :: p => vars ← mem_step s vars; mem_run p vars
  end.

Fixpoint destroy_all (vars : list MValue) : ST heap unit :=
  match vars with
  | [] => mret tt
  | v :: vars => _ ← value_destroy v; destroy_all vars
  end.

(** What a value in memory stands for, read off the heap. *)
Section view.
Context (view : MValue -> ST heap Value).
Fixpoint view_nodes {K} (key : MCZString -> ST heap K) (l : list (MCZString * MValue)) : ST heap (list (K * Value)) :=
  match l with
  | [] => mret []
  | (c, x) :: l =>
      k ← key c;
      v ← view x;
      n ← view_nodes key l;
      mret ((k, v) :: n)
  end.
End view.

Fixpoint mem_view (m : MValue) : ST heap Value :=
  p ← match mvalue_ m with
      | MNull => mret PNull
      | MInt i => mret (PInt i)
      | MUInt i => mret (PUInt i)
      | MReal d => mret (PReal d)
      | MBool b => mret (PBool b)
      | MString allocated string =>
          '(len, s) ← decodePrefixedString allocated string;
          s ← read_bytes s len;
          mret (PString s)
      | MArray _ l => n ← view_nodes mem_view (fun c => mret (cz_index c)) l; mret (PArray n)
      | MObject _ l =>
          n ← view_nodes mem_view (fun c => read_bytes (cstr_ c) (length_ c)) l; mret (PObject n)
      end;
  mret (mkValue p (mcomments_ m) (mstart_ m) (mlimit_ m)).

Fixpoint view_all (vars : list MValue) : ST heap (list Value) :=
  match vars with
  | [] => mret []
  | m :: vars => v ← mem_view m; l ← view_all vars; mret (v :: l)
  end.
End programs.

(** The same over values. *)
Definition spec_construct (c : constructor) : outcome Value :=
  match c with
  | FromType t => Ret (Value_ofType t)
  | FromInt value => Ret (Value_int value)
  | FromString value => Value_string value
  | FromStatic value => Ret (initBasic (PString (c_str value)))
  end.

Definition spec_step (s : statement) (vars : list Value) : outcome (list Value) :=
  match s with
  | Construct i c => _ ← variable i vars; v ← spec_construct c; Ret (<[i := v]> vars)
  | Assign i j => _ ← variable i vars; w ← variable j vars; Ret (<[i := w]> vars)
  | Swap i j => v ← variable i vars; w ← variable j vars; Ret (<[i := w]> (<[j := v]> vars))
  | Member i key j =>
      v ← variable i vars;
      v ← resolveReference key v;
      w ← variable j (<[i := v]> vars);
      Ret (<[i := write_key (CZString key) (fun _ => w) v]> vars)
  | Element i index j =>
      v ← variable i vars;
      v ← index_ref index v;
      w ← variable j (<[i := v]> vars);
      Ret (<[i := write_index index (fun _ => w) v]> vars)
  | Append i j => v ← variable i vars; w ← variable j vars; v ← append w v; Ret (<[i := v]> vars)
  | Remove i key j =>
      v ← variable i vars;
      let '(_, r, v) := removeMember key v in
      _ ← variable j (<[i := v]> vars);
      Ret (<[j := default Value_null r]> (<[i := v]> vars))
  | Discard i key => v ← variable i vars; v ← removeMember_void key v; Ret (<[i := v]> vars)
  | Insert i index j =>
      v ← variable i vars; w ← variable j vars; '(_, v) ← insert index w v; Ret (<[i := v]> vars)
  | RemoveAt i index j =>
      v ← variable i vars;
      '(_, r, v) ← removeIndex index v;
      _ ← variable j (<[i := v]> vars);
      Ret (<[j := default Value_null r]> (<[i := v]> vars))
  | Resize i newSize => v ← variable i vars; v ← resize newSize v; Ret (<[i := v]> vars)
  | Clear i => v ← variable i vars; v ← clear v; Ret (<[i := v]> vars)
  end.

Fixpoint spec_run (p : list statement) (vars : list Value) : outcome (list Value) :=
  match p with
  | [] => Ret vars
  | s :: p => vars ← spec_step s vars; spec_run p vars
  end.

(** Arguments of their types. *)
Definition statement_ok (s : statement) : Prop :=
  match s with
  | Construct _ (FromInt value) => in_s 64 value
  | Construct _ (FromString value) => Forall byte_ok value
  | Construct _ (FromStatic value) => Forall byte_ok value /\ Z.of_nat (length value) < 2 ^ 32
  | Member _ key _ | Remove _ key _ => Forall byte_ok key
  | Element _ index _ | Insert _ index _ | RemoveAt _ index _ | Resize _ index => in_u 32 index
  | _ => True
  end.

Section operations.
Context `{Allocator}.
Implicit Types (m : MValue) (v : Value).

Lemma wp_construct c v Q :
  statement_ok (Construct 0 c) -> spec_construct c = Ret v ->
  (∀ m, value_at m v -∗ Q m) ⊢ mem (mem_construct c) Q.
Proof.
  intros Hc Hv. destruct c as [t|z|s|s]; cbn [spec_construct mem_construct] in *; iIntros "HQ".
  - injection Hv as <-. by iApply wp_ofType.
  - injection Hv as <-. iApply mwp_ret. iApply "HQ". rw value_at_unfold. iSplit; by iPureIntro.
  - by iApply wp_string.
  - injection Hv as <-. iApply mwp_ret. iApply "HQ". iApply static_at.
    pose proof (f_equal length (take_c_str s)) as Hs. rw length_take in Hs. destruct Hc. lia.
Qed.

(** ** Reading a value back *)

Lemma wp_view_nodes {K} `{!KeyOrd K, !KeyOrdLaws K, !KeyRep K} (key : MCZString -> ST heap K) l (n : list (K * Value)) Q :
  (forall c k Q, key_at c k ∗ (key_at c k -∗ Q k) ⊢ mem (key c) Q) ->
  Forall (fun m => forall v Q, value_at m v ∗ (value_at m v -∗ Q v) ⊢ mem (mem_view m) Q) l.*2 ->
  nodes_at key_at value_at l n ∗ (nodes_at key_at value_at l n -∗ Q n) ⊢ mem (view_nodes mem_view key l) Q.
Proof.
  intros Hkey. revert n Q. induction l as [|[c x] l IH]; intros [|[k y] n] Q Hl; iIntros "[Hn HQ]"; try done.
  - iApply mwp_ret. by iApply "HQ".
  - apply Forall_cons in Hl as [Hx Hl]. iDestruct "Hn" as "(Hc & Hx & Hn)". cbn [view_nodes].
    iApply mwp_bind. iApply Hkey. iFrame "Hc". iIntros "Hc".
    iApply mwp_bind. iApply Hx. iFrame "Hx". iIntros "Hx".
    iApply mwp_bind. iApply IH; [done|]. iFrame "Hn". iIntros "Hn".
    iApply mwp_ret. iApply "HQ". iFrame.
Qed.

Lemma wp_view_name c name Q : key_at c name ∗ (key_at c name -∗ Q name) ⊢ mem (read_bytes (cstr_ c) (length_ c)) Q.
Proof.
  iIntros "[Hc HQ]". iDestruct (name_at_reads with "Hc") as "[[(%Hn & %Hl & %Hr) _] Hc]". rw Hl.
  iApply Hr; [lia|]. iFrame "Hc". iIntros "Hc". rw Nat2Z.id firstn_all. by iApply "HQ".
Qed.

Lemma wp_view m v Q : value_at m v ∗ (value_at m v -∗ Q v) ⊢ mem (mem_view m) Q.
Proof.
  revert v Q. induction m as [m IH] using MValue_ind. intros v Q. rw !value_at_unfold.
  iIntros "[[(%Hc & %Hs & %Hl) Hp] HQ]".
  assert (forall p, value_ v = p -> mkValue p (mcomments_ m) (mstart_ m) (mlimit_ m) = v) as Hv.
  { intros p <-. rw Hc Hs Hl. by destruct v. }
  destruct m as [p c s l]. cbn [mem_view mvalue_ mcomments_ mstart_ mlimit_ payload_all] in *. iApply mwp_bind.
  iAssert (∀ q, ⟨value_ v = q⟩ -∗ payload_at value_at p (value_ v) -∗ mem (mret (mkValue q c s l)) Q)%I with "[HQ]" as "HQ".
  { iIntros (q Hq) "Hp". iApply mwp_ret. rw Hv //. iApply "HQ". iFrame. by iPureIntro. }
  destruct p as [|i|i|d|a t|b|o n|o n], (value_ v) as [|j|j|e|u|b'|n'|n']; try done; cbn [payload_at].
  - iApply mwp_ret. by iApply "HQ".
  - iApply mwp_ret. iDestruct "Hp" as "->". by iApply "HQ".
  - iApply mwp_ret. iDestruct "Hp" as "->". by iApply "HQ".
  - iApply mwp_ret. iDestruct "Hp" as "->". by iApply "HQ".
  - iApply mwp_bind. iApply wp_decode. iFrame "Hp". iIntros (q) "%Hr Hp". iApply mwp_bind. iApply Hr. iFrame "Hp".
    iIntros "Hp". iApply mwp_ret. by iApply "HQ".
  - iApply mwp_ret. iDestruct "Hp" as "->". by iApply "HQ".
  - iDestruct "Hp" as "[Ho Hn]". iApply mwp_bind. iApply (wp_view_nodes _ _ n'); [|done|].
    { intros c' k Q'. iIntros "[[%Hc' %Hk] HQ]". subst c'. iApply mwp_ret. iApply "HQ". by iPureIntro. }
    iFrame "Hn". iIntros "Hn". iApply mwp_ret. iApply ("HQ" with "[//]"). iFrame.
  - iDestruct "Hp" as "[Ho Hn]". iApply mwp_bind. iApply (wp_view_nodes _ _ n'); [apply wp_view_name|done|].
    iFrame "Hn". iIntros "Hn". iApply mwp_ret. iApply ("HQ" with "[//]"). iFrame.
Qed.

(** [getString], and with it [asCString] and [asString] of a string. *)
Lemma wp_getString m v Q :
  isString v = true ->
  value_at m v ∗ (∀ s, ⟨value_ v = PString s⟩ -∗ value_at m v -∗ Q (Some s)) ⊢ mem (mem_getString m) Q.
Proof.
  unfold isString, type. iIntros (Hs) "[Hm HQ]". rw value_at_unfold. iDestruct "Hm" as "[%Hm Hp]".
  unfold mem_getString. destruct (value_ v) as [| | | |s| | |] eqn:Hv; try done.
  destruct (mvalue_ m) as [| | | |a p| | |]; try done. cbn [payload_at].
  assert (is_nullptr p = false \/ p = nullptr) as [Hp| ->] by (destruct p; auto); [|by destruct a].
  rw Hp. iApply mwp_bind. iApply wp_decode. iFrame "Hp". iIntros (q) "%Hr Hp".
  iApply mwp_bind. iApply Hr. iFrame "Hp". iIntros "Hp". iApply mwp_ret. iApply ("HQ" with "[//]").
  iFrame. by iPureIntro.
Qed.

(** ** Variables *)

Definition vars_at (ms : list MValue) (vs : list Value) : hpropI := [∗ list] m;v ∈ ms;vs, value_at m v.

Lemma variable_inv {A} i (l : list A) x : variable i l = Ret x -> l !! i = Some x.
Proof. unfold variable. destruct (l !! i); [by intros [= ->]|done]. Qed.

(** The variable exists in memory too; it can be taken out and replaced. *)
Lemma vars_access i ms vs v :
  variable i vs = Ret v ->
  vars_at ms vs ⊢ ∃ m, ⟨variable i ms = Ret m⟩ ∗ value_at m v ∗
    (∀ m' v', value_at m' v' -∗ vars_at (<[i := m']> ms) (<[i := v']> vs)).
Proof.
  intros Hv%variable_inv. iIntros "Hvars".
  iDestruct (big_sepL2_length with "Hvars") as %Hlen.
  destruct (lookup_lt_is_Some_2 ms i) as [m Hm]. { rw Hlen. by apply lookup_lt_Some in Hv. }
  iDestruct (big_sepL2_insert_acc with "Hvars") as "[Hm Hvars]"; [done..|].
  iExists m. iFrame. iPureIntro. unfold variable. by rw Hm.
Qed.

Lemma vars_borrow i ms vs v :
  variable i vs = Ret v ->
  vars_at ms vs ⊢ ∃ m, ⟨variable i ms = Ret m⟩ ∗ value_at m v ∗ (value_at m v -∗ vars_at ms vs).
Proof.
  intros Hv. pose proof (variable_inv _ _ _ Hv) as Hi. iIntros "Hvars".
  iDestruct (vars_access with "Hvars") as (m) "(%Hm & Hv & Hvars)"; [done|].
  iExists m. iFrame "Hv". iSplitR; [done|]. iIntros "Hv". iSpecialize ("Hvars" with "Hv").
  apply variable_inv in Hm. by rw !list_insert_id.
Qed.

(** The copy that an assignment makes of [v_j]. *)
Lemma wp_copy_variable {A} j ms vs w Q (body : MValue -> ST heap A) :
  variable j vs = Ret w ->
  vars_at ms vs ∗ (∀ temp, vars_at ms vs -∗ value_at temp w -∗ mem (body temp) Q) ⊢
  ∃ other, ⟨variable j ms = Ret other⟩ ∗ mem (temp ← value_copy other; body temp) Q.
Proof.
  intros Hw. iIntros "[Hvars HQ]". iDestruct (vars_borrow with "Hvars") as (m) "(%Hm & Hw & Hvars)"; [done|].
  iExists m. iSplitR; [done|]. iApply mwp_bind. iApply wp_value_copy. iFrame "Hw".
  iIntros (temp) "Hw Htemp". iApply ("HQ" with "[Hw Hvars] Htemp"). by iApply "Hvars".
Qed.

Lemma variable_insert {A} i (l : list A) x y : variable i l = Ret y -> variable i (<[i := x]> l) = Ret x.
Proof. intros Hi%variable_inv%lookup_lt_Some. unfold variable. by rw list_lookup_insert_eq. Qed.

Lemma vars_swap i j ms vs m o v w :
  variable i ms = Ret m -> variable i vs = Ret v -> variable j ms = Ret o -> variable j vs = Ret w ->
  vars_at ms vs ⊢ vars_at (<[i := o]> (<[j := m]> ms)) (<[i := w]> (<[j := v]> vs)).
Proof.
  intros Hm Hv Ho Hw. destruct (decide (i = j)) as [->|Hne].
  { assert (o = m) as -> by congruence. assert (w = v) as -> by congruence.
    apply variable_inv in Hm, Hv. by rw !list_insert_insert_eq !list_insert_id. }
  iIntros "Hvars". iDestruct (vars_access with "Hvars") as (m') "(%Hm' & Hv & Hvars)"; [exact Hv|].
  assert (m' = m) as -> by congruence. iSpecialize ("Hvars" $! mem_null Value_null with "[]"); [iApply null_at|].
  assert (variable j (<[i := Value_null]> vs) = Ret w) as Hw'.
  { unfold variable in *. by rw list_lookup_insert_ne. }
  iDestruct (vars_access with "Hvars") as (o') "(%Ho' & Hw & Hvars)"; [exact Hw'|].
  assert (o' = o) as ->. { unfold variable in *. rw list_lookup_insert_ne // in Ho'. congruence. }
  iSpecialize ("Hvars" with "Hv").
  assert (variable i (<[j := v]> (<[i := Value_null]> vs)) = Ret Value_null) as Hi'.
  { pose proof (variable_insert _ _ Value_null _ Hv) as Hi. unfold variable in *. by rw list_lookup_insert_ne. }
  iDestruct (vars_access with "Hvars") as (z) "(_ & Hz & Hvars)"; [exact Hi'|].
  iDestruct (null_drop with "Hz") as "_". iSpecialize ("Hvars" with "Hw").
  by rw !(list_insert_insert_ne _ j i) // !list_insert_insert_eq.
Qed.

(** ** Statements *)

(** The statement, from variables that stand for [vs] to variables that stand for
    [vs']. *)
Definition runs_to (s : statement) (vs vs' : list Value) : Prop :=
  forall ms Q, vars_at ms vs ∗ (∀ ms', vars_at ms' vs' -∗ Q ms') ⊢ mem (mem_step s ms) Q.

Lemma runs_construct i c vs vs' :
  statement_ok (Construct i c) -> spec_step (Construct i c) vs = Ret vs' -> runs_to (Construct i c) vs vs'.
Proof.
  intros Hok (v & Hi & (w & Hc & [= <-])%bind_Ret_inv)%bind_Ret_inv ms Q. iIntros "[Hvars HQ]". cbn [mem_step].
  iDestruct (vars_access with "Hvars") as (m) "(%Hm & Hv & Hvars)"; [done|]. rw Hm.
  iApply mwp_bind. iApply wp_run_ret. iApply mwp_bind. iApply wp_construct; [exact Hok|done|].
  iIntros (temp) "Htemp". iApply mwp_bind. iApply wp_assign_temp. iFrame "Hv". iApply mwp_ret.
  iApply "HQ". by iApply "Hvars".
Qed.

Lemma runs_assign i j vs vs' : spec_step (Assign i j) vs = Ret vs' -> runs_to (Assign i j) vs vs'.
Proof.
  intros (v & Hi & (w & Hj & [= <-])%bind_Ret_inv)%bind_Ret_inv ms Q. iIntros "[Hvars HQ]". cbn [mem_step].
  iDestruct (vars_borrow with "Hvars") as (m) "(%Hm & Hv & Hvars)"; [exact Hi|]. rw Hm.
  iApply mwp_bind. iApply wp_run_ret. iSpecialize ("Hvars" with "Hv").
  iDestruct (vars_borrow with "Hvars") as (o) "(%Ho & Hw & Hvars)"; [exact Hj|]. rw Ho.
  iApply mwp_bind. iApply wp_run_ret. iApply mwp_bind. unfold mem_assign.
  iApply mwp_bind. iApply wp_value_copy. iFrame "Hw". iIntros (temp) "Hw Htemp". iSpecialize ("Hvars" with "Hw").
  iDestruct (vars_access with "Hvars") as (m') "(%Hm' & Hv & Hvars)"; [exact Hi|].
  assert (m' = m) as -> by congruence. cbn. iApply mwp_bind. iApply wp_value_destroy. iFrame "Hv".
  iApply mwp_ret. iApply mwp_ret. iApply "HQ". by iApply "Hvars".
Qed.

Lemma runs_swap i j vs vs' : spec_step (Swap i j) vs = Ret vs' -> runs_to (Swap i j) vs vs'.
Proof.
  intros (v & Hi & (w & Hj & [= <-])%bind_Ret_inv)%bind_Ret_inv ms Q. iIntros "[Hvars HQ]". cbn [mem_step].
  iDestruct (vars_borrow with "Hvars") as (m) "(%Hm & Hv & Hvars)"; [exact Hi|]. rw Hm.
  iApply mwp_bind. iApply wp_run_ret. iSpecialize ("Hvars" with "Hv").
  iDestruct (vars_borrow with "Hvars") as (o) "(%Ho & Hw & Hvars)"; [exact Hj|]. rw Ho.
  iApply mwp_bind. iApply wp_run_ret. iSpecialize ("Hvars" with "Hw"). cbn.
  iApply mwp_ret. iApply "HQ". by iApply vars_swap.
Qed.

(** [v_i[...] = v_j], once the node is there. *)
Lemma wp_store_in i j ms vs m0 v0 m1 v1 v2 w key Q :
  variable i ms = Ret m0 -> variable i vs = Ret v0 -> variable j (<[i := v1]> vs) = Ret w ->
  (forall temp Q', value_at m1 v1 ∗ value_at temp w ∗ (∀ m', value_at m' v2 -∗ Q' m') ⊢
     mem (mem_write_node key (fun x => mem_assign_temp x temp) m1) Q') ->
  vars_at (<[i := m1]> ms) (<[i := v1]> vs) ∗ (∀ ms', vars_at ms' (<[i := v2]> vs) -∗ Q ms') ⊢
  mem (other ← run (variable j (<[i := m1]> ms));
       this ← mem_store key other m1;
       mret (<[i := this]> (<[i := m1]> ms))) Q.
Proof.
  intros Hm Hi Hj Hstore. iIntros "[Hvars HQ]". pose proof (variable_insert _ _ v1 _ Hi) as Hi1.
  iDestruct (wp_copy_variable with "[$Hvars HQ]") as (o) "[%Ho Hrun]"; [exact Hj| |].
  2: { rw Ho. iApply mwp_bind. iApply wp_run_ret. iApply mwp_bind. iExact "Hrun". }
  iIntros (temp) "Hvars Ht". iDestruct (vars_access with "Hvars") as (m') "(%Hm' & Hv & Hvars)"; [exact Hi1|].
  assert (m' = m1) as ->. { pose proof (variable_insert _ _ m1 _ Hm). congruence. }
  iApply Hstore. iFrame "Hv Ht". iIntros (m2) "Hm2".
  iApply mwp_ret. iSpecialize ("Hvars" with "Hm2"). rw !list_insert_insert_eq. by iApply "HQ".
Qed.

Lemma runs_member i key j vs vs' :
  Forall wf vs -> Forall byte_ok key -> spec_step (Member i key j) vs = Ret vs' -> runs_to (Member i key j) vs vs'.
Proof.
  intros Hw Hk (v & Hi & (v1 & Hv & (w & Hj & [= <-])%bind_Ret_inv)%bind_Ret_inv)%bind_Ret_inv ms Q.
  assert (wf v) as Hwv by by eapply Forall_lookup_1, variable_inv.
  destruct (resolveReference_node _ _ _ Hwv Hk Hv) as (n & old & Hn & Hs & Hf).
  iIntros "[Hvars HQ]". cbn [mem_step].
  iDestruct (vars_access with "Hvars") as (m) "(%Hm & Hv & Hvars)"; [done|]. rw {1}Hm.
  iApply mwp_bind. iApply wp_run_ret. iApply mwp_bind. iApply wp_resolveReference; [done|]. iFrame "Hv".
  iIntros (m1) "Hv". iSpecialize ("Hvars" with "Hv").
  iApply wp_store_in; [exact Hm|exact Hi|exact Hj| |iFrame].
  intros temp Q'. by apply (wp_store_key _ _ _ n old).
Qed.

Lemma runs_element i index j vs vs' :
  Forall wf vs -> in_u 32 index -> spec_step (Element i index j) vs = Ret vs' -> runs_to (Element i index j) vs vs'.
Proof.
  intros Hw Hk (v & Hi & (v1 & Hv & (w & Hj & [= <-])%bind_Ret_inv)%bind_Ret_inv)%bind_Ret_inv ms Q.
  assert (wf v) as Hwv by by eapply Forall_lookup_1, variable_inv.
  destruct (index_ref_node _ _ _ Hwv Hk Hv) as (n & old & Hn & Hs & Hf).
  iIntros "[Hvars HQ]". cbn [mem_step].
  iDestruct (vars_access with "Hvars") as (m) "(%Hm & Hv & Hvars)"; [done|]. rw {1}Hm.
  iApply mwp_bind. iApply wp_run_ret. iApply mwp_bind. iApply wp_index_ref; [done|done|]. iFrame "Hv".
  iIntros (m1) "Hv". iSpecialize ("Hvars" with "Hv").
  iApply wp_store_in; [exact Hm|exact Hi|exact Hj| |iFrame].
  intros temp Q'. by apply (wp_store_index _ _ _ n old).
Qed.

Lemma runs_append i j vs vs' : spec_step (Append i j) vs = Ret vs' -> runs_to (Append i j) vs vs'.
Proof.
  intros (v & Hi & (w & Hj & (v1 & Hv & [= <-])%bind_Ret_inv)%bind_Ret_inv)%bind_Ret_inv ms Q.
  iIntros "[Hvars HQ]". cbn [mem_step].
  iDestruct (vars_borrow with "Hvars") as (m) "(%Hm & Hv & Hvars)"; [exact Hi|]. rw Hm.
  iApply mwp_bind. iApply wp_run_ret. iSpecialize ("Hvars" with "Hv").
  iDestruct (wp_copy_variable with "[$Hvars HQ]") as (o) "[%Ho Hrun]"; [exact Hj| |].
  2: { rw Ho. iApply mwp_bind. iApply wp_run_ret. iApply mwp_bind. iExact "Hrun". }
  iIntros (temp) "Hvars Ht". iDestruct (vars_access with "Hvars") as (m') "(%Hm' & Hv & Hvars)"; [exact Hi|].
  assert (m' = m) as -> by congruence.
  iApply mwp_bind. iApply wp_append_move; [exact Hv|]. iFrame "Ht Hv". iIntros (m2) "Hm2". cbn.
  iApply mwp_bind. iApply mwp_ret. iApply mwp_ret. iApply mwp_ret. iApply "HQ". by iApply "Hvars".
Qed.

Lemma runs_insert i index j vs vs' :
  Forall wf vs -> in_u 32 index -> spec_step (Insert i index j) vs = Ret vs' -> runs_to (Insert i index j) vs vs'.
Proof.
  intros Hw Hk (v & Hi & (w & Hj & ([b v1] & Hv & [= <-])%bind_Ret_inv)%bind_Ret_inv)%bind_Ret_inv ms Q.
  assert (wf v) as Hwv by by eapply Forall_lookup_1, variable_inv.
  iIntros "[Hvars HQ]". cbn [mem_step].
  iDestruct (vars_borrow with "Hvars") as (m) "(%Hm & Hv & Hvars)"; [exact Hi|]. rw Hm.
  iApply mwp_bind. iApply wp_run_ret. iSpecialize ("Hvars" with "Hv").
  iDestruct (wp_copy_variable with "[$Hvars HQ]") as (o) "[%Ho Hrun]"; [exact Hj| |].
  2: { rw Ho. iApply mwp_bind. iApply wp_run_ret. iApply mwp_bind. iExact "Hrun". }
  iIntros (temp) "Hvars Ht". iDestruct (vars_access with "Hvars") as (m') "(%Hm' & Hv & Hvars)"; [exact Hi|].
  assert (m' = m) as -> by congruence.
  iApply mwp_bind. iApply wp_insert_move; [exact Hk|exact Hwv|exact Hv|]. iFrame "Ht Hv". iIntros (x u m2) "Hx Hm2". cbn.
  iApply mwp_bind. iApply wp_value_destroy. iFrame "Hx". iApply mwp_ret. iApply mwp_ret. iApply "HQ". by iApply "Hvars".
Qed.

(** [v_i.remove...( ..., &r); v_j = std::move(r)]. *)
Lemma runs_removal i j ms vs v v1 (r : option Value) (op : MValue -> ST heap (bool * MValue * MValue)) w Q :
  variable i vs = Ret v -> variable j (<[i := v1]> vs) = Ret w ->
  (forall m Q', value_at m v ∗
     (∀ b removed m', value_at removed (default Value_null r) -∗ value_at m' v1 -∗ Q' (b, removed, m')) ⊢ mem (op m) Q') ->
  vars_at ms vs ∗ (∀ ms', vars_at ms' (<[j := default Value_null r]> (<[i := v1]> vs)) -∗ Q ms') ⊢
  mem (this ← run (variable i ms);
       '(_, removed, this) ← op this;
       let vars := <[i := this]> ms in
       other ← run (variable j vars);
       other ← mem_assign_temp other removed;
       mret (<[j := other]> vars)) Q.
Proof.
  intros Hi Hj Hop. iIntros "[Hvars HQ]".
  iDestruct (vars_access with "Hvars") as (m) "(%Hm & Hv & Hvars)"; [done|]. rw Hm.
  iApply mwp_bind. iApply wp_run_ret. iApply mwp_bind. iApply Hop. iFrame "Hv".
  iIntros (b removed m1) "Hr Hv". iSpecialize ("Hvars" with "Hv").
  iDestruct (vars_access with "Hvars") as (o) "(%Ho & Hw & Hvars)"; [exact Hj|]. rw Ho.
  iApply mwp_bind. iApply wp_run_ret. iApply mwp_bind. iApply wp_assign_temp. iFrame "Hw". iApply mwp_ret.
  iApply "HQ". by iApply "Hvars".
Qed.

Lemma runs_remove i key j vs vs' :
  Forall wf vs -> spec_step (Remove i key j) vs = Ret vs' -> runs_to (Remove i key j) vs vs'.
Proof.
  intros Hw (v & Hi & Hr)%bind_Ret_inv ms Q. destruct (removeMember key v) as [[b r] v1] eqn:Hv.
  apply bind_Ret_inv in Hr as (w & Hj & [= <-]).
  assert (wf v) as Hwv by by eapply Forall_lookup_1, variable_inv.
  apply (runs_removal _ _ _ _ v v1 r (mem_removeMember key mem_null) w); [done..|]. intros m Q'. iIntros "[Hm HQ]".
  iApply (wp_removeMember _ _ Value_null); [done..|]. iSplitR; [iApply null_at|]. iFrame "Hm".
  iIntros (removed m1) "Hr Hm". iApply ("HQ" with "Hr Hm").
Qed.

Lemma runs_removeAt i index j vs vs' :
  Forall wf vs -> in_u 32 index -> spec_step (RemoveAt i index j) vs = Ret vs' -> runs_to (RemoveAt i index j) vs vs'.
Proof.
  intros Hw Hk (v & Hi & ([[b r] v1] & Hv & (w & Hj & [= <-])%bind_Ret_inv)%bind_Ret_inv)%bind_Ret_inv ms Q.
  assert (wf v) as Hwv by by eapply Forall_lookup_1, variable_inv.
  apply (runs_removal _ _ _ _ v v1 r (mem_removeIndex index mem_null) w); [done..|]. intros m Q'. iIntros "[Hm HQ]".
  iApply (wp_removeIndex _ _ Value_null); [done..|]. iSplitR; [iApply null_at|]. iFrame "Hm".
  iIntros (removed m1) "Hr Hm". iApply ("HQ" with "Hr Hm").
Qed.

(** [v_i.f()]. *)
Lemma runs_change i ms vs v v1 (op : MValue -> ST heap MValue) Q :
  variable i vs = Ret v ->
  (forall m Q', value_at m v ∗ (∀ m', value_at m' v1 -∗ Q' m') ⊢ mem (op m) Q') ->
  vars_at ms vs ∗ (∀ ms', vars_at ms' (<[i := v1]> vs) -∗ Q ms') ⊢
  mem (this ← run (variable i ms); this ← op this; mret (<[i := this]> ms)) Q.
Proof.
  intros Hi Hop. iIntros "[Hvars HQ]". iDestruct (vars_access with "Hvars") as (m) "(%Hm & Hv & Hvars)"; [done|]. rw Hm.
  iApply mwp_bind. iApply wp_run_ret. iApply mwp_bind. iApply Hop. iFrame "Hv".
  iIntros (m1) "Hv". iApply mwp_ret. iApply "HQ". by iApply "Hvars".
Qed.

Lemma runs_resize i n vs vs' :
  Forall wf vs -> in_u 32 n -> spec_step (Resize i n) vs = Ret vs' -> runs_to (Resize i n) vs vs'.
Proof.
  intros Hw Hn (v & Hi & (v1 & Hv & [= <-])%bind_Ret_inv)%bind_Ret_inv ms Q.
  assert (wf v) by by eapply Forall_lookup_1, variable_inv.
  apply (runs_change _ _ _ v v1 (mem_resize n)); [done|]. intros m Q'. by apply wp_resize.
Qed.

Lemma runs_discard i key vs vs' :
  Forall wf vs -> spec_step (Discard i key) vs = Ret vs' -> runs_to (Discard i key) vs vs'.
Proof.
  intros Hw (v & Hi & (v1 & Hv & [= <-])%bind_Ret_inv)%bind_Ret_inv ms Q.
  assert (wf v) by by eapply Forall_lookup_1, variable_inv.
  apply (runs_change _ _ _ v v1 (mem_removeMember_void key)); [done|]. intros m Q'. by apply wp_removeMember_void.
Qed.

Lemma runs_clear i vs vs' : spec_step (Clear i) vs = Ret vs' -> runs_to (Clear i) vs vs'.
Proof.
  intros (v & Hi & (v1 & Hv & [= <-])%bind_Ret_inv)%bind_Ret_inv ms Q.
  apply (runs_change _ _ _ v v1 mem_clear); [done|]. intros m Q'. by apply wp_clear.
Qed.

Lemma step_runs s vs vs' :
  statement_ok s -> Forall wf vs -> spec_step s vs = Ret vs' -> runs_to s vs vs'.
Proof.
  intros Hok Hw Hs. destruct s.
  - by apply runs_construct.
  - by apply runs_assign.
  - by apply runs_swap.
  - by apply runs_member.
  - by apply runs_element.
  - by apply runs_append.
  - by apply runs_remove.
  - by apply runs_discard.
  - by apply runs_insert.
  - by apply runs_removeAt.
  - by apply runs_resize.
  - by apply runs_clear.
Qed.
End operations.

Lemma construct_wf c v : statement_ok (Construct 0 c) -> spec_construct c = Ret v -> wf v.
Proof.
  intros Hc Hv. destruct c as [t|z|s|s]; cbn [spec_construct] in Hv.
  - injection Hv as <-. destruct t; try done; try (repeat split; constructor); unfold wf, in_s, in_u; simpl; lia.
  - by injection Hv as <-.
  - unfold Value_string, duplicateAndPrefixStringValue in Hv.
    by apply bind_Ret_inv in Hv as (s' & [_ [= <-]]%json_assert_bind & [= <-]).
  - injection Hv as <-. destruct Hc as [Hs _]. rw -(take_c_str s). by apply Forall_take.
Qed.

Lemma variable_wf i vs v : Forall wf vs -> variable i vs = Ret v -> wf v.
Proof. intros Hw Hi%variable_inv. by eapply Forall_lookup_1. Qed.

Lemma removed_wf key v b r v' : wf v -> removeMember key v = (b, r, v') -> wf (default Value_null r).
Proof.
  intros Hw. unfold removeMember. rw wf_unfold in Hw. destruct (value_ v) as [| | | | | | |n]; try by intros [= <- <- <-].
  destruct (om_find (CZString key) n) as [w|] eqn:Hf; intros [= <- <- <-]; [|done].
  by eapply (wf_map_find (Forall byte_ok) (CZString key)).
Qed.

Lemma removed_at_wf i v b r v' : wf v -> removeIndex i v = Ret (b, r, v') -> wf (default Value_null r).
Proof.
  intros Hw. unfold removeIndex. rw wf_unfold in Hw. destruct (value_ v) as [| | | | | |n|]; try by intros [= <- <- <-].
  destruct (om_find i n) as [w|] eqn:Hf; [|by intros [= <- <- <-]].
  intros (v1 & _ & H1)%bind_Ret_inv. destruct (om_find _ (array_map v1)); [|done]. injection H1 as <- <- <-.
  by eapply (wf_map_find (in_u 32)).
Qed.

Lemma step_wf s vs vs' : statement_ok s -> Forall wf vs -> spec_step s vs = Ret vs' -> Forall wf vs'.
Proof.
  intros Hok Hw Hs. destruct s; cbn [spec_step] in Hs; apply bind_Ret_inv in Hs as (v & Hi & Hs).
  - apply bind_Ret_inv in Hs as (w & Hc & [= <-]). apply Forall_insert; [done|]. by eapply construct_wf.
  - apply bind_Ret_inv in Hs as (w & Hj & [= <-]). apply Forall_insert; [done|]. by eapply variable_wf.
  - apply bind_Ret_inv in Hs as (w & Hj & [= <-]). apply Forall_insert; [apply Forall_insert; [done|]|]; by eapply variable_wf.
  - apply bind_Ret_inv in Hs as (v1 & Hv & (w & Hj & [= <-])%bind_Ret_inv).
    assert (wf v1) by (eapply wf_resolveReference; [..|exact Hv]; eauto using variable_wf).
    apply Forall_insert; [done|]. apply wf_write_key; [|done]. intros _ _.
    eapply variable_wf; [|exact Hj]. by apply Forall_insert.
  - apply bind_Ret_inv in Hs as (v1 & Hv & (w & Hj & [= <-])%bind_Ret_inv).
    assert (wf v1) by (eapply wf_index_ref; eauto using variable_wf).
    apply Forall_insert; [done|]. apply wf_write_index; [|done]. intros _ _.
    eapply variable_wf; [|exact Hj]. by apply Forall_insert.
  - apply bind_Ret_inv in Hs as (w & Hj & (v1 & Hv & [= <-])%bind_Ret_inv). apply Forall_insert; [done|].
    eapply wf_append; [..|exact Hv]; by eapply variable_wf.
  - destruct (removeMember key v) as [[b r] v1] eqn:Hv. apply bind_Ret_inv in Hs as (w & Hj & [= <-]).
    pose proof (variable_wf _ _ _ Hw Hi) as Hwv.
    apply Forall_insert; [apply Forall_insert; [done|]|]; [by eapply wf_removeMember|by eapply removed_wf].
  - apply bind_Ret_inv in Hs as (v1 & Hv & [= <-]). apply Forall_insert; [done|].
    eapply wf_removeMember_void; [|exact Hv]. by eapply variable_wf.
  - apply bind_Ret_inv in Hs as (w & Hj & ([b v1] & Hv & [= <-])%bind_Ret_inv). apply Forall_insert; [done|].
    eapply wf_insert; [exact Hok|..|exact Hv]; by eapply variable_wf.
  - apply bind_Ret_inv in Hs as ([[b r] v1] & Hv & (w & Hj & [= <-])%bind_Ret_inv).
    pose proof (variable_wf _ _ _ Hw Hi) as Hwv.
    apply Forall_insert; [apply Forall_insert; [done|]|]; [by eapply wf_removeIndex|by eapply removed_at_wf].
  - apply bind_Ret_inv in Hs as (v1 & Hv & [= <-]). apply Forall_insert; [done|].
    eapply wf_resize; [exact Hok|..|exact Hv]. by eapply variable_wf.
  - apply bind_Ret_inv in Hs as (v1 & Hv & [= <-]). apply Forall_insert; [done|].
    eapply wf_clear; [|exact Hv]. by eapply variable_wf.
Qed.

(** ** Programs *)

Section runs.
Context `{Allocator}.

Lemma wp_mem_run p vs vs' ms Q :
  Forall statement_ok p -> Forall wf vs -> spec_run p vs = Ret vs' ->
  vars_at ms vs ∗ (∀ ms', vars_at ms' vs' -∗ Q ms') ⊢ mem (mem_run p ms) Q.
Proof.
  intros Hok. revert vs ms. induction Hok as [|s p Hs _ IH]; intros vs ms Hw Hr; iIntros "[Hvars HQ]".
  - injection Hr as <-. iApply mwp_ret. by iApply "HQ".
  - apply bind_Ret_inv in Hr as (vs1 & Hs1 & Hr). cbn [mem_run]. iApply mwp_bind.
    iApply (step_runs _ _ _ Hs Hw Hs1). iFrame "Hvars". iIntros (ms1) "Hvars".
    iApply (IH vs1); [by eapply step_wf|done|]. iFrame.
Qed.

Lemma wp_view_all ms vs Q : vars_at ms vs ∗ (vars_at ms vs -∗ Q vs) ⊢ mem (view_all ms) Q.
Proof.
  revert vs Q. induction ms as [|m ms IH]; intros [|v vs] Q; iIntros "[Hvars HQ]"; try done.
  - iApply mwp_ret. by iApply "HQ".
  - iDestruct "Hvars" as "[Hv Hvars]". cbn [view_all]. iApply mwp_bind. iApply wp_view. iFrame "Hv". iIntros "Hv".
    iApply mwp_bind. iApply IH. iFrame "Hvars". iIntros "Hvars". iApply mwp_ret. iApply "HQ". iFrame.
Qed.

Lemma wp_destroy_all ms vs Q : vars_at ms vs ∗ Q tt ⊢ mem (destroy_all ms) Q.
Proof.
  revert vs Q. induction ms as [|m ms IH]; intros [|v vs] Q; iIntros "[Hvars HQ]"; try done.
  - by iApply mwp_ret.
  - iDestruct "Hvars" as "[Hv Hvars]". cbn [destroy_all]. iApply mwp_bind. iApply wp_value_destroy. iFrame "Hv".
    iApply IH. iFrame.
Qed.

Lemma null_vars n : ⊢ vars_at (replicate n mem_null) (replicate n Value_null).
Proof. induction n as [|n IH]; [done|]. iSplitL; [iApply null_at|iApply IH]. Qed.

(** A program over [n] variables, what the variables stand for at its end, and the
    end of the variables. *)
Definition whole_run (p : list statement) (n : nat) : ST heap (list Value) :=
  vars ← mem_run p (replicate n mem_null);
  values ← view_all vars;
  _ ← destroy_all vars;
  mret values.
End runs.

Lemma wp_whole_run `{Allocator} p n vs :
  Forall statement_ok p -> spec_run p (replicate n Value_null) = Ret vs ->
  ⊢ mem (whole_run p n) (fun values => ⟨values = vs⟩%I).
Proof.
  intros Hok Hr. unfold whole_run. iApply mwp_bind. iApply wp_mem_run; [done| |exact Hr|].
  { apply Forall_forall. intros v [-> _]%elem_of_replicate. exact I. }
  iSplitR; [iApply null_vars|]. iIntros (ms) "Hvars". iApply mwp_bind. iApply wp_view_all. iFrame "Hvars".
  iIntros "Hvars". iApply mwp_bind. iApply wp_destroy_all. iFrame "Hvars". iApply mwp_ret. by iPureIntro.
Qed.

(** The first free address. *)
#[export, refine] Instance first_fit : Allocator := {| malloc_at h n := Some (fresh (dom h)) |}.
Proof. intros h n l [= <-]. apply not_elem_of_dom, is_fresh. Defined.

(** Two variables, a name in each of the two ways, a value put into itself. *)
Definition demo_program : list statement :=
  [Construct 0 (FromString (STR "text")); Member 1 (STR "b") 0; Member 1 (STR "a") 1; Assign 0 1;
   Append 2 0; Element 2 5 2; Construct 0 (FromStatic (STR "fixed")); Append 2 0;
   Insert 2 2 0; RemoveAt 2 1 0; Resize 2 3;
   Remove 1 (STR "b") 0; Discard 1 (STR "c"); Swap 0 1; Clear 0].

(** Assigning one [CZString] to another copies the pointer but not the text: both
    give the block back. *)
Lemma CZString_assign_frees_twice :
  (a ← CZString_copy (CZString_new (caller_ptr (STR "a")) 1 duplicateOnCopy);
   let b := CZString_assign (CZString_ofIndex 0) a in
   _ ← CZString_destroy a;
   CZString_destroy b) ∅ = Undef "use of a block that is not live".
Proof. vm_compute. reflexivity. Qed.

(** [v.copy(v[...])] releases the payload before it copies the part of it. *)
Lemma copy_own_member_freed :
  (text ← mem_string (STR "x");
   v ← mem_append text mem_null;
   match mem_nodes v with
   | (_, member) :: _ => mem_copy member v
   | [] => mret v
   end) ∅ = Undef "use of a block that is not live".
Proof. vm_compute. reflexivity. Qed.

(** ** Properties *)

(** C15: for every allocator and every program over variables of type [Value] -
    construction, assignment, [swap], [v[key] = w], [v[i] = w], [append],
    [removeMember], [insert], [removeIndex], [resize], [clear], with any variables the same - that runs over values:
    in memory it ends with variables that stand for these values, and when they
    are destroyed no block is left; nothing is read or written outside of a live
    block and no block is freed twice on the way.  The process stops only when
    memory cannot be had. *)
Theorem memory_refines `{Allocator} p n vs :
  Forall statement_ok p -> spec_run p (replicate n Value_null) = Ret vs ->
  match whole_run p n ∅ with
  | Ret (values, h) => values = vs /\ h = ∅
  | Abort msg => memory_stop msg
  | Undef _ | Fuel => False
  end.
Proof.
  intros Hok Hr. pose proof (mwp_adequate _ _ _ (wp_whole_run p n vs Hok Hr)) as Ha.
  destruct (whole_run p n ∅) as [[values h]| | |]; [|exact Ha..]. by destruct Ha as [-> ->].
Qed.

Lemma memory_refines_witness :
  exists vs, spec_run demo_program (replicate 3 Value_null) = Ret vs /\
  match whole_run demo_program 3 ∅ with
  | Ret (values, h) => values = vs /\ h = ∅
  | Abort msg => memory_stop msg
  | Undef _ | Fuel => False
  end.
Proof.
  eexists. split; [vm_compute; reflexivity|]. apply memory_refines; [|vm_compute; reflexivity].
  repeat constructor; unfold byte_ok; lia.
Defined.
