(* ===== verification/Esp.v ===== *)
(** * The platform: ESP-IDF and FreeRTOS as the firmware sees them

    The firmware calls libraries that are not under src/: the HTTP client, the
    clock, the heap, the scheduler, the I2C driver.  They are the parameter
    [Platform]: each answer is a function of the history of calls, the current
    one first, so a platform can answer the same call differently each time,
    and an answer may depend on everything the firmware did before.  The
    history is the trace that the theorems speak of: what was sent, in which
    order, how often. *)
From S2P Require Export CString StateMonad.
Open Scope Z_scope.

Inductive http_method := HTTP_METHOD_GET | HTTP_METHOD_POST | HTTP_METHOD_PUT | HTTP_METHOD_PATCH | HTTP_METHOD_DELETE.
#[export] Instance http_method_eq_dec : EqDecision http_method.
Proof. solve_decision. Defined.

(** The events the HTTP client hands to its event handler during a request;
    [None]: the data pointer is null. *)
Inductive http_event :=
  | HTTP_EVENT_ERROR | HTTP_EVENT_ON_CONNECTED | HTTP_EVENT_HEADER_SENT | HTTP_EVENT_ON_HEADER
  | HTTP_EVENT_ON_DATA (data : option bytes) | HTTP_EVENT_ON_FINISH | HTTP_EVENT_DISCONNECTED
  | HTTP_EVENT_REDIRECT.

(** What the firmware sets of [esp_http_client_config_t]; the rest is zero. *)
Record http_config := {
  cfg_url : bytes;
  cfg_event_handler : bool;       (** [http_event_handler] with the response buffer *)
  cfg_buffer_size_tx : Z;
  cfg_buffer_size : Z;
  cfg_timeout_ms : Z;
  cfg_keep_alive_enable : bool
}.

Inductive call :=
  | HttpInit (config : http_config)
  | HttpSetUrl (url : bytes)
  | HttpSetMethod (method : http_method)
  | HttpSetPostField (body : bytes)
  | HttpSetHeader (key value : bytes)
  | HttpSetTimeout (ms : Z)
  | HttpPerform
  | HttpGetStatus
  | HttpClose
  | HttpCleanup
  | TaskDelay (ms : Z)
  | Time
  | NewChar (size : nat)
  | TimerGetTime
  | I2cNewBus
  | I2cAddDevice (address : Z)
  | I2cTransmit (address : Z) (cmd : bytes)
  | I2cReceive (address : Z) (len : nat)
  | ModemAt (cmd : bytes) (timeout_ms : Z)
  | ModemCommand (cmd : bytes) (timeout_ms : Z)
  | UlHttpInit (url : bytes) (bound : bool)    (** the client of the geolocation request *)
  | EspApi (name : bytes) (args : list Z).     (** any other function of the SDK *)

(** The answers.  [http_init]: whether the handle is not null; [http_set]: the
    error code of a setter; [http_perform]: the events delivered and the error
    code; [time]: the epoch; [new_char]: the bytes of fresh memory;
    [i2c]: the error code of a transfer and the bytes received; [modem_at]: the
    error code of [esp_modem_at] and the text it stores, if it stores one;
    [modem_command]: the error code of [esp_modem_command] and the pieces of
    text it hands to its callback; [dns_info]: the type and the address of a DNS
    entry; [api]: the result of any other function. *)
Class Platform := {
  http_init : list call -> bool;
  http_set : list call -> Z;
  http_perform : list call -> list http_event * Z;
  http_get_status_code : list call -> Z;
  time : list call -> Z;
  timer_get_time : list call -> Z;
  new_char : list call -> nat -> Z;
  i2c_err : list call -> Z;
  i2c_data : list call -> nat -> Z;
  modem_at : list call -> Z * option bytes;
  modem_command : list call -> Z * list bytes;
  dns_info : list call -> Z * Z;
  api : list call -> Z
}.

Definition ESP_OK : Z := 0.
Definition ESP_FAIL : Z := -1.
Definition ESP_ERR_INVALID_ARG : Z := 0x102.
Definition ESP_ERR_TIMEOUT : Z := 0x107.
Definition ESP_ERR_INVALID_CRC : Z := 0x109.
