(* ===== verification/FirebaseApp.v ===== *)
(** * [ESPFirebase::FirebaseApp] (components/esp_firebase/app.h, app.cpp)

    The HTTP event handler with its fixed response buffer, the request loop
    with its retries, and the handling of the Firebase tokens.  The methods run
    in [Net]: the object itself, the handler's global [output_len], and the
    trace of the calls to the platform. *)
From S2P Require Export Esp JsonReader.
Open Scope Z_scope.

Definition HTTP_RECV_BUFFER_SIZE : Z := 16384.

(** ** The event handler *)

(** [http_event_handler] with the buffer [user_data] and [output_len]. *)
Definition http_event_handler (evt : http_event) (st : bytes * Z) : outcome (bytes * Z) :=
  let '(user_data, output_len) := st in
  match evt with
  | HTTP_EVENT_ON_CONNECTED =>
      b ← mem_write 0 (zeros HTTP_RECV_BUFFER_SIZE) user_data; Ret (b, 0)
  | HTTP_EVENT_ON_FINISH => Ret (user_data, 0)
  | HTTP_EVENT_ON_DATA (Some data) =>
      let data_len := Z.of_nat (length data) in
      if 0 <? data_len then
        let capacity := HTTP_RECV_BUFFER_SIZE - 1 in
        let space := capacity - output_len in
        if 0 <? space then
          let to_copy := if data_len <? space then data_len else space in
          b ← mem_write output_len (take (Z.to_nat to_copy) data) user_data;
          let output_len := output_len + to_copy in
          b ← mem_write output_len [0] b;
          Ret (b, output_len)
        else Ret st
      else Ret st
  | _ => Ret st
  end.

Fixpoint handle_events (evts : list http_event) (st : bytes * Z) : outcome (bytes * Z) :=
  match evts with
  | [] => Ret st
  | e :: evts' => st' ← http_event_handler e st; handle_events evts' st'
  end.

(** ** The object *)

Record user_account_t := { user_email : bytes; user_password : bytes }.
#[export] Instance user_account_eq_dec : EqDecision user_account_t.
Proof. solve_decision. Defined.

Record http_ret_t := mkRet { err : Z; status_code : Z }.

(** [client]: [None] for a null handle; the boolean tells whether its
    configuration had the event handler. *)
Record App := mkApp {
  api_key : bytes;
  register_url : bytes;
  login_url : bytes;
  auth_url : bytes;
  refresh_token : bytes;
  client : option bool;
  auth_obtained_time : Z;
  auth_expires_in : Z;
  default_timeout_ms : Z;
  user_account : user_account_t;
  local_response_buffer : bytes;
  auth_token : bytes
}.

Record Net := mkNet { trace : list call; output_len : Z; this : App }.

Definition set_refresh_token (x : bytes) (a : App) : App :=
  mkApp (api_key a) (register_url a) (login_url a) (auth_url a) x (client a) (auth_obtained_time a)
        (auth_expires_in a) (default_timeout_ms a) (user_account a) (local_response_buffer a) (auth_token a).
Definition set_client (x : option bool) (a : App) : App :=
  mkApp (api_key a) (register_url a) (login_url a) (auth_url a) (refresh_token a) x (auth_obtained_time a)
        (auth_expires_in a) (default_timeout_ms a) (user_account a) (local_response_buffer a) (auth_token a).
Definition set_auth (token : bytes) (obtained expires : Z) (a : App) : App :=
  mkApp (api_key a) (register_url a) (login_url a) (auth_url a) (refresh_token a) (client a) obtained
        expires (default_timeout_ms a) (user_account a) (local_response_buffer a) token.
Definition set_default_timeout (x : Z) (a : App) : App :=
  mkApp (api_key a) (register_url a) (login_url a) (auth_url a) (refresh_token a) (client a)
        (auth_obtained_time a) (auth_expires_in a) x (user_account a) (local_response_buffer a) (auth_token a).
Definition set_user_account (x : user_account_t) (a : App) : App :=
  mkApp (api_key a) (register_url a) (login_url a) (auth_url a) (refresh_token a) (client a)
        (auth_obtained_time a) (auth_expires_in a) (default_timeout_ms a) x (local_response_buffer a)
        (auth_token a).
Definition set_buffer (x : bytes) (a : App) : App :=
  mkApp (api_key a) (register_url a) (login_url a) (auth_url a) (refresh_token a) (client a)
        (auth_obtained_time a) (auth_expires_in a) (default_timeout_ms a) (user_account a) x (auth_token a).

Definition on_app (f : App -> App) (n : Net) : Net := mkNet (trace n) (output_len n) (f (this n)).
Definition on_buffer (b : bytes) (len : Z) (n : Net) : Net := mkNet (trace n) len (set_buffer b (this n)).
Definition log_call (c : call) (n : Net) : Net := mkNet (c :: trace n) (output_len n) (this n).

Section app.
Context `{Platform}.

(** A call to the platform and its answer.  The setters of the client take its
    handle as it is, null included: what they do with a null handle is the
    platform's. *)
Definition esp_call {A} (c : call) (answer : list call -> A) : ST Net A :=
  fun n => Ret (answer (c :: trace n), log_call c n).

Definition vTaskDelay (ms : Z) : ST Net unit := esp_call (TaskDelay ms) (fun _ => tt).

(** [esp_http_client_init]: the handle, with its handler when not null. *)
Definition esp_http_client_init (config : http_config) : ST Net (option bool) :=
  esp_call (HttpInit config)
    (fun h => if http_init h then Some (cfg_event_handler config) else None).

Definition set_client_handle (c : option bool) : ST Net unit := put (on_app (set_client c)).

(** [esp_http_client_perform]: the client delivers the events to the handler it
    was configured with. *)
Definition esp_http_client_perform : ST Net Z :=
  '(evts, e) ← esp_call HttpPerform http_perform;
  c ← get (fun n => client (this n));
  match c with
  | Some true =>
      st ← get (fun n => (local_response_buffer (this n), output_len n));
      '(b, len) ← run (handle_events evts st);
      _ ← put (on_buffer b len);
      mret e
  | _ => mret e
  end.

Definition firebaseClientInit : ST Net unit :=
  let config := {| cfg_url := STR "https://google.com"; cfg_event_handler := true;
                   cfg_buffer_size_tx := 4096; cfg_buffer_size := HTTP_RECV_BUFFER_SIZE;
                   cfg_timeout_ms := 20000; cfg_keep_alive_enable := false |} in
  _ ← put (on_app (set_default_timeout (cfg_timeout_ms config)));
  c ← esp_http_client_init config;
  set_client_handle c.

Definition setHeader (header value : bytes) : ST Net Z := esp_call (HttpSetHeader header value) http_set.

Definition has_body (method : http_method) : bool :=
  match method with
  | HTTP_METHOD_POST | HTTP_METHOD_PUT | HTTP_METHOD_PATCH => true
  | _ => false
  end.

(** [%s] with the response buffer: reads up to its NUL. *)
Definition log_response : ST Net unit :=
  b ← get (fun n => local_response_buffer (this n));
  match cstr b with
  | Some _ => mret tt
  | None => run (Undef "response buffer read past its end")
  end.

(** The branches on the method before [perform]. *)
Definition set_body (method : http_method) (post_field : bytes) : ST Net unit :=
  if has_body method then
    _ ← esp_call (HttpSetPostField post_field) http_set;
    _ ← setHeader (STR "content-type") (STR "application/json");
    mret tt
  else
    _ ← esp_call (HttpSetPostField []) http_set;
    _ ← setHeader (STR "Content-Length") (STR "0");
    mret tt.

(** The branches on the method after a failed attempt. *)
Definition reset_body (method : http_method) : ST Net unit :=
  if has_body method then
    _ ← setHeader (STR "content-type") (STR "application/json"); mret tt
  else
    _ ← esp_call (HttpSetPostField []) http_set;
    _ ← setHeader (STR "Content-Length") (STR "0");
    mret tt.

(** Initialise or reuse the client; whether there is one. *)
Definition prepare_client (url : bytes) : ST Net bool :=
  c ← get (fun n => client (this n));
  match c with
  | None =>
      c ← esp_http_client_init {| cfg_url := url; cfg_event_handler := false; cfg_buffer_size_tx := 0;
                                  cfg_buffer_size := 0; cfg_timeout_ms := 0;
                                  cfg_keep_alive_enable := false |};
      _ ← set_client_handle c;
      mret match c with Some _ => true | None => false end
  | Some _ => _ ← esp_call (HttpSetUrl url) http_set; mret true
  end.

(** Any 2xx. *)
Definition is_success (r : http_ret_t) : bool :=
  (err r =? ESP_OK) && (200 <=? status_code r) && (status_code r <? 300).

Definition MAX_ATTEMPTS : nat := 5.

(** The loop, with the attempts that are left and the last result. *)
Fixpoint request_loop (url : bytes) (method : http_method) (post_field : bytes) (attempts : nat)
    (last : http_ret_t) : ST Net http_ret_t :=
  match attempts with
  | O => mret last
  | S attempts' =>
      ready ← prepare_client url;
      if ready : bool then
        _ ← esp_call (HttpSetMethod method) http_set;
        _ ← set_body method post_field;
        e ← esp_http_client_perform;
        st ← esp_call HttpGetStatus http_get_status_code;
        let r := mkRet e st in
        if is_success r then _ ← esp_call HttpClose (fun _ => tt); mret r
        else
          _ ← log_response;
          _ ← reset_body method;
          _ ← vTaskDelay 500;
          request_loop url method post_field attempts' r
      else mret last
  end.

Definition performRequest (url : bytes) (method : http_method) (post_field : bytes) : ST Net http_ret_t :=
  request_loop (c_str url) method post_field MAX_ATTEMPTS (mkRet ESP_FAIL (-1)).

Definition clearHTTPBuffer : ST Net unit :=
  b ← get (fun n => local_response_buffer (this n));
  b ← run (mem_write 0 (zeros HTTP_RECV_BUFFER_SIZE) b);
  put (on_buffer b 0).

Definition setHttpTimeoutMs (ms : Z) : ST Net unit :=
  c ← get (fun n => client (this n));
  match c with
  | Some _ => _ ← esp_call (HttpSetTimeout ms) http_set; mret tt
  | None => mret tt
  end.

Definition restoreDefaultHttpTimeout : ST Net unit :=
  ms ← get (fun n => default_timeout_ms (this n)); setHttpTimeoutMs ms.

(** The response as a C string, parsed by a [Json::Reader] into a fresh
    [Json::Value]; the verdict of [parse] is not looked at. *)
Definition parse_response : ST Net Value :=
  b ← get (fun n => local_response_buffer (this n));
  match cstr b with
  | None => run (Undef "strlen of the response buffer")
  | Some doc =>
      '(_, s) ← run (parse doc Value_null false (Reader_new Features_all));
      mret (root_ s)
  end.

(** ** Tokens *)

Definition account_json (a : user_account_t) : bytes :=
  [CH "{"; dquote] ++ STR "email" ++ [dquote; CH ":"; dquote] ++ c_str (user_email a) ++
  [dquote] ++ STR ", " ++ [dquote] ++ STR "password" ++ [dquote; CH ":"; dquote] ++
  c_str (user_password a) ++
  [dquote] ++ STR ", " ++ [dquote] ++ STR "returnSecureToken" ++ [dquote] ++ STR ": true}".

Definition token_json (refresh_token : bytes) : bytes :=
  [CH "{"; dquote] ++ STR "grant_type" ++ [dquote] ++ STR ": " ++ [dquote] ++ STR "refresh_token" ++
  [dquote] ++ STR ", " ++ [dquote] ++ STR "refresh_token" ++ [dquote; CH ":"; dquote] ++
  refresh_token ++ [dquote; CH "}"].

Definition is_200 (r : http_ret_t) : bool := (err r =? ESP_OK) && (status_code r =? 200).

Definition getRefreshToken (register_account : bool) : ST Net Z :=
  a ← get this;
  let json := account_json (user_account a) in
  _ ← setHeader (STR "content-type") (STR "application/json");
  r ← performRequest (if register_account then register_url a else login_url a) HTTP_METHOD_POST json;
  if is_200 r then
    data ← parse_response;
    '(field, data) ← run (key_ref (STR "refreshToken") data);
    token ← run (asString field);
    _ ← put (on_app (set_refresh_token token));
    mret ESP_OK
  else mret ESP_FAIL.

(** The lifetime of the access token. *)
Definition expires_in (data : Value) : outcome Z :=
  m ← isMember (STR "expires_in") data;
  if m : bool then '(f, _) ← key_ref (STR "expires_in") data; s ← asCString f; atoi s
  else
    m ← isMember (STR "expiresIn") data;
    if m : bool then '(f, _) ← key_ref (STR "expiresIn") data; s ← asCString f; atoi s
    else Ret 3600.

Definition getAuthToken : ST Net Z :=
  a ← get this;
  _ ← setHeader (STR "content-type") (STR "application/json");
  r ← performRequest (auth_url a) HTTP_METHOD_POST (token_json (refresh_token a));
  if is_200 r then
    data ← parse_response;
    '(field, data) ← run (key_ref (STR "access_token") data);
    token ← run (asString field);
    _ ← put (on_app (fun a => set_auth token (auth_obtained_time a) (auth_expires_in a) a));
    e ← run (expires_in data);
    _ ← put (on_app (fun a => set_auth token (auth_obtained_time a) e a));
    now ← esp_call Time time;
    _ ← put (on_app (fun a => set_auth token now e a));
    mret ESP_OK
  else mret ESP_FAIL.

(** The constructor: [b] is the object with its default members. *)
Definition App_init (key : bytes) : App :=
  mkApp key
    (STR "https://identitytoolkit.googleapis.com/v1/accounts:signUp?key=" ++ key)
    (STR "https://identitytoolkit.googleapis.com/v1/accounts:signInWithPassword?key=" ++ key)
    (STR "https://securetoken.googleapis.com/v1/token?key=" ++ key)
    [] None 0 0 20000 {| user_email := []; user_password := [] |} [] [].

Definition FirebaseApp_new (key : bytes) (history : list call) (len : Z) : outcome Net :=
  let n := Z.to_nat HTTP_RECV_BUFFER_SIZE in
  let h := NewChar n :: history in
  let buffer := map (new_char h) (seq 0 n) in
  '(_, net) ← firebaseClientInit (mkNet h len (set_buffer buffer (App_init (c_str key))));
  Ret net.

(** The destructor: the buffer and the handle are released; nothing deletes
    [g_app]. *)
Definition FirebaseApp_delete : ST Net unit :=
  _ ← put (on_app (set_buffer []));
  esp_call HttpCleanup (fun _ => tt).

(** Storing the account unless it is the one held already. *)
Definition store_account (account : user_account_t) : ST Net unit :=
  put (on_app (fun a => if decide (user_account a = account) then a else set_user_account account a)).

(** The part that [registerUserAccount] and [loginUserAccount] share. *)
Definition obtain_tokens (register_account : bool) (account : user_account_t) : ST Net Z :=
  _ ← store_account account;
  e ← getRefreshToken register_account;
  if negb (e =? ESP_OK) then mret ESP_FAIL
  else
    _ ← clearHTTPBuffer;
    e ← getAuthToken;
    if negb (e =? ESP_OK) then mret ESP_FAIL
    else _ ← clearHTTPBuffer; mret ESP_OK.

Definition registerUserAccount (account : user_account_t) : ST Net Z := obtain_tokens true account.
Definition loginUserAccount (account : user_account_t) : ST Net Z := obtain_tokens false account.

Definition login_again : ST Net Z :=
  a ← get this; loginUserAccount (user_account a).

Definition refreshAuthIfNeeded : ST Net Z :=
  a ← get this;
  if bool_decide (auth_token a = []) then login_again
  else
    now ← esp_call Time time;
    if auth_expires_in a <=? 0 then mret ESP_OK
    else
      let elapsed := i32 (now - auth_obtained_time a) in
      let remaining := auth_expires_in a - elapsed in
      if (remaining <? - 2 ^ 31) || (2 ^ 31 <=? remaining) then run (Undef "signed overflow")
      else if remaining <? 30 then
        e ← getAuthToken;
        if e =? ESP_OK then _ ← clearHTTPBuffer; mret ESP_OK else login_again
      else mret ESP_OK.

Definition forceRefreshAuth : ST Net Z :=
  e ← getAuthToken;
  if e =? ESP_OK then _ ← clearHTTPBuffer; mret ESP_OK else login_again.
End app.
