(* ===== verification/FirebaseAppFacts.v ===== *)
(** * The HTTP buffer and the request loop of [FirebaseApp]: invariants and theorems

    The response buffer never overflows and always holds a C string once it has
    been cleared; [performRequest] sends the request it is given, up to five
    times, and reports the last reply; the token operations built on it. *)
From S2P Require Import FirebaseApp JsonValueFacts JsonReaderFacts.
Open Scope Z_scope.

(** ** What the trace says *)

Record wire := mkWire { w_url : option bytes; w_method : option http_method; w_body : option bytes }.

(** The settings of the client after the calls of a history. *)
Fixpoint last_url (h : list call) : option bytes :=
  match h with
  | [] => None
  | HttpSetUrl u :: _ => Some u
  | HttpInit c :: _ => Some (cfg_url c)
  | _ :: h' => last_url h'
  end.

Fixpoint last_method (h : list call) : option http_method :=
  match h with
  | [] => None
  | HttpSetMethod m :: _ => Some m
  | HttpInit _ :: _ => None
  | _ :: h' => last_method h'
  end.

Fixpoint last_body (h : list call) : option bytes :=
  match h with
  | [] => None
  | HttpSetPostField b :: _ => Some b
  | HttpInit _ :: _ => None
  | _ :: h' => last_body h'
  end.

(** The requests made, the latest first. *)
Fixpoint sent (h : list call) : list wire :=
  match h with
  | [] => []
  | HttpPerform :: h' => mkWire (last_url h') (last_method h') (last_body h') :: sent h'
  | _ :: h' => sent h'
  end.

Definition request (url : bytes) (method : http_method) (post_field : bytes) : wire :=
  mkWire (Some (c_str url)) (Some method) (Some (if has_body method then post_field else [])).

(** The replies, the latest first. *)
Fixpoint replies `{Platform} (h : list call) : list http_ret_t :=
  match h with
  | [] => []
  | HttpGetStatus :: h' =>
      match h' with
      | HttpPerform :: _ => mkRet (http_perform h').2 (http_get_status_code h) :: replies h'
      | _ => replies h'
      end
  | _ :: h' => replies h'
  end.

(** The history up to the last request performed: what its answers are asked of. *)
Fixpoint last_perform (h : list call) : list call :=
  match h with
  | [] => []
  | HttpPerform :: _ => h
  | _ :: h' => last_perform h'
  end.

(** ** The response buffer *)

Definition buf_ok (st : bytes * Z) : Prop :=
  Z.of_nat (length st.1) = HTTP_RECV_BUFFER_SIZE /\ 0 <= st.2 <= HTTP_RECV_BUFFER_SIZE - 1.

Definition terminated (b : bytes) : Prop := is_Some (cstr b).

Lemma terminated_elem b : 0 ∈ b -> terminated b.
Proof.
  induction b as [|c b IH]; [by intros ?%not_elem_of_nil|]. unfold terminated. simpl.
  destruct (Z.eqb_spec c 0); [by eexists|]. intros [|Hb]%elem_of_cons; [congruence|].
  destruct (IH Hb) as [s ->]. by eexists.
Qed.

Lemma mem_write_all off data buf b :
  mem_write off data buf = Ret b -> forall x, x ∈ data -> x ∈ b.
Proof.
  unfold mem_write. destruct (_ && _); [|discriminate]. intros [= <-] x Hx.
  apply elem_of_app. right. apply elem_of_app. by left.
Qed.

Lemma connected_ok st :
  buf_ok st ->
  exists z, http_event_handler HTTP_EVENT_ON_CONNECTED st = Ret (z, 0) /\
            z = zeros HTTP_RECV_BUFFER_SIZE.
Proof.
  destruct st as [b len]. intros [Hb Hl]. simpl in Hb. unfold http_event_handler.
  destruct (mem_write_ok 0 (zeros HTTP_RECV_BUFFER_SIZE) b) as (b' & E & Hlen & Hb');
    [lia|rewrite length_zeros; unfold HTTP_RECV_BUFFER_SIZE in *; lia|].
  rewrite E. simpl mbind. eexists. split; [done|].
  rewrite Hb'. rewrite length_zeros, drop_ge, app_nil_r by lia. done.
Qed.

(** An [ON_DATA] event with data for which there is room. *)
Lemma data_ok st data :
  buf_ok st -> data <> [] -> 0 < HTTP_RECV_BUFFER_SIZE - 1 - st.2 ->
  let n := Z.min (Z.of_nat (length data)) (HTTP_RECV_BUFFER_SIZE - 1 - st.2) in
  exists b, http_event_handler (HTTP_EVENT_ON_DATA (Some data)) st = Ret (b, st.2 + n) /\
    length b = length st.1 /\
    exists tl, b = take (Z.to_nat st.2) st.1 ++ take (Z.to_nat n) data ++ 0 :: tl.
Proof.
  destruct st as [b len]. simpl fst. simpl snd. intros [Hb Hl] Hd Hs n. simpl in Hb, Hl.
  assert (0 < Z.of_nat (length data)) by (destruct data; simpl; [done|lia]).
  unfold http_event_handler. rewrite (proj2 (Z.ltb_lt _ _)), (proj2 (Z.ltb_lt 0 (_ - len))) by done.
  replace (if Z.of_nat (length data) <? _ then _ else _) with n
    by (unfold n; destruct (Z.ltb_spec (Z.of_nat (length data)) (HTTP_RECV_BUFFER_SIZE - 1 - len)); lia).
  assert (length (take (Z.to_nat n) data) = Z.to_nat n) as Hn by (rewrite length_take; lia).
  destruct (mem_write_ok len (take (Z.to_nat n) data) b) as (b1 & E1 & L1 & B1); [lia..|].
  rewrite E1. simpl mbind.
  destruct (mem_write_ok (len + n) [0] b1) as (b2 & E2 & L2 & B2); [lia|simpl; lia|].
  rewrite E2. simpl mbind. exists b2. split_and!; [done|congruence|].
  assert (take (Z.to_nat (len + n)) b1 = take (Z.to_nat len) b ++ take (Z.to_nat n) data) as Ht.
  { rewrite B1, app_assoc, take_app_le by (rewrite length_app, length_take, Hn; lia).
    apply take_ge. rewrite length_app, length_take, Hn. lia. }
  rewrite B2, Ht, <- app_assoc. by eexists.
Qed.

(** Every event keeps the buffer's bounds, and its terminator if it has one. *)
Lemma event_ok e st :
  buf_ok st ->
  exists st', http_event_handler e st = Ret st' /\ buf_ok st' /\ (terminated st.1 -> terminated st'.1).
Proof.
  intros Hst. assert (forall len, 0 <= len <= HTTP_RECV_BUFFER_SIZE - 1 -> buf_ok (st.1, len)) as Hk.
  { intros len Hl. by destruct Hst. }
  destruct e as [ | | | |[data|] | | | ]; try (exists st; by destruct st).
  - destruct (connected_ok st Hst) as (z & -> & ->). eexists. split_and!; [done| |].
    + split; [by vm_compute|simpl; unfold HTTP_RECV_BUFFER_SIZE; lia].
    + intros _. by eexists.
  - destruct (decide (data = [])) as [->|Hd]; [exists st; by destruct st|].
    destruct (Z.ltb_spec 0 (HTTP_RECV_BUFFER_SIZE - 1 - st.2)) as [Hs|Hs].
    + destruct (data_ok st data Hst Hd Hs) as (b & -> & Hlen & tl & Hb). eexists. split_and!; [done| |].
      * destruct Hst. split; simpl; lia.
      * intros _. apply terminated_elem. simpl. rewrite Hb. do 2 (apply elem_of_app; right).
        apply list_elem_of_here.
    + exists st. split; [|done]. destruct st as [b len]. unfold http_event_handler. simpl in Hs.
      rewrite (proj2 (Z.ltb_ge 0 (HTTP_RECV_BUFFER_SIZE - 1 - len))) by done. by destruct (0 <? _).
  - exists (st.1, 0). split_and!; [by destruct st| |done]. apply Hk. unfold HTTP_RECV_BUFFER_SIZE. lia.
Qed.

Lemma events_ok es st :
  buf_ok st ->
  exists st', handle_events es st = Ret st' /\ buf_ok st' /\ (terminated st.1 -> terminated st'.1).
Proof.
  revert st. induction es as [|e es IH]; intros st Hst; [by exists st|].
  destruct (event_ok e st Hst) as (st1 & E & H1 & T1). destruct (IH st1 H1) as (st2 & E2 & H2 & T2).
  exists st2. cbn [handle_events]. rewrite E, Ret_bind. split_and!; [done|done|tauto].
Qed.

(** The data of a response. *)
Definition chunk (e : http_event) : bytes :=
  match e with HTTP_EVENT_ON_DATA (Some d) => d | _ => [] end.

Definition restarts (e : http_event) : bool :=
  match e with HTTP_EVENT_ON_CONNECTED | HTTP_EVENT_ON_FINISH => true | _ => false end.

Definition capacity : nat := Z.to_nat (HTTP_RECV_BUFFER_SIZE - 1).
Lemma capacity_Z : Z.of_nat capacity = 16383.
Proof. unfold capacity, HTTP_RECV_BUFFER_SIZE. lia. Qed.
#[local] Opaque capacity.

(** While a response arrives, the buffer holds what came so far, as far as it
    fits, and its terminator. *)
Definition holds (s : bytes) (st : bytes * Z) : Prop :=
  buf_ok st /\ st.2 = Z.of_nat (length (take capacity s)) /\ exists tl, st.1 = take capacity s ++ 0 :: tl.

Lemma take_snoc_full {A} n (s d : list A) :
  take n (s ++ d) = take n s ++ take (n - length (take n s)) d.
Proof.
  rewrite take_app, length_take. f_equal. f_equal. lia.
Qed.

Lemma holds_event s e st :
  holds s st -> restarts e = false ->
  exists st', http_event_handler e st = Ret st' /\ holds (s ++ chunk e) st'.
Proof.
  intros (Hst & Hlen & tl & Hb) Hr.
  assert (chunk e = [] \/ exists d, e = HTTP_EVENT_ON_DATA (Some d) /\ d <> []) as [Hc|(d & -> & Hd)].
  { destruct e as [ | | | |[[|c d]|] | | | ]; try (by left). right. by eexists. }
  { rewrite Hc, app_nil_r. exists st. split; [|split_and!; [exact Hst|exact Hlen|by exists tl]].
    destruct e as [ | | | |[[|c d]|] | | | ]; try done; by destruct st. }
  simpl chunk. destruct (Z.ltb_spec 0 (HTTP_RECV_BUFFER_SIZE - 1 - st.2)) as [Hs|Hs].
  - destruct (data_ok st d Hst Hd Hs) as (b & E & Hl & tl' & Hb').
    exists (b, st.2 + Z.min (Z.of_nat (length d)) (HTTP_RECV_BUFFER_SIZE - 1 - st.2)). split; [done|].
    pose proof capacity_Z. unfold HTTP_RECV_BUFFER_SIZE in *. destruct Hst as [Hst1 Hst2].
    unfold HTTP_RECV_BUFFER_SIZE in *.
    set (n := Z.min _ _) in *.
    assert (take (Z.to_nat n) d = take (capacity - length (take capacity s)) d) as Htk.
    { unfold n. destruct (Z.min_spec (Z.of_nat (length d)) (16384 - 1 - st.2)) as [[? ->]|[? ->]].
      - rewrite Nat2Z.id, !take_ge by lia. done.
      - f_equal. lia. }
    split_and!; simpl.
    + split; simpl; unfold n, HTTP_RECV_BUFFER_SIZE; lia.
    + rewrite take_snoc_full, length_app, <- Htk, (length_take d). unfold n. lia.
    + exists tl'. rewrite Hb', Hb, take_app_le, take_ge by lia.
      by rewrite take_snoc_full, Htk, <- app_assoc.
  - exists st. split.
    + destruct st as [b len]. unfold http_event_handler. simpl in Hs.
      rewrite (proj2 (Z.ltb_ge 0 (HTTP_RECV_BUFFER_SIZE - 1 - len))) by done. by destruct (0 <? _).
    + assert (length (take capacity s) = capacity) as Hf.
      { pose proof capacity_Z. destruct Hst. unfold HTTP_RECV_BUFFER_SIZE in *. rewrite length_take in *. lia. }
      assert (take capacity (s ++ d) = take capacity s) as Ht.
      { rewrite take_snoc_full, Hf, Nat.sub_diag, app_nil_r. done. }
      unfold holds. rewrite Ht. split_and!; [done|done|by exists tl].
Qed.

Lemma holds_events es s st :
  holds s st -> Forall (fun e => restarts e = false) es ->
  exists st', handle_events es st = Ret st' /\ holds (s ++ (es ≫= chunk)) st'.
Proof.
  revert s st. induction es as [|e es IH]; intros s st Hst Hes.
  { exists st. by rewrite app_nil_r. }
  apply Forall_cons in Hes as [He Hes]. destruct (holds_event s e st Hst He) as (st1 & E1 & H1).
  destruct (IH _ _ H1 Hes) as (st2 & E2 & H2). exists st2. cbn [handle_events]. rewrite E1, Ret_bind.
  rewrite bind_cons, app_assoc. done.
Qed.

Lemma handle_events_app a b st : handle_events (a ++ b) st = st' ← handle_events a st; handle_events b st'.
Proof.
  revert st. induction a as [|e a IH]; intros st; [done|]. cbn [app handle_events].
  destruct (http_event_handler e st) as [st1| | |]; [|done..]. rewrite !Ret_bind. apply IH.
Qed.

(** Closing events leave the text alone. *)
Lemma closing_events es st :
  Forall (fun e => chunk e = [] /\ e <> HTTP_EVENT_ON_CONNECTED) es ->
  exists len, handle_events es st = Ret (st.1, len).
Proof.
  revert st. induction es as [|e es IH]; intros st Hes; [exists st.2; by destruct st|].
  apply Forall_cons in Hes as [[He Hne] Hes].
  assert (exists len, http_event_handler e st = Ret (st.1, len)) as [len E].
  { destruct e as [ | | | |[[|c d]|] | | | ]; try done; destruct st; by eexists. }
  destruct (IH (st.1, len) Hes) as [len' E']. exists len'. cbn [handle_events]. by rewrite E, Ret_bind.
Qed.

(** From the last time the connection was made: chunks, then closing events. *)
Lemma response_text pre mid post st :
  buf_ok st -> Forall (fun e => restarts e = false /\ 0 ∉ chunk e) mid ->
  Forall (fun e => chunk e = [] /\ e <> HTTP_EVENT_ON_CONNECTED) post ->
  exists st', handle_events (pre ++ HTTP_EVENT_ON_CONNECTED :: mid ++ post) st = Ret st' /\ buf_ok st' /\
              cstr st'.1 = Some (take capacity (mid ≫= chunk)).
Proof.
  intros Hst Hmid Hpost.
  destruct (events_ok (pre ++ HTTP_EVENT_ON_CONNECTED :: mid ++ post) st Hst) as (st' & E & Hok & _).
  exists st'. split_and!; [done|done|].
  rewrite handle_events_app in E. apply bind_Ret_inv in E as (st1 & E1 & E).
  destruct (events_ok pre st Hst) as (st1' & E1' & H1 & _). rewrite E1' in E1. injection E1 as ->.
  cbn [handle_events] in E. destruct (connected_ok st1 H1) as (z & Ez & Hz).
  rewrite Ez, Ret_bind, handle_events_app in E.
  assert (holds [] (z, 0)) as Hh.
  { pose proof capacity_Z. split_and!.
    - split; simpl; [rewrite Hz, length_zeros|]; unfold HTTP_RECV_BUFFER_SIZE; lia.
    - by destruct capacity.
    - exists (tl z). subst z. by destruct capacity. }
  destruct (holds_events mid [] (z, 0) Hh) as (st2 & E2 & H2).
  { eapply Forall_impl; [exact Hmid|]. by intros e [He _]. }
  rewrite E2, Ret_bind in E. destruct (closing_events post st2 Hpost) as [len E3].
  rewrite E3 in E. injection E as <-. destruct H2 as (_ & _ & tl & Htl). simpl in Htl |- *.
  rewrite Htl. apply cstr_app_nul. intros Hin%elem_of_take. destruct Hin as (i & Hi & _).
  apply list_elem_of_lookup_2, list_elem_of_bind in Hi as (e & H0 & He).
  rewrite Forall_forall in Hmid. by apply (Hmid e He).
Qed.

(** Data events carry bytes, and so does the buffer. *)
Definition event_bytes (e : http_event) : Prop := Forall byte_ok (chunk e).

Lemma mem_write_bytes off data buf b :
  Forall byte_ok data -> Forall byte_ok buf -> mem_write off data buf = Ret b -> Forall byte_ok b.
Proof.
  unfold mem_write. intros Hd Hb. destruct (_ && _); [|discriminate]. intros [= <-].
  apply Forall_app. split; [by apply Forall_take|]. apply Forall_app. split; [done|by apply Forall_drop].
Qed.

Lemma zeros_bytes n : Forall byte_ok (zeros n).
Proof. unfold zeros. apply Forall_forall. intros x Hx%list_elem_of_In%repeat_spec. subst. by vm_compute. Qed.

Lemma event_keeps_bytes e st st' :
  event_bytes e -> Forall byte_ok st.1 -> http_event_handler e st = Ret st' -> Forall byte_ok st'.1.
Proof.
  destruct st as [b len]. intros He Hb Hr.
  destruct e as [ | | | |[d|] | | | ]; try (by injection Hr as <-).
  - unfold http_event_handler in Hr. inv_ret Hr. injection Hr as <-.
    by eapply mem_write_bytes, Ha; [apply zeros_bytes|].
  - unfold http_event_handler in Hr.
    destruct (0 <? _); [|by injection Hr as <-]. destruct (0 <? _); [|by injection Hr as <-].
    inv_ret Hr. injection Hr as <-. eapply mem_write_bytes, Ha0; [by repeat constructor|].
    eapply mem_write_bytes, Ha; [by apply Forall_take|done].
Qed.

Lemma events_keep_bytes es st st' :
  Forall event_bytes es -> Forall byte_ok st.1 -> handle_events es st = Ret st' -> Forall byte_ok st'.1.
Proof.
  revert st. induction es as [|e es IH]; intros st Hes Hb Hr; [by injection Hr as <-|].
  apply Forall_cons in Hes as [He Hes]. cbn [handle_events] in Hr.
  apply bind_Ret_inv in Hr as (st1 & E1 & Hr). eapply IH, Hr; [done|]. by eapply event_keeps_bytes.
Qed.

(** ** Replies the firmware can read

    [reply_ok]: the value of a response that the token code reads without
    stopping: an object (or null), with scalar tokens and lifetimes that are
    numerals of an [int]. *)
Definition scalar_field (k : bytes) (v : Value) : Prop :=
  match om_find k (object_map v) with
  | Some x => isArray x || isObject x = false
  | None => True
  end.

Definition int_field (k : bytes) (v : Value) : Prop :=
  match om_find k (object_map v) with
  | Some x => exists s z, value_ x = PString s /\ atoi s = Ret z
  | None => True
  end.

Definition reply_ok (v : Value) : Prop :=
  isNull v || isObject v = true /\ scalar_field (STR "refreshToken") v /\
  scalar_field (STR "access_token") v /\ int_field (STR "expires_in") v /\ int_field (STR "expiresIn") v.

(** The parser gets through the text and finds such a value. *)
Definition text_ok (doc : bytes) : Prop :=
  (opens doc < stackLimit_g)%nat /\
  forall ok s, parse doc Value_null false (Reader_new Features_all) = Ret (ok, s) -> reply_ok (root_ s).

Lemma text_ok_nil : text_ok [].
Proof.
  split; [vm_compute; lia|]. intros ok s. set (r := parse _ _ _ _). vm_compute in r. subst r.
  intros [= <- <-]. by repeat split.
Qed.

(** ** Replies it cannot read

    What stops the token code: each way with the text of the reply that does it. *)
Definition parsed (doc : bytes) (v : Value) : Prop :=
  exists ok s, parse doc Value_null false (Reader_new Features_all) = Ret (ok, s) /\ v = root_ s.

Definition token_keys : list bytes := [STR "refreshToken"; STR "access_token"].
Definition lifetime_keys : list bytes := [STR "expires_in"; STR "expiresIn"].

Inductive reply_aborts (doc : bytes) : string -> Prop :=
  | aborts_nesting : (stackLimit_g <= opens doc)%nat -> reply_aborts doc stack_msg
  | aborts_type v : parsed doc v -> isNull v || isObject v = false ->
      reply_aborts doc "in Json::Value::resolveReference(key, end): requires objectValue"
  | aborts_token v k x : parsed doc v -> k ∈ token_keys -> om_find k (object_map v) = Some x ->
      isArray x || isObject x = true -> reply_aborts doc "Type is not convertible to string"
  | aborts_lifetime v k x : parsed doc v -> k ∈ lifetime_keys -> om_find k (object_map v) = Some x ->
      getString x = None -> reply_aborts doc "in Json::Value::asCString(): requires stringValue".

Inductive reply_overflows (doc : bytes) : string -> Prop :=
  | overflows v k x s : parsed doc v -> k ∈ lifetime_keys -> om_find k (object_map v) = Some x ->
      getString x = Some s -> atoi s = Undef "atoi: out of range" -> reply_overflows doc "atoi: out of range".

(** No text at all; any text. *)
Definition no_text : bytes -> Prop := fun _ => False.
Definition any_text : bytes -> Prop := fun _ => True.

(** A stop with [msg] over a text of [F]. *)
Definition aborts_on (F : bytes -> Prop) (msg : string) : Prop := exists doc, F doc /\ reply_aborts doc msg.
Definition overflows_on (F : bytes -> Prop) (msg : string) : Prop := exists doc, F doc /\ reply_overflows doc msg.

Lemma aborts_on_none msg : ~ aborts_on no_text msg.
Proof. by intros (doc & [] & _). Qed.

Lemma overflows_on_none msg : ~ overflows_on no_text msg.
Proof. by intros (doc & [] & _). Qed.

(** ** The request loop *)

Section growth.
Context `{Platform}.

(** The history grew without a request. *)
Definition same_talk (n m : Net) : Prop :=
  trace n `suffix_of` trace m /\ sent (trace m) = sent (trace n) /\ replies (trace m) = replies (trace n).

Lemma same_talk_eq n m : trace m = trace n -> same_talk n m.
Proof. unfold same_talk. by intros ->. Qed.

#[export] Instance same_talk_preorder : PreOrder same_talk.
Proof.
  split; [intros n; by apply same_talk_eq|]. intros n1 n2 n3 (X1 & S1 & R1) (X2 & S2 & R2).
  split_and!; [by etransitivity|congruence..].
Qed.
End growth.

(** Steps without a request; short texts of bytes. *)
Ltac talk_tac := first [done | apply same_talk_eq; simpl; congruence | split_and!; [by repeat apply suffix_cons_r|done|done]].
Ltac byte_tac := by repeat constructor; vm_compute.

(** The theorems below are about a server whose texts can be read, but for
    those of [F]: with [no_text] the platform leaves readable texts in the buffer
    and nothing can stop the firmware; with [any_text] nothing is assumed of the
    texts, and a token operation may stop, over one of [F]. *)
Section requests.
Context `{Platform} (F : bytes -> Prop).

Definition readable (b : bytes) : Prop := exists doc, cstr b = Some doc /\ (F doc \/ text_ok doc).

(** The platform delivers bytes, and texts that stay readable. *)
Class Delivers : Prop := {
  delivers_bytes : forall h, Forall event_bytes (http_perform h).1;
  delivers_text : forall h st st', buf_ok st -> readable st.1 ->
    handle_events (http_perform h).1 st = Ret st' -> readable st'.1
}.
Context `{Delivers}.

Definition net_ok (n : Net) : Prop :=
  buf_ok (local_response_buffer (this n), output_len n) /\ Forall byte_ok (local_response_buffer (this n)) /\
  readable (local_response_buffer (this n)) /\ client (this n) = Some true.

(** Everything of the object but the response buffer. *)
Definition forget (a : App) : App := set_buffer [] a.

(** [m] returns with [Q]; what may stop it is a text of [F], in the ways texts
    do. *)
Definition wpn {A} (m : ST Net A) (n : Net) (Q : A -> Net -> Prop) : Prop :=
  match m n with
  | Ret (a, n') => Q a n'
  | Abort msg => aborts_on F msg
  | Undef msg => overflows_on F msg
  | Fuel => False
  end.

Lemma wpn_ret {A} (a : A) n (Q : A -> Net -> Prop) : Q a n -> wpn (mret a) n Q.
Proof. done. Qed.

Lemma wpn_bind {A B} (m : ST Net A) (f : A -> ST Net B) n Q :
  wpn m n (fun a n' => wpn (f a) n' Q) -> wpn (m ≫= f) n Q.
Proof. unfold wpn, mbind, ST_bind. destruct (m n) as [[a n']| | |]; simpl; done. Qed.

Lemma wpn_mono {A} (m : ST Net A) n (P Q : A -> Net -> Prop) :
  wpn m n P -> (forall a n', P a n' -> Q a n') -> wpn m n Q.
Proof. unfold wpn. destruct (m n) as [[a n']| | |]; auto. Qed.

Lemma wpn_get {A B} (g : Net -> A) (f : A -> ST Net B) n Q : wpn (f (g n)) n Q -> wpn (get g ≫= f) n Q.
Proof. done. Qed.

Lemma wpn_put {B} g (f : unit -> ST Net B) n Q : wpn (f tt) (g n) Q -> wpn (put g ≫= f) n Q.
Proof. done. Qed.

Lemma wpn_call {A B} c (g : list call -> A) (f : A -> ST Net B) n Q :
  wpn (f (g (c :: trace n))) (log_call c n) Q -> wpn (esp_call c g ≫= f) n Q.
Proof. done. Qed.

Lemma wpn_run {A B} (o : outcome A) (f : A -> ST Net B) n Q :
  match o with
  | Ret a => wpn (f a) n Q
  | Abort msg => aborts_on F msg
  | Undef msg => overflows_on F msg
  | Fuel => False
  end -> wpn (run o ≫= f) n Q.
Proof. unfold wpn, mbind, ST_bind, run. by destruct o. Qed.

Lemma readable_terminated b : readable b -> terminated b.
Proof. intros (doc & Hd & _). by exists doc. Qed.

Lemma net_ok_log c n : net_ok n -> net_ok (log_call c n).
Proof. done. Qed.

Lemma net_ok_app f n :
  (forall a, local_response_buffer (f a) = local_response_buffer a /\ client (f a) = client a) ->
  net_ok n -> net_ok (on_app f n).
Proof.
  intros Hf (H1 & H2 & H3 & H4). destruct (Hf (this n)) as [E1 E2].
  unfold net_ok, on_app. simpl. by rewrite E1, E2.
Qed.

(** The buffer is what the events of the last reply made of a buffer. *)
Definition holds_reply (n : Net) : Prop :=
  exists st st', buf_ok st /\ handle_events (http_perform (last_perform (trace n))).1 st = Ret st' /\
    local_response_buffer (this n) = st'.1.

Lemma holds_reply_same n m :
  last_perform (trace m) = last_perform (trace n) -> local_response_buffer (this m) = local_response_buffer (this n) ->
  holds_reply n -> holds_reply m.
Proof. unfold holds_reply. by intros -> ->. Qed.

Lemma perform_ok n :
  net_ok n ->
  let h := HttpPerform :: trace n in
  exists n', esp_http_client_perform n = Ret ((http_perform h).2, n') /\ net_ok n' /\
             trace n' = h /\ forget (this n') = forget (this n) /\ holds_reply n'.
Proof.
  intros (Hb & Hby & Ht & Hc) h. unfold esp_http_client_perform.
  rewrite (ST_bind_Ret (esp_call _ _) _ _ _ _ eq_refl). fold h.
  pose proof (delivers_bytes h) as Hbytes. pose proof (delivers_text h) as Htext.
  unfold holds_reply. destruct (http_perform h) as [es e] eqn:Ep.
  cbn beta iota. rewrite get_bind. cbn [log_call this]. rewrite Hc, get_bind.
  destruct (events_ok es _ Hb) as ([b len] & E1 & H1 & T1).
  rewrite (ST_bind_Ret (run _) _ _ (b, len) (log_call HttpPerform n)), put_bind
    by (unfold run; simpl; by rewrite E1).
  eexists. split_and!; [done| |done|done|].
  - split_and!; [done| | |done].
    + eapply (events_keep_bytes es (_, _) (b, len)); [exact Hbytes|exact Hby|exact E1].
    + eapply (Htext (_, _) (b, len)); [exact Hb|exact Ht|exact E1].
  - cbn [on_buffer log_call trace last_perform this]. fold h. rewrite Ep. eexists _, (b, len).
    split_and!; [exact Hb|exact E1|done].
Qed.

(** One attempt, up to the reply. *)
(** The steps on the body, before a request and after a refused one. *)
Lemma set_body_ok url method post_field n :
  net_ok n -> exists na, set_body method post_field (log_call (HttpSetMethod method) (log_call (HttpSetUrl url) n)) = Ret (tt, na) /\
    net_ok na /\ forget (this na) = forget (this n) /\ sent (trace na) = sent (trace n) /\
    replies (trace na) = replies (trace n) /\ trace n `suffix_of` trace na /\
    mkWire (last_url (trace na)) (last_method (trace na)) (last_body (trace na)) =
      mkWire (Some url) (Some method) (Some (if has_body method then post_field else [])).
Proof. intros Hn. unfold set_body. destruct (has_body method); eexists; (split; [reflexivity|]); split_and!; try done; simpl; by repeat apply suffix_cons_r. Qed.

Lemma reset_body_ok method n :
  net_ok n -> exists nd, reset_body method n = Ret (tt, nd) /\ net_ok nd /\ this nd = this n /\
    sent (trace nd) = sent (trace n) /\ replies (trace nd) = replies (trace n) /\
    trace n `suffix_of` trace nd /\ last_perform (trace nd) = last_perform (trace n).
Proof.
  intros Hn. unfold reset_body. destruct (has_body method); eexists; (split; [reflexivity|]);
    split_and!; try done; simpl; by repeat apply suffix_cons_r.
Qed.

Lemma log_response_ok n : net_ok n -> log_response n = Ret (tt, n).
Proof. intros (_ & _ & [s Hs]%readable_terminated & _). unfold log_response. rewrite get_bind. by rewrite Hs. Qed.

Lemma attempt_ok url method post_field attempts last n :
  net_ok n ->
  exists r n1 n2,
    request_loop url method post_field (S attempts) last n =
      (if is_success r then Ret (r, n1) else request_loop url method post_field attempts r n2) /\
    net_ok n1 /\ net_ok n2 /\ forget (this n1) = forget (this n) /\ forget (this n2) = forget (this n) /\
    let w := mkWire (Some url) (Some method) (Some (if has_body method then post_field else [])) in
    sent (trace n1) = w :: sent (trace n) /\ sent (trace n2) = w :: sent (trace n) /\
    replies (trace n1) = r :: replies (trace n) /\ replies (trace n2) = r :: replies (trace n) /\
    trace n `suffix_of` trace n1 /\ trace n `suffix_of` trace n2 /\ holds_reply n1 /\ holds_reply n2.
Proof.
  intros Hn. pose proof Hn as (_ & _ & _ & Hc).
  destruct (set_body_ok url method post_field n Hn) as (na & Ea & Hna & Hfa & Hsa & Hra & Hxa & Hw).
  destruct (perform_ok na Hna) as (nb & Eb & Hb & Htb & Hfb & Hrb).
  set (e := (http_perform (HttpPerform :: trace na)).2) in *.
  set (nc := log_call HttpGetStatus nb). set (r := mkRet e (http_get_status_code (trace nc))).
  assert (net_ok nc) as Hnc by done. destruct (reset_body_ok method nc Hnc) as (nd & Ed & Hnd & Hfd & Hsd & Hrd & Hxd & Hpd).
  assert (prepare_client url n = Ret (true, log_call (HttpSetUrl url) n)) as Ep.
  { unfold prepare_client. rewrite get_bind, Hc. done. }
  assert (sent (trace nc) = mkWire (Some url) (Some method)
            (Some (if has_body method then post_field else [])) :: sent (trace n)) as Hs.
  { unfold nc, log_call. simpl trace. rewrite Htb. cbn [sent]. by rewrite Hw, Hsa. }
  assert (replies (trace nc) = r :: replies (trace n)) as Hr.
  { unfold r, nc, log_call. simpl trace. rewrite Htb. cbn [replies]. fold e. by rewrite Hra. }
  assert (forget (this nc) = forget (this n)) as Hfc by (simpl; by rewrite Hfb).
  assert (trace n `suffix_of` trace nc) as Hxc by (simpl; rewrite Htb; by do 2 apply suffix_cons_r).
  exists r, (log_call HttpClose nc), (log_call (TaskDelay 500) nd). cbv zeta. split_and!; try done.
  - cbn [request_loop]. rewrite (ST_bind_Ret _ _ _ _ _ Ep). cbn iota.
    rewrite (ST_bind_Ret (esp_call _ _) _ _ _ _ eq_refl), (ST_bind_Ret _ _ _ _ _ Ea),
      (ST_bind_Ret _ _ _ _ _ Eb), (ST_bind_Ret (esp_call _ _) _ _ _ _ eq_refl).
    change (mkRet e (http_get_status_code (HttpGetStatus :: trace nb))) with r. fold nc.
    destruct (is_success r); [by rewrite (ST_bind_Ret (esp_call _ _) _ _ _ _ eq_refl)|].
    by rewrite (ST_bind_Ret _ _ _ _ _ (log_response_ok nc Hnc)), (ST_bind_Ret _ _ _ _ _ Ed).
  - cbn [log_call this]. by rewrite Hfd.
  - exact (eq_trans Hsd Hs).
  - exact (eq_trans Hrd Hr).
  - by apply suffix_cons_r.
  - apply suffix_cons_r. by etransitivity.
  - apply (holds_reply_same nd); [done|done|]. apply (holds_reply_same nb); [exact Hpd|by rewrite Hfd|exact Hrb].
Qed.

Lemma request_loop_ok url method post_field attempts last n :
  net_ok n ->
  exists r rs n', request_loop url method post_field attempts last n = Ret (r, n') /\ net_ok n' /\
    forget (this n') = forget (this n) /\
    sent (trace n') =
      repeat (mkWire (Some url) (Some method) (Some (if has_body method then post_field else [])))
        (length rs) ++ sent (trace n) /\
    replies (trace n') = rs ++ replies (trace n) /\
    (length rs <= attempts)%nat /\ (rs = [] -> attempts = O /\ n' = n) /\
    r = default last (head rs) /\ Forall (fun r => is_success r = false) (tail rs) /\
    (is_success r = true \/ length rs = attempts) /\
    trace n `suffix_of` trace n' /\ (rs <> [] -> holds_reply n').
Proof.
  revert last n. induction attempts as [|k IH]; intros last n Hn.
  { exists last, [], n. split_and!; try done; by right. }
  destruct (attempt_ok url method post_field k last n Hn)
    as (r & n1 & n2 & -> & H1 & H2 & F1 & F2 & S1 & S2 & R1 & R2 & X1 & X2 & P1 & P2).
  destruct (is_success r) eqn:Er.
  { exists r, [r], n1. split_and!; try done; [simpl; lia|by left]. }
  destruct (IH r n2 H2) as (r' & rs & n' & -> & Hn' & Fg & Sw & R & L & Hnil & Hr & Hf & Hs & X & P).
  exists r', (rs ++ [r]), n'. split_and!; [done|done|by rewrite Fg| | | | | | | | |].
  - rewrite Sw, S2, length_app, repeat_app, <- app_assoc. done.
  - by rewrite R, R2, <- app_assoc.
  - rewrite length_app. simpl. lia.
  - by destruct rs.
  - rewrite Hr. by destruct rs.
  - destruct rs; [constructor|]. simpl. apply Forall_app. split; [done|by repeat constructor].
  - destruct Hs as [Hs|Hs]; [by left|right]. rewrite length_app. simpl. lia.
  - by etransitivity.
  - intros _. destruct rs; [|by apply P]. by destruct (Hnil eq_refl) as [_ ->].
Qed.

(** One call of [performRequest]: up to five times the same request, until a
    reply is a success; the result is the last reply. *)
Definition asked (w : wire) (r : http_ret_t) (n n' : Net) : Prop :=
  exists rs, sent (trace n') = repeat w (length rs) ++ sent (trace n) /\
    replies (trace n') = rs ++ replies (trace n) /\ (1 <= length rs <= MAX_ATTEMPTS)%nat /\
    head rs = Some r /\ Forall (fun r => is_success r = false) (tail rs) /\
    (is_success r = true \/ length rs = MAX_ATTEMPTS) /\ trace n `suffix_of` trace n'.

Lemma performRequest_ok url method post_field n :
  net_ok n ->
  exists r n', performRequest url method post_field n = Ret (r, n') /\ net_ok n' /\
    forget (this n') = forget (this n) /\ asked (request url method post_field) r n n' /\ holds_reply n'.
Proof.
  intros Hn. destruct (request_loop_ok (c_str url) method post_field MAX_ATTEMPTS (mkRet ESP_FAIL (-1)) n Hn)
    as (r & rs & n' & E & Hn' & Hf & Hs & Hr & Hl & Hnil & Hhd & Htl & Hend & Hx & Hp).
  assert (rs <> []) as Hrs by (intros ->; by destruct (Hnil eq_refl)).
  exists r, n'. split_and!; [done..| |by apply Hp]. exists rs. split_and!; try done.
  - destruct rs; [done|simpl; lia].
  - destruct rs; [done|by rewrite Hhd].
Qed.

(** A conversation: requests with their last replies, in order, while the
    history grows. *)
Inductive talks : list (wire * http_ret_t) -> Net -> Net -> Prop :=
  | talks_nil n n' : same_talk n n' -> talks [] n n'
  | talks_cons w r l n n1 n' : asked w r n n1 -> talks l n1 n' -> talks ((w, r) :: l) n n'.

Lemma asked_change w r n n1 m : asked w r n n1 -> same_talk m n -> asked w r m n1.
Proof.
  intros (rs & E1 & E2 & Hl & Hh & Hf & He & X) (X' & S & R). exists rs. rewrite E1, E2, S, R.
  split_and!; [done..|lia|lia|done|done|done|by etransitivity].
Qed.

Lemma talks_change l n m n' m' : talks l n n' -> same_talk m n -> same_talk n' m' -> talks l m m'.
Proof.
  intros Ht. revert m. induction Ht as [n n' Hs|w r l n n1 n' Ha _ IH]; intros m Hm Hm'.
  - constructor. etransitivity; [exact Hm|]. by etransitivity.
  - econstructor; [by eapply asked_change|by apply IH].
Qed.

Lemma talks_app l1 l2 n n1 n' : talks l1 n n1 -> talks l2 n1 n' -> talks (l1 ++ l2) n n'.
Proof.
  induction 1 as [n n1 Hs|w r l n n0 n1 Ha _ IH]; intros Ht; [by eapply talks_change|].
  econstructor; [exact Ha|by apply IH].
Qed.

Lemma talks_one w r n n' : asked w r n n' -> talks [(w, r)] n n'.
Proof. intros Ha. econstructor; [exact Ha|by constructor]. Qed.

Lemma talks_suffix l n n' : talks l n n' -> trace n `suffix_of` trace n'.
Proof.
  induction 1 as [n n' (X & _)|w r l n n1 n' (rs & _ & _ & _ & _ & _ & _ & X) _ IH]; [done|by etransitivity].
Qed.

Lemma performRequest_wp url method post_field n Q :
  net_ok n ->
  (forall r n', net_ok n' -> forget (this n') = forget (this n) ->
     talks [(request url method post_field, r)] n n' -> holds_reply n' -> Q r n') ->
  wpn (performRequest url method post_field) n Q.
Proof.
  intros Hn HQ. destruct (performRequest_ok url method post_field n Hn) as (r & n' & E & H1 & H2 & H3 & H4).
  unfold wpn. rewrite E. apply HQ; [done..|by apply talks_one|done].
Qed.

Definition cleared (n : Net) : Prop :=
  local_response_buffer (this n) = zeros HTTP_RECV_BUFFER_SIZE /\ output_len n = 0.

Lemma clearHTTPBuffer_ok n :
  net_ok n -> exists n', clearHTTPBuffer n = Ret (tt, n') /\ net_ok n' /\ forget (this n') = forget (this n) /\
    trace n' = trace n /\ cleared n'.
Proof.
  intros ([Hb Hl] & Hby & Hr & Hc). unfold clearHTTPBuffer. rewrite get_bind. simpl in Hb.
  destruct (mem_write_ok 0 (zeros HTTP_RECV_BUFFER_SIZE) (local_response_buffer (this n)))
    as (b & E & Hlen & Hval); [lia|rewrite length_zeros; unfold HTTP_RECV_BUFFER_SIZE in *; lia|].
  rewrite (ST_bind_Ret (run _) _ n b n) by (unfold run; by rewrite E).
  rewrite length_zeros, drop_ge, app_nil_r in Hval by lia. simpl in Hval. subst b.
  exists (on_buffer (zeros HTTP_RECV_BUFFER_SIZE) 0 n). split; [done|]. split; [|done].
  split_and!; simpl; [|apply zeros_bytes| |done].
  - split; [by vm_compute|simpl; unfold HTTP_RECV_BUFFER_SIZE; lia].
  - exists []. split; [done|right; apply text_ok_nil].
Qed.

Lemma clearHTTPBuffer_wp n Q :
  net_ok n ->
  (forall n', net_ok n' -> forget (this n') = forget (this n) -> trace n' = trace n -> cleared n' -> Q tt n') ->
  wpn clearHTTPBuffer n Q.
Proof.
  intros Hn HQ. destruct (clearHTTPBuffer_ok n Hn) as (n' & E & H1 & H2 & H3 & H4). unfold wpn. rewrite E. by apply HQ.
Qed.

Lemma buffer_doc_ok n doc :
  net_ok n -> cstr (local_response_buffer (this n)) = Some doc -> doc_ok doc.
Proof.
  intros ([Hb _] & Hby & _) Hd. simpl in Hb. revert Hb Hby Hd.
  assert (forall b doc, cstr b = Some doc -> Forall byte_ok b ->
            Forall byte_ok doc /\ (length doc <= length b)%nat) as Hg.
  { induction b as [|c b IH]; intros d; simpl; [done|]. intros Hd [Hc Hb]%Forall_cons.
    destruct (c =? 0); [injection Hd as <-; split; [constructor|simpl; lia]|].
    destruct (cstr b) as [d'|] eqn:E; [|discriminate]. injection Hd as <-.
    destruct (IH d' eq_refl Hb). split; [by constructor|simpl; lia]. }
  intros Hb Hby Hd. destruct (Hg _ _ Hd Hby). split; [done|].
  unfold maxInt, HTTP_RECV_BUFFER_SIZE in *. lia.
Qed.

(** The value of the last reply, whose text the buffer holds. *)
Definition response (n : Net) (v : Value) : Prop :=
  holds_reply n /\ exists doc, cstr (local_response_buffer (this n)) = Some doc /\ parsed doc v.

Lemma parse_response_cases n :
  net_ok n -> holds_reply n ->
  exists doc, (F doc \/ text_ok doc) /\
    match parse_response n with
    | Ret (v, n') => n' = n /\ wf v /\ response n v /\ parsed doc v
    | Abort msg => msg = stack_msg /\ (stackLimit_g <= opens doc)%nat
    | Undef _ | Fuel => False
    end.
Proof.
  intros Hn Hh. pose proof Hn as (_ & _ & (doc & Hd & Ht) & _). exists doc. split; [done|].
  unfold parse_response. rewrite get_bind, Hd. unfold run, mbind, ST_bind.
  pose proof (parse_ok doc Value_null false (Reader_new Features_all) (fun _ s => wf (root_ s))
    (buffer_doc_ok n doc Hn Hd) I) as Hp. unfold wp in Hp. specialize (Hp ltac:(by intros ok s' Hi _ _; apply Hi)).
  destruct (parse doc _ _ _) as [[ok s]|msg|msg|] eqn:E; [|exact Hp|done|done].
  assert (parsed doc (root_ s)) as Hp' by by exists ok, s.
  split_and!; [done|done|split; [done|by exists doc]|done].
Qed.

Lemma parse_response_wp n Q :
  net_ok n -> holds_reply n ->
  (forall doc v, wf v -> response n v -> parsed doc v -> F doc \/ reply_ok v -> Q v n) -> wpn parse_response n Q.
Proof.
  intros Hn Hh HQ. destruct (parse_response_cases n Hn Hh) as (doc & Ht & Hp). unfold wpn.
  destruct (parse_response n) as [[v n']|msg|msg|]; [|destruct Hp as [-> Hl]|done..].
  - destruct Hp as (-> & Hw & Hr & Hp). apply (HQ doc); [done..|].
    destruct Ht as [|[_ Ht]]; [by left|right]. destruct Hp as (ok & s & E & ->). by eapply Ht.
  - destruct Ht as [|[Ho _]]; [exists doc; split; [done|by constructor]|lia].
Qed.

(** ** Reading the tokens *)

(** [m] returns with [Q], or stops over a text of [F]. *)
Definition stops_or {A} (m : outcome A) (Q : A -> Prop) : Prop :=
  match m with
  | Ret a => Q a
  | Abort msg => aborts_on F msg
  | Undef msg => overflows_on F msg
  | Fuel => False
  end.

Lemma stops_or_bind {A B} (m : outcome A) (f : A -> outcome B) Q :
  stops_or m (fun a => stops_or (f a) Q) -> stops_or (m ≫= f) Q.
Proof. by destruct m. Qed.

Lemma stops_or_mono {A} (m : outcome A) (P Q : A -> Prop) :
  stops_or m P -> (forall a, P a -> Q a) -> stops_or m Q.
Proof. destruct m; simpl; auto. Qed.

Lemma wpn_run' {A B} (o : outcome A) (f : A -> ST Net B) n Q :
  stops_or o (fun a => wpn (f a) n Q) -> wpn (run o ≫= f) n Q.
Proof. apply wpn_run. Qed.

(** The field [k] of a reply; null when there is none. *)
Definition field (k : bytes) (v : Value) : Value := default Value_null (om_find k (object_map v)).

(** The lifetime a reply states, in one of two fields. *)
Definition lifetime (v : Value) : outcome Z :=
  match om_find (STR "expires_in") (object_map v), om_find (STR "expiresIn") (object_map v) with
  | Some x, _ => s ← asCString x; atoi s
  | None, Some x => s ← asCString x; atoi s
  | None, None => Ret 3600
  end.

Lemma atoi_cases s : (exists z, atoi s = Ret z) \/ atoi s = Undef "atoi: out of range".
Proof. unfold atoi. repeat case_match; first [by right|left; by eexists]. Qed.

(** [v[k]]: the field, and the value with it. *)
Lemma key_ref_ok k v :
  wf v -> Forall byte_ok k -> Z.of_nat (length k) < 2 ^ 30 -> isNull v || isObject v = true ->
  exists v', key_ref k v = Ret (field k v, v') /\ wf (field k v) /\ wf v' /\ isNull v' || isObject v' = true /\
    forall j, j <> k -> om_find j (object_map v') = om_find j (object_map v).
Proof.
  intros Hw Hk Hl Ht. unfold key_ref.
  destruct (resolveReference k v) as [v'|m|m|] eqn:E; [|by unfold resolveReference in E; rewrite Ht in E..].
  pose proof (wf_resolveReference k v v' Hk Hw E) as Hw'.
  assert (object_map v' = om_emplace k Value_null (object_map v) /\ isObject v' = true) as [Hm Ho].
  { unfold resolveReference in E. rewrite Ht, CZString_short in E by done. injection E as <-.
    unfold as_object. destruct (isNull v) eqn:En; [|done].
    unfold isNull, type in En. unfold object_map. by destruct (value_ v). }
  exists v'. rewrite Ret_bind, CZString_short by done.
  assert (om_find k (object_map v') = Some (field k v)) as Hf.
  { unfold field. rewrite Hm, om_find_emplace_eq by (apply wf_object_map in Hw; apply Hw).
    by destruct (om_find k (object_map v)). }
  rewrite Hf. split_and!; [done| |done| |].
  - apply wf_object_map in Hw' as (_ & _ & Hall). rewrite Forall_forall in Hall.
    apply om_find_elem in Hf. by apply (Hall _ Hf).
  - by rewrite Ho, orb_true_r.
  - intros j Hj. rewrite Hm. by apply om_find_emplace_ne.
Qed.

Lemma field_found k v x : om_find k (object_map v) = Some x -> field k v = x.
Proof. unfold field. by intros ->. Qed.

Lemma expires_in_ok d : wf d -> isNull d || isObject d = true -> expires_in d = lifetime d.
Proof.
  intros Hw Ho. unfold expires_in, lifetime.
  assert (forall k, Z.of_nat (length k) < 2 ^ 30 ->
    isMember k d = Ret (bool_decide (is_Some (om_find k (object_map d))))) as Hm.
  { intros k Hl. unfold isMember, find. rewrite Ho, CZString_short by done. simpl.
    destruct (isNull d) eqn:En; simpl.
    - unfold isNull, type in En. unfold object_map. by destruct (value_ d).
    - by destruct (om_find k (object_map d)). }
  destruct (key_ref_ok (STR "expires_in") d) as (d1 & E1 & _); [done|repeat constructor; by vm_compute|done|done|].
  destruct (key_ref_ok (STR "expiresIn") d) as (d2 & E2 & _); [done|repeat constructor; by vm_compute|done|done|].
  rewrite (Hm (STR "expires_in")), Ret_bind, E1 by done.
  destruct (om_find (STR "expires_in") _) as [x|] eqn:Ex; [by rewrite Ret_bind, (field_found _ _ _ Ex)|].
  rewrite bool_decide_eq_false_2 by (by intros []).
  rewrite (Hm (STR "expiresIn")), Ret_bind, E2 by done.
  destruct (om_find (STR "expiresIn") _) as [x|] eqn:Ex2; [by rewrite Ret_bind, (field_found _ _ _ Ex2)|done].
Qed.

(** A value [v] the parser read from the text [doc]. *)
Section value.
Context (doc : bytes) (v : Value) (Hp : parsed doc v) (Hok : F doc \/ reply_ok v).

Lemma asString_stops k :
  wf (field k v) -> k ∈ token_keys -> stops_or (asString (field k v)) (fun s => asString (field k v) = Ret s).
Proof.
  intros Hw Hk. unfold field in *. destruct (om_find k (object_map v)) as [x|] eqn:Ek; [|done].
  assert (isArray x || isObject x = true -> aborts_on F "Type is not convertible to string") as Hstop.
  { intros Hx. exists doc. destruct Hok as [HF|(_ & H1 & H2 & _)]; [split; [done|by eapply aborts_token]|].
    unfold scalar_field in *. apply elem_of_cons in Hk as [->|Hk%list_elem_of_singleton]; [|subst k];
      rewrite Ek in *; congruence. }
  simpl in *. rewrite wf_unfold in Hw. unfold asString. destruct x as [[] ? ? ?]; simpl in *; try done.
  - by rewrite valueToString_Int_dec.
  - by rewrite valueToString_UInt_dec.
  - by apply Hstop.
  - by apply Hstop.
Qed.

Lemma key_ref_stops k :
  wf v -> Forall byte_ok k -> Z.of_nat (length k) < 2 ^ 30 ->
  stops_or (key_ref k v) (fun p =>
    p.1 = field k v /\ wf p.1 /\ wf p.2 /\ isNull p.2 || isObject p.2 = true /\
    forall j, j <> k -> om_find j (object_map p.2) = om_find j (object_map v)).
Proof.
  intros Hw Hk Hl. destruct (isNull v || isObject v) eqn:Ht.
  - destruct (key_ref_ok k v Hw Hk Hl Ht) as (v' & -> & Hf). by split.
  - unfold key_ref, resolveReference. rewrite Ht. exists doc.
    destruct Hok as [HF|(Ho & _)]; [|congruence]. split; [done|by eapply aborts_type].
Qed.

(** [data[k].asString()]. *)
Lemma token_stops k :
  wf v -> k ∈ token_keys -> Forall byte_ok k -> Z.of_nat (length k) < 2 ^ 30 ->
  stops_or (key_ref k v) (fun p => stops_or (asString p.1) (fun s => asString (field k v) = Ret s) /\ wf p.2 /\
    isNull p.2 || isObject p.2 = true /\
    forall j, j <> k -> om_find j (object_map p.2) = om_find j (object_map v)).
Proof.
  intros Hw Hin Hk Hl. eapply stops_or_mono; [by apply key_ref_stops|].
  intros [f d] (-> & Hwf & Hwd & Ho & Hj). split_and!; [|done..]. by apply asString_stops.
Qed.

(** [atoi(x.asCString())] of a lifetime [x]. *)
Lemma int_stops k x :
  k ∈ lifetime_keys -> om_find k (object_map v) = Some x ->
  stops_or (s ← asCString x; atoi s) (fun z => (s ← asCString x; atoi s) = Ret z).
Proof.
  intros Hk Hx.
  assert (F doc \/ exists s z, value_ x = PString s /\ atoi s = Ret z) as Hi.
  { destruct Hok as [|(_ & _ & _ & H1 & H2)]; [by left|right]. unfold int_field in *.
    apply elem_of_cons in Hk as [->|Hk%list_elem_of_singleton]; [|subst k]; by rewrite Hx in *. }
  destruct Hi as [HF|(s & z & Es & Ez)]; [|unfold asCString; rewrite Es; simpl; by rewrite Ez].
  destruct (getString x) as [s|] eqn:Eg.
  - assert (asCString x = Ret s) as -> by (unfold asCString, getString in *; destruct (value_ x); congruence).
    rewrite Ret_bind. destruct (atoi_cases s) as [[z Ea]|Ea]; rewrite Ea; [done|].
    exists doc. split; [done|]. by eapply overflows.
  - assert (asCString x = Abort "in Json::Value::asCString(): requires stringValue") as ->
      by (unfold asCString, getString in *; by destruct (value_ x)).
    exists doc. split; [done|]. by eapply aborts_lifetime.
Qed.

(** [d]: what [data["access_token"]] has made of [v]. *)
Lemma expires_in_stops d :
  wf d -> isNull d || isObject d = true ->
  (forall k, k ∈ lifetime_keys -> om_find k (object_map d) = om_find k (object_map v)) ->
  stops_or (expires_in d) (fun e => lifetime v = Ret e).
Proof.
  intros Hw Ho Hd. rewrite expires_in_ok by done. unfold lifetime.
  rewrite !Hd by first [by left|by right; left].
  pose proof (int_stops (STR "expires_in")) as H1. pose proof (int_stops (STR "expiresIn")) as H2.
  destruct (om_find (STR "expires_in") (object_map v)) as [x|]; [by apply H1; [left|]|].
  destruct (om_find (STR "expiresIn") (object_map v)) as [x|]; [by apply H2; [right; left|]|done].
Qed.
End value.

(** ** The token operations *)

(** The requests of the token operations. *)
Definition account_request (register_account : bool) (account : user_account_t) (a : App) : wire :=
  request (if register_account then register_url a else login_url a) HTTP_METHOD_POST (account_json account).
Definition token_request (token : bytes) (a : App) : wire :=
  request (auth_url a) HTTP_METHOD_POST (token_json token).

(** After a reply in [n1]: the object holds the access token of that reply with
    its lifetime, and the time of a look at the clock right after it. *)
Inductive granted (n n1 n' : Net) : Prop :=
  | grants v token expires :
      response n1 v -> asString (field (STR "access_token") v) = Ret token -> lifetime v = Ret expires ->
      trace n' = Time :: trace n1 ->
      forget (this n') = set_auth token (time (Time :: trace n1)) expires (forget (this n)) -> granted n n1 n'.


Lemma getRefreshToken_wp reg n :
  net_ok n ->
  wpn (getRefreshToken reg) n (fun e n' => net_ok n' /\ exists r n1,
    talks [(account_request reg (user_account (this n)) (this n), r)] n n1 /\ trace n' = trace n1 /\
    (is_200 r = false /\ e = ESP_FAIL /\ forget (this n') = forget (this n) \/
     is_200 r = true /\ e = ESP_OK /\ exists v token, response n1 v /\
       asString (field (STR "refreshToken") v) = Ret token /\
       forget (this n') = set_refresh_token token (forget (this n)))).
Proof.
  intros Hn. unfold getRefreshToken. apply wpn_get, wpn_call, wpn_bind.
  apply performRequest_wp; [done|]. intros r n1 H1 Hf Ht Hh.
  assert (talks [(account_request reg (user_account (this n)) (this n), r)] n n1) as Ht'.
  { eapply talks_change; [exact Ht|talk_tac..]. }
  destruct (is_200 r) eqn:Er; [|apply wpn_ret; split; [done|]; exists r, n1; split_and!; [done|done|by left]].
  apply wpn_bind, parse_response_wp; [done|done|]. intros doc v Hv Hr Hp Hok.
  apply wpn_run'. eapply stops_or_mono; [apply (token_stops doc v Hp Hok)|]; [done|by left|byte_tac|done|].
  intros [f d] (Hs & _). simpl in Hs. apply wpn_run'. eapply stops_or_mono; [exact Hs|].
  intros token Htok. apply wpn_put, wpn_ret. split; [by apply net_ok_app|].
  exists r, n1. split_and!; [done|done|right]. split_and!; [done..|]. exists v, token. split_and!; [done..|].
  exact (f_equal (set_refresh_token token) Hf).
Qed.

Lemma getAuthToken_wp n :
  net_ok n ->
  wpn getAuthToken n (fun e n' => net_ok n' /\ exists r n1,
    talks [(token_request (refresh_token (this n)) (this n), r)] n n1 /\
    (is_200 r = false /\ e = ESP_FAIL /\ trace n' = trace n1 /\ forget (this n') = forget (this n) \/
     is_200 r = true /\ e = ESP_OK /\ granted n n1 n')).
Proof.
  intros Hn. unfold getAuthToken. apply wpn_get, wpn_call, wpn_bind.
  apply performRequest_wp; [done|]. intros r n1 H1 Hf Ht Hh.
  assert (talks [(token_request (refresh_token (this n)) (this n), r)] n n1) as Ht'.
  { eapply talks_change; [exact Ht|talk_tac..]. }
  destruct (is_200 r) eqn:Er; [|apply wpn_ret; split; [done|]; exists r, n1; split; [done|by left]].
  apply wpn_bind, parse_response_wp; [done|done|]. intros doc v Hv Hr Hp Hok.
  apply wpn_run'. eapply stops_or_mono; [apply (token_stops doc v Hp Hok)|]; [done|right; by left|byte_tac|done|].
  intros [f d] (Hs & Hwd & Hod & Hd). simpl in Hs, Hwd, Hod, Hd.
  apply wpn_run'. eapply stops_or_mono; [exact Hs|]. intros token Htok. apply wpn_put, wpn_run'.
  eapply stops_or_mono; [apply (expires_in_stops doc v Hp Hok); [done|done|]|].
  { intros k Hk. apply Hd. intros ->. by apply elem_of_cons in Hk as [|Hk%list_elem_of_singleton]. }
  intros expires Hexp. apply wpn_put, wpn_call, wpn_put, wpn_ret.
  split; [by apply net_ok_app, net_ok_log, net_ok_app, net_ok_app|].
  exists r, n1. split; [done|right]. split_and!; [done..|]. apply (grants n n1 _ v token expires); try done.
  exact (f_equal (set_auth token _ expires) Hf).
Qed.

(** What [registerUserAccount] and [loginUserAccount] do. *)
Inductive tokens (reg : bool) (account : user_account_t) (n n' : Net) : Z -> Prop :=
  | tokens_refused r :
      is_200 r = false -> talks [(account_request reg account (this n), r)] n n' ->
      forget (this n') = set_user_account account (forget (this n)) ->
      tokens reg account n n' ESP_FAIL
  | tokens_no_access r n1 v token r' :
      is_200 r = true -> is_200 r' = false ->
      talks [(account_request reg account (this n), r)] n n1 -> response n1 v ->
      asString (field (STR "refreshToken") v) = Ret token ->
      talks [(token_request token (this n), r')] n1 n' ->
      forget (this n') = set_refresh_token token (set_user_account account (forget (this n))) ->
      tokens reg account n n' ESP_FAIL
  | tokens_granted r n1 v token r' n2 v' access expires :
      is_200 r = true -> is_200 r' = true ->
      talks [(account_request reg account (this n), r)] n n1 -> response n1 v ->
      asString (field (STR "refreshToken") v) = Ret token ->
      talks [(token_request token (this n), r')] n1 n2 -> response n2 v' ->
      asString (field (STR "access_token") v') = Ret access -> lifetime v' = Ret expires ->
      trace n' = Time :: trace n2 ->
      forget (this n') =
        set_auth access (time (Time :: trace n2)) expires
          (set_refresh_token token (set_user_account account (forget (this n)))) ->
      cleared n' ->
      tokens reg account n n' ESP_OK.

Lemma forget_eq a b :
  forget a = forget b ->
  register_url a = register_url b /\ login_url a = login_url b /\ auth_url a = auth_url b /\
  refresh_token a = refresh_token b /\ user_account a = user_account b /\ auth_token a = auth_token b.
Proof. destruct a, b. unfold forget, set_buffer. simpl. intros [=]. done. Qed.

Lemma obtain_tokens_wp reg account n :
  net_ok n ->
  wpn (obtain_tokens reg account) n (fun e n' => net_ok n' /\ tokens reg account n n' e).
Proof.
  intros Hn. unfold obtain_tokens.
  set (f := fun a => if decide (user_account a = account) then a else set_user_account account a).
  assert (Hset : forall a, f a = set_user_account account a).
  { intros a. unfold f. destruct (decide _) as [<-|]; [by destruct a|done]. }
  apply wpn_put. fold f. set (n0 := on_app f n).
  assert (H0n : net_ok n0) by (apply net_ok_app; [intros a; by rewrite Hset|done]).
  assert (Hf0 : forget (this n0) = set_user_account account (forget (this n))) by (simpl; by rewrite Hset).
  assert (Hacc : account_request reg (user_account (this n0)) (this n0) = account_request reg account (this n))
    by (unfold account_request; simpl; by rewrite Hset).
  apply wpn_bind. eapply wpn_mono; [by apply getRefreshToken_wp|].
  intros e n1 (H1 & r & m1 & Ht1 & Etr1 & Hr). rewrite Hacc in Ht1.
  assert (talks [(account_request reg account (this n), r)] n m1) as Ht1'.
  { eapply talks_change; [exact Ht1|talk_tac..]. }
  destruct Hr as [(Er & -> & Hf1)|(Er & -> & v & token & Hv & Htok & Hf1)].
  { apply wpn_ret. split; [done|]. eapply tokens_refused; [exact Er| |by rewrite Hf1].
    eapply talks_change; [exact Ht1'|talk_tac..]. }
  rewrite Hf0 in Hf1.
  apply wpn_bind, clearHTTPBuffer_wp; [done|]. intros n2 H2 Hf2 Htr2 _.
  apply wpn_bind. eapply wpn_mono; [by apply getAuthToken_wp|].
  intros e n3 (H3 & r' & m3 & Ht3 & Hr3).
  assert (forget (this n2) = set_refresh_token token (set_user_account account (forget (this n)))) as Hf12 by congruence.
  assert (token_request (refresh_token (this n2)) (this n2) = token_request token (this n)) as Htoken.
  { destruct (this n2), (this n). unfold forget, set_buffer, set_refresh_token, set_user_account in Hf12.
    simpl in Hf12. injection Hf12. intros. subst. done. }
  rewrite Htoken in Ht3.
  assert (talks [(token_request token (this n), r')] m1 m3) as Ht3'.
  { eapply talks_change; [exact Ht3|talk_tac..]. }
  destruct Hr3 as [(Er3 & -> & Etr3 & Hf3)|(Er3 & -> & [v' access expires Hv' Ha Hl Etr3 Hf3])].
  { apply wpn_ret. split; [done|].
    eapply (tokens_no_access reg account n n3 r m1 v token r'); [done|done|done|done|done| |congruence].
    eapply talks_change; [exact Ht3'|talk_tac..]. }
  apply wpn_bind, clearHTTPBuffer_wp; [done|]. intros n4 H4 Hf4 Htr4 Hc. apply wpn_ret. split; [done|].
  apply (tokens_granted reg account n n4 r m1 v token r' m3 v' access expires); try done; [congruence|].
  by rewrite Hf4, Hf3, Hf12.
Qed.

(** What [forceRefreshAuth] does: a refresh, then a login if it was refused. *)
Definition refreshed (n n' : Net) (e : Z) : Prop :=
  exists r n1, is_200 r = true /\ e = ESP_OK /\
    talks [(token_request (refresh_token (this n)) (this n), r)] n n1 /\ cleared n' /\ granted n n1 n'.

Definition relogged (n n' : Net) (e : Z) : Prop :=
  exists r n1, is_200 r = false /\
    talks [(token_request (refresh_token (this n)) (this n), r)] n n1 /\
    forget (this n1) = forget (this n) /\ tokens false (user_account (this n)) n1 n' e.

Lemma forceRefreshAuth_wp n :
  net_ok n ->
  wpn forceRefreshAuth n (fun e n' => net_ok n' /\ (refreshed n n' e \/ relogged n n' e)).
Proof.
  intros Hn. unfold forceRefreshAuth. apply wpn_bind. eapply wpn_mono; [by apply getAuthToken_wp|].
  intros e n1 (H1 & r & m1 & Ht & [(Er & -> & Etr & Hf)|(Er & -> & [v token expires Hv Ha Hl Etr Hf])]).
  - change (ESP_FAIL =? ESP_OK) with false. cbn iota. unfold login_again. apply wpn_get.
    destruct (forget_eq _ _ Hf) as (_ & _ & _ & _ & Hacc & _). rewrite Hacc.
    eapply wpn_mono; [by apply obtain_tokens_wp|]. intros e n' [H2 Htok]. split; [done|right].
    exists r, n1. split_and!; [done| |done|done]. eapply talks_change; [exact Ht|talk_tac..].
  - change (ESP_OK =? ESP_OK) with true. cbn iota. apply wpn_bind, clearHTTPBuffer_wp; [done|].
    intros n2 H2 Hf2 Htr Hc. apply wpn_ret. split; [done|left]. exists r, m1. split_and!; [done..|].
    apply (grants n m1 n2 v token expires); [done..|congruence|congruence].
Qed.
End requests.

(** ** Platforms that the theorems are tried on *)

(** A server that answers every request with 200 and the text [doc]. *)
Definition server (doc : bytes) : Platform := {|
  http_init := fun _ => true;
  http_set := fun _ => ESP_OK;
  http_perform := fun _ =>
    ([HTTP_EVENT_ON_CONNECTED; HTTP_EVENT_HEADER_SENT; HTTP_EVENT_ON_DATA (Some doc); HTTP_EVENT_ON_FINISH],
     ESP_OK);
  http_get_status_code := fun _ => 200;
  time := fun h => 1700000000 + Z.of_nat (length h) mod 2 ^ 20;
  timer_get_time := fun h => Z.of_nat (length h) mod 2 ^ 20;
  new_char := fun _ _ => 0xA5;
  i2c_err := fun _ => ESP_OK;
  i2c_data := fun _ i => nth (i mod 3) [0; 1; 0xB0] 0;
  modem_at := fun _ => (ESP_OK, None);
  modem_command := fun _ => (ESP_OK, []);
  dns_info := fun _ => (0, 0);
  api := fun _ => ESP_OK
|}.

(** No network: every request fails before the connection. *)
Definition offline : Platform := {|
  http_init := fun _ => true;
  http_set := fun _ => ESP_OK;
  http_perform := fun _ => ([HTTP_EVENT_ERROR; HTTP_EVENT_DISCONNECTED], 0x7002);
  http_get_status_code := fun _ => -1;
  time := fun _ => 0;
  timer_get_time := fun _ => 0;
  new_char := fun _ _ => 0xA5;
  i2c_err := fun _ => ESP_FAIL;
  i2c_data := fun _ i => nth (i mod 3) [0; 1; 0xB0] 0;
  modem_at := fun _ => (ESP_OK, None);
  modem_command := fun _ => (ESP_OK, []);
  dns_info := fun _ => (0, 0);
  api := fun _ => ESP_OK
|}.

Lemma server_delivers F doc :
  Forall byte_ok doc -> 0 ∉ doc -> (length doc <= capacity)%nat -> F doc \/ text_ok doc ->
  @Delivers (server doc) F.
Proof.
  intros Hb H0 Hlen Ht. split.
  - intros h. repeat constructor. exact Hb.
  - intros h st st' Hst _ E.
    destruct (response_text [] [HTTP_EVENT_HEADER_SENT; HTTP_EVENT_ON_DATA (Some doc)]
                [HTTP_EVENT_ON_FINISH] st Hst) as (st2 & E2 & _ & Hc).
    { repeat constructor; simpl; [by intros ?%not_elem_of_nil|done]. }
    { by repeat constructor. }
    assert (Ret st2 = Ret st') as [= <-] by (rewrite <- E2, <- E; reflexivity).
    exists doc. split; [|done]. rewrite Hc. simpl. by rewrite app_nil_r, take_ge.
Qed.

Definition token_doc : bytes :=
  [CH "{"; dquote] ++ STR "refreshToken" ++ [dquote; CH ":"; dquote; CH "r"; dquote; CH ","; dquote] ++
  STR "access_token" ++ [dquote; CH ":"; dquote; CH "t"; dquote; CH ","; dquote] ++
  STR "expires_in" ++ [dquote; CH ":"; dquote] ++ STR "3600" ++ [dquote; CH "}"].

Lemma token_doc_ok : text_ok token_doc.
Proof.
  split; [vm_compute; lia|]. intros ok s. set (r := parse _ _ _ _). vm_compute in r. subst r.
  intros [= <- <-]. split; [reflexivity|]. split; [reflexivity|]. split; [reflexivity|]. split; [|exact I].
  by exists (STR "3600"), 3600.
Qed.

Lemma token_server_delivers F : @Delivers (server token_doc) F.
Proof.
  pose proof capacity_Z. apply server_delivers.
  - repeat constructor; by vm_compute.
  - intros Hin. by repeat (apply elem_of_cons in Hin as [Hin|Hin]; [discriminate|]); apply not_elem_of_nil in Hin.
  - assert (Z.of_nat (length token_doc) <= 100) by (vm_compute; discriminate). lia.
  - right. apply token_doc_ok.
Qed.

Lemma zeros_buf_ok : buf_ok (zeros HTTP_RECV_BUFFER_SIZE, 0).
Proof. split; cbn [fst snd]; [rewrite length_zeros|]; unfold HTTP_RECV_BUFFER_SIZE; lia. Qed.

(** An object whose buffer was cleared. *)
Definition ready (a : App) : Net :=
  mkNet [] 0 (set_client (Some true) (set_buffer (zeros HTTP_RECV_BUFFER_SIZE) a)).

Lemma ready_ok `{Platform} F a : net_ok F (ready a).
Proof.
  split; [apply zeros_buf_ok|]. split; [apply zeros_bytes|]. split; [|done].
  exists []. split; [reflexivity|right; apply text_ok_nil].
Qed.

Lemma wpn_no_text `{Platform} {A} (m : ST Net A) n Q :
  wpn no_text m n Q -> exists a n', m n = Ret (a, n') /\ Q a n'.
Proof.
  unfold wpn. destruct (m n) as [[a n']| | |]; [by exists a, n'|by intros ?%aborts_on_none|by intros ?%overflows_on_none|done].
Qed.

(** The texts the server can leave: those of a buffer after the events of a
    reply. *)
Definition server_text `{Platform} (doc : bytes) : Prop :=
  exists h st st', buf_ok st /\ handle_events (http_perform h).1 st = Ret st' /\ cstr st'.1 = Some doc.

(** Bytes are all that is asked of the platform when all its texts are in [F]. *)
Lemma delivers_server `{Platform} (F : bytes -> Prop) :
  (forall h, Forall event_bytes (http_perform h).1) -> (forall doc, server_text doc -> F doc) -> Delivers F.
Proof.
  intros Hb HF. split; [done|]. intros h st st' Hst (doc & Hd & _) E.
  destruct (events_ok (http_perform h).1 st Hst) as (st2 & E2 & _ & T). rewrite E in E2.
  injection E2 as <-. destruct T as [doc' Hd']; [by exists doc|]. exists doc'. split; [done|left].
  apply HF. by exists h, st, st'.
Qed.

(** The text that is in the buffer may be read too, before the first reply. *)
Definition text_of_run `{Platform} (n : Net) (doc : bytes) : Prop :=
  server_text doc \/ cstr (local_response_buffer (this n)) = Some doc.

Lemma net_ok_weaken `{Platform} (F G : bytes -> Prop) n : (forall doc, F doc -> G doc) -> net_ok F n -> net_ok G n.
Proof.
  intros HFG (H1 & H2 & (doc & Hd & Ht) & H4). split_and!; [done..| |done]. exists doc. split; [done|].
  destruct Ht as [HF|]; [left; by apply HFG|by right].
Qed.

Lemma net_ok_run `{Platform} n : net_ok any_text n -> net_ok (text_of_run n) n.
Proof.
  intros (H1 & H2 & (doc & Hd & _) & H4). split_and!; [done..| |done]. exists doc. split; [done|]. left. by right.
Qed.

(** ** Properties *)

(** C10: whatever events the client delivers, the handler stays inside its
    buffer of 16384 bytes; and when a response has come in on a fresh
    connection, in chunks of any sizes without NUL, the buffer holds as a C
    string exactly the chunks put together, cut at 16383 bytes, also after the
    closing events. *)
Theorem response_is_prefix pre mid post st :
  buf_ok st -> Forall (fun e => restarts e = false /\ 0 ∉ chunk e) mid ->
  Forall (fun e => chunk e = [] /\ e <> HTTP_EVENT_ON_CONNECTED) post ->
  (forall es, exists st', handle_events es st = Ret st' /\ buf_ok st') /\
  exists st', handle_events (pre ++ HTTP_EVENT_ON_CONNECTED :: mid ++ post) st = Ret st' /\
    cstr st'.1 = Some (take (Z.to_nat (HTTP_RECV_BUFFER_SIZE - 1)) (mid ≫= chunk)).
Proof.
  intros Hst Hmid Hpost. split.
  - intros es. destruct (events_ok es st Hst) as (st' & E & H & _). by exists st'.
  - destruct (response_text pre mid post st Hst Hmid Hpost) as (st' & E & _ & Hc). by exists st'.
Qed.

Lemma response_is_prefix_witness :
  exists st', handle_events [HTTP_EVENT_ON_DATA (Some (STR "stale")); HTTP_EVENT_ON_CONNECTED;
                             HTTP_EVENT_ON_DATA (Some (STR "ab")); HTTP_EVENT_ON_DATA None;
                             HTTP_EVENT_ON_DATA (Some (STR "c")); HTTP_EVENT_ON_FINISH]
                (zeros HTTP_RECV_BUFFER_SIZE, 0) = Ret st' /\ cstr st'.1 = Some (STR "abc").
Proof.
  destruct (response_is_prefix [HTTP_EVENT_ON_DATA (Some (STR "stale"))]
              [HTTP_EVENT_ON_DATA (Some (STR "ab")); HTTP_EVENT_ON_DATA None; HTTP_EVENT_ON_DATA (Some (STR "c"))]
              [HTTP_EVENT_ON_FINISH] (zeros HTTP_RECV_BUFFER_SIZE, 0)) as [_ H].
  - apply zeros_buf_ok.
  - repeat constructor; simpl; rewrite ?not_elem_of_cons; repeat split; try done; apply not_elem_of_nil.
  - by repeat constructor.
  - exact H.
Defined.

(** C5: [performRequest] on a ready client always returns, whatever the
    platform answers: it sends the one request it was given (URL, method, and
    the body for POST, PUT and PATCH, an empty body for GET and DELETE), between
    one and five times; every reply but the last was no success (error, or a
    status outside 200..299), the last one is the result, and giving up means
    five attempts.  Nothing of the object changes but the response buffer. *)
Theorem performRequest_spec `{Platform} url method post_field n :
  (forall h, Forall event_bytes (http_perform h).1) -> net_ok any_text n ->
  exists r n', performRequest url method post_field n = Ret (r, n') /\ net_ok any_text n' /\
    forget (this n') = forget (this n) /\
    exists rs, (1 <= length rs <= 5)%nat /\ head rs = Some r /\
      sent (trace n') =
        repeat (mkWire (Some (c_str url)) (Some method) (Some (if has_body method then post_field else [])))
          (length rs) ++ sent (trace n) /\
      replies (trace n') = rs ++ replies (trace n) /\
      Forall (fun r => is_success r = false) (tail rs) /\ (is_success r = true \/ length rs = 5%nat).
Proof.
  intros Hb Hn. pose proof (delivers_server any_text Hb (fun _ _ => I)).
  destruct (performRequest_ok any_text url method post_field n Hn)
    as (r & n' & E & H1 & H2 & (rs & Hs & Hr & Hl & Hh & Hf & He & _) & _).
  exists r, n'. split_and!; [done..|]. exists rs. unfold request in Hs. tauto.
Qed.

Definition bare_app : App := App_init (STR "key").

Lemma performRequest_spec_witness :
  let p := offline in
  exists r n' k, performRequest (STR "u") HTTP_METHOD_GET (STR "body") (ready bare_app) = Ret (r, n') /\
    sent (trace n') = repeat (mkWire (Some (STR "u")) (Some HTTP_METHOD_GET) (Some [])) k /\
    (is_success r = true \/ k = 5%nat).
Proof.
  intros p. destruct (performRequest_spec (STR "u") HTTP_METHOD_GET (STR "body") (ready bare_app))
    as (r & n' & E & _ & _ & rs & Hl & _ & Hs & _ & _ & Hend).
  - intros h. repeat constructor.
  - apply ready_ok.
  - exists r, n', (length rs). split; [exact E|]. split; [|exact Hend]. rewrite Hs. apply app_nil_r.
Defined.

(** C31: when the server's texts stay readable (objects or null, with scalar
    tokens and numerals of an [int] as lifetimes), [loginUserAccount] always
    returns.  It posts the account to the login URL and, if that is answered
    200, takes the field refreshToken of the reply and posts it to the token
    URL.  It reports [ESP_OK] exactly when both were answered 200, and then it
    holds that refresh token, the access token and the lifetime that the second
    reply states, the time of the clock right after it, and a cleared buffer;
    otherwise it reports [ESP_FAIL] and the old access token with its lifetime
    stays. *)
Theorem login_spec `{Platform} account n :
  Delivers no_text -> net_ok no_text n ->
  exists e n', loginUserAccount account n = Ret (e, n') /\ net_ok no_text n' /\
               tokens false account n n' e.
Proof. intros Hd Hn. exact (wpn_no_text _ _ _ (obtain_tokens_wp no_text false account n Hn)). Qed.

Definition demo_account : user_account_t := {| user_email := STR "me@x"; user_password := STR "pw" |}.

Lemma login_spec_witness :
  let p := server token_doc in
  exists e n', loginUserAccount demo_account (ready bare_app) = Ret (e, n') /\
               tokens false demo_account (ready bare_app) n' e.
Proof.
  intros p. destruct (login_spec demo_account (ready bare_app)) as (e & n' & E & _ & Ht).
  - apply token_server_delivers.
  - apply ready_ok.
  - exists e, n'. split; [exact E|exact Ht].
Defined.

(** Under the same assumption [forceRefreshAuth] always returns: one token
    request with the refresh token held; on a 200 the new access token is
    stored; on anything else a full login with the stored account follows, and
    its verdict is the result. *)
Theorem forceRefreshAuth_spec `{Platform} n :
  Delivers no_text -> net_ok no_text n ->
  exists e n', forceRefreshAuth n = Ret (e, n') /\ net_ok no_text n' /\ (refreshed n n' e \/ relogged n n' e).
Proof. intros Hd Hn. exact (wpn_no_text _ _ _ (forceRefreshAuth_wp no_text n Hn)). Qed.

Lemma forceRefreshAuth_spec_witness :
  let p := server token_doc in
  exists e n', forceRefreshAuth (ready bare_app) = Ret (e, n') /\
               (refreshed (ready bare_app) n' e \/ relogged (ready bare_app) n' e).
Proof.
  intros p. destruct (forceRefreshAuth_spec (ready bare_app)) as (e & n' & E & _ & Ht).
  - apply token_server_delivers.
  - apply ready_ok.
  - exists e, n'. split; [exact E|exact Ht].
Defined.

(** C32: whatever bytes the server sends, the token operations on a ready client
    terminate, never touch memory outside the response buffer and never miss
    its terminator.  They stop the process only over a text the server sent (or
    the one the buffer held before), in four ways: 1000 nested brackets, a value
    that is neither an object nor null, a token that is an array or an object, a
    lifetime that is no string.  The one undefined operation they can reach is
    [atoi] of a lifetime beyond [int]. *)
Theorem token_operations_safe `{Platform} reg account n :
  (forall h, Forall event_bytes (http_perform h).1) -> net_ok any_text n ->
  forall m, m = obtain_tokens reg account \/ m = forceRefreshAuth \/ m = getAuthToken ->
  match m n with
  | Ret (_, n') => net_ok any_text n'
  | Abort msg => exists doc, text_of_run n doc /\ reply_aborts doc msg
  | Undef msg => exists doc, text_of_run n doc /\ reply_overflows doc msg
  | Fuel => False
  end.
Proof.
  intros Hb Hn m Hm. set (F := text_of_run n).
  assert (Delivers F) as Hd by (apply delivers_server; [done|by left]). apply net_ok_run in Hn. fold F in Hn.
  assert (wpn F m n (fun _ n' => net_ok F n')) as Hw.
  { destruct Hm as [->|[->| ->]]; eapply wpn_mono;
      [by apply (obtain_tokens_wp F)| |by apply (forceRefreshAuth_wp F)| |by apply (getAuthToken_wp F)|];
      by intros ? ? [? _]. }
  unfold wpn in Hw. destruct (m n) as [[a n']|s|s|]; [by eapply net_ok_weaken|done..].
Qed.

(** A reply that is an array stops the process. *)
Lemma token_operations_safe_witness :
  let p := server (STR "[1]") in
  is_abort (getAuthToken (ready bare_app)) = true /\
  match getAuthToken (ready bare_app) with
  | Ret (_, n') => net_ok any_text n'
  | Abort msg => exists doc, text_of_run (ready bare_app) doc /\ reply_aborts doc msg
  | Undef msg => exists doc, text_of_run (ready bare_app) doc /\ reply_overflows doc msg
  | Fuel => False
  end.
Proof.
  intros p. split; [vm_compute; reflexivity|]. apply (token_operations_safe true demo_account (ready bare_app)).
  - intros h. repeat constructor; by vm_compute.
  - apply ready_ok.
  - right. by right.
Defined.

(** A token with more than 30 seconds left costs no traffic: then
    [refreshAuthIfNeeded] looks at the clock and returns [ESP_OK] with the
    object as it was; with less it does exactly what [forceRefreshAuth] does;
    without a token it logs in. *)
Theorem refreshAuthIfNeeded_spec `{Platform} n :
  let now := time (Time :: trace n) in
  let remaining := auth_expires_in (this n) - i32 (now - auth_obtained_time (this n)) in
  0 < auth_expires_in (this n) -> in_s 32 remaining ->
  refreshAuthIfNeeded n =
    if bool_decide (auth_token (this n) = []) then loginUserAccount (user_account (this n)) n
    else if remaining <? 30 then forceRefreshAuth (log_call Time n)
    else Ret (ESP_OK, log_call Time n).
Proof.
  intros now remaining He Hr. unfold refreshAuthIfNeeded. rewrite get_bind.
  destruct (bool_decide _); [done|].
  rewrite (ST_bind_Ret (esp_call _ _) _ _ _ _ eq_refl). fold now. cbv zeta. fold remaining.
  unfold in_s in Hr. rewrite (proj2 (Z.leb_gt (auth_expires_in (this n)) 0)) by done.
  rewrite (proj2 (Z.ltb_ge remaining (- 2 ^ 31))), (proj2 (Z.leb_gt (2 ^ 31) remaining)) by lia.
  by destruct (remaining <? 30).
Qed.

Definition token_app (obtained : Z) : App := set_auth (STR "t") obtained 3600 bare_app.

Lemma refreshAuthIfNeeded_spec_witness :
  let p := server token_doc in
  refreshAuthIfNeeded (ready (token_app 1700000000)) = Ret (ESP_OK, log_call Time (ready (token_app 1700000000))).
Proof.
  intros p. rewrite (refreshAuthIfNeeded_spec (ready (token_app 1700000000))).
  - reflexivity.
  - reflexivity.
  - vm_compute. by split.
Defined.

(** A failed attempt logs the buffer as a string. *)
Lemma ST_bind_Undef {S A B} (m : ST S A) (f : A -> ST S B) s msg :
  m s = Undef msg -> (m ≫= f) s = Undef msg.
Proof. intros E. unfold mbind, ST_bind. by rewrite E. Qed.

Lemma request_unterminated `{Platform} url method post_field attempts last n :
  client (this n) = Some true -> cstr (local_response_buffer (this n)) = None ->
  (forall h, (http_perform h).1 = [] /\ (http_perform h).2 <> ESP_OK) ->
  request_loop url method post_field (S attempts) last n =
    Undef "response buffer read past its end".
Proof.
  intros Hc Hb Hp. cbn [request_loop].
  rewrite (ST_bind_Ret (prepare_client url) _ n true (log_call (HttpSetUrl url) n))
    by (unfold prepare_client; by rewrite get_bind, Hc).
  cbn iota. rewrite (ST_bind_Ret (esp_call _ _) _ _ _ _ eq_refl).
  set (n0 := log_call _ _). change (http_set _) with (http_set (trace n0)).
  assert (exists na, set_body method post_field n0 = Ret (tt, na) /\ this na = this n) as (na & Ea & Hna).
  { unfold set_body. destruct (has_body method); by eexists. }
  rewrite (ST_bind_Ret _ _ _ _ _ Ea).
  destruct (Hp (HttpPerform :: trace na)) as [Hev Herr].
  set (e := (http_perform (HttpPerform :: trace na)).2) in *.
  assert (exists nb, esp_http_client_perform na = Ret (e, nb) /\ this nb = this n) as (nb & Eb & Hnb).
  { unfold esp_http_client_perform. rewrite (ST_bind_Ret (esp_call _ _) _ _ _ _ eq_refl).
    unfold e. destruct (http_perform _) as [evts e']. simpl in Hev. subst evts. cbn beta iota.
    rewrite get_bind. cbn [log_call this]. rewrite Hna, Hc. eexists. split; [reflexivity|].
    simpl. rewrite Hna. by destruct (this n). }
  rewrite (ST_bind_Ret _ _ _ _ _ Eb), (ST_bind_Ret (esp_call _ _) _ _ _ _ eq_refl).
  assert (is_success (mkRet e (http_get_status_code (HttpGetStatus :: trace nb))) = false) as ->.
  { unfold is_success. simpl. by rewrite (proj2 (Z.eqb_neq e ESP_OK)). }
  apply ST_bind_Undef. unfold log_response. rewrite get_bind. cbn [log_call this]. by rewrite Hnb, Hb.
Qed.

(** Before the first connection the response buffer is fresh memory: with
    no NUL in it, a first login that cannot reach the server logs the buffer as
    a string and reads past its end. *)
Theorem first_request_reads_fresh_memory `{Platform} key account :
  (forall h, http_init h = true) -> (forall h i, new_char h i <> 0) ->
  (forall h, (http_perform h).1 = [] /\ (http_perform h).2 <> ESP_OK) ->
  exists n, FirebaseApp_new key [] 0 = Ret n /\
            loginUserAccount account n = Undef "response buffer read past its end".
Proof.
  intros Hi Hc Hp. unfold FirebaseApp_new. set (b := map _ _).
  assert (cstr b = None) as Hb.
  { unfold b. generalize (seq 0 (Z.to_nat HTTP_RECV_BUFFER_SIZE)). intros l. induction l as [|i l IH]; [done|].
    simpl. by rewrite (proj2 (Z.eqb_neq _ _) (Hc _ i)), IH. }
  clearbody b. unfold firebaseClientInit. cbv zeta. set (n0 := mkNet _ _ _).
  assert (forall c, exists n, (_ ← put (on_app (set_default_timeout (cfg_timeout_ms c)));
            h ← esp_http_client_init c; set_client_handle h) n0 = Ret (tt, n) /\
          client (this n) = (if true then Some (cfg_event_handler c) else None) /\
          local_response_buffer (this n) = b) as Hinit.
  { intros c. rewrite put_bind, (ST_bind_Ret (esp_http_client_init _) _ _ _ _ eq_refl), Hi.
    by eexists. }
  destruct (Hinit {| cfg_url := STR "https://google.com"; cfg_event_handler := true;
                     cfg_buffer_size_tx := 4096; cfg_buffer_size := HTTP_RECV_BUFFER_SIZE;
                     cfg_timeout_ms := 20000; cfg_keep_alive_enable := false |}) as (n & -> & Hcl & Hbuf).
  exists n. split; [reflexivity|]. unfold loginUserAccount, obtain_tokens, store_account. rewrite put_bind.
  apply ST_bind_Undef. unfold getRefreshToken. rewrite get_bind.
  rewrite (ST_bind_Ret (setHeader _ _) _ _ _ _ eq_refl). apply ST_bind_Undef.
  unfold performRequest. change MAX_ATTEMPTS with 5%nat.
  rewrite request_unterminated; [reflexivity| | |exact Hp]; cbn [log_call on_app this].
  - destruct (decide _); [exact Hcl|]. cbn [set_user_account client]. exact Hcl.
  - destruct (decide _); cbn [set_user_account local_response_buffer]; by rewrite Hbuf.
Qed.

Definition no_events : Platform := {|
  http_init := fun _ => true;
  http_set := fun _ => ESP_OK;
  http_perform := fun _ => ([], 0x7002);
  http_get_status_code := fun _ => -1;
  time := fun _ => 0;
  timer_get_time := fun _ => 0;
  new_char := fun _ _ => 0xA5;
  i2c_err := fun _ => ESP_FAIL;
  i2c_data := fun _ i => nth (i mod 3) [0; 1; 0xB0] 0;
  modem_at := fun _ => (ESP_OK, None);
  modem_command := fun _ => (ESP_OK, []);
  dns_info := fun _ => (0, 0);
  api := fun _ => ESP_OK
|}.

Lemma first_request_reads_fresh_memory_witness :
  let p := no_events in
  exists n, FirebaseApp_new (STR "key") [] 0 = Ret n /\
            loginUserAccount demo_account n = Undef "response buffer read past its end".
Proof.
  intros p. apply (first_request_reads_fresh_memory (STR "key") demo_account).
  - reflexivity.
  - discriminate.
  - intros h. split; [reflexivity|discriminate].
Defined.

(** What a login that started from the constructor reports and holds. *)
Definition first_login (p : Platform) : option (Z * bytes * bytes) :=
  match FirebaseApp_new (STR "key") [] 0 with
  | Ret n =>
      match loginUserAccount demo_account n with
      | Ret (e, n') => Some (e, refresh_token (this n'), auth_token (this n'))
      | _ => None
      end
  | _ => None
  end.

(** A login is reported successful with empty tokens when the 200 replies
    hold no JSON at all: the verdict of [parse] is not looked at, and the empty
    [Json::Value] it leaves has empty strings for tokens. *)
Lemma login_without_tokens :
  first_login (server token_doc) = Some (ESP_OK, STR "r", STR "t") /\
  first_login (server (STR "<html>502</html>")) = Some (ESP_OK, [], []).
Proof. split; vm_compute; reflexivity. Qed.
