(* ===== verification/Rtdb.v ===== *)
(** * [ESPFirebase::RTDB] (rtdb.h, rtdb.cpp) and the C interface (firebase_c_shim.cpp)

    Reads and writes of the realtime database through [FirebaseApp], the two
    retention operations, and the functions the firmware's tasks call. *)
From S2P Require Export FirebaseApp JsonWriter.
From stdpp Require Import sorting.
Open Scope Z_scope.

(** ** The database client *)

Section rtdb.
Context `{Platform} (base_database_url : bytes).

(** The URL of a path under the token held now. *)
Definition data_url (path : bytes) : ST Net bytes :=
  a ← get this;
  mret (base_database_url ++ path ++ STR ".json?auth=" ++ auth_token a).

Definition json_header : ST Net unit :=
  _ ← setHeader (STR "content-type") (STR "application/json"); mret tt.

(** The response as a value; the buffer is cleared. *)
Definition take_response : ST Net Value :=
  data ← parse_response; _ ← clearHTTPBuffer; mret data.

Definition getData (path : bytes) : ST Net Value :=
  url ← data_url path;
  _ ← json_header;
  r ← performRequest url HTTP_METHOD_GET [];
  if is_200 r then take_response
  else
    _ ← login_again;
    _ ← json_header;
    r ← performRequest url HTTP_METHOD_GET [];
    if is_200 r then take_response
    else _ ← clearHTTPBuffer; mret Value_null.

(** The body shared by [putData], [postData] and [patchData]: a request, again
    after a refresh when it was answered 401, and the verdict. *)
Definition send_data (method : http_method) (path json_str : bytes) : ST Net Z :=
  url ← data_url path;
  _ ← json_header;
  r ← performRequest url method json_str;
  r ← (if negb (is_200 r) && (status_code r =? 401) then
         _ ← forceRefreshAuth;
         url ← data_url path;
         _ ← json_header;
         performRequest url method json_str
       else mret r);
  _ ← clearHTTPBuffer;
  mret (if is_200 r then ESP_OK else ESP_FAIL).

Definition putData (path json_str : bytes) : ST Net Z := send_data HTTP_METHOD_PUT path json_str.
Definition postData (path json_str : bytes) : ST Net Z := send_data HTTP_METHOD_POST path json_str.
Definition patchData (path json_str : bytes) : ST Net Z := send_data HTTP_METHOD_PATCH path json_str.

(** The overloads for a [Json::Value]: [writer.write(data).c_str()]. *)
Definition putData_value (path : bytes) (data : Value) : ST Net Z :=
  s ← run (write FastWriter_new data); putData path (c_str s).
Definition postData_value (path : bytes) (data : Value) : ST Net Z :=
  s ← run (write FastWriter_new data); postData path (c_str s).
Definition patchData_value (path : bytes) (data : Value) : ST Net Z :=
  s ← run (write FastWriter_new data); patchData path (c_str s).

Definition delete_url (path : bytes) : ST Net bytes :=
  a ← get this;
  mret (base_database_url ++ path ++ STR ".json?writeSizeLimit=unlimited&auth=" ++ auth_token a).

Definition delete_headers : ST Net unit :=
  _ ← setHeader (STR "Content-Length") (STR "0");
  _ ← setHeader (STR "Accept") (STR "application/json");
  mret tt.

Definition LONG_TIMEOUT_MS : Z := 600000.

Definition deleteData (path : bytes) : ST Net Z :=
  url ← delete_url path;
  _ ← setHttpTimeoutMs LONG_TIMEOUT_MS;
  _ ← delete_headers;
  r ← performRequest url HTTP_METHOD_DELETE [];
  r ← (if negb (is_success r) && (status_code r =? 401) then
         _ ← forceRefreshAuth;
         url2 ← delete_url path;
         _ ← delete_headers;
         performRequest url2 HTTP_METHOD_DELETE []
       else mret r);
  _ ← restoreDefaultHttpTimeout;
  _ ← clearHTTPBuffer;
  mret (if is_success r then ESP_OK else ESP_FAIL).

(** [std::sort] of strings by [operator<]: lexicographic on unsigned bytes. *)
Fixpoint str_le (a b : bytes) : bool :=
  match a, b with
  | [], _ => true
  | _ :: _, [] => false
  | x :: a', y :: b' => if x <? y then true else if y <? x then false else str_le a' b'
  end.

Definition str_leq (a b : bytes) : Prop := str_le a b = true.
#[export] Instance str_leq_dec : RelDecision str_leq.
Proof. intros a b. unfold str_leq. apply _. Defined.

Definition sort_strings (l : list bytes) : list bytes := merge_sort str_leq l.

(** The loop over [i < to_delete]: the results are not looked at. *)
Fixpoint delete_days (root_path : bytes) (days : list bytes) : ST Net unit :=
  match days with
  | [] => mret tt
  | d :: days' =>
      _ ← deleteData (c_str (root_path ++ STR "/" ++ d));
      _ ← vTaskDelay 20;
      delete_days root_path days'
  end.

Definition trimDays (root_path : bytes) (max_days : Z) : ST Net Z :=
  if max_days <=? 0 then mret ESP_OK
  else
    a ← get this;
    _ ← json_header;
    r ← performRequest (base_database_url ++ root_path ++ STR ".json?shallow=true&auth=" ++ auth_token a)
          HTTP_METHOD_GET [];
    if negb (is_200 r) then _ ← clearHTTPBuffer; mret ESP_FAIL
    else
      days_obj ← take_response;
      if negb (isObject days_obj) then mret ESP_OK
      else
        days ← run (getMemberNames days_obj);
        let n := i32 (Z.of_nat (length days)) in
        if n <=? max_days then mret ESP_OK
        else
          let days := sort_strings days in
          _ ← delete_days root_path (take (Z.to_nat (n - max_days)) days);
          mret ESP_OK.

(** The body that sets the keys to null. *)
Definition patch_body (keys : list bytes) : bytes :=
  STR "{" ++
  concat (imap (fun i k => (if decide (i = O) then [] else STR ",") ++
                           [dquote] ++ k ++ [dquote] ++ STR ":null") keys) ++
  STR "}".

Definition trimOldestBatch (root_path : bytes) (batch_size : Z) : ST Net Z :=
  if batch_size <=? 0 then mret 0
  else
    a ← get this;
    _ ← json_header;
    r ← performRequest
          (base_database_url ++ root_path ++ STR ".json?orderBy=%22%24key%22&limitToFirst=" ++
           dec_signed batch_size ++ STR "&auth=" ++ auth_token a) HTTP_METHOD_GET [];
    if negb (is_200 r) then _ ← clearHTTPBuffer; mret (-1)
    else
      obj ← take_response;
      if negb (isObject obj) then mret 0
      else
        keys ← run (getMemberNames obj);
        if bool_decide (keys = []) then mret 0
        else
          a ← get this;
          _ ← json_header;
          r ← performRequest (base_database_url ++ root_path ++ STR ".json?auth=" ++ auth_token a ++
                              STR "&print=silent") HTTP_METHOD_PATCH (patch_body keys);
          _ ← clearHTTPBuffer;
          if negb (is_success r) then mret (-2)
          else mret (i32 (Z.of_nat (length keys))).
End rtdb.

(** ** The C interface

    [g_app] and [g_rtdb] are null until [firebase_init]; [output_len] is the
    handler's. *)
Record Shim := mkShim {
  shim_trace : list call;
  shim_output_len : Z;
  g_app : option App;
  g_rtdb : option bytes       (** the base URL of the [RTDB] over [g_app] *)
}.

(** The credentials of Privado.h, which is not in the repository. *)
Record Secrets := { API_KEY : bytes; DATABASE_URL : bytes; USER_EMAIL : bytes; USER_PASSWORD : bytes }.

Section shim.
Context `{Platform} (secrets : Secrets).

(** A method call on [g_app]. *)
Definition with_app {A} (m : ST Net A) : ST Shim A := fun s =>
  match g_app s with
  | None => Undef "null g_app"
  | Some a =>
      '(x, n) ← m (mkNet (shim_trace s) (shim_output_len s) a);
      Ret (x, mkShim (trace n) (output_len n) (Some (this n)) (g_rtdb s))
  end.

Definition new_app : ST Shim unit := fun s =>
  n ← FirebaseApp_new (API_KEY secrets) (shim_trace s) (shim_output_len s);
  Ret (tt, mkShim (trace n) (output_len n) (Some (this n)) (g_rtdb s)).

Definition set_rtdb (url : bytes) (s : Shim) : Shim :=
  mkShim (shim_trace s) (shim_output_len s) (g_app s) (Some url).

(** The constructor of [RTDB]: its second member. *)
Definition RTDB_new (database_url : bytes) : bytes := c_str database_url.

Definition is_null {A} (o : option A) : bool := match o with None => true | Some _ => false end.

Definition firebase_init : ST Shim Z :=
  a ← get g_app;
  if negb (is_null a) then mret 0
  else
    _ ← new_app;
    let account := {| user_email := USER_EMAIL secrets; user_password := USER_PASSWORD secrets |} in
    _ ← with_app (put (on_app (set_user_account account)));
    e ← with_app login_again;
    e ← (if negb (e =? ESP_OK) then
           r ← with_app (a ← get this; registerUserAccount (user_account a));
           if r =? ESP_OK then with_app login_again else mret e
         else mret e);
    if negb (e =? ESP_OK) then mret (-2)
    else _ ← put (set_rtdb (RTDB_new (DATABASE_URL secrets))); mret 0.

Definition firebase_refresh_token : ST Shim Z :=
  a ← get g_app;
  if is_null a then mret (-1)
  else e ← with_app forceRefreshAuth; mret (if e =? ESP_OK then 0 else -2).

(** The result of a database operation as the C functions report it. *)
Definition c_result (e : Z) : Z := if e =? ESP_OK then 0 else e.

Definition with_rtdb (f : bytes -> ST Net Z) : ST Shim Z :=
  r ← get g_rtdb;
  match r with
  | None => mret (-1)
  | Some url => with_app (f url)
  end.

Definition firebase_push (path json : bytes) : ST Shim Z :=
  with_rtdb (fun url => e ← postData url path json; mret (c_result e)).
Definition firebase_putData (path json : bytes) : ST Shim Z :=
  with_rtdb (fun url => e ← putData url path json; mret (c_result e)).
Definition firebase_delete (path : bytes) : ST Shim Z :=
  with_rtdb (fun url => e ← deleteData url path; mret (c_result e)).
Definition firebase_trim_days (root_path : bytes) (max_days : Z) : ST Shim Z :=
  with_rtdb (fun url => e ← trimDays url root_path max_days; mret (c_result e)).
Definition firebase_trim_oldest_batch (root_path : bytes) (batch_size : Z) : ST Shim Z :=
  with_rtdb (fun url => trimOldestBatch url root_path batch_size).
End shim.
