(* ===== verification/RtdbFacts.v ===== *)
(** * The database operations: what they send and what they report

    Each write goes out once, and once more with the token of a refresh when it
    was answered 401; the retention operations delete the oldest entries. *)
From stdpp Require Import sorting.
From S2P Require Import Rtdb FirebaseAppFacts JsonValueFacts JsonReaderFacts JsonFields JsonRoundtrip.
Open Scope Z_scope.

Section rtdb_facts.
Context `{Platform} (F : bytes -> Prop) `{!Delivers F} (base : bytes).

Definition data_request (method : http_method) (path json : bytes) (a : App) : wire :=
  request (base ++ path ++ STR ".json?auth=" ++ auth_token a) method json.

Definition delete_request (path : bytes) (a : App) : wire :=
  request (base ++ path ++ STR ".json?writeSizeLimit=unlimited&auth=" ++ auth_token a) HTTP_METHOD_DELETE [].

(** A request [w] of the object, made once, or twice when the first answer was
    no [ok] and 401: the second time after a refresh, with what the object
    holds then.  The verdict is that of the last reply. *)
Inductive authorized (w : App -> wire) (ok : http_ret_t -> bool) (n n' : Net) : Z -> Prop :=
  | authorized_once r :
      ok r = true \/ status_code r <> 401 -> talks [(w (this n), r)] n n' ->
      forget (this n') = forget (this n) ->
      authorized w ok n n' (if ok r then ESP_OK else ESP_FAIL)
  | authorized_twice r n1 e n2 r' :
      ok r = false -> status_code r = 401 ->
      talks [(w (this n), r)] n n1 -> forget (this n1) = forget (this n) ->
      refreshed n1 n2 e \/ relogged n1 n2 e ->
      talks [(w (this n2), r')] n2 n' -> forget (this n') = forget (this n2) ->
      authorized w ok n n' (if ok r' then ESP_OK else ESP_FAIL).

Lemma talks_end l n n' m : talks l n n' -> trace m = trace n' -> talks l n m.
Proof. intros Ht E. eapply talks_change; [exact Ht|done|]. by apply same_talk_eq. Qed.

Lemma send_data_wp method path json n :
  net_ok F n ->
  wpn F (send_data base method path json) n (fun e n' =>
    net_ok F n' /\ cleared n' /\ authorized (data_request method path json) is_200 n n' e).
Proof.
  intros Hn. unfold send_data, data_url, json_header. apply wpn_bind, wpn_get, wpn_ret, wpn_bind, wpn_call, wpn_ret.
  apply wpn_bind, performRequest_wp; [done|done|]. intros r n1 K1 Hf1 Ht1 Hh1.
  assert (talks [(data_request method path json (this n), r)] n n1) as Ht1'.
  { eapply talks_change; [exact Ht1|talk_tac..]. }
  change (forget (this n1) = forget (this n)) in Hf1.
  destruct (negb (is_200 r) && (status_code r =? 401)) eqn:E401; bool_to_prop.
  - apply wpn_bind, wpn_bind. eapply wpn_mono; [by apply forceRefreshAuth_wp|].
    intros e n2 [K2 Hr2]. apply wpn_bind, wpn_get, wpn_ret, wpn_bind, wpn_call, wpn_ret.
    apply performRequest_wp; [done|done|]. intros r' n3 K3 Hf3 Ht3 Hh3.
    apply wpn_bind, clearHTTPBuffer_wp; [done|]. intros n4 K4 Hf4 Htr4 Hc. apply wpn_ret.
    split; [done|]. split; [done|].
    eapply (authorized_twice _ _ n n4 r n1 e n2 r'); try done.
    + eapply talks_end; [|exact Htr4]. eapply talks_change; [exact Ht3|talk_tac..].
    + rewrite Hf4, Hf3. done.
  - apply wpn_bind, wpn_ret, wpn_bind, clearHTTPBuffer_wp; [done|]. intros n4 K4 Hf4 Htr4 Hc. apply wpn_ret.
    split; [done|]. split; [done|]. eapply authorized_once; [|by eapply talks_end|congruence].
    destruct E401; bool_to_prop; tauto.
Qed.

Lemma set_timeout_trace ms n :
  client (this n) = Some true -> setHttpTimeoutMs ms n = Ret (tt, log_call (HttpSetTimeout ms) n).
Proof. intros Hc. unfold setHttpTimeoutMs. by rewrite get_bind, Hc. Qed.

(** The timeout is put back and the buffer cleared, whatever the verdict. *)
Lemma finish_wp {A} (e : A) n (Q : A -> Net -> Prop) :
  net_ok F n ->
  (forall n', net_ok F n' -> cleared n' -> forget (this n') = forget (this n) ->
     (exists h, trace n' = HttpSetTimeout (default_timeout_ms (this n')) :: h) ->
     (forall l m, talks l m n -> talks l m n') -> Q e n') ->
  wpn F (_ ← restoreDefaultHttpTimeout; _ ← clearHTTPBuffer; mret e) n Q.
Proof.
  intros Hm HQ. pose proof Hm as (_ & _ & _ & Hc). apply wpn_bind.
  unfold restoreDefaultHttpTimeout. apply wpn_get. unfold wpn at 1. rewrite set_timeout_trace by done.
  apply wpn_bind, clearHTTPBuffer_wp; [done|]. intros m' Hm' Hf Htr Hcl. apply wpn_ret, HQ; [done..| |].
  - rewrite Htr. assert (default_timeout_ms (this m') = default_timeout_ms (this n)) as ->.
    { by apply (f_equal default_timeout_ms) in Hf. }
    by eexists.
  - intros l m0 Hl. eapply talks_change; [exact Hl|done|]. split_and!; rewrite Htr; [by apply suffix_cons_r|done|done].
Qed.

Lemma deleteData_wp path n :
  net_ok F n ->
  wpn F (deleteData base path) n (fun e n' =>
    net_ok F n' /\ cleared n' /\ authorized (delete_request path) is_success n n' e /\
    exists h, trace n' = HttpSetTimeout (default_timeout_ms (this n')) :: h).
Proof.
  intros Hn. unfold deleteData, delete_url, delete_headers. apply wpn_bind, wpn_get, wpn_ret, wpn_bind.
  pose proof Hn as (_ & _ & _ & Hc). unfold wpn at 1. rewrite set_timeout_trace by done.
  apply wpn_bind, wpn_call, wpn_call, wpn_ret.
  apply wpn_bind, performRequest_wp; [done|done|]. intros r n1 K1 Hf1 Ht1 Hh1.
  assert (talks [(delete_request path (this n), r)] n n1) as Ht1'.
  { eapply talks_change; [exact Ht1|talk_tac..]. }
  change (forget (this n1) = forget (this n)) in Hf1.
  destruct (negb (is_success r) && (status_code r =? 401)) eqn:E401; bool_to_prop.
  - apply wpn_bind, wpn_bind. eapply wpn_mono; [by apply forceRefreshAuth_wp|].
    intros e n2 [K2 Hr2]. apply wpn_bind, wpn_get, wpn_ret, wpn_bind, wpn_call, wpn_call, wpn_ret.
    apply performRequest_wp; [done|done|]. intros r' n3 K3 Hf3 Ht3 Hh3.
    apply finish_wp; [done|]. intros n4 K4 Hc4 Hf4 Htr4 Hl. split_and!; [done|done| |done].
    eapply (authorized_twice _ _ n n4 r n1 e n2 r'); try done.
    + apply Hl. eapply talks_change; [exact Ht3|talk_tac..].
    + rewrite Hf4, Hf3. done.
  - apply wpn_bind, wpn_ret. apply finish_wp; [done|]. intros n4 K4 Hc4 Hf4 Htr4 Hl.
    split_and!; [done|done| |done].
    eapply authorized_once; [|by apply Hl|congruence]. destruct E401; bool_to_prop; tauto.
Qed.
End rtdb_facts.

(** ** The order of the days *)

#[local] Instance str_leq_trans : Transitive str_leq.
Proof.
  intros a. induction a as [|x a IH]; intros [|y b] [|z c]; try done. unfold str_leq in *. simpl.
  destruct (Z.ltb_spec x y), (Z.ltb_spec y x), (Z.ltb_spec y z), (Z.ltb_spec z y),
    (Z.ltb_spec x z), (Z.ltb_spec z x); try done; try lia. apply IH.
Qed.

#[local] Instance str_leq_anti : AntiSymm (=) str_leq.
Proof.
  intros a. induction a as [|x a IH]; intros [|y b]; try done. unfold str_leq in *. simpl.
  destruct (Z.ltb_spec x y), (Z.ltb_spec y x); try done; try lia. intros Ha Hb.
  f_equal; [lia|by apply IH].
Qed.

#[export] Instance str_leq_total : Total str_leq.
Proof.
  intros a. induction a as [|x a IH]; intros [|y b]; try (by left); [by right|]. unfold str_leq in *. simpl.
  destruct (Z.ltb_spec x y); [by left|]. destruct (Z.ltb_spec y x); [by right|]. apply IH.
Qed.

Lemma sort_strings_sorted l : StronglySorted str_leq (sort_strings l) /\ sort_strings l ≡ₚ l.
Proof.
  split; [|apply merge_sort_Permutation]. apply Sorted_StronglySorted; [apply _|]. by apply Sorted_merge_sort; apply _.
Qed.

(** ** Retention by days *)

Section trim.
Context `{Platform} (F : bytes -> Prop) `{!Delivers F} (base : bytes).

Lemma take_response_wp n Q :
  net_ok F n -> holds_reply n ->
  (forall v n', wf v -> response n v -> net_ok F n' -> forget (this n') = forget (this n) ->
     trace n' = trace n -> cleared n' -> Q v n') ->
  wpn F take_response n Q.
Proof.
  intros Hn Hh HQ. unfold take_response. apply wpn_bind, parse_response_wp; [done|done|].
  intros doc v Hw Hr _ _. apply wpn_bind, clearHTTPBuffer_wp; [done|]. intros n' K Hf Ht Hc.
  apply wpn_ret. by apply HQ.
Qed.

(** The deletions of a list of children, in order, each with its own verdict. *)
Inductive deletes (root : bytes) : list bytes -> Net -> Net -> Prop :=
  | deletes_nil n : deletes root [] n n
  | deletes_cons d ds n e n1 n' :
      authorized (delete_request base (c_str (root ++ STR "/" ++ d))) is_success n n1 e ->
      deletes root ds (log_call (TaskDelay 20) n1) n' ->
      deletes root (d :: ds) n n'.

Lemma delete_days_wp root ds n :
  net_ok F n -> wpn F (delete_days base root ds) n (fun _ n' => net_ok F n' /\ deletes root ds n n').
Proof.
  revert n. induction ds as [|d ds IH]; intros n Hn; [apply wpn_ret; split; [done|constructor]|].
  cbn [delete_days]. apply wpn_bind. eapply wpn_mono; [by apply deleteData_wp|].
  intros e n1 (K1 & _ & Ha & _). apply wpn_call. eapply wpn_mono; [by apply IH|].
  intros [] n' [K Hd]. split; [done|]. by econstructor.
Qed.

Definition listing (root : bytes) (a : App) : wire :=
  request (base ++ root ++ STR ".json?shallow=true&auth=" ++ auth_token a) HTTP_METHOD_GET [].

(** [deleted] are the smallest of [names] in ascending order, all but
    [max_days] of them. *)
Definition oldest (max_days : Z) (names deleted : list bytes) : Prop :=
  exists kept, deleted ++ kept ≡ₚ names /\ StronglySorted str_leq (deleted ++ kept) /\
    (Z.of_nat (length names) < 2 ^ 31 -> Z.of_nat (length kept) = Z.min (Z.of_nat (length names)) max_days).

Lemma i32_small z : 0 <= z < 2 ^ 31 -> i32 z = z.
Proof. intros Hz. unfold i32, signed. rewrite Z.mod_small by lia. by rewrite (proj2 (Z.ltb_lt _ _)) by lia. Qed.

Lemma oldest_none max_days names :
  i32 (Z.of_nat (length names)) <= max_days -> oldest max_days names [].
Proof.
  intros Hle. destruct (sort_strings_sorted names) as [Hs Hp]. exists (sort_strings names).
  split_and!; [done|done|]. intros Hl. rewrite i32_small in Hle by lia. rewrite (Permutation_length Hp). lia.
Qed.

Lemma oldest_take max_days names :
  0 < max_days -> max_days < i32 (Z.of_nat (length names)) ->
  oldest max_days names (take (Z.to_nat (i32 (Z.of_nat (length names)) - max_days)) (sort_strings names)).
Proof.
  intros Hm Hlt. set (k := Z.to_nat _). destruct (sort_strings_sorted names) as [Hs Hp].
  exists (drop k (sort_strings names)). rewrite take_drop. split_and!; [done|done|].
  intros Hl. rewrite length_drop, (Permutation_length Hp). unfold k. rewrite i32_small in * by lia. lia.
Qed.

Lemma trimDays_wp root max_days n :
  0 < max_days -> net_ok F n ->
  wpn F (trimDays base root max_days) n (fun e n' => net_ok F n' /\ exists r n1 n2,
    talks [(listing root (this n), r)] n n1 /\ same_talk n1 n2 /\ forget (this n2) = forget (this n) /\
    (is_200 r = false /\ e = ESP_FAIL /\ n' = n2 \/
     is_200 r = true /\ e = ESP_OK /\ exists v deleted, response n1 v /\ deletes root deleted n2 n' /\
       (if isObject v then oldest max_days (om_keys (object_map v)) deleted else deleted = []))).
Proof.
  intros Hm Hn. unfold trimDays. rewrite (proj2 (Z.leb_gt _ _)) by done.
  apply wpn_get. unfold json_header. apply wpn_bind, wpn_call, wpn_ret, wpn_bind, performRequest_wp; [done|done|].
  intros r n1 K1 Hf1 Ht1 Hh1. change (forget (this n1) = forget (this n)) in Hf1.
  assert (talks [(listing root (this n), r)] n n1) as Ht1'.
  { eapply talks_change; [exact Ht1|talk_tac..]. }
  destruct (is_200 r) eqn:Er; cbn [negb].
  - apply wpn_bind, take_response_wp; [done|done|]. intros v n2 Hw Hr K2 Hf2 Htr2 Hc2.
    assert (same_talk n1 n2) as Hst by (by apply same_talk_eq).
    assert (forget (this n2) = forget (this n)) as Hf2' by congruence.
    destruct (isObject v) eqn:Ho; cbn [negb].
    + unfold getMemberNames. rewrite Ho, orb_true_r. apply wpn_run.
      assert (isNull v = false) as -> by (unfold isObject, isNull in *; by destruct (type v)).
      change (om_keys (object_map v)) with (om_keys (object_map v)). cbn [json_assert mbind outcome_bind].
      destruct (Z.leb_spec (i32 (Z.of_nat (length (om_keys (object_map v))))) max_days) as [Hle|Hlt].
      * apply wpn_ret. split; [done|]. exists r, n1, n2. split_and!; [done..|right]. split_and!; [done..|].
        exists v, []. rewrite Ho. split_and!; [done|constructor|by apply oldest_none].
      * apply wpn_bind. eapply wpn_mono; [by apply delete_days_wp|]. intros _ n' [K Hd]. apply wpn_ret.
        split; [done|]. exists r, n1, n2. split_and!; [done..|right]. split_and!; [done..|].
        eexists v, _. rewrite Ho. split_and!; [done|exact Hd|by apply oldest_take].
    + apply wpn_ret. split; [done|]. exists r, n1, n2. split_and!; [done..|right]. split_and!; [done..|].
      exists v, []. rewrite Ho. split_and!; [done|constructor|done].
  - apply wpn_bind, clearHTTPBuffer_wp; [done|]. intros n2 K2 Hf2 Htr2 Hc2. apply wpn_ret. split; [done|].
    exists r, n1, n2. split_and!; [done|by apply same_talk_eq|congruence|by left].
Qed.
End trim.

(** ** Retention by batches *)

Section batch.
Context `{Platform} (F : bytes -> Prop) `{!Delivers F} (base : bytes).

Definition oldest_listing (root : bytes) (batch_size : Z) (a : App) : wire :=
  request (base ++ root ++ STR ".json?orderBy=%22%24key%22&limitToFirst=" ++ dec_signed batch_size ++
           STR "&auth=" ++ auth_token a) HTTP_METHOD_GET [].

Definition null_patch (root : bytes) (keys : list bytes) (a : App) : wire :=
  request (base ++ root ++ STR ".json?auth=" ++ auth_token a ++ STR "&print=silent") HTTP_METHOD_PATCH
    (patch_body keys).

Lemma trimOldestBatch_wp root batch_size n :
  0 < batch_size -> net_ok F n ->
  wpn F (trimOldestBatch base root batch_size) n (fun e n' => net_ok F n' /\ cleared n' /\
    forget (this n') = forget (this n) /\ exists r n1,
    talks [(oldest_listing root batch_size (this n), r)] n n1 /\
    (is_200 r = false /\ e = -1 /\ same_talk n1 n' \/
     is_200 r = true /\ exists v, response n1 v /\
       let keys := if isObject v then om_keys (object_map v) else [] in
       (keys = [] /\ e = 0 /\ same_talk n1 n' \/
        keys <> [] /\ exists r2, talks [(null_patch root keys (this n), r2)] n1 n' /\
          e = if is_success r2 then i32 (Z.of_nat (length keys)) else -2))).
Proof.
  intros Hm Hn. unfold trimOldestBatch. rewrite (proj2 (Z.leb_gt _ _)) by done.
  apply wpn_get. unfold json_header. apply wpn_bind, wpn_call, wpn_ret, wpn_bind, performRequest_wp; [done|done|].
  intros r n1 K1 Hf1 Ht1 Hh1. change (forget (this n1) = forget (this n)) in Hf1.
  assert (talks [(oldest_listing root batch_size (this n), r)] n n1) as Ht1'.
  { eapply talks_change; [exact Ht1|talk_tac..]. }
  destruct (is_200 r) eqn:Er; cbn [negb].
  2: { apply wpn_bind, clearHTTPBuffer_wp; [done|]. intros n2 K2 Hf2 Htr2 Hc2. apply wpn_ret.
       split_and!; [done|done|congruence|]. exists r, n1. split; [done|left].
       split_and!; [done..|by apply same_talk_eq]. }
  apply wpn_bind, take_response_wp; [done|done|]. intros v n2 Hw Hr K2 Hf2 Htr2 Hc2.
  assert (same_talk n1 n2) as Hst by (by apply same_talk_eq).
  assert (forget (this n2) = forget (this n)) as Hf2' by congruence.
  assert (forall e, e = 0 -> (if isObject v then om_keys (object_map v) else []) = [] ->
    wpn F (mret e : ST Net Z) n2 (fun e n' => net_ok F n' /\ cleared n' /\
    forget (this n') = forget (this n) /\ exists r n1,
    talks [(oldest_listing root batch_size (this n), r)] n n1 /\
    (is_200 r = false /\ e = -1 /\ same_talk n1 n' \/
     is_200 r = true /\ exists v, response n1 v /\
       let keys := if isObject v then om_keys (object_map v) else [] in
       (keys = [] /\ e = 0 /\ same_talk n1 n' \/
        keys <> [] /\ exists r2, talks [(null_patch root keys (this n), r2)] n1 n' /\
          e = if is_success r2 then i32 (Z.of_nat (length keys)) else -2)))) as Hnone.
  { intros e -> Hk. apply wpn_ret. split_and!; [done..|]. exists r, n1. split; [done|right]. split; [done|].
    exists v. split; [done|]. cbv zeta. left. by rewrite Hk. }
  destruct (isObject v) eqn:Ho; cbn [negb]; [|by apply Hnone].
  unfold getMemberNames. rewrite Ho, orb_true_r. apply wpn_run.
  assert (isNull v = false) as -> by (unfold isObject, isNull in *; by destruct (type v)).
  cbn [json_assert mbind outcome_bind]. set (keys := om_keys (object_map v)) in *.
  destruct (bool_decide (keys = [])) eqn:Ek; [apply bool_decide_eq_true in Ek; by apply Hnone|].
  apply bool_decide_eq_false in Ek.
  apply wpn_get. apply wpn_bind, wpn_call, wpn_ret, wpn_bind, performRequest_wp; [done|done|].
  intros r2 n3 K3 Hf3 Ht3 Hh3. apply wpn_bind, clearHTTPBuffer_wp; [done|]. intros n4 K4 Hf4 Htr4 Hc4.
  assert (talks [(null_patch root keys (this n), r2)] n1 n4) as Ht4.
  { destruct (forget_eq _ _ Hf2') as (_ & _ & _ & _ & _ & Htok). unfold null_patch. rewrite <- Htok.
    eapply talks_change; [exact Ht3| |by apply same_talk_eq]. etransitivity; [exact Hst|talk_tac]. }
  destruct (is_success r2) eqn:E2; cbn [negb]; apply wpn_ret;
    (split_and!; [done|done|rewrite Hf4, Hf3; exact Hf2'|]; exists r, n1; split; [done|right]; split; [done|];
     exists v; split; [done|]; cbv zeta; rewrite Ho; right; split; [done|]; exists r2; by rewrite E2).
Qed.
End batch.

(** ** The body of the batch *)

Definition null_object (keys : list bytes) : Value :=
  initBasic (PObject ((fun k => (k, Value_null)) <$> keys)).

Definition null_member (k : bytes) : bytes := [dquote] ++ k ++ [dquote] ++ STR ":null".

(** The members, with a comma before all but the first. *)
Definition null_members (first : bool) (keys : list bytes) : bytes :=
  match keys with
  | [] => []
  | k :: ks => (if first then [] else STR ",") ++ null_member k ++ (ks ≫= fun k => STR "," ++ null_member k)
  end.

Lemma patch_body_members keys : patch_body keys = STR "{" ++ null_members true keys ++ STR "}".
Proof.
  unfold patch_body. f_equal. f_equal. destruct keys as [|k ks]; [done|]. rewrite imap_cons.
  cbn [concat null_members]. rewrite decide_True by done. change ([] ++ ?x) with x.
  change ([dquote] ++ k ++ [dquote] ++ STR ":null") with (null_member k).
  change ([] ++ null_member k ++ (ks ≫= fun k => STR "," ++ null_member k)) with
    (null_member k ++ (ks ≫= fun k => STR "," ++ null_member k)). f_equal.
  assert (forall g : nat -> nat, (forall i, g i <> O) ->
    concat (imap (fun i k => (if decide (g i = O) then [] else STR ",") ++
                             [dquote] ++ k ++ [dquote] ++ STR ":null") ks) =
    (ks ≫= fun k => STR "," ++ null_member k)) as Hg; [|by apply (Hg S)].
  clear k. induction ks as [|k ks IH]; intros g Hg; [done|]. rewrite imap_cons, bind_cons. cbn [concat].
  rewrite decide_False by done. f_equal. apply (IH (g ∘ S)). intros i. apply Hg.
Qed.

Lemma write_members_nulls w ts first ks :
  dropNullPlaceholders_ w = false -> yamlCompatibilityEnabled_ w = false ->
  Forall (fun k => plain k /\ om_find (CZString k) ts = Some (Ret (STR "null"))) ks ->
  write_members w ts first ks = Ret (null_members first ks).
Proof.
  intros Hd Hy. revert first. induction ks as [|k ks IH]; intros first Hks; [done|].
  apply Forall_cons in Hks as [[Hk Hf] Hks]. cbn [write_members null_members].
  rewrite Hf. change (default _ (Some ?x)) with x. rewrite Ret_bind, IH, Ret_bind, Hy, plain_quoted by done.
  assert (null_members false ks = (ks ≫= fun k => STR "," ++ null_member k)) as ->.
  { destruct ks as [|k' ks]; [done|]. cbn [null_members]. rewrite bind_cons. by rewrite <- !app_assoc. }
  unfold null_member. by rewrite <- !app_assoc.
Qed.

Definition keys_sorted (keys : list bytes) : Prop :=
  om_sorted ((fun k => (k, Value_null)) <$> keys).

Lemma write_null_object w keys :
  dropNullPlaceholders_ w = false -> yamlCompatibilityEnabled_ w = false ->
  keys_sorted keys -> Forall (fun k => plain k /\ Z.of_nat (length k) < 2 ^ 30) keys ->
  writeValue w (null_object keys) = Ret (patch_body keys).
Proof.
  intros Hd Hy Hs Hk. rewrite patch_body_members. unfold null_object, initBasic. cbn [writeValue value_].
  unfold getMemberNames, json_assert. cbn [isNull isObject type value_].
  change (om_keys (object_map _)) with (om_keys ((fun k => (k, Value_null)) <$> keys)).
  set (m := (fun k : bytes => (k, Value_null)) <$> keys) in *.
  assert (om_keys m = keys) as Hkeys.
  { unfold om_keys, m. rewrite <- list_fmap_compose. apply list_fmap_id. }
  assert (write_members w (om_map (writeValue w) m) true (om_keys m) = Ret (null_members true keys)) as Hw.
  { rewrite Hkeys. apply write_members_nulls; [done|done|]. eapply Forall_impl; [|intros k Hx; exact Hx].
    apply Forall_forall. intros k Hin. rewrite Forall_forall in Hk. destruct (Hk k Hin) as [Hp Hl].
    split; [done|]. rewrite CZString_short by done.
    assert (om_find k m = Some Value_null) as Hf.
    { apply om_find_In; [done|]. apply list_elem_of_fmap. by exists k. }
    rewrite om_find_om_map, Hf. simpl. unfold null_text. by rewrite Hd. }
  simpl. change (m.*1) with (om_keys m). by rewrite Hw.
Qed.

Lemma null_object_writable keys :
  keys_sorted keys -> Forall (fun k => plain k /\ Z.of_nat (length k) < 2 ^ 30) keys ->
  writable (null_object keys).
Proof.
  intros Hs Hk. split; [exact Hs|]. split.
  - apply Forall_fmap. eapply Forall_impl; [exact Hk|]. intros k [Hp Hl]. split; [by apply plain_utf8_text|exact Hl].
  - clear. induction keys as [|k keys IH]; [exact I|]. split; [exact I|exact IH].
Qed.

Lemma null_object_norm keys : norm (null_object keys) = null_object keys.
Proof.
  unfold null_object. cbn [norm initBasic value_]. f_equal. f_equal.
  induction keys as [|k keys IH]; [done|]. cbn [fmap list_fmap om_map]. by rewrite IH.
Qed.

Lemma null_object_depth keys : (depth (null_object keys) <= 2)%nat.
Proof.
  unfold null_object. cbn [depth initBasic value_].
  assert (om_depth depth ((fun k => (k, Value_null)) <$> keys) <= 1)%nat; [|lia].
  induction keys as [|k keys IH]; [simpl; lia|]. cbn [fmap list_fmap om_depth].
  change (depth Value_null) with 1%nat. lia.
Qed.

(** ** Reading *)

Section reading.
Context `{Platform} (F : bytes -> Prop) `{!Delivers F} (base : bytes).

(** When no text is nested too deep a reply of any JSON type is parsed. *)
Context (Hflat : forall doc, F doc -> (opens doc < stackLimit_g)%nat).

Definition taken (n : Net) (v : Value) (n' : Net) : Prop :=
  response n v /\ net_ok F n' /\ cleared n' /\ forget (this n') = forget (this n) /\ same_talk n n'.

Lemma take_response_ok n :
  net_ok F n -> holds_reply n -> exists v n', take_response n = Ret (v, n') /\ taken n v n'.
Proof.
  intros Hn Hh. destruct (parse_response_cases F n Hn Hh) as (doc & Ht & Hp).
  assert (opens doc < stackLimit_g)%nat as Ho by (destruct Ht as [|[? _]]; [by apply Hflat|done]).
  unfold take_response. destruct (parse_response n) as [[v n']|msg|msg|] eqn:E; [|lia|done..].
  destruct Hp as (-> & _ & Hr & _). rewrite (ST_bind_Ret _ _ _ _ _ E).
  destruct (clearHTTPBuffer_ok F n Hn) as (n' & Ec & K & Hf & Htr & Hc). rewrite (ST_bind_Ret _ _ _ _ _ Ec).
  exists v, n'. split; [done|]. split_and!; try done. by apply same_talk_eq.
Qed.

(** What [getData] does after a refusal: a login, and the same request again. *)
Inductive fetched_again (w : wire) (n n1 : Net) (v : Value) (n' : Net) : Prop :=
  | fetches_again e n2 r n3 :
      tokens false (user_account (this n)) n1 n2 e -> talks [(w, r)] n2 n3 ->
      (if is_200 r then response n3 v else v = Value_null) ->
      same_talk n3 n' -> forget (this n') = forget (this n2) -> fetched_again w n n1 v n'.

Lemma getData_ok path n :
  net_ok F n ->
  let w := data_request base HTTP_METHOD_GET path [] (this n) in
  exists r n1, talks [(w, r)] n n1 /\ forget (this n1) = forget (this n) /\
    if is_200 r then exists v n', getData base path n = Ret (v, n') /\ taken n1 v n'
    else wpn F (getData base path) n (fun v n' => net_ok F n' /\ cleared n' /\ fetched_again w n n1 v n').
Proof.
  intros Hn w. unfold wpn, getData, data_url, json_header.
  set (n0 := log_call (HttpSetHeader (STR "content-type") (STR "application/json")) n).
  set (url := base ++ path ++ STR ".json?auth=" ++ auth_token (this n)).
  destruct (performRequest_ok F url HTTP_METHOD_GET [] n0 Hn) as (r & n1 & E & K1 & Hf1 & Ha%talks_one & Hh).
  change (forget (this n1) = forget (this n)) in Hf1. exists r, n1.
  split; [eapply talks_change; [exact Ha|talk_tac..]|]. split; [done|].
  rewrite (ST_bind_Ret (a ← get this; _) _ n url n) by done.
  rewrite (ST_bind_Ret (_ ← setHeader _ _; _) _ n tt n0) by done. rewrite (ST_bind_Ret _ _ _ _ _ E).
  destruct (is_200 r); [by apply take_response_ok|].
  apply (wpn_bind F login_again). unfold login_again. apply wpn_get. eapply wpn_mono; [by apply obtain_tokens_wp|].
  intros e n2 [K2 Htok]. destruct (forget_eq _ _ Hf1) as (_ & _ & _ & _ & Hacc & _). rewrite Hacc in Htok.
  apply wpn_bind, wpn_call, wpn_ret, wpn_bind, performRequest_wp; [done|done|].
  intros r2 n3 K3 Hf3 Ht3 Hh3. change (forget (this n3) = forget (this n2)) in Hf3.
  assert (talks [(w, r2)] n2 n3) as Ht3' by (eapply talks_change; [exact Ht3|talk_tac..]).
  destruct (is_200 r2) eqn:E2.
  - destruct (take_response_ok n3 K3 Hh3) as (v & n4 & E4 & Hr4 & K4 & Hc4 & Hf4 & Hs4). unfold wpn. rewrite E4.
    split_and!; [done..|]. apply (fetches_again w n n1 v n4 e n2 r2 n3); [done|done|by rewrite E2|done|congruence].
  - apply wpn_bind, clearHTTPBuffer_wp; [done|]. intros n4 K4 Hf4 Htr4 Hc4. apply wpn_ret. split_and!; [done..|].
    apply (fetches_again w n n1 _ n4 e n2 r2 n3); [done|done|by rewrite E2|by apply same_talk_eq|congruence].
Qed.
End reading.

(** ** Properties *)

Definition demo_base : bytes := STR "https://db".

(** C3: [putData], [postData] and [patchData] always return when the server's
    texts stay readable.  The body goes out under the token held; when that is
    answered 401 the tokens are refreshed, by login if need be, and the body
    goes out once more under the new token.  The verdict is [ESP_OK] exactly
    when the last reply was 200, and the buffer ends cleared. *)
Theorem send_data_spec `{Platform} base method path json n :
  Delivers no_text -> net_ok no_text n ->
  exists e n', send_data base method path json n = Ret (e, n') /\ net_ok no_text n' /\ cleared n' /\
               authorized (data_request base method path json) is_200 n n' e.
Proof. intros Hd Hn. exact (wpn_no_text _ _ _ (send_data_wp no_text base method path json n Hn)). Qed.

Lemma send_data_spec_witness :
  let p := server token_doc in
  exists e n', putData demo_base (STR "/k") (STR "{}") (ready bare_app) = Ret (e, n') /\
               authorized (data_request demo_base HTTP_METHOD_PUT (STR "/k") (STR "{}")) is_200
                 (ready bare_app) n' e.
Proof.
  intros p. destruct (send_data_spec demo_base HTTP_METHOD_PUT (STR "/k") (STR "{}") (ready bare_app))
    as (e & n' & E & _ & _ & Ha).
  - apply token_server_delivers.
  - apply ready_ok.
  - exists e, n'. split; [exact E|exact Ha].
Defined.

(** C12: while the server's replies can be read, [deleteData] sends one [DELETE]
    request, a second one after it refreshed the token when the first was answered
    with 401, reports [ESP_OK] exactly when the last reply is a 2xx, clears the
    buffer, and puts the default timeout back as its last call whatever happened. *)
Theorem deleteData_spec `{Platform} base path n :
  Delivers no_text -> net_ok no_text n ->
  exists e n', deleteData base path n = Ret (e, n') /\ net_ok no_text n' /\ cleared n' /\
               authorized (delete_request base path) is_success n n' e /\
               exists h, trace n' = HttpSetTimeout (default_timeout_ms (this n')) :: h.
Proof. intros Hd Hn. exact (wpn_no_text _ _ _ (deleteData_wp no_text base path n Hn)). Qed.

Lemma deleteData_spec_witness :
  let p := server token_doc in
  exists e n', deleteData demo_base (STR "/k") (ready bare_app) = Ret (e, n') /\
               authorized (delete_request demo_base (STR "/k")) is_success (ready bare_app) n' e /\
               exists h, trace n' = HttpSetTimeout (default_timeout_ms (this n')) :: h.
Proof.
  intros p. destruct (deleteData_spec demo_base (STR "/k") (ready bare_app)) as (e & n' & E & _ & _ & Ha & Hh).
  - apply token_server_delivers.
  - apply ready_ok.
  - exists e, n'. split; [exact E|]. split; [exact Ha|exact Hh].
Defined.

(** C23: [trimDays] lists the children of the root and, when there are more than
    [max_days], deletes all but [max_days] of them, the smallest names first in
    order: what it keeps is [max_days] names, none smaller than a deleted one. *)
Theorem trimDays_spec `{Platform} base root max_days n :
  Delivers no_text -> net_ok no_text n -> 0 < max_days ->
  exists e n', trimDays base root max_days n = Ret (e, n') /\ net_ok no_text n' /\ exists r n1 n2,
    talks [(listing base root (this n), r)] n n1 /\ same_talk n1 n2 /\ forget (this n2) = forget (this n) /\
    (is_200 r = false /\ e = ESP_FAIL /\ n' = n2 \/
     is_200 r = true /\ e = ESP_OK /\ exists v deleted, response n1 v /\ deletes base root deleted n2 n' /\
       (if isObject v then oldest max_days (om_keys (object_map v)) deleted else deleted = [])).
Proof. intros Hd Hn Hm. exact (wpn_no_text _ _ _ (trimDays_wp no_text base root max_days n Hm Hn)). Qed.

Lemma trimDays_spec_witness :
  let p := server token_doc in
  exists e n', trimDays demo_base (STR "/h") 2 (ready bare_app) = Ret (e, n') /\ net_ok no_text n'.
Proof.
  intros p. destruct (trimDays_spec demo_base (STR "/h") 2 (ready bare_app)) as (e & n' & E & Hn & _).
  - apply token_server_delivers.
  - apply ready_ok.
  - reflexivity.
  - exists e, n'. split; [exact E|exact Hn].
Defined.

(** C29: [trimOldestBatch] asks for the first [batch_size] children by key and
    patches those it is told of to null in one request; it returns how many, 0
    when there were none, -1 when the listing and -2 when the patch failed.  It
    never refreshes the token. *)
Theorem trimOldestBatch_spec `{Platform} base root batch_size n :
  Delivers no_text -> net_ok no_text n -> 0 < batch_size ->
  exists e n', trimOldestBatch base root batch_size n = Ret (e, n') /\ net_ok no_text n' /\ cleared n' /\
    forget (this n') = forget (this n) /\ exists r n1,
    talks [(oldest_listing base root batch_size (this n), r)] n n1 /\
    (is_200 r = false /\ e = -1 /\ same_talk n1 n' \/
     is_200 r = true /\ exists v, response n1 v /\
       let keys := if isObject v then om_keys (object_map v) else [] in
       (keys = [] /\ e = 0 /\ same_talk n1 n' \/
        keys <> [] /\ exists r2, talks [(null_patch base root keys (this n), r2)] n1 n' /\
          e = if is_success r2 then i32 (Z.of_nat (length keys)) else -2)).
Proof. intros Hd Hn Hm. exact (wpn_no_text _ _ _ (trimOldestBatch_wp no_text base root batch_size n Hm Hn)). Qed.

Lemma trimOldestBatch_spec_witness :
  let p := server token_doc in
  exists e n', trimOldestBatch demo_base (STR "/h") 50 (ready bare_app) = Ret (e, n') /\ cleared n'.
Proof.
  intros p. destruct (trimOldestBatch_spec demo_base (STR "/h") 50 (ready bare_app)) as (e & n' & E & _ & Hc & _).
  - apply token_server_delivers.
  - apply ready_ok.
  - reflexivity.
  - exists e, n'. split; [exact E|exact Hc].
Defined.

(** C30: the patch that [trimOldestBatch] sends for keys of printable ASCII
    without quotes and backslashes is JSON: the parser reads from it the object
    that maps exactly those keys to null. *)
Theorem patch_body_nulls keys root collect s :
  keys_sorted keys -> Forall (fun k => plain k /\ Z.of_nat (length k) < 2 ^ 30) keys ->
  Z.of_nat (length (patch_body keys)) <= maxInt - 5 ->
  exists s', parse (patch_body keys) root collect s = Ret (true, s') /\ strip (root_ s') = null_object keys.
Proof.
  intros Hs Hk Hl.
  destruct (parse_write (omitEndingLineFeed FastWriter_new) (null_object keys) (patch_body keys) root collect s)
    as (s' & E & Hr).
  - by apply null_object_writable.
  - pose proof (null_object_depth keys). lia.
  - done.
  - unfold write. rewrite (write_null_object (omitEndingLineFeed FastWriter_new)), Ret_bind by done.
    cbn [omitEndingLineFeed_ omitEndingLineFeed]. by rewrite app_nil_r.
  - lia.
  - by right.
  - exists s'. by rewrite Hr, null_object_norm.
Qed.

Lemma patch_body_nulls_witness :
  exists s', parse (patch_body [STR "25-01-01"; STR "25-01-02"]) Value_null false (Reader_new Features_all) =
               Ret (true, s') /\ strip (root_ s') = null_object [STR "25-01-01"; STR "25-01-02"].
Proof.
  apply (patch_body_nulls [STR "25-01-01"; STR "25-01-02"]).
  - repeat constructor.
  - repeat constructor.
  - vm_compute. discriminate.
Defined.

(** A key with a quote in it is written into the patch as it is, and the
    body then sets another member to a value instead of deleting the key. *)
Lemma patch_body_injects :
  let key := STR "a" ++ [dquote] ++ STR ":1," ++ [dquote] ++ STR "b" in
  exists s', parse (patch_body [key]) Value_null false (Reader_new Features_all) = Ret (true, s') /\
    object_map (strip (root_ s')) = [(STR "a", Value_int 1); (STR "b", Value_null)].
Proof. cbv zeta. eexists. split; vm_compute; reflexivity. Qed.

(** C33: [getData] makes one GET request under the token held.  When that is
    answered 200 it always returns the value of that reply, of whatever JSON
    type.  Otherwise it logs in again and repeats the request it made first:
    under the token that was refused, not under the new one; it returns the
    value of the second reply, or null when that is refused too.  Only that
    login can stop the process, over a text the server sent.  All that is asked
    of the server is texts with fewer than 1000 opening brackets. *)
Theorem getData_spec `{Platform} base path n :
  (forall h, Forall event_bytes (http_perform h).1) ->
  (forall doc, text_of_run n doc -> (opens doc < stackLimit_g)%nat) -> net_ok any_text n ->
  let w := data_request base HTTP_METHOD_GET path [] (this n) in
  exists r n1, talks [(w, r)] n n1 /\ forget (this n1) = forget (this n) /\
    match getData base path n with
    | Ret (v, n') => net_ok any_text n' /\ cleared n' /\
        if is_200 r then response n1 v /\ same_talk n1 n' /\ forget (this n') = forget (this n)
        else fetched_again w n n1 v n'
    | Abort msg => is_200 r = false /\ aborts_on (text_of_run n) msg
    | Undef msg => is_200 r = false /\ overflows_on (text_of_run n) msg
    | Fuel => False
    end.
Proof.
  intros Hb Hflat Hn w. set (F := text_of_run n) in *.
  assert (Delivers F) as Hd by (apply delivers_server; [done|by left]). apply net_ok_run in Hn. fold F in Hn.
  destruct (getData_ok F base Hflat path n Hn) as (r & n1 & Ht & Hf & Hr). exists r, n1. split_and!; [done..|].
  destruct (is_200 r).
  - destruct Hr as (v & n' & -> & Hv & K & Hc & Hf' & Hs). split_and!; [by eapply net_ok_weaken|done..|congruence].
  - unfold wpn in Hr. destruct (getData base path n) as [[v n']|msg|msg|]; [|by split..|done].
    destruct Hr as (K & Hc & Ha). split_and!; [by eapply net_ok_weaken|done..].
Qed.

(** The first five attempts are answered 401; the data are a number. *)
Definition number_server : Platform := {|
  http_init := fun _ => true;
  http_set := fun _ => ESP_OK;
  http_perform := fun h =>
    ([HTTP_EVENT_ON_CONNECTED;
      HTTP_EVENT_ON_DATA (Some (match last_method h with Some HTTP_METHOD_GET => STR "42" | _ => token_doc end));
      HTTP_EVENT_ON_FINISH], ESP_OK);
  http_get_status_code := fun h => if (length (sent h) <=? 5)%nat then 401 else 200;
  time := fun _ => 1700000000;
  timer_get_time := fun _ => 0;
  new_char := fun _ _ => 0xA5;
  i2c_err := fun _ => ESP_OK;
  i2c_data := fun _ _ => 0;
  modem_at := fun _ => (ESP_OK, None);
  modem_command := fun _ => (ESP_OK, []);
  dns_info := fun _ => (0, 0);
  api := fun _ => ESP_OK
|}.

Lemma number_server_flat doc : @text_of_run number_server (ready bare_app) doc -> (opens doc < stackLimit_g)%nat.
Proof.
  intros [(h & st & st' & Hst & E & Hd)|Hd].
  - set (body := match last_method h with Some HTTP_METHOD_GET => STR "42" | _ => token_doc end).
    assert ((0 ∉ body) /\ (length body <= capacity)%nat /\ (opens body < stackLimit_g)%nat) as (H0 & Hl & Ho).
    { assert (forall b, bool_decide (0 ∉ b) && (length b <=? 100)%nat && (opens b <? 10)%nat = true ->
        (0 ∉ b) /\ (length b <= capacity)%nat /\ (opens b < stackLimit_g)%nat) as Hb.
      { intros b [[Hb Hl%Nat.leb_le]%andb_true_iff Ho%Nat.ltb_lt]%andb_true_iff. apply bool_decide_eq_true in Hb.
        pose proof capacity_Z. unfold stackLimit_g.
        split_and!; [done|lia|lia]. }
      apply Hb. unfold body. destruct (last_method h) as [[]|]; vm_compute; reflexivity. }
    destruct (response_text [] [HTTP_EVENT_ON_DATA (Some body)] [HTTP_EVENT_ON_FINISH] st Hst) as (st2 & E2 & _ & Hc).
    { by repeat constructor. }
    { by repeat constructor. }
    assert (Ret st2 = Ret st') as [= <-] by (rewrite <- E2, <- E; reflexivity).
    rewrite Hd in Hc. injection Hc as ->. cbn [mbind list_bind chunk]. by rewrite app_nil_r, take_ge.
  - assert (cstr (local_response_buffer (this (ready bare_app))) = Some []) as Hz by reflexivity.
    rewrite Hz in Hd. injection Hd as <-. vm_compute. lia.
Qed.

Lemma number_server_bytes h : Forall event_bytes (@http_perform number_server h).1.
Proof.
  cbn [http_perform number_server fst]. destruct (last_method h) as [[]|]; repeat constructor; by vm_compute.
Qed.

(** The number 42 comes back after a refusal, five attempts and a login later. *)
Lemma getData_spec_witness :
  let p := number_server in
  exists v n' r n1, getData demo_base (STR "/k") (ready bare_app) = Ret (v, n') /\ value_ v = PInt 42 /\
    is_200 r = false /\
    fetched_again (data_request demo_base HTTP_METHOD_GET (STR "/k") [] (this (ready bare_app))) (ready bare_app) n1 v n'.
Proof.
  intros p.
  assert (match getData demo_base (STR "/k") (ready bare_app) with
          | Ret (v, n') => match value_ v with PInt z => (z =? 42) && (length (replies (trace n')) =? 8)%nat | _ => false end
          | _ => false end = true) as Hv by (vm_compute; reflexivity).
  destruct (getData_spec demo_base (STR "/k") (ready bare_app)) as (r & n1 & Ht & _ & Hm).
  - apply number_server_bytes.
  - apply number_server_flat.
  - apply ready_ok.
  - destruct (getData demo_base (STR "/k") (ready bare_app)) as [[v n']| | |]; [|discriminate Hv..].
    destruct (value_ v) as [|z| | | | | |] eqn:Ev; try discriminate Hv.
    apply andb_true_iff in Hv as [Hz Hl]. apply Z.eqb_eq in Hz. apply Nat.eqb_eq in Hl. subst z.
    destruct Hm as (_ & _ & Hm). exists v, n', r, n1. split; [reflexivity|]. split; [exact Ev|].
    destruct (is_200 r) eqn:Er; [exfalso|by split]. destruct Hm as (_ & (_ & _ & Hrep) & _).
    inversion Ht as [|w0 r0 l0 m0 m1 m2 (rs & _ & Hrs & Hlen & _) Ht1]; subst.
    inversion Ht1 as [m0' m1' (_ & _ & Hs)|]; subst. rewrite Hrep, Hs, Hrs, app_nil_r in Hl. unfold MAX_ATTEMPTS in Hlen. lia.
Defined.

(** C27: after a [firebase_init] that could not log in, every later
    [firebase_init] reports success, while the database client does not exist
    and every write returns -1. *)
Theorem firebase_init_forgets_failure `{Platform} secrets s s' :
  g_rtdb s = None -> firebase_init secrets s = Ret (-2, s') ->
  firebase_init secrets s' = Ret (0, s') /\
  forall path json, firebase_putData path json s' = Ret (-1, s').
Proof.
  intros Hs Hi.
  assert (forall A (m : ST Net A) x t t', with_app m t = Ret (x, t') ->
            (exists a, g_app t' = Some a) /\ g_rtdb t' = g_rtdb t) as Hwith.
  { intros A m x t t' E. unfold with_app in E. destruct (g_app t); [|discriminate].
    apply bind_Ret_inv in E as ([y n] & _ & [= <- <-]). split; [by eexists|done]. }
  assert ((exists a, g_app s' = Some a) /\ g_rtdb s' = None) as [[a Ha] Hr].
  { unfold firebase_init in Hi. rewrite get_bind in Hi. destruct (negb _); [by injection Hi|].
    apply ST_bind_inv in Hi as ([] & s1 & E1 & Hi).
    assert (g_rtdb s1 = None) as Hr1.
    { unfold new_app in E1. apply bind_Ret_inv in E1 as (n & _ & [= <-]). exact Hs. }
    apply ST_bind_inv in Hi as ([] & s2 & E2 & Hi). apply Hwith in E2 as [_ Hr2].
    apply ST_bind_inv in Hi as (e & s3 & E3 & Hi). apply Hwith in E3 as [Ha3 Hr3].
    apply ST_bind_inv in Hi as (e' & s4 & E4 & Hi).
    assert ((exists a, g_app s4 = Some a) /\ g_rtdb s4 = g_rtdb s3) as [Ha4 Hr4].
    { destruct (negb (e =? ESP_OK)); [|injection E4 as _ <-; by split].
      apply ST_bind_inv in E4 as (r & s5 & E5 & E4). apply Hwith in E5 as [Ha5 Hr5].
      destruct (r =? ESP_OK); [apply Hwith in E4 as [? ->]; by split|].
      injection E4 as _ <-. by split. }
    destruct (negb (e' =? ESP_OK)); [|discriminate]. injection Hi as <-.
    split; [done|congruence]. }
  split; [|intros path json; unfold firebase_putData, with_rtdb; by rewrite get_bind, Hr].
  unfold firebase_init. by rewrite get_bind, Ha.
Qed.

Definition demo_secrets : Secrets :=
  {| API_KEY := STR "key"; DATABASE_URL := demo_base; USER_EMAIL := STR "me@x"; USER_PASSWORD := STR "pw" |}.

(** Every request is answered 500 on a connection that opens. *)
Definition failing_server : Platform := {|
  http_init := fun _ => true;
  http_set := fun _ => ESP_OK;
  http_perform := fun _ => ([HTTP_EVENT_ON_CONNECTED; HTTP_EVENT_ON_FINISH], ESP_OK);
  http_get_status_code := fun _ => 500;
  time := fun _ => 0;
  timer_get_time := fun _ => 0;
  new_char := fun _ _ => 0xA5;
  i2c_err := fun _ => ESP_OK;
  i2c_data := fun _ _ => 0;
  modem_at := fun _ => (ESP_OK, None);
  modem_command := fun _ => (ESP_OK, []);
  dns_info := fun _ => (0, 0);
  api := fun _ => ESP_OK
|}.

Lemma firebase_init_forgets_failure_witness :
  let p := failing_server in
  exists s', firebase_init demo_secrets (mkShim [] 0 None None) = Ret (-2, s') /\
             firebase_init demo_secrets s' = Ret (0, s') /\
             firebase_putData (STR "/k") (STR "{}") s' = Ret (-1, s').
Proof.
  intros p.
  assert (exists s', firebase_init demo_secrets (mkShim [] 0 None None) = Ret (-2, s')) as [s' E].
  { assert (is_ret (firebase_init demo_secrets (mkShim [] 0 None None)) = true) as Hr by (vm_compute; reflexivity).
    assert (match firebase_init demo_secrets (mkShim [] 0 None None) with Ret (e, _) => e = -2 | _ => True end)
      as He by (vm_compute; reflexivity).
    destruct (firebase_init demo_secrets _) as [[e s']| | |]; [|discriminate Hr..]. subst e. by exists s'. }
  exists s'. split; [exact E|].
  destruct (firebase_init_forgets_failure demo_secrets (mkShim [] 0 None None) s' eq_refl E) as [H1 H2].
  split; [exact H1|exact (H2 (STR "/k") (STR "{}"))].
Defined.
