(* ===== verification/Sensors.v ===== *)
(** * The sensors (main/sensors.h, main/sensors.c)

    The SCD4x and SEN5x drivers over the I2C master, the checksums, the
    combined reading, and the JSON text of a measurement. *)
From S2P Require Export Esp.
Open Scope Z_scope.

Definition SCD4X_ADDR : Z := 0x62.
Definition SEN5X_ADDR : Z := 0x69.

(** ** Checksum *)

Fixpoint crc8_bits (n : nat) (crc : Z) : Z :=
  match n with
  | O => crc
  | S n' => crc8_bits n' (if negb (Z.land crc 0x80 =? 0) then u8 (Z.lxor (Z.shiftl crc 1) 0x31)
                          else u8 (Z.shiftl crc 1))
  end.

Fixpoint crc8_loop (data : bytes) (crc : Z) : Z :=
  match data with
  | [] => crc
  | d :: data' => crc8_loop data' (crc8_bits 8 (Z.lxor crc d))
  end.

Definition sen5x_crc8 (data : bytes) : Z := crc8_loop data 0xFF.

(** ** Data *)

Record SensorData := mkData {
  co2 : Z;
  scd_temp : float32;
  scd_hum : float32;
  pm1p0 : float32;
  pm2p5 : float32;
  pm4p0 : float32;
  pm10p0 : float32;
  voc : float32;
  nox : float32;
  sen_temp : float32;
  sen_hum : float32;
  avg_temp : float32;
  avg_hum : float32
}.

(** The statics: whether the bus and device handles are set, the city text. *)
Record Sens := mkSens {
  sens_trace : list call;
  s_i2c_bus : bool;
  s_scd4x_dev : bool;
  s_sen5x_dev : bool;
  g_city_state : bytes
}.

Definition sens_init (h : list call) : Sens :=
  mkSens h false false false (STR "----" ++ zeros 60).

Section sensors.
Context `{Platform}.

Definition sens_call {A} (c : call) (answer : list call -> A) : ST Sens A := fun s =>
  Ret (answer (c :: sens_trace s),
       mkSens (c :: sens_trace s) (s_i2c_bus s) (s_scd4x_dev s) (s_sen5x_dev s) (g_city_state s)).

Definition sens_delay (ms : Z) : ST Sens unit := sens_call (TaskDelay ms) (fun _ => tt).

(** [i2c_master_transmit], [i2c_master_receive]. *)
Definition i2c_transmit (address : Z) (cmd : bytes) : ST Sens Z := sens_call (I2cTransmit address cmd) i2c_err.
Definition i2c_receive (address : Z) (len : nat) : ST Sens (Z * bytes) :=
  sens_call (I2cReceive address len) (fun h => (i2c_err h, map (fun i => u8 (i2c_data h i)) (seq 0 len))).

(** ** SCD4x *)

Definition scd4x_start_measurement : ST Sens Z := i2c_transmit SCD4X_ADDR [0x21; 0xB1].

(** [data[i] << 8 | data[i + 1]] as [uint16_t]. *)
Definition be16 (data : bytes) (i : nat) : Z :=
  u16 (Z.lor (Z.shiftl (nth i data 0) 8) (nth (S i) data 0)).

Definition scd4x_decode (data : bytes) : Z * float32 * float32 :=
  let raw_temp := be16 data 3 in
  let raw_hum := be16 data 6 in
  let ratio (raw : Z) := b32_div (b32_of_Z raw) (b32_of_Z 65535) in
  (be16 data 0,
   b32_add (b32_of_Z (-45)) (b32_mul (b32_of_Z 175) (ratio raw_temp)),
   b32_mul (b32_of_Z 100) (ratio raw_hum)).

Definition scd4x_read_measurement : ST Sens (Z + Z * float32 * float32) :=
  ret ← i2c_transmit SCD4X_ADDR [0xEC; 0x05];
  if negb (ret =? ESP_OK) then mret (inl ret)
  else
    _ ← sens_delay 1;
    '(ret, data) ← i2c_receive SCD4X_ADDR 9;
    if negb (ret =? ESP_OK) then mret (inl ret) else mret (inr (scd4x_decode data)).

(** ** SEN5x *)

Definition sen5x_device_reset : ST Sens Z := i2c_transmit SEN5X_ADDR [0xD3; 0x04].
Definition sen5x_start_measurement : ST Sens Z := i2c_transmit SEN5X_ADDR [0x00; 0x21].

Definition sen5x_read_data_ready : ST Sens (Z + Z) :=
  ret ← i2c_transmit SEN5X_ADDR [0x02; 0x02];
  if negb (ret =? ESP_OK) then mret (inl ret)
  else
    _ ← sens_delay 20;
    '(ret, resp) ← i2c_receive SEN5X_ADDR 3;
    if negb (ret =? ESP_OK) then mret (inl ret)
    else if negb (sen5x_crc8 (take 2 resp) =? nth 2 resp 0) then mret (inl ESP_ERR_INVALID_CRC)
    else mret (inr (nth 1 resp 0)).

Definition sen5x_read_measured_values : ST Sens (Z * bytes) :=
  ret ← i2c_transmit SEN5X_ADDR [0x03; 0xC4];
  if negb (ret =? ESP_OK) then mret (ret, [])
  else _ ← sens_delay 20; i2c_receive SEN5X_ADDR 24.

(** The loop over the words: [None] at the first bad checksum. *)
Fixpoint decode_words (n : nat) (buf : bytes) : option (list Z) :=
  match n with
  | O => Some []
  | S n' =>
      if negb (sen5x_crc8 (take 2 buf) =? nth 2 buf 0) then None
      else values ← decode_words n' (drop 3 buf); Some (be16 buf 0 :: values)
  end.

Record Measured := mkMeasured {
  m_pm1 : float32; m_pm25 : float32; m_pm4 : float32; m_pm10 : float32;
  m_rh : float32; m_temp : float32; m_voc : float32; m_nox : float32
}.

(** The outputs computed from the eight values. *)
Definition measured_of (values : list Z) : Measured :=
  let scaled (i : nat) (by_ : Z) := b32_div (b32_of_Z (nth i values 0)) (b32_of_Z by_) in
  mkMeasured (scaled 0%nat 10) (scaled 1%nat 10) (scaled 2%nat 10) (scaled 3%nat 10)
             (scaled 4%nat 100) (scaled 5%nat 200) (scaled 6%nat 10) (scaled 7%nat 10).

Definition sen5x_decode_measurement (buf : bytes) : option Measured :=
  values ← decode_words 8 buf; Some (measured_of values).

(** ** Start and reading *)

Definition set_bus (s : Sens) : Sens :=
  mkSens (sens_trace s) true (s_scd4x_dev s) (s_sen5x_dev s) (g_city_state s).
Definition set_scd4x (s : Sens) : Sens :=
  mkSens (sens_trace s) (s_i2c_bus s) true (s_sen5x_dev s) (g_city_state s).
Definition set_sen5x (s : Sens) : Sens :=
  mkSens (sens_trace s) (s_i2c_bus s) (s_scd4x_dev s) true (g_city_state s).

Definition sensors_init_all : ST Sens Z :=
  _ ← sens_delay 1500;
  bus ← get s_i2c_bus;
  if bus : bool then mret ESP_OK
  else
    _ ← sens_delay 1500;
    ret ← sens_call I2cNewBus i2c_err;
    if negb (ret =? ESP_OK) then mret ret
    else
      _ ← put set_bus;
      ret ← sens_call (I2cAddDevice SCD4X_ADDR) i2c_err;
      if negb (ret =? ESP_OK) then mret ret
      else
        _ ← put set_scd4x;
        ret ← sens_call (I2cAddDevice SEN5X_ADDR) i2c_err;
        if negb (ret =? ESP_OK) then mret ret
        else
          _ ← put set_sen5x;
          _ ← sens_delay 200;
          _ ← sen5x_device_reset;
          _ ← sens_delay 100;
          _ ← sen5x_start_measurement;
          _ ← sens_delay 50;
          _ ← scd4x_start_measurement;
          _ ← sens_delay 5000;
          mret ESP_OK.

(** The polling loop: [inl] an error to return, [inr] the last flag read. *)
Fixpoint poll_data_ready (timeout : nat) (data_ready : Z) : ST Sens (Z + Z) :=
  match timeout with
  | O => mret (inr data_ready)
  | S timeout' =>
      r ← sen5x_read_data_ready;
      match r with
      | inl ret => mret (inl ret)
      | inr ready => if ready =? 1 then mret (inr ready) else poll_data_ready timeout' ready
      end
  end.

(** The record a reading fills in. *)
Definition combine (scd : Z * float32 * float32) (m : Measured) : SensorData :=
  let '(co2, scd_temp, scd_hum) := scd in
  mkData co2 scd_temp scd_hum (m_pm1 m) (m_pm25 m) (m_pm4 m) (m_pm10 m) (m_voc m) (m_nox m)
    (m_temp m) (m_rh m)
    (b32_div (b32_add scd_temp (m_temp m)) (b32_of_Z 2)) (b32_div (b32_add scd_hum (m_rh m)) (b32_of_Z 2)).

(** [sensors_read(out)]: the code and what [*out] holds then; [None] for a null
    [out]. *)
Definition sensors_read (out : option SensorData) : ST Sens (Z * option SensorData) :=
  if match out with None => true | Some _ => false end then mret (ESP_ERR_INVALID_ARG, out)
  else
    scd ← scd4x_read_measurement;
    match scd with
    | inl ret => mret (ret, out)
    | inr scd =>
        r ← poll_data_ready 30 0;
        match r with
        | inl ret => mret (ret, out)
        | inr data_ready =>
            if negb (data_ready =? 1) then mret (ESP_ERR_TIMEOUT, out)
            else
              '(ret, buf) ← sen5x_read_measured_values;
              if negb (ret =? ESP_OK) then mret (ret, out)
              else
                match sen5x_decode_measurement buf with
                | None => mret (ESP_ERR_INVALID_CRC, out)
                | Some m => mret (ESP_OK, Some (combine scd m))
                end
        end
    end.

(** ** Text *)

Definition jfield (name : bytes) (v : bytes) : bytes := [dquote] ++ name ++ [dquote; CH ":"] ++ v.
Definition jtext (v : bytes) : bytes := [dquote] ++ v ++ [dquote].

(** [%.<p>f] of a [float], which is passed as a [double]. *)
Definition ffix (p : nat) (x : float32) : bytes := fmt_f p (b32_to_b64 x).

(** The members of the measurement itself. *)
Definition reading_fields (d : SensorData) : list bytes :=
  [jfield (STR "pm1p0") (ffix 2 (pm1p0 d)); jfield (STR "pm2p5") (ffix 2 (pm2p5 d));
   jfield (STR "pm4p0") (ffix 2 (pm4p0 d)); jfield (STR "pm10p0") (ffix 2 (pm10p0 d));
   jfield (STR "voc") (ffix 1 (voc d)); jfield (STR "nox") (ffix 1 (nox d));
   jfield (STR "cTe") (ffix 2 (avg_temp d)); jfield (STR "cHu") (ffix 2 (avg_hum d));
   jfield (STR "co2") (dec_digits (co2 d))].

Fixpoint comma_list (l : list bytes) : bytes :=
  match l with
  | [] => []
  | [x] => x
  | x :: l' => x ++ STR "," ++ comma_list l'
  end.

Definition jobject (fields : list bytes) : bytes := STR "{" ++ comma_list fields ++ STR "}".

(** The format of [sensors_format_json]. *)
Definition format_text (device_id : bytes) (d : SensorData) (time_str fecha_str inicio_str city : bytes) : bytes :=
  jobject (reading_fields d ++
           [jfield (STR "fecha") (jtext fecha_str); jfield (STR "inicio") (jtext inicio_str);
            jfield (STR "ciudad") (jtext city); jfield (STR "hora") (jtext time_str);
            jfield (STR "id") (jtext device_id)]).

(** [g_city_state] is read as a C string; [snprintf] has already put the
    terminator that the code puts again when the text was cut. *)
Definition sensors_format_json (device_id : bytes) (d : SensorData) (time_str fecha_str inicio_str : bytes)
    (buf : bytes) (buf_size : Z) : ST Sens bytes :=
  if buf_size =? 0 then mret buf
  else
    city ← get g_city_state;
    match cstr city with
    | None => run (Undef "g_city_state without terminator")
    | Some city =>
        let text := format_text device_id d time_str fecha_str inicio_str city in
        buf ← run (snprintf buf_size text buf);
        if buf_size <=? Z.of_nat (length text) then run (mem_write (buf_size - 1) [0] buf) else mret buf
    end.

Definition set_city (b : bytes) (s : Sens) : Sens :=
  mkSens (sens_trace s) (s_i2c_bus s) (s_scd4x_dev s) (s_sen5x_dev s) b.

Definition sensors_set_city_state (city_state : bytes) : ST Sens unit :=
  let len := Z.of_nat (length city_state) in
  let len := if 64 <=? len then 63 else len in
  b ← get g_city_state;
  b ← run (mem_write 0 (take (Z.to_nat len) city_state) b);
  b ← run (mem_write len [0] b);
  put (set_city b).
End sensors.
