(* ===== verification/SensorsFacts.v ===== *)
(** * The sensors: what the checksum catches, what a reading returns

    The CRC-8 of the SEN5x words detects every corruption of up to three bits;
    a reading ends after at most thirty polls and writes its result only when
    everything succeeded; the city text stays a terminated string. *)
From S2P Require Import Sensors.
Open Scope Z_scope.

(** ** The checksum *)

Definition all_bytes : list Z := map Z.of_nat (seq 0 256).

Lemma forall_byte (P : Z -> bool) : forallb P all_bytes = true -> forall x, byte_ok x -> P x = true.
Proof.
  intros HP x Hx. rewrite forallb_forall in HP. apply HP. unfold all_bytes.
  rewrite in_map_iff. exists (Z.to_nat x). unfold byte_ok in Hx. split; [lia|]. apply in_seq. lia.
Qed.

Lemma lxor_byte x y : byte_ok x -> byte_ok y -> byte_ok (Z.lxor x y).
Proof.
  unfold byte_ok. intros Hx Hy. assert (0 <= Z.lxor x y) as Hn by (apply Z.lxor_nonneg; lia).
  split; [done|]. destruct (Z.eq_dec (Z.lxor x y) 0) as [->|Hz]; [lia|].
  change 256 with (2 ^ 8). apply Z.log2_lt_pow2; [lia|]. eapply Z.le_lt_trans; [apply Z.log2_lxor; lia|].
  assert (forall z, 0 <= z < 256 -> Z.log2 z < 8) as Hlog.
  { intros z Hz'. destruct (Z.eq_dec z 0) as [->|]; [done|]. apply Z.log2_lt_pow2; lia. }
  pose proof (Hlog x Hx). pose proof (Hlog y Hy). lia.
Qed.

(** Eight rounds: a linear map of bytes. *)
Definition crc_round (x : Z) : Z := crc8_bits 8 x.

(** The same map as a sum over the bits. *)
Definition crc_bits_sum (x : Z) : Z :=
  foldr Z.lxor 0 (map (fun i => if Z.testbit x i then crc_round (2 ^ i) else 0) [0; 1; 2; 3; 4; 5; 6; 7]).

Lemma crc_bits_sum_linear x y :
  crc_bits_sum (Z.lxor x y) = Z.lxor (crc_bits_sum x) (crc_bits_sum y).
Proof.
  unfold crc_bits_sum. generalize [0; 1; 2; 3; 4; 5; 6; 7]. induction l as [|i l IH]; [done|].
  cbn [map foldr]. rewrite IH, Z.lxor_spec.
  set (u := foldr _ _ _). set (v := foldr Z.lxor 0 (map _ l)). set (t := crc_round _).
  apply Z.bits_inj'. intros j _.
  destruct (Z.testbit x i), (Z.testbit y i); cbn [xorb]; rewrite !Z.lxor_spec, ?Z.bits_0;
    by destruct (Z.testbit t j), (Z.testbit u j), (Z.testbit v j).
Qed.

Lemma crc_round_sum x : byte_ok x -> crc_round x = crc_bits_sum x.
Proof.
  intros Hx.
  assert (forallb (fun x => crc_round x =? crc_bits_sum x) all_bytes = true) as Hall by (vm_compute; reflexivity).
  by apply Z.eqb_eq, (forall_byte _ Hall).
Qed.

Lemma crc_round_linear x y :
  byte_ok x -> byte_ok y -> crc_round (Z.lxor x y) = Z.lxor (crc_round x) (crc_round y).
Proof.
  intros Hx Hy. rewrite !crc_round_sum by (by try apply lxor_byte). apply crc_bits_sum_linear.
Qed.

Lemma crc_round_byte x : byte_ok x -> byte_ok (crc_round x).
Proof.
  intros Hx.
  assert (forallb (fun x => (0 <=? crc_round x) && (crc_round x <? 256)) all_bytes = true) as Hall
    by (vm_compute; reflexivity).
  pose proof (forall_byte _ Hall x Hx) as He. cbv beta in He. bool_to_prop. unfold byte_ok. lia.
Qed.

Lemma crc8_two a b : sen5x_crc8 [a; b] = crc_round (Z.lxor (crc_round (Z.lxor 0xFF a)) b).
Proof. unfold sen5x_crc8, crc_round. cbn [crc8_loop]. reflexivity. Qed.

(** The number of bits two bytes differ in. *)
Definition popcount (x : Z) : Z := foldr Z.add 0 (map (fun i => Z.b2z (Z.testbit x i)) [0; 1; 2; 3; 4; 5; 6; 7]).
Definition bit_errors (x y : Z) : Z := popcount (Z.lxor x y).

Lemma lxor_cancel k x y : Z.lxor (Z.lxor k x) (Z.lxor k y) = Z.lxor x y.
Proof. rewrite (Z.lxor_comm k x), Z.lxor_assoc, <- (Z.lxor_assoc k k y), Z.lxor_nilpotent, Z.lxor_0_l. done. Qed.

(** The checksum of the difference is the difference of the checksums. *)
Lemma crc8_difference a b a' b' :
  byte_ok a -> byte_ok b -> byte_ok a' -> byte_ok b' ->
  Z.lxor (sen5x_crc8 [a; b]) (sen5x_crc8 [a'; b']) =
  crc_round (Z.lxor (crc_round (Z.lxor a a')) (Z.lxor b b')).
Proof.
  intros Ha Hb Ha' Hb'. assert (byte_ok 0xFF) as Hff by (unfold byte_ok; lia).
  rewrite !crc8_two, <- crc_round_linear by
    (apply lxor_byte; [apply crc_round_byte, lxor_byte; done|done]).
  f_equal. set (x := crc_round (Z.lxor 255 a)). set (y := crc_round (Z.lxor 255 a')).
  assert (Z.lxor x y = crc_round (Z.lxor a a')) as <-.
  { unfold x, y. rewrite <- crc_round_linear, lxor_cancel by (by apply lxor_byte). done. }
  apply Z.bits_inj'. intros i Hi. rewrite !Z.lxor_spec.
  by destruct (Z.testbit x i), (Z.testbit y i), (Z.testbit b i), (Z.testbit b' i).
Qed.

Lemma popcount_nonneg x : 0 <= popcount x.
Proof.
  unfold popcount. generalize [0; 1; 2; 3; 4; 5; 6; 7]. induction l as [|i l IH]; [done|]. cbn [map foldr].
  destruct (Z.testbit x i); simpl; lia.
Qed.

(** Bytes with at most three bits set, and how many. *)
Definition light_bytes : list (Z * Z) :=
  filter (fun p => p.2 <= 3) (map (fun x => (x, popcount x)) all_bytes).

Lemma light_byte x : byte_ok x -> popcount x <= 3 -> (x, popcount x) ∈ light_bytes.
Proof.
  intros Hx Hp. apply list_elem_of_filter. split; [done|]. apply list_elem_of_fmap. exists x. split; [done|].
  apply list_elem_of_In. unfold all_bytes. apply in_map_iff. exists (Z.to_nat x). unfold byte_ok in Hx.
  split; [lia|]. apply in_seq. lia.
Qed.

(** An error of three bits or fewer changes the checksum by more than it can
    itself have changed it. *)
Lemma crc8_weight x y :
  byte_ok x -> byte_ok y -> x = 0 /\ y = 0 \/
  4 <= popcount x + popcount y + popcount (crc_round (Z.lxor (crc_round x) y)).
Proof.
  intros Hx Hy. pose proof (popcount_nonneg x). pose proof (popcount_nonneg y).
  pose proof (popcount_nonneg (crc_round (Z.lxor (crc_round x) y))).
  destruct (Z.le_gt_cases 4 (popcount x + popcount y)) as [|Hlt]; [right; lia|].
  assert (forallb (fun p => forallb (fun q =>
    if 4 <=? p.2 + q.2 then true
    else if (p.1 =? 0) && (q.1 =? 0) then true
    else 4 <=? p.2 + q.2 + popcount (crc_round (Z.lxor (crc_round p.1) q.1))) light_bytes) light_bytes = true)
    as Hall by (vm_compute; reflexivity).
  rewrite forallb_forall in Hall.
  pose proof (Hall _ (proj1 (list_elem_of_In _ _) (light_byte x Hx ltac:(lia)))) as Hall2.
  rewrite forallb_forall in Hall2.
  pose proof (Hall2 _ (proj1 (list_elem_of_In _ _) (light_byte y Hy ltac:(lia)))) as He. cbn [fst snd] in He.
  rewrite (proj2 (Z.leb_gt 4 _)) in He by lia.
  destruct ((x =? 0) && (y =? 0)) eqn:E; bool_to_prop; [left; lia|right; lia].
Qed.

#[local] Opaque crc8_bits.

(** ** Words *)

(** Three-byte words with right checksums, and the values they hold. *)
Fixpoint words (values : list Z) : bytes :=
  match values with
  | [] => []
  | v :: vs => let hi := v / 256 in let lo := v mod 256 in [hi; lo; sen5x_crc8 [hi; lo]] ++ words vs
  end.

Lemma be16_bytes a b buf : byte_ok a -> byte_ok b -> be16 (a :: b :: buf) 0 = a * 256 + b.
Proof.
  unfold byte_ok. intros Ha Hb. unfold be16, u16. cbn [nth]. rewrite (lor_shiftl 8) by lia.
  apply Z.mod_small. lia.
Qed.

Lemma decode_words_spec n buf :
  Forall byte_ok buf -> length buf = (3 * n)%nat ->
  (forall vs, decode_words n buf = Some vs ->
     length vs = n /\ Forall (in_u 16) vs /\ buf = words vs) /\
  (decode_words n buf = None -> forall vs, Forall (in_u 16) vs -> buf <> words vs).
Proof.
  revert buf. induction n as [|n IH]; intros buf Hb Hl.
  { destruct buf; [|discriminate]. split; [|discriminate]. by intros vs [= <-]. }
  destruct buf as [|a [|b [|c buf]]]; try (simpl in Hl; lia).
  apply Forall_cons in Hb as [Ha Hb]. apply Forall_cons in Hb as [Hb Hb']. apply Forall_cons in Hb' as [Hc Hbuf].
  destruct (IH buf Hbuf) as [IH1 IH2]; [simpl in Hl; lia|]. cbn [decode_words].
  change (drop 3 (a :: b :: c :: buf)) with buf. change (take 2 (a :: b :: c :: buf)) with [a; b]. cbn [nth].
  assert (forall hi lo, byte_ok hi -> byte_ok lo -> (hi * 256 + lo) / 256 = hi /\ (hi * 256 + lo) mod 256 = lo) as Hsplit.
  { unfold byte_ok. intros hi lo Hh Hl'. split; [|rewrite (Z.add_comm (hi * 256)), Z.mod_add, Z.mod_small by lia; done].
    rewrite Z.div_add_l, Z.div_small by lia. lia. }
  destruct (Z.eqb_spec (sen5x_crc8 [a; b]) c) as [Ec|Ec]; cbn [negb].
  - rewrite be16_bytes by done. destruct (decode_words n buf) as [vs'|] eqn:Ed; simpl.
    + split; [|intros [=]]. intros vs [= <-]. destruct (IH1 vs' eq_refl) as (Hlen & Hvs & Hbuf').
      split_and!; [simpl; lia|constructor; [|done]|].
      * unfold in_u, byte_ok in *. lia.
      * cbn [words]. destruct (Hsplit a b Ha Hb) as [-> ->]. rewrite Ec, <- Hbuf'. done.
    + split; [intros vs [=]|]. intros _ vs Hvs E. destruct vs as [|v vs]; [discriminate|].
      cbn [words] in E. injection E as _ _ _ E. apply Forall_cons in Hvs as [_ Hvs]. by apply (IH2 eq_refl vs Hvs).
  - split; [intros vs [=]|]. intros _ vs Hvs E. destruct vs as [|v vs]; [discriminate|].
    cbn [words] in E. injection E as Ea Eb Ec' _. subst a b. by rewrite Ec' in Ec.
Qed.

(** ** Readings *)

Section reading.
Context `{Platform}.

(** How often the SEN5x was asked for its data-ready flag. *)
Definition is_poll (c : call) : bool :=
  match c with I2cTransmit a [0x02; 0x02] => a =? SEN5X_ADDR | _ => false end.
Definition polls (h : list call) : nat := length (filter (fun c => is_poll c = true) h).

(** The calls the drivers make: the bus and the scheduler, never the network. *)
Definition is_bus (c : call) : bool :=
  match c with
  | TaskDelay _ | I2cNewBus | I2cAddDevice _ | I2cTransmit _ _ | I2cReceive _ _ => true
  | _ => false
  end.

(** What a step of the drivers adds to the trace and keeps, and how many polls it
    makes. *)
Definition extends (k : nat) (s s' : Sens) : Prop :=
  (exists h, sens_trace s' = h ++ sens_trace s /\ Forall (fun c => is_bus c = true) h) /\
  (polls (sens_trace s') <= k + polls (sens_trace s))%nat /\ g_city_state s' = g_city_state s /\
  s_i2c_bus s' = s_i2c_bus s /\ s_scd4x_dev s' = s_scd4x_dev s /\ s_sen5x_dev s' = s_sen5x_dev s.

Lemma extends_trans j k s1 s2 s3 : extends j s1 s2 -> extends k s2 s3 -> extends (j + k) s1 s3.
Proof.
  unfold extends. intros ((h1 & E1 & Hh1) & ? & -> & -> & -> & ->) ((h2 & E2 & Hh2) & ? & -> & -> & -> & ->).
  split; [|split; [lia|done]]. exists (h2 ++ h1). rewrite E2, E1, app_assoc. split; [done|by apply Forall_app].
Qed.

Lemma extends_mono j k s s' : extends j s s' -> (j <= k)%nat -> extends k s s'.
Proof. unfold extends. intros (? & ? & ?) ?. split; [done|]. split; [lia|done]. Qed.

Lemma extends_refl s : extends 0 s s.
Proof. split; [by exists []|by repeat split]. Qed.

(** [m] always returns, after at most [k] polls; [Q] tells of the result and the
    trace. *)
Definition wps {A} (k : nat) (m : ST Sens A) (s : Sens) (Q : A -> list call -> Prop) : Prop :=
  exists a s', m s = Ret (a, s') /\ extends k s s' /\ Q a (sens_trace s').

Lemma wps_ret {A} (a : A) s (Q : A -> list call -> Prop) : Q a (sens_trace s) -> wps 0 (mret a) s Q.
Proof. intros HQ. exists a, s. split_and!; [done|apply extends_refl|done]. Qed.

Lemma wps_bind {A B} j k (m : ST Sens A) (f : A -> ST Sens B) s Q :
  wps j m s (fun a h => forall s', sens_trace s' = h -> wps k (f a) s' Q) -> wps (j + k) (m ≫= f) s Q.
Proof.
  intros (a & s1 & E & H1 & Hf). destruct (Hf s1 eq_refl) as (b & s2 & E2 & H2 & HQ).
  exists b, s2. rewrite (ST_bind_Ret _ _ _ _ _ E). split_and!; [done|by eapply extends_trans|done].
Qed.

Lemma wps_mono {A} j k (m : ST Sens A) s (P Q : A -> list call -> Prop) :
  wps j m s P -> (j <= k)%nat -> (forall a h, P a h -> Q a h) -> wps k m s Q.
Proof. intros (a & s' & E & H1 & HP) Hk HQ. exists a, s'. split_and!; [done|by eapply extends_mono|auto]. Qed.

Lemma wps_ext {A} (m m' : ST Sens A) k s Q : m' s = m s -> wps k m s Q -> wps k m' s Q.
Proof. unfold wps. by intros ->. Qed.

Lemma wps_call {A} c (g : list call -> A) s (Q : A -> list call -> Prop) :
  is_bus c = true -> Q (g (c :: sens_trace s)) (c :: sens_trace s) ->
  wps (if is_poll c then 1 else 0) (sens_call c g) s Q.
Proof.
  intros Hc HQ. eexists _, _. split; [reflexivity|]. split; [|apply HQ].
  split; [exists [c]; split; [done|by constructor]|]. repeat split. cbn [sens_trace].
  unfold polls. rewrite filter_cons. destruct (is_poll c); simpl; lia.
Qed.

(** The [n] bytes that the transfer at the head of [h] received. *)
Definition received (n : nat) (h : list call) : bytes := map (fun i => u8 (i2c_data h i)) (seq 0 n).

(** A command, a wait and the answer: from the trace [h], with the error code of
    the transfer that failed, or the bytes received. *)
Inductive fetched (address : Z) (cmd : bytes) (ms : Z) (n : nat) (h : list call) : list call -> Z + bytes -> Prop :=
  | fetched_not_sent :
      let h1 := I2cTransmit address cmd :: h in
      i2c_err h1 <> ESP_OK -> fetched address cmd ms n h h1 (inl (i2c_err h1))
  | fetched_not_received :
      let h1 := I2cTransmit address cmd :: h in
      let h3 := I2cReceive address n :: TaskDelay ms :: h1 in
      i2c_err h1 = ESP_OK -> i2c_err h3 <> ESP_OK -> fetched address cmd ms n h h3 (inl (i2c_err h3))
  | fetched_received :
      let h1 := I2cTransmit address cmd :: h in
      let h3 := I2cReceive address n :: TaskDelay ms :: h1 in
      i2c_err h1 = ESP_OK -> i2c_err h3 = ESP_OK -> fetched address cmd ms n h h3 (inr (received n h3)).

Lemma fetched_bytes address cmd ms n h h' data :
  fetched address cmd ms n h h' (inr data) -> length data = n /\ Forall byte_ok data.
Proof.
  inversion 1; subst. split; [unfold received; by rewrite length_map, length_seq|].
  apply Forall_map, Forall_forall. intros i _. unfold byte_ok, u8. by apply Z.mod_pos_bound.
Qed.

Lemma fetched_bus address cmd ms n h h' r :
  fetched address cmd ms n h h' r -> exists k, h' = k ++ h /\ Forall (fun c => is_bus c = true) k.
Proof.
  destruct 1; [exists [I2cTransmit address cmd]|
               exists [I2cReceive address n; TaskDelay ms; I2cTransmit address cmd]..]; (split; [done|by repeat constructor]).
Qed.

(** The drivers' way to fetch bytes, [bad] being what they make of a transmission
    that failed and [k] what they do with the answer. *)
Lemma fetch_wp {A} address cmd ms n (bad : Z -> A) (f : Z * bytes -> ST Sens A) s j Q :
  (forall e h, fetched address cmd ms n (sens_trace s) h (inl e) -> e <> ESP_OK -> Q (bad e) h) ->
  (forall e data s', fetched address cmd ms n (sens_trace s) (sens_trace s') (if e =? ESP_OK then inr data else inl e) ->
     wps j (f (e, data)) s' Q) ->
  wps ((if is_poll (I2cTransmit address cmd) then 1 else 0) + j)
    (ret ← i2c_transmit address cmd;
     if negb (ret =? ESP_OK) then mret (bad ret) else _ ← sens_delay ms; r ← i2c_receive address n; f r) s Q.
Proof.
  intros Hbad Hf. apply wps_bind, (wps_call (I2cTransmit address cmd)); [done|]. intros s1 E1.
  set (h1 := _ :: _) in *. destruct (Z.eqb_spec (i2c_err h1) ESP_OK) as [E|E]; cbn [negb].
  - apply (wps_bind 0 j), (wps_call (TaskDelay ms)); [done|]. intros s2 E2.
    apply (wps_bind 0 j), (wps_call (I2cReceive address n)); [done|]. intros s3 E3. rewrite E2, E1 in *.
    set (h3 := I2cReceive address n :: _) in *. apply Hf. rewrite E3.
    destruct (Z.eqb_spec (i2c_err h3) ESP_OK); [by apply fetched_received|by apply fetched_not_received].
  - eapply wps_mono; [apply (wps_ret _ _ Q)|lia|done]. rewrite E1. apply Hbad; [by apply fetched_not_sent|done].
Qed.

Lemma scd4x_read_ok s : wps 0 scd4x_read_measurement s (fun r h =>
  match r with
  | inl e => e <> ESP_OK /\ fetched SCD4X_ADDR [0xEC; 0x05] 1 9 (sens_trace s) h (inl e)
  | inr m => exists data, fetched SCD4X_ADDR [0xEC; 0x05] 1 9 (sens_trace s) h (inr data) /\ m = scd4x_decode data
  end).
Proof.
  apply (fetch_wp SCD4X_ADDR [0xEC; 0x05] 1 9 inl _ s 0); [done|]. intros e data s' Hf.
  destruct (Z.eqb_spec e ESP_OK) as [E|E]; cbn [negb]; apply wps_ret; [by exists data|done].
Qed.

Lemma measured_values_ok s : wps 0 sen5x_read_measured_values s (fun r h =>
  fetched SEN5X_ADDR [0x03; 0xC4] 20 24 (sens_trace s) h (if r.1 =? ESP_OK then inr r.2 else inl r.1)).
Proof.
  apply (wps_ext (ret ← i2c_transmit SEN5X_ADDR [0x03; 0xC4];
    if negb (ret =? ESP_OK) then mret (ret, []) else _ ← sens_delay 20; r ← i2c_receive SEN5X_ADDR 24; mret r)).
  { unfold sen5x_read_measured_values. rewrite !(ST_bind_Ret (i2c_transmit _ _) _ s _ _ eq_refl). by destruct (negb _). }
  apply (fetch_wp SEN5X_ADDR [0x03; 0xC4] 20 24 (fun ret => (ret, [])) mret s 0).
  - intros e h Hf He. cbn [fst snd]. by rewrite (proj2 (Z.eqb_neq e ESP_OK)).
  - intros e data s' Hf. by apply wps_ret.
Qed.

(** ** Polling *)

(** The polls of the data-ready flag, at most [n] of them, from the trace [h]:
    no error when a word with a right checksum and the flag came, else the code. *)
Inductive polled : nat -> list call -> list call -> option Z -> Prop :=
  | polled_timeout h : polled 0 h h (Some ESP_ERR_TIMEOUT)
  | polled_failed n h h' e :
      fetched SEN5X_ADDR [0x02; 0x02] 20 3 h h' (inl e) -> polled (S n) h h' (Some e)
  | polled_checksum n h h' resp :
      fetched SEN5X_ADDR [0x02; 0x02] 20 3 h h' (inr resp) -> (forall v, in_u 16 v -> resp <> words [v]) ->
      polled (S n) h h' (Some ESP_ERR_INVALID_CRC)
  | polled_ready n h h' v :
      fetched SEN5X_ADDR [0x02; 0x02] 20 3 h h' (inr (words [v])) -> in_u 16 v -> v mod 256 = 1 ->
      polled (S n) h h' None
  | polled_again n h h1 h' v r :
      fetched SEN5X_ADDR [0x02; 0x02] 20 3 h h1 (inr (words [v])) -> in_u 16 v -> v mod 256 <> 1 ->
      polled n h1 h' r -> polled (S n) h h' r.

(** A word and its checksum. *)
Lemma one_word a b c :
  Forall byte_ok [a; b; c] ->
  if sen5x_crc8 [a; b] =? c then exists v, in_u 16 v /\ [a; b; c] = words [v] /\ v mod 256 = b
  else forall v, in_u 16 v -> [a; b; c] <> words [v].
Proof.
  intros Hb. destruct (decode_words_spec 1 [a; b; c] Hb eq_refl) as [Hs Hn]. cbn [decode_words] in Hs, Hn.
  change (take 2 [a; b; c]) with [a; b] in *. change (nth 2 [a; b; c] 0) with c in *.
  apply Forall_cons in Hb as [Ha Hb]. apply Forall_cons in Hb as [Hb _].
  destruct (Z.eqb_spec (sen5x_crc8 [a; b]) c) as [E|E]; cbn [negb] in *.
  - destruct (Hs _ eq_refl) as (_ & Hv & Hw). apply Forall_cons in Hv as [Hv _].
    exists (be16 [a; b; c] 0). split_and!; [done|done|]. rewrite be16_bytes by done. unfold byte_ok in *.
    rewrite Z.add_comm, Z.mod_add, Z.mod_small by lia. done.
  - intros v Hv. apply (Hn eq_refl [v]). by apply Forall_singleton.
Qed.

Lemma data_ready_ok s : wps 1 sen5x_read_data_ready s (fun r h =>
  match r with
  | inl e => e <> ESP_OK /\ forall n, polled (S n) (sens_trace s) h (Some e)
  | inr ready => exists v, fetched SEN5X_ADDR [0x02; 0x02] 20 3 (sens_trace s) h (inr (words [v])) /\ in_u 16 v /\
                           v mod 256 = ready
  end).
Proof.
  apply (fetch_wp SEN5X_ADDR [0x02; 0x02] 20 3 inl _ s 0).
  - intros e h Hf He. split; [done|]. intros n. by apply polled_failed.
  - intros e data s' Hf. destruct (Z.eqb_spec e ESP_OK) as [E|E]; cbn [negb]; [|apply wps_ret].
    2: { split; [done|]. intros n. by apply polled_failed. }
    destruct (fetched_bytes _ _ _ _ _ _ _ Hf) as [Hl Hb]. destruct data as [|a [|b [|c [|? ?]]]]; try discriminate Hl.
    pose proof (one_word a b c Hb) as Hw. change (take 2 [a; b; c]) with [a; b].
    change (nth 2 [a; b; c] 0) with c. change (nth 1 [a; b; c] 0) with b.
    destruct (_ =? c); cbn [negb]; apply wps_ret.
    + destruct Hw as (v & Hv & Ew & Hm). exists v. by rewrite <- Ew.
    + split; [done|]. intros n. by eapply polled_checksum.
Qed.

Lemma poll_ok n r s : r <> 1 -> wps n (poll_data_ready n r) s (fun x h =>
  match x with
  | inl e => e <> ESP_OK /\ polled n (sens_trace s) h (Some e)
  | inr ready => polled n (sens_trace s) h (if ready =? 1 then None else Some ESP_ERR_TIMEOUT)
  end).
Proof.
  revert r s. induction n as [|n IH]; intros r s Hr.
  { apply wps_ret. rewrite (proj2 (Z.eqb_neq r 1)) by done. constructor. }
  cbn [poll_data_ready]. apply (wps_bind 1 n). eapply wps_mono; [apply data_ready_ok|lia|].
  intros [e|ready] h Hx s1 Es.
  - eapply wps_mono; [by apply (wps_ret _ _ (fun x h => x = inl e /\ h = sens_trace s1))|lia|].
    intros x h' [-> ->]. rewrite Es. destruct Hx as [He Hp]. by split.
  - destruct Hx as (v & Hf & Hv & Hm). destruct (Z.eqb_spec ready 1) as [->|Hn].
    + eapply wps_mono; [by apply (wps_ret _ _ (fun x h => x = inr 1 /\ h = sens_trace s1))|lia|].
      intros x h' [-> ->]. rewrite Es. by eapply polled_ready.
    + eapply wps_mono; [by apply (IH ready s1)|lia|]. intros [e|ready'] h'; rewrite Es.
      * intros [He Hp]. split; [done|]. eapply polled_again; [done|done|congruence|done].
      * intros Hp. eapply polled_again; [done|done|congruence|done].
Qed.

(** ** A reading *)

(** What a reading makes of the bus, from the trace [h] to [h']: an error code,
    or the record computed from the nine bytes received from the SCD4x and the
    eight words, each with a right checksum, received from the SEN5x. *)
Inductive reading (h : list call) : list call -> Z + SensorData -> Prop :=
  | reading_no_co2 h' e :
      fetched SCD4X_ADDR [0xEC; 0x05] 1 9 h h' (inl e) -> reading h h' (inl e)
  | reading_not_ready h1 h' data e :
      fetched SCD4X_ADDR [0xEC; 0x05] 1 9 h h1 (inr data) -> polled 30 h1 h' (Some e) -> reading h h' (inl e)
  | reading_no_values h1 h2 h' data e :
      fetched SCD4X_ADDR [0xEC; 0x05] 1 9 h h1 (inr data) -> polled 30 h1 h2 None ->
      fetched SEN5X_ADDR [0x03; 0xC4] 20 24 h2 h' (inl e) -> reading h h' (inl e)
  | reading_checksum h1 h2 h' data buf :
      fetched SCD4X_ADDR [0xEC; 0x05] 1 9 h h1 (inr data) -> polled 30 h1 h2 None ->
      fetched SEN5X_ADDR [0x03; 0xC4] 20 24 h2 h' (inr buf) ->
      (forall values, Forall (in_u 16) values -> buf <> words values) -> reading h h' (inl ESP_ERR_INVALID_CRC)
  | reading_done h1 h2 h' data values :
      fetched SCD4X_ADDR [0xEC; 0x05] 1 9 h h1 (inr data) -> polled 30 h1 h2 None ->
      fetched SEN5X_ADDR [0x03; 0xC4] 20 24 h2 h' (inr (words values)) ->
      length values = 8%nat -> Forall (in_u 16) values ->
      reading h h' (inr (combine (scd4x_decode data) (measured_of values))).

(** The bytes behind a reading. *)
Lemma reading_bytes h h' d :
  reading h h' (inr d) -> exists data values, length data = 9%nat /\ Forall byte_ok data /\
    length values = 8%nat /\ Forall (in_u 16) values /\ d = combine (scd4x_decode data) (measured_of values).
Proof.
  inversion 1 as [| | | |h1 h2 h0 data values Hd _ _ Hl Hv]; subst.
  destruct (fetched_bytes _ _ _ _ _ _ _ Hd). by exists data, values.
Qed.

(** What [sensors_read] returns and stores, by the reading. *)
Definition stored (out : SensorData) (x : Z + SensorData) (r : Z * option SensorData) : Prop :=
  match x with
  | inl e => e <> ESP_OK /\ r = (e, Some out)
  | inr d => r = (ESP_OK, Some d)
  end.

Lemma sensors_read_wps out s : wps 30 (sensors_read (Some out)) s (fun r h =>
  exists x, reading (sens_trace s) h x /\ stored out x r).
Proof.
  unfold sensors_read. apply (wps_bind 0 30). eapply wps_mono; [apply scd4x_read_ok|lia|].
  intros [e|m] h Hm s1 E1.
  { eapply wps_mono; [by apply (wps_ret _ _ (fun r h => r = (e, Some out) /\ h = sens_trace s1))|lia|].
    intros r h' [-> ->]. destruct Hm as [He Hm]. exists (inl e). rewrite E1. by split; [apply reading_no_co2|]. }
  destruct Hm as (data & Hd & ->). apply (wps_bind 30 0). eapply wps_mono; [by apply (poll_ok 30 0 s1)|lia|].
  intros [e|ready] h2 Hr s2 E2; rewrite E1 in Hr.
  { apply wps_ret. destruct Hr as [He Hp]. exists (inl e). rewrite E2. by split; [eapply reading_not_ready|]. }
  destruct (ready =? 1); cbn [negb].
  2: { apply wps_ret. exists (inl ESP_ERR_TIMEOUT). rewrite E2. by split; [eapply reading_not_ready|]. }
  apply (wps_bind 0 0). eapply wps_mono; [apply measured_values_ok|lia|]. intros [e buf] h3 Hf s3 E3.
  cbn [fst snd] in Hf. rewrite E2 in Hf. destruct (Z.eqb_spec e ESP_OK) as [E|E]; cbn [negb].
  2: { apply wps_ret. exists (inl e). rewrite E3. by split; [eapply reading_no_values|]. }
  destruct (fetched_bytes _ _ _ _ _ _ _ Hf) as [Hl Hb]. destruct (decode_words_spec 8 buf Hb Hl) as [Hs Hn].
  unfold sen5x_decode_measurement.
  destruct (decode_words 8 buf) as [values|]; simpl; apply wps_ret; rewrite E3.
  - destruct (Hs values eq_refl) as (Hv & Hu & ->). exists (inr (combine (scd4x_decode data) (measured_of values))).
    split; [by eapply reading_done|done].
  - exists (inl ESP_ERR_INVALID_CRC). split; [eapply reading_checksum; [done|done|done|by apply Hn]|done].
Qed.
End reading.

(** ** Text *)

Lemma no_nul_comma_list l : Forall no_nul l -> no_nul (comma_list l).
Proof.
  induction 1 as [|x l Hx _ IH]; [constructor|]. destruct l as [|y l]; [done|].
  cbn [comma_list]. apply no_nul_app; [done|]. apply no_nul_app; [nul_tac|done].
Qed.

Lemma no_nul_jfield name v : no_nul name -> no_nul v -> no_nul (jfield name v).
Proof. intros. unfold jfield. repeat apply no_nul_app; try done; nul_tac. Qed.

Lemma no_nul_jtext v : no_nul v -> no_nul (jtext v).
Proof. intros. unfold jtext. repeat apply no_nul_app; try done; nul_tac. Qed.

#[local] Hint Resolve no_nul_jfield no_nul_jtext no_nul_fmt_f no_nul_dec_digits : esp.

Lemma no_nul_reading_fields d : Forall no_nul (reading_fields d).
Proof.
  unfold reading_fields, ffix.
  repeat (apply Forall_cons_2; [apply no_nul_jfield; [nul_tac|auto with esp]|]). by apply Forall_nil_2.
Qed.

Lemma no_nul_format_text device_id d time_str fecha_str inicio_str city :
  no_nul device_id -> no_nul time_str -> no_nul fecha_str -> no_nul inicio_str -> no_nul city ->
  no_nul (format_text device_id d time_str fecha_str inicio_str city).
Proof.
  intros. unfold format_text, jobject. apply no_nul_app; [nul_tac|].
  apply no_nul_app; [|nul_tac]. apply no_nul_comma_list, Forall_app.
  split; [apply no_nul_reading_fields|].
  repeat (apply Forall_cons_2; [apply no_nul_jfield; [nul_tac|auto with esp]|]). by apply Forall_nil_2.
Qed.

Section text.
Context `{Platform}.

(** The two writes of [sensors_set_city_state]. *)
Lemma set_city_ok city s :
  length (g_city_state s) = 64%nat -> no_nul city ->
  exists b, sensors_set_city_state city s = Ret (tt, set_city b s) /\ length b = 64%nat /\
            cstr b = Some (take 63 city).
Proof.
  intros Hl Hc%no_nul_elem. unfold sensors_set_city_state.
  assert ((if 64 <=? Z.of_nat (length city) then 63 else Z.of_nat (length city)) =
          Z.of_nat (length (take 63 city))) as ->.
  { rewrite length_take. destruct (Z.leb_spec 64 (Z.of_nat (length city))); lia. }
  rewrite Nat2Z.id. rewrite get_bind.
  assert (take (length (take 63 city)) city = take 63 city) as ->.
  { rewrite length_take. destruct (Nat.le_gt_cases (length city) 63).
    - rewrite !take_ge by lia. done.
    - f_equal. lia. }
  assert (length (take 63 city) <= 63)%nat as H63 by (rewrite length_take; lia).
  set (t := take 63 city) in *.
  destruct (mem_write_ok 0 t (g_city_state s)) as (b1 & E1 & L1 & B1); [lia..|].
  rewrite (ST_bind_Ret (run _) _ s b1 s) by (unfold run; by rewrite E1).
  destruct (mem_write_ok (Z.of_nat (length t)) [0] b1) as (b2 & E2 & L2 & B2); [lia|simpl; lia|].
  rewrite (ST_bind_Ret (run _) _ s b2 s) by (unfold run; by rewrite E2).
  exists b2. split; [reflexivity|]. split; [lia|].
  rewrite B2, Nat2Z.id, B1. change (Z.to_nat 0) with 0%nat. simpl take at 2. simpl app at 2.
  rewrite take_app_length. apply cstr_app_nul, not_elem_take, Hc.
Qed.

Lemma format_json_ok device_id d time_str fecha_str inicio_str city buf s :
  cstr (g_city_state s) = Some city -> (0 < length buf)%nat ->
  let text := format_text device_id d time_str fecha_str inicio_str city in
  no_nul text ->
  exists b, sensors_format_json device_id d time_str fecha_str inicio_str buf (Z.of_nat (length buf)) s = Ret (b, s) /\
    length b = length buf /\ cstr b = Some (take (length buf - 1) text).
Proof.
  intros Hc Hb text Ht%no_nul_elem. unfold sensors_format_json.
  rewrite (proj2 (Z.eqb_neq _ _)), get_bind, Hc by lia. cbv zeta. fold text. unfold snprintf.
  rewrite (proj2 (Z.eqb_neq _ _)) by lia.
  replace (Z.to_nat (Z.of_nat (length buf) - 1)) with (length buf - 1)%nat by lia.
  set (t := take (length buf - 1) text).
  assert (length t <= length buf - 1)%nat as Hlt by (unfold t; rewrite length_take; lia).
  assert (0 ∉ t) as H0 by by apply not_elem_take.
  destruct (write_text t buf H0) as (b1 & E1 & L1 & C1); [lia|].
  rewrite (ST_bind_Ret (run _) _ s b1 s) by (unfold run; by rewrite E1).
  destruct (Z.leb_spec (Z.of_nat (length buf)) (Z.of_nat (length text))) as [Hcut|Hfit]; [|by exists b1].
  destruct (mem_write_ok (Z.of_nat (length buf) - 1) [0] b1) as (b2 & E2 & L2 & B2); [lia|simpl; lia|].
  unfold run. rewrite E2. exists b2. split; [done|]. split; [lia|].
  assert (length t = (length buf - 1)%nat) as Htl by (unfold t; rewrite length_take; lia).
  destruct (mem_write_ok 0 (t ++ [0]) buf) as (b1' & E1' & _ & B1'); [lia|rewrite length_app; simpl; lia|].
  rewrite E1 in E1'. injection E1' as <-.
  assert (take (length buf - 1) b1 = t) as Htk.
  { rewrite B1'. change (Z.to_nat 0) with 0%nat. simpl take at 2. simpl app at 1. rewrite <- Htl.
    rewrite <- !app_assoc. apply take_app_length. }
  rewrite B2. replace (Z.to_nat (Z.of_nat (length buf) - 1)) with (length buf - 1)%nat by lia.
  rewrite Htk. by apply cstr_app_nul.
Qed.
End text.

(** ** Properties *)

(** C34: two different words (two bytes and their checksum) that the SEN5x
    reader accepts differ in at least four bits: a transfer that flips one, two
    or three bits of a word is always rejected. *)
Theorem crc_detects_three_bits a b c a' b' c' :
  Forall byte_ok [a; b; c; a'; b'; c'] -> (a, b, c) <> (a', b', c') ->
  sen5x_crc8 [a; b] = c -> sen5x_crc8 [a'; b'] = c' ->
  4 <= bit_errors a a' + bit_errors b b' + bit_errors c c'.
Proof.
  intros Hb Hne Hc Hc'. rewrite !Forall_cons in Hb. destruct Hb as (Ha & Hb & _ & Ha' & Hb' & _).
  unfold bit_errors. rewrite <- Hc, <- Hc', crc8_difference by done.
  destruct (crc8_weight (Z.lxor a a') (Z.lxor b b')) as [[Ea Eb]|Hw]; [by apply lxor_byte..| |done].
  apply Z.lxor_eq in Ea, Eb. subst. done.
Qed.

Lemma crc_detects_three_bits_witness :
  4 <= bit_errors 0xBE 0xBE + bit_errors 0xEF 0xEE + bit_errors 0x92 (sen5x_crc8 [0xBE; 0xEE]).
Proof.
  apply (crc_detects_three_bits 0xBE 0xEF 0x92 0xBE 0xEE (sen5x_crc8 [0xBE; 0xEE])).
  - repeat constructor; by vm_compute.
  - vm_compute. discriminate.
  - vm_compute. reflexivity.
  - reflexivity.
Defined.

(** C35: [sensors_read] always returns, after at most thirty polls of the SEN5x
    flag and without touching the driver's handles or the city text.  What it
    returns is what the bus did in this call, as the trace shows it: on an error
    (a transfer, a checksum, the timeout) its code, and the output is as it was;
    on success [ESP_OK], and the output is the record computed from the nine
    bytes received from the SCD4x and from the eight words received, each with a
    right checksum, from the SEN5x after its flag was set. *)
Theorem sensors_read_spec `{Platform} out s :
  exists code out' s', sensors_read (Some out) s = Ret ((code, Some out'), s') /\
    (polls (sens_trace s') <= 30 + polls (sens_trace s))%nat /\
    g_city_state s' = g_city_state s /\ s_i2c_bus s' = s_i2c_bus s /\
    s_scd4x_dev s' = s_scd4x_dev s /\ s_sen5x_dev s' = s_sen5x_dev s /\
    exists x, reading (sens_trace s) (sens_trace s') x /\
      match x with
      | inl e => code = e /\ e <> ESP_OK /\ out' = out
      | inr d => code = ESP_OK /\ out' = d
      end.
Proof.
  destruct (sensors_read_wps out s) as (r & s' & E & (_ & Hp & Hc & Hb & H1 & H2) & x & Hx & Hr).
  destruct x as [e|d]; cbn [stored] in Hr; [destruct Hr as [He ->]|subst r];
    eexists _, _, s'; (split_and!; [exact E|done..|]); by eexists.
Qed.

Definition zero_data : SensorData :=
  let z := b32_of_Z 0 in mkData 400 z z z z z z z z z z z z.

(** A bus on which both sensors answer: 600 ppm, and the flag set on the second
    poll. *)
Definition steady_bus : Platform := {|
  http_init := fun _ => true;
  http_set := fun _ => ESP_OK;
  http_perform := fun _ => ([], ESP_OK);
  http_get_status_code := fun _ => 200;
  time := fun _ => 0;
  timer_get_time := fun _ => 0;
  new_char := fun _ _ => 0;
  i2c_err := fun _ => ESP_OK;
  i2c_data := fun h i =>
    match h with
    | I2cReceive _ 3 :: h' => nth i (words [if (length h' <=? 6)%nat then 0 else 1]) 0
    | I2cReceive _ 24 :: _ => nth i (words [10; 20; 30; 40; 5000; 4400; 100; 10]) 0
    | _ => nth i [2; 88; 0; 0x66; 0x66; 0; 0x80; 0; 0] 0
    end;
  modem_at := fun _ => (ESP_OK, None);
  modem_command := fun _ => (ESP_OK, []);
  dns_info := fun _ => (0, 0);
  api := fun _ => ESP_OK
|}.

Lemma sensors_read_spec_witness :
  let p := steady_bus in
  exists d s', sensors_read (Some zero_data) (sens_init []) = Ret ((ESP_OK, Some d), s') /\
    reading [] (sens_trace s') (inr d) /\ co2 d = 600 /\ polls (sens_trace s') = 2%nat.
Proof.
  intros p. destruct (sensors_read_spec zero_data (sens_init [])) as (code & out & s' & E & _ & _ & _ & _ & _ & x & Hx & Hr).
  assert (match sensors_read (Some zero_data) (sens_init []) with
          | Ret ((code, Some out), s') => (code =? 0) && (co2 out =? 600) && (polls (sens_trace s') =? 2)%nat
          | _ => false end = true) as Hv by (vm_compute; reflexivity).
  rewrite E in Hv. apply andb_true_iff in Hv as [[Hc H6]%andb_true_iff H2].
  apply Z.eqb_eq in Hc, H6. apply Nat.eqb_eq in H2. subst code.
  destruct x as [e|d]; [destruct Hr as (He & Hne & _); by destruct Hne|]. destruct Hr as [_ ->]. exists d, s'.
  split; [exact E|]. split; [exact Hx|]. split; [exact H6|exact H2].
Defined.

(** C36: the words the SEN5x decoder accepts are exactly the encodings of eight
    16-bit values with their checksums: what the encoding makes is decoded back,
    and anything else of the same length is rejected. *)
Theorem sen5x_decode_exact buf :
  Forall byte_ok buf -> length buf = 24%nat ->
  match sen5x_decode_measurement buf with
  | Some m => exists values, length values = 8%nat /\ Forall (in_u 16) values /\ buf = words values /\
                             m = measured_of values
  | None => forall values, Forall (in_u 16) values -> buf <> words values
  end.
Proof.
  intros Hb Hl. destruct (decode_words_spec 8 buf Hb Hl) as [H1 H2]. unfold sen5x_decode_measurement.
  destruct (decode_words 8 buf) as [vs|]; simpl; [|by apply H2].
  destruct (H1 vs eq_refl) as (? & ? & ?). by exists vs.
Qed.

Lemma sen5x_decode_exact_witness :
  match sen5x_decode_measurement (words [10; 20; 30; 40; 5000; 4400; 100; 65535]) with
  | Some m => exists values, length values = 8%nat /\ Forall (in_u 16) values /\
                words [10; 20; 30; 40; 5000; 4400; 100; 65535] = words values /\ m = measured_of values
  | None => forall values, Forall (in_u 16) values -> words [10; 20; 30; 40; 5000; 4400; 100; 65535] <> words values
  end.
Proof.
  apply sen5x_decode_exact.
  - repeat constructor; by vm_compute.
  - reflexivity.
Defined.

(** The city text and the measurement text are always C strings of their
    buffers: [sensors_set_city_state] keeps the first 63 characters, and
    [sensors_format_json] writes the text as far as it fits the buffer, for
    every reading, infinite and not-a-number values included. *)
Theorem texts_terminated `{Platform} city device_id d time_str fecha_str inicio_str buf s :
  length (g_city_state s) = 64%nat -> (0 < length buf)%nat ->
  no_nul city -> no_nul device_id -> no_nul time_str -> no_nul fecha_str -> no_nul inicio_str ->
  exists s' b, sensors_set_city_state city s = Ret (tt, s') /\ length (g_city_state s') = 64%nat /\
    sensors_format_json device_id d time_str fecha_str inicio_str buf (Z.of_nat (length buf)) s' = Ret (b, s') /\
    length b = length buf /\
    cstr b = Some (take (length buf - 1)
                     (format_text device_id d time_str fecha_str inicio_str (take 63 city))).
Proof.
  intros Hl Hb Hc Hid Ht Hf Hi. destruct (set_city_ok city s Hl Hc) as (g & E & Hg & Cg).
  destruct (format_json_ok device_id d time_str fecha_str inicio_str (take 63 city) buf (set_city g s))
    as (b & Eb & Lb & Cb); [done|done| |].
  { apply no_nul_format_text; try done. by apply Forall_take. }
  by exists (set_city g s), b.
Qed.

#[local] Instance demo_platform : Platform := {|
  http_init := fun _ => true;
  http_set := fun _ => ESP_OK;
  http_perform := fun _ => ([], ESP_OK);
  http_get_status_code := fun _ => 200;
  time := fun _ => 0;
  timer_get_time := fun _ => 0;
  new_char := fun _ _ => 0;
  i2c_err := fun _ => ESP_OK;
  i2c_data := fun _ _ => 0;
  modem_at := fun _ => (ESP_OK, None);
  modem_command := fun _ => (ESP_OK, []);
  dns_info := fun _ => (0, 0);
  api := fun _ => ESP_OK
|}.

Lemma texts_terminated_witness :
  exists s' b, sensors_set_city_state (STR "Leon-Guanajuato") (sens_init []) = Ret (tt, s') /\
    sensors_format_json (STR "id") zero_data (STR "10:00:00") (STR "01-02-2025") (STR "09:00:00")
      (zeros 42) (Z.of_nat (length (zeros 42))) s' = Ret (b, s') /\
    cstr b = Some ([CH "{"; dquote] ++ STR "pm1p0" ++ [dquote] ++ STR ":0.00," ++ [dquote] ++ STR "pm2p5" ++
                   [dquote] ++ STR ":0.00," ++ [dquote] ++ STR "pm4p0" ++ [dquote] ++ STR ":0.00," ++ [dquote]).
Proof.
  destruct (texts_terminated (STR "Leon-Guanajuato") (STR "id") zero_data (STR "10:00:00") (STR "01-02-2025")
              (STR "09:00:00") (zeros 42) (sens_init [])) as (s' & b & E & _ & Eb & _ & Cb).
  - reflexivity.
  - vm_compute. lia.
  - repeat constructor; discriminate.
  - repeat constructor; discriminate.
  - repeat constructor; discriminate.
  - repeat constructor; discriminate.
  - repeat constructor; discriminate.
  - exists s', b. split; [exact E|]. split; [exact Eb|]. rewrite Cb. vm_compute. reflexivity.
Defined.
