(* ===== verification/Modem.v ===== *)
(** * The modem (main/modem_ppp.h, main/modem_ppp.c)

    Starting PPP on the SIM7600, the text of its answers to AT commands, and the
    geolocation of the cell over HTTPS.  The functions run in [Modem]: the
    trace and the statics of the file. *)
From S2P Require Export Esp.
Open Scope Z_scope.

(** ** Data *)

Record modem_ppp_config_t := mkConfig {
  tx_io : Z; rx_io : Z; rts_io : Z; cts_io : Z; dtr_io : Z; rst_io : Z; pwrkey_io : Z; board_power_io : Z;
  rst_active_low : bool;
  rst_pulse_ms : Z;
  apn : option bytes;
  sim_pin : bytes;
  use_cmux : bool
}.

Record modem_ue_info_t := mkUe { mcc : Z; mnc : Z; tac : Z; cell_id : Z; valid : bool }.

Definition ue_zero : modem_ue_info_t := mkUe 0 0 0 0 false.

Record at_acc_t := mkAcc { acc_buf : option bytes; acc_size : Z; acc_used : Z }.
Record ul_accum_t := mkUl { ul_buf : bytes; ul_max : Z; ul_len : Z }.

(** The statics; [s_ppp_eg] and [s_ppp_netif]: whether the handle is set. *)
Record Modem := mkModem {
  md_trace : list call;
  s_ppp_eg : bool;
  s_ue_info : modem_ue_info_t;
  s_ue_valid : bool;
  s_ppp_netif : bool;
  s_acc : at_acc_t;
  ul_body : bytes
}.

Definition UL_BODY_MAX : Z := 4096.

Definition modem_init (h : list call) : Modem :=
  mkModem h false ue_zero false false (mkAcc None 0 0) (zeros UL_BODY_MAX).

(** ** Texts of the modem *)

(** The callback of [esp_modem_command]. *)
Definition at_acc_cb (data : bytes) (acc : at_acc_t) : outcome at_acc_t :=
  let len := Z.of_nat (length data) in
  let room := u32 (acc_size acc - acc_used acc - 1) in
  let n := if len <? room then len else room in
  match acc_buf acc with
  | Some buf =>
      if 0 <? n then
        b ← mem_write (acc_used acc) (take (Z.to_nat n) data) buf;
        let used := u32 (acc_used acc + n) in
        b ← mem_write used [0] b;
        Ret (mkAcc (Some b) (acc_size acc) used)
      else Ret acc
  | None => Ret acc
  end.

Definition cpsi_se_ve_valido (s : bytes) : bool :=
  if bool_decide (s = []) then false
  else if contains s (STR "NO SERVICE") then false
  else if contains s (STR "000-00") then false
  else if contains s (STR "BAND0") then false
  else if contains s (STR ",0,0,") || contains s (STR ",00000000,") then false
  else true.

Definition cereg_registrado (rsp : bytes) : bool := contains rsp (STR ",1") || contains rsp (STR ",5").

(** ** [+CPSI] *)

Definition trim_ws (s : bytes) : bytes := reverse (drop_spaces (reverse (drop_spaces s))).

(** The loop over the tokens; [inl]: an early [return false]. *)
Fixpoint cpsi_tokens (fuel : nat) (tokenId : Z) (s : bytes) (out : modem_ue_info_t)
    : outcome (modem_ue_info_t + modem_ue_info_t) :=
  match fuel with
  | O => Fuel
  | S fuel =>
      match strtok (CH ",") s with
      | None => Ret (inr out)
      | Some (tok, rest) =>
          let tok := trim_ws tok in
          if tokenId =? 2 then
            match strchr tok (CH "-") with
            | None => Ret (inl out)
            | Some (before, after) =>
                mcc ← atoi (trim_ws before);
                mnc ← atoi (trim_ws after);
                cpsi_tokens fuel (tokenId + 1) rest (mkUe mcc mnc (tac out) (cell_id out) (valid out))
            end
          else if tokenId =? 3 then
            cpsi_tokens fuel (tokenId + 1) rest (mkUe (mcc out) (mnc out) (u32 (strtoul0 tok)) (cell_id out) (valid out))
          else if tokenId =? 4 then
            Ret (inr (mkUe (mcc out) (mnc out) (tac out) (u32 (strtoul0 tok)) (valid out)))
          else cpsi_tokens fuel (tokenId + 1) rest out
      end
  end.

(** The verdict and what [*out] holds then. *)
Definition parse_cpsi_line (line_in : bytes) : outcome (bool * modem_ue_info_t) :=
  let buf := take 255 line_in in
  let s := match strstr buf (STR "+CPSI:") with Some pfx => drop 6 pfx | None => buf end in
  r ← cpsi_tokens (S (length s)) 0 s ue_zero;
  match r with
  | inl out => Ret (false, out)
  | inr out =>
      if (mcc out <? 100) || (999 <? mcc out) then Ret (false, out)
      else if (mnc out <? 0) || (999 <? mnc out) then Ret (false, out)
      else Ret (true, mkUe (mcc out) (mnc out) (tac out) (cell_id out) true)
  end.

(** ** JSON by hand *)

(** [snprintf(pat, 64, ...)] with a key between quotes, then [strstr]. *)
Definition json_pattern (key : bytes) : bytes := take 63 ([dquote] ++ key ++ [dquote; CH ":"; dquote]).

(** The verdict and what [out] holds then. *)
Definition json_get_string (json key out : bytes) (outlen : Z) : outcome (bool * bytes) :=
  if outlen =? 0 then Ret (false, out)
  else
    match strstr json (json_pattern key) with
    | None => Ret (false, out)
    | Some p =>
        match strchr (drop (length (json_pattern key)) p) dquote with
        | None => Ret (false, out)
        | Some (text, _) =>
            if bool_decide (text = []) then Ret (false, out)
            else
              let n := Z.of_nat (length text) in
              let n := if outlen <=? n then outlen - 1 else n in
              out ← mem_write 0 (take (Z.to_nat n) text) out;
              out ← mem_write n [0] out;
              Ret (true, out)
        end
    end.

Definition ul_http_evt (evt : http_event) (acc : ul_accum_t) : outcome ul_accum_t :=
  match evt with
  | HTTP_EVENT_ON_DATA (Some data) =>
      let data_len := Z.of_nat (length data) in
      if data_len =? 0 then Ret acc
      else
        let room := ul_max acc - ul_len acc - 1 in
        let n := if data_len <? room then data_len else room in
        if 0 <? n then
          b ← mem_write (ul_len acc) (take (Z.to_nat n) data) (ul_buf acc);
          let len := ul_len acc + n in
          b ← mem_write len [0] b;
          Ret (mkUl b (ul_max acc) len)
        else Ret acc
  | _ => Ret acc
  end.

Fixpoint ul_events (evts : list http_event) (acc : ul_accum_t) : outcome ul_accum_t :=
  match evts with
  | [] => Ret acc
  | e :: evts => acc ← ul_http_evt e acc; ul_events evts acc
  end.

Fixpoint acc_data (pieces : list bytes) (acc : at_acc_t) : outcome at_acc_t :=
  match pieces with
  | [] => Ret acc
  | d :: pieces => acc ← at_acc_cb d acc; acc_data pieces acc
  end.

(** ** Operations *)

(** The modes of the modem. *)
Definition ESP_MODEM_MODE_COMMAND : Z := 0.
Definition ESP_MODEM_MODE_DATA : Z := 1.
Definition ESP_MODEM_MODE_CMUX : Z := 2.

Definition set_eg (m : Modem) : Modem :=
  mkModem (md_trace m) true (s_ue_info m) (s_ue_valid m) (s_ppp_netif m) (s_acc m) (ul_body m).
Definition set_ue (info : modem_ue_info_t) (v : bool) (m : Modem) : Modem :=
  mkModem (md_trace m) (s_ppp_eg m) info v (s_ppp_netif m) (s_acc m) (ul_body m).
Definition set_netif (m : Modem) : Modem :=
  mkModem (md_trace m) (s_ppp_eg m) (s_ue_info m) (s_ue_valid m) true (s_acc m) (ul_body m).
Definition set_acc (acc : at_acc_t) (m : Modem) : Modem :=
  mkModem (md_trace m) (s_ppp_eg m) (s_ue_info m) (s_ue_valid m) (s_ppp_netif m) acc (ul_body m).
Definition set_body_buf (b : bytes) (m : Modem) : Modem :=
  mkModem (md_trace m) (s_ppp_eg m) (s_ue_info m) (s_ue_valid m) (s_ppp_netif m) (s_acc m) b.

Section modem.
Context `{Platform} (UNWIREDLABS_TOKEN : bytes).

Definition UNWIRED_URL : bytes := STR "https://us2.unwiredlabs.com/v2/process.php".

Definition md_call {A} (c : call) (answer : list call -> A) : ST Modem A := fun m =>
  let h := c :: md_trace m in
  Ret (answer h, mkModem h (s_ppp_eg m) (s_ue_info m) (s_ue_valid m) (s_ppp_netif m) (s_acc m) (ul_body m)).

Definition esp (name : bytes) (args : list Z) : ST Modem Z := md_call (EspApi name args) api.
Definition md_delay (ms : Z) : ST Modem unit := md_call (TaskDelay ms) (fun _ => tt).

(** [ESP_ERROR_CHECK]: any code but [ESP_OK] aborts. *)
Definition ESP_ERROR_CHECK (e : Z) : ST Modem unit :=
  run (if e =? ESP_OK then Ret tt else Abort "ESP_ERROR_CHECK failed").

(** The handler of IP events; [true] for [IP_EVENT_PPP_GOT_IP], [false] for
    [IP_EVENT_PPP_LOST_IP]. *)
Definition on_ip_event (got_ip : bool) : ST Modem unit :=
  if got_ip then _ ← esp (STR "xEventGroupSetBits") [1]; mret tt
  else _ ← esp (STR "esp_restart") []; mret tt.

Definition gpio_level (pin level : Z) : ST Modem unit := _ ← esp (STR "gpio_set_level") [pin; level]; mret tt.
Definition gpio_output (pin : Z) : ST Modem unit := _ ← esp (STR "gpio_set_direction") [pin]; mret tt.

Definition hw_boot (c : modem_ppp_config_t) : ST Modem unit :=
  _ ← (if 0 <=? board_power_io c then
         _ ← gpio_output (board_power_io c); gpio_level (board_power_io c) 1
       else mret tt);
  _ ← (if 0 <=? rst_io c then
         _ ← gpio_output (rst_io c);
         _ ← gpio_level (rst_io c) 0;
         _ ← md_delay 100;
         _ ← gpio_level (rst_io c) 1;
         _ ← md_delay 2600;
         gpio_level (rst_io c) 0
       else mret tt);
  _ ← (if 0 <=? dtr_io c then _ ← gpio_output (dtr_io c); gpio_level (dtr_io c) 0 else mret tt);
  _ ← (if 0 <=? pwrkey_io c then
         _ ← gpio_output (pwrkey_io c);
         _ ← gpio_level (pwrkey_io c) 1;
         _ ← md_delay 100;
         _ ← gpio_level (pwrkey_io c) 0;
         _ ← md_delay 100;
         gpio_level (pwrkey_io c) 1
       else mret tt);
  md_delay 3000.

(** [esp_modem_at(dce, cmd, out, timeout)]: the code and the buffer; the text,
    if there is one, is stored with its terminator. *)
Definition esp_modem_at (cmd : bytes) (timeout_ms : Z) (out : bytes) : ST Modem (Z * bytes) :=
  '(e, text) ← md_call (ModemAt cmd timeout_ms) modem_at;
  match text with
  | None => mret (e, out)
  | Some t => out ← run (mem_write 0 (t ++ [0]) out); mret (e, out)
  end.

(** The loop of [esperar_cereg]. *)
Fixpoint cereg_loop (fuel : nat) (elapsed timeout_ms poll_ms : Z) (out : bytes) : ST Modem Z :=
  match fuel with
  | O => run Fuel
  | S fuel =>
      if elapsed <? timeout_ms then
        '(err, out) ← esp_modem_at (STR "AT+CEREG?" ++ [13]) 2000 out;
        s ← run (c_string out);
        if (err =? ESP_OK) && cereg_registrado s then mret ESP_OK
        else
          _ ← md_delay poll_ms;
          cereg_loop fuel (elapsed + poll_ms) timeout_ms poll_ms out
      else
        _ ← run (c_string out);
        mret ESP_ERR_TIMEOUT
  end.

Definition esperar_cereg (timeout_ms poll_ms : Z) : ST Modem Z :=
  cereg_loop (S (Z.to_nat (timeout_ms / poll_ms + 1))) 0 timeout_ms poll_ms (zeros 128).

(** The loop of [cpsi_con_reintentos] from attempt [i], with the attempts that are left. *)
Fixpoint cpsi_loop (tries : nat) (i delay_ms last : Z) (out out_final : bytes) (out_len : Z) : ST Modem (Z * bytes) :=
  match tries with
  | O =>
      s ← run (c_string out);
      out_final ← run (if out_len =? 0 then Ret out_final else strlcpy out_len s out_final);
      mret (if last =? ESP_OK then ESP_FAIL else last, out_final)
  | S tries =>
      '(last, out) ← esp_modem_at (STR "AT+CPSI?" ++ [13]) 12000 (zeros 256);
      s ← run (c_string out);
      if (last =? ESP_OK) && cpsi_se_ve_valido s then
        out_final ← run (if out_len =? 0 then Ret out_final else strlcpy out_len s out_final);
        mret (ESP_OK, out_final)
      else
        _ ← md_delay (delay_ms + i * delay_ms);
        cpsi_loop tries (i + 1) delay_ms last out out_final out_len
  end.

Definition cpsi_con_reintentos (out_final : bytes) (out_len : Z) (intentos delay_ms : Z) : ST Modem (Z * bytes) :=
  cpsi_loop (Z.to_nat intentos) 0 delay_ms ESP_FAIL (zeros 256) out_final out_len.

(** The command with its carriage return, as a buffer of 64 bytes holds it. *)
Definition cmd_cr (cmd : bytes) : bytes :=
  if bool_decide (last cmd = Some 13) then take 63 cmd else take 63 (cmd ++ [13]).

Definition esp_modem_set_mode (mode : Z) : ST Modem Z := esp (STR "esp_modem_set_mode") [mode].

Definition modem_send_at_and_log (cmd : bytes) (timeout_ms : Z) : ST Modem Z :=
  _ ← esp_modem_set_mode ESP_MODEM_MODE_COMMAND;
  '(err, out) ← esp_modem_at (cmd_cr cmd) timeout_ms (zeros 256);
  _ ← run (c_string out);
  mret err.

Definition set_mode_if_needed (target : Z) : ST Modem Z :=
  cur ← esp (STR "esp_modem_get_mode") [];
  if cur =? target then mret ESP_OK else esp_modem_set_mode target.

(** The verdict and [*out]. *)
Definition modem_get_ue_info : ST Modem (bool * modem_ue_info_t) :=
  m ← get (fun m => m); mret (s_ue_valid m, s_ue_info m).

(** 1.1.1.1 and 8.8.8.8 as the address functions read them. *)
Definition force_public_dns : ST Modem unit :=
  _ ← esp (STR "dns_setserver") [0; 1; 1; 1; 1];
  _ ← esp (STR "dns_setserver") [1; 8; 8; 8; 8];
  netif ← get s_ppp_netif;
  if netif : bool then
    _ ← esp (STR "esp_netif_set_dns_info MAIN") [1; 1; 1; 1];
    _ ← esp (STR "esp_netif_set_dns_info BACKUP") [8; 8; 8; 8];
    mret tt
  else mret tt.

(** ** Geolocation *)

Definition ul_payload (u : modem_ue_info_t) : bytes :=
  let q (s : bytes) : bytes := [dquote] ++ s ++ [dquote] in
  STR "{" ++ q (STR "token") ++ STR ":" ++ q UNWIREDLABS_TOKEN ++ STR "," ++
  q (STR "radio") ++ STR ":" ++ q (STR "lte") ++ STR "," ++
  q (STR "mcc") ++ STR ":" ++ dec_signed (mcc u) ++ STR "," ++
  q (STR "mnc") ++ STR ":" ++ dec_signed (mnc u) ++ STR "," ++
  q (STR "cells") ++ STR ":[{" ++ q (STR "lac") ++ STR ":" ++ dec_digits (tac u) ++ STR "," ++
  q (STR "cid") ++ STR ":" ++ dec_digits (cell_id u) ++ STR "}]," ++ q (STR "address") ++ STR ":2}".

(** From the first of the two names, or the whole body. *)
Definition address_part (body : bytes) : bytes :=
  match strstr body ([dquote] ++ STR "address" ++ [dquote]) with
  | Some a => a
  | None =>
      match strstr body ([dquote] ++ STR "address_detail" ++ [dquote]) with
      | Some a => a
      | None => body
      end
  end.

(** What an answer with status 200 is used for: the two buffers then, and
    whether one of them holds a text. *)
Definition read_answer (ul_body city : bytes) (city_len : Z) (state : bytes) (state_len : Z)
    : outcome (bool * bytes * bytes) :=
  body ← c_string ul_body;
  '(_, api_status) ← json_get_string body (STR "status") (zeros 8) 8;
  api_status ← c_string api_status;
  if negb (strcase_eq api_status (STR "ok")) then Ret (false, city, state)
  else
    let addr := address_part body in
    '(_, city) ← json_get_string addr (STR "city") city city_len;
    '(_, state) ← json_get_string addr (STR "state") state state_len;
    Ret (negb (nth 0 city 0 =? 0) || negb (nth 0 state 0 =? 0), city, state).

(** The request of one attempt: [None] without a client, otherwise the error,
    the status and the length received. *)
Definition ul_request (payload : bytes) : ST Modem (option (Z * Z * Z)) :=
  _ ← put (set_body_buf (zeros UL_BODY_MAX));
  _ ← esp (STR "heap_caps_check_integrity_all") [1];
  _ ← force_public_dns;
  netif ← get s_ppp_netif;
  _ ← (if netif : bool then _ ← esp (STR "esp_netif_get_netif_impl_name") []; mret tt else mret tt);
  cli ← md_call (UlHttpInit UNWIRED_URL netif) http_init;
  if negb cli then mret None
  else
    _ ← md_call (HttpSetHeader (STR "Content-Type") (STR "application/json")) http_set;
    _ ← md_call (HttpSetPostField payload) http_set;
    _ ← md_call TimerGetTime timer_get_time;
    '(evts, err) ← md_call HttpPerform http_perform;
    b ← get ul_body;
    acc ← run (ul_events evts (mkUl b UL_BODY_MAX 0));
    _ ← put (set_body_buf (ul_buf acc));
    _ ← md_call TimerGetTime timer_get_time;
    status ← md_call HttpGetStatus http_get_status_code;
    _ ← esp (STR "esp_http_client_get_content_length") [];
    _ ← md_call HttpCleanup (fun _ => tt);
    mret (Some (err, status, ul_len acc)).

(** The attempts from [attempt] on: the code and the two buffers. *)
Fixpoint ul_loop (tries : nat) (attempt last_err : Z) (payload city : bytes) (city_len : Z)
    (state : bytes) (state_len : Z) : ST Modem (Z * bytes * bytes) :=
  match tries with
  | O => mret (if last_err =? 0 then ESP_FAIL else last_err, city, state)
  | S tries =>
      r ← ul_request payload;
      match r with
      | None =>
          _ ← md_delay (1000 * attempt);
          ul_loop tries (attempt + 1) last_err payload city city_len state state_len
      | Some (err, status, len) =>
          b ← get ul_body;
          '(found, city, state) ← run
             (if (err =? ESP_OK) && (status =? 200) && (0 <? len)
              then read_answer b city city_len state state_len
              else Ret (false, city, state));
          if found : bool then mret (ESP_OK, city, state)
          else
            _ ← md_delay (500 * attempt);
            ul_loop tries (attempt + 1) err payload city city_len state state_len
      end
  end.

Definition UL_ATTEMPTS : nat := 5.

(** [city[0] = 0] *)
Definition clear_first (b : bytes) (len : Z) : outcome bytes :=
  if len =? 0 then Ret b else mem_write 0 [0] b.

Definition modem_unwiredlabs_city_state (city : bytes) (city_len : Z) (state : bytes) (state_len : Z)
    : ST Modem (Z * bytes * bytes) :=
  city ← run (clear_first city city_len);
  state ← run (clear_first state state_len);
  m ← get (fun m => m);
  if negb (s_ue_valid m) then mret (ESP_FAIL, city, state)
  else if bool_decide (UNWIREDLABS_TOKEN = []) then mret (ESP_ERR_INVALID_ARG, city, state)
  else
    let payload := ul_payload (s_ue_info m) in
    if 256 <=? Z.of_nat (length payload) then mret (ESP_FAIL, city, state)
    else ul_loop UL_ATTEMPTS 1 ESP_FAIL payload city city_len state state_len.

(** ** Start *)

(** [esp_modem_command] with [at_acc_cb]. *)
Definition esp_modem_command (cmd : bytes) (timeout_ms : Z) : ST Modem Z :=
  '(e, pieces) ← md_call (ModemCommand cmd timeout_ms) modem_command;
  acc ← get s_acc;
  acc ← run (acc_data pieces acc);
  _ ← put (set_acc acc);
  mret e.

(** Step 2: the cell from [+CPSI]. *)
Definition read_cell : ST Modem unit :=
  '(cpsi_ok, cpsi) ← cpsi_con_reintentos (zeros 128) 128 3 700;
  cpsi ← run (c_string cpsi);
  if cpsi_ok =? ESP_OK then
    '(ok, info) ← run (parse_cpsi_line cpsi);
    if ok && cpsi_se_ve_valido cpsi then put (set_ue info true)
    else put (fun m => set_ue (s_ue_info m) false m)
  else put (fun m => set_ue (s_ue_info m) false m).

Definition IPV4 : Z := 0.
Definition dns_set (d : Z * Z) : bool := (d.1 =? IPV4) && negb (d.2 =? 0).

(** The DNS servers of PPP, or 1.1.1.1 and 8.8.8.8. *)
Definition ensure_dns : ST Modem unit :=
  dmain ← md_call (EspApi (STR "esp_netif_get_dns_info MAIN") []) dns_info;
  dbackup ← md_call (EspApi (STR "esp_netif_get_dns_info BACKUP") []) dns_info;
  if negb (dns_set dmain || dns_set dbackup) then
    _ ← esp (STR "esp_netif_set_dns_info MAIN") [1; 1; 1; 1];
    _ ← esp (STR "esp_netif_set_dns_info BACKUP") [8; 8; 8; 8];
    mret tt
  else mret tt.

Definition PPP_UP_BIT : Z := 1.

(** Step 4: data mode, and the wait for an address. *)
Definition go_online (cfg : modem_ppp_config_t) (timeout_ms : Z) : ST Modem Z :=
  mode_err ← set_mode_if_needed (if use_cmux cfg then ESP_MODEM_MODE_CMUX else ESP_MODEM_MODE_DATA);
  mode_err ← (if negb (mode_err =? ESP_OK) && use_cmux cfg then set_mode_if_needed ESP_MODEM_MODE_DATA
              else mret mode_err);
  _ ← ESP_ERROR_CHECK mode_err;
  b ← esp (STR "xEventGroupWaitBits") [timeout_ms];
  if Z.land b PPP_UP_BIT =? 0 then mret ESP_ERR_TIMEOUT
  else _ ← ensure_dns; mret ESP_OK.

(** [api] gives 0 for a null handle. *)
Definition modem_ppp_start_blocking (cfg : option modem_ppp_config_t) (timeout_ms : Z) : ST Modem Z :=
  match cfg with
  | None => mret ESP_ERR_INVALID_ARG
  | Some cfg =>
      match apn cfg with
      | None => mret ESP_ERR_INVALID_ARG
      | Some _ =>
          ppp ← esp (STR "esp_netif_new") [];
          if ppp =? 0 then mret ESP_FAIL
          else
            _ ← put set_netif;
            _ ← esp (STR "esp_netif_set_default_netif") [];
            eg ← get s_ppp_eg;
            _ ← (if eg : bool then mret tt else _ ← esp (STR "xEventGroupCreate") []; put set_eg);
            e ← esp (STR "esp_event_handler_register") [];
            _ ← ESP_ERROR_CHECK e;
            _ ← hw_boot cfg;
            dce ← esp (STR "esp_modem_new_dev") [tx_io cfg; rx_io cfg; rts_io cfg; cts_io cfg];
            if dce =? 0 then mret ESP_FAIL
            else
              e ← esp (STR "esp_modem_set_apn") [];
              _ ← ESP_ERROR_CHECK e;
              e ← set_mode_if_needed ESP_MODEM_MODE_COMMAND;
              _ ← ESP_ERROR_CHECK e;
              _ ← modem_send_at_and_log (STR "AT") 3000;
              _ ← modem_send_at_and_log (STR "ATE0") 3000;
              _ ← modem_send_at_and_log (STR "AT+CMEE=2") 3000;
              _ ← esperar_cereg 15000 500;
              _ ← read_cell;
              _ ← put (set_acc (mkAcc (Some (zeros 64)) 64 0));
              at_ok ← esp_modem_command (STR "AT" ++ [13]) 1000;
              if negb (at_ok =? ESP_OK) then mret at_ok
              else
                _ ← esp_modem_command (STR "ATE0" ++ [13]) 1000;
                _ ← md_delay 500;
                go_online cfg timeout_ms
      end
  end.
End modem.
