(* ===== verification/ModemFacts.v ===== *)
(** * The modem: what is read from its texts, and that the waits end

    The cell of a [+CPSI] line is read exactly; the buffers of the two callbacks
    hold what was received as far as it fits; the waits for the network and for
    the geolocation end after the attempts they are given. *)
From S2P Require Import Modem FloatBounds.
Open Scope Z_scope.

(** ** Tokens *)

Lemma drop_delims_other c s : head s <> Some c -> drop_delims c s = s.
Proof. destruct s as [|x s]; [done|]. cbn [head drop_delims]. intros Hx. by rewrite (proj2 (Z.eqb_neq x c)) by congruence. Qed.

Lemma strchr_app s c t : c ∉ s -> strchr (s ++ c :: t) c = Some (s, t).
Proof.
  induction s as [|x s IH]; intros Hc; cbn [app strchr]; [by rewrite Z.eqb_refl|].
  apply not_elem_of_cons in Hc as [Hx Hs]. rewrite (proj2 (Z.eqb_neq x c)), IH by congruence. done.
Qed.

Lemma strchr_Some s c a b : strchr s c = Some (a, b) -> s = a ++ c :: b /\ c ∉ a.
Proof.
  revert a b. induction s as [|x s IH]; intros a b; [done|]. cbn [strchr].
  destruct (Z.eqb_spec x c) as [->|Hne]; [intros [= <- <-]; split; [done|apply not_elem_of_nil]|].
  destruct (strchr s c) as [[a' b']|]; [|done]. intros [= <- <-]. destruct (IH a' b' eq_refl) as [-> Ha].
  split; [done|]. apply not_elem_of_cons. by split; [congruence|].
Qed.

Lemma strtok_app s c t : s <> [] -> c ∉ s -> strtok c (s ++ c :: t) = Some (s, t).
Proof.
  intros Hs Hc. unfold strtok. rewrite drop_delims_other.
  - pose proof (strchr_app s c t Hc) as E. destruct s as [|x s]; [done|]. cbn [app] in *. by rewrite E.
  - destruct s as [|x s]; [done|]. cbn. intros [= ->]. apply Hc, list_elem_of_here.
Qed.

Lemma drop_delims_length c s : (length (drop_delims c s) <= length s)%nat.
Proof. induction s as [|x s IH]; [done|]. cbn [drop_delims]. destruct (x =? c); simpl; lia. Qed.

(** Every token takes at least one character. *)
Lemma strtok_length c s tok rest : strtok c s = Some (tok, rest) -> (length rest < length s)%nat.
Proof.
  unfold strtok. pose proof (drop_delims_length c s) as Hl. destruct (drop_delims c s) as [|x d]; [done|].
  destruct (strchr (x :: d) c) as [[a b]|] eqn:E.
  - intros [= <- <-]. apply strchr_Some in E as [E _]. rewrite E in Hl. rewrite length_app in Hl. simpl in Hl. lia.
  - intros [= <- <-]. simpl in *. lia.
Qed.

(** ** Spaces *)

Definition no_space (s : bytes) : Prop := Forall (fun c => isspace c = false) s.

Lemma drop_spaces_id s : no_space s -> drop_spaces s = s.
Proof. destruct 1 as [|c s Hc _]; [done|]. cbn [drop_spaces]. by rewrite Hc. Qed.

Lemma trim_ws_id s : no_space s -> trim_ws s = s.
Proof.
  intros Hs. unfold trim_ws. rewrite (drop_spaces_id s Hs), drop_spaces_id by by apply Forall_reverse.
  apply reverse_involutive.
Qed.

Lemma digits_no_space s : Forall (fun c => is_digit c = true) s -> no_space s.
Proof.
  intros Hs. eapply Forall_impl; [exact Hs|]. intros c Hc. cbv beta in Hc. unfold is_digit in Hc. bool_to_prop.
  unfold isspace. zbool. done.
Qed.

Lemma digits_not c s : Forall (fun c => is_digit c = true) s -> is_digit c = false -> c ∉ s.
Proof. intros Hs Hc Hin. rewrite Forall_forall in Hs. specialize (Hs c Hin). congruence. Qed.

(** ** Numbers *)

Lemma no_nul_digits s : Forall (fun c => is_digit c = true) s -> 0 ∉ s.
Proof. intros Hs. by apply digits_not. Qed.

(** [atoi] of digits. *)
Lemma atoi_digits s : s <> [] -> Forall (fun c => is_digit c = true) s -> 0 <= digits_val 0 s < 2 ^ 31 ->
  atoi s = Ret (digits_val 0 s).
Proof.
  intros Hne Hs Hv. unfold atoi. rewrite c_str_no_nul, drop_spaces_id by (by apply no_nul_digits || by apply digits_no_space).
  destruct s as [|c s]; [done|]. apply Forall_cons in Hs as Hcs. destruct Hcs as [Hc _]. unfold is_digit in Hc. bool_to_prop.
  rewrite (proj2 (Z.eqb_neq c (CH "-"))), (proj2 (Z.eqb_neq c (CH "+"))) by lia.
  pose proof (take_digits_app (c :: s) 0 0 [] Hs ltac:(done)) as Ht. rewrite app_nil_r in Ht. rewrite Ht.
  zbool. done.
Qed.

(** Hexadecimal digits, the most significant first. *)
Definition hex_char (d : Z) : Z := if d <? 10 then CH "0" + d else CH "A" + (d - 10).

Fixpoint hex_aux (fuel : nat) (n : Z) (acc : bytes) : bytes :=
  match fuel with
  | O => acc
  | S fuel => let acc := hex_char (n mod 16) :: acc in if n / 16 =? 0 then acc else hex_aux fuel (n / 16) acc
  end.

Definition hex_text (n : Z) : bytes := hex_aux 8 n [].

Lemma hex_char_value d : 0 <= d < 16 -> digit_value (hex_char d) = d /\ 48 <= hex_char d <= 70 /\ hex_char d <> 44.
Proof.
  intros Hd. unfold hex_char, digit_value, is_digit. destruct (Z.ltb_spec d 10); zbool; cbn [andb]; lia.
Qed.

Lemma hex_aux_spec fuel n acc :
  0 <= n < 16 ^ Z.of_nat fuel -> fuel <> O ->
  exists ds, hex_aux fuel n acc = ds ++ acc /\ ds <> [] /\ Forall (fun c => digit_value c < 16 /\ 48 <= c <= 70 /\ c <> 44) ds /\
    forall a t, base_digits 16 a (ds ++ t) = base_digits 16 (a * 16 ^ Z.of_nat (length ds) + n) t.
Proof.
  revert n acc. induction fuel as [|fuel IH]; intros n acc Hn Hf; [done|]. cbn [hex_aux].
  pose proof (Z.mod_pos_bound n 16 ltac:(lia)) as Hm. destruct (hex_char_value (n mod 16) Hm) as (Hv & Hr & Hc).
  destruct (Z.eqb_spec (n / 16) 0) as [E|E].
  - exists [hex_char (n mod 16)]. split_and!; [done|done|repeat constructor; lia|]. intros a t. cbn [app base_digits].
    rewrite Hv. zbool. apply Z.div_small_iff in E; [|lia]. rewrite Z.mod_small by lia. f_equal; simpl; lia.
  - rewrite Nat2Z.inj_succ, Z.pow_succ_r in Hn by lia.
    assert (0 <= n / 16 < 16 ^ Z.of_nat fuel) as Hq by (split; [apply Z.div_pos|apply Z.div_lt_upper_bound]; lia).
    destruct (IH (n / 16) (hex_char (n mod 16) :: acc) Hq) as (ds & -> & Hne & Hall & Hb).
    { intros ->. simpl in Hq. lia. }
    exists (ds ++ [hex_char (n mod 16)]). split_and!.
    + by rewrite <- app_assoc.
    + by destruct ds.
    + apply Forall_app. split; [done|]. repeat constructor; lia.
    + intros a t. rewrite <- app_assoc, Hb. cbn [app base_digits]. rewrite Hv. zbool. f_equal.
      rewrite length_app, Nat2Z.inj_add, Z.pow_add_r by lia. pose proof (Z.div_mod n 16 ltac:(lia)). simpl Z.of_nat. lia.
Qed.

Lemma base_digits_nil base a : base_digits base a [] = a.
Proof. done. Qed.

Lemma strtoul_hex n : 0 <= n < 2 ^ 32 -> strtoul0 (STR "0x" ++ hex_text n) = n /\
  no_space (STR "0x" ++ hex_text n) /\ CH "," ∉ STR "0x" ++ hex_text n.
Proof.
  intros Hn. unfold hex_text. destruct (hex_aux_spec 8 n [] ltac:(simpl; lia) ltac:(done)) as (ds & -> & Hne & Hall & Hb).
  rewrite app_nil_r.
  assert (no_space (STR "0x" ++ ds)) as Hs.
  { apply Forall_app. split; [by repeat constructor|]. eapply Forall_impl; [exact Hall|]. intros c Hc. cbv beta in Hc.
    unfold isspace. zbool. done. }
  split; [|split; [exact Hs|]].
  - unfold strtoul0. rewrite drop_spaces_id by exact Hs. cbn [app]. cbv beta iota zeta.
    change (CH "0" =? CH "-") with false. change (CH "0" =? CH "+") with false. cbv beta iota.
    destruct ds as [|c ds]; [done|]. apply Forall_cons in Hall as Hc. destruct Hc as [(Hc & _) _].
    cbn [hex_prefix]. rewrite !Z.eqb_refl. cbn [andb orb]. rewrite (proj2 (Z.ltb_lt _ _)) by done. cbn [drop].
    rewrite <- (app_nil_r (c :: ds)), Hb, base_digits_nil. replace (0 * 16 ^ Z.of_nat (length (c :: ds)) + n) with n by lia.
    zbool. done.
  - intros Hin%elem_of_app. destruct Hin as [Hin|Hin].
    + by repeat (apply elem_of_cons in Hin as [Hin|Hin]; [discriminate|]); apply not_elem_of_nil in Hin.
    + rewrite Forall_forall in Hall. destruct (Hall _ Hin) as (_ & _ & Hx). done.
Qed.

Lemma base_digits_dec a s : Forall (fun c => is_digit c = true) s -> base_digits 10 a s = digits_val a s.
Proof.
  intros Hs. revert a. induction Hs as [|c s Hc _ IH]; intros a; [done|]. cbn [base_digits digits_val].
  unfold digit_value. rewrite Hc. unfold is_digit in Hc. bool_to_prop. zbool. apply IH.
Qed.

Lemma strtoul_dec n : 0 <= n < 2 ^ 32 -> strtoul0 (dec_digits n) = n.
Proof.
  intros Hn. destruct (dec_digits_spec n ltac:(lia)) as (Hne & Hd & Hv & Hh).
  destruct (Z.eq_dec n 0) as [->|Hn0]; [done|]. specialize (Hh ltac:(lia)).
  unfold strtoul0. rewrite drop_spaces_id by by apply digits_no_space.
  destruct (dec_digits n) as [|c ds]; [done|]. apply Forall_cons in Hd as Hc. destruct Hc as [Hc _].
  unfold is_digit in Hc. bool_to_prop. assert (c <> CH "0") as Hc0 by (intros ->; by apply Hh).
  rewrite (proj2 (Z.eqb_neq c (CH "-"))), (proj2 (Z.eqb_neq c (CH "+"))) by lia.
  assert (hex_prefix (c :: ds) = false) as ->.
  { destruct ds as [|x [|y ds]]; [done|done|]. cbn [hex_prefix]. by rewrite (proj2 (Z.eqb_neq c (CH "0"))). }
  rewrite (proj2 (Z.eqb_neq c (CH "0"))) by done. rewrite (base_digits_dec 0 (c :: ds) Hd), Hv. zbool. done.
Qed.

(** ** [+CPSI] lines *)

(** The line of a cell, with anything before the prefix and after the cell. *)
Definition cpsi_line (pre mode op : bytes) (u : modem_ue_info_t) (mnc_width : nat) (tail : bytes) : bytes :=
  pre ++ STR "+CPSI:" ++ mode ++ STR "," ++ op ++ STR "," ++
  (dec_digits (mcc u) ++ STR "-" ++ pad0 mnc_width (dec_digits (mnc u))) ++ STR "," ++
  (STR "0x" ++ hex_text (tac u)) ++ STR "," ++ dec_digits (cell_id u) ++ STR "," ++ tail.

Lemma strstr_skip pre p s :
  Forall (fun c => head p <> Some c) pre -> p <> [] -> strstr (pre ++ p ++ s) p = Some (p ++ s).
Proof.
  intros Hp Hne. induction Hp as [|c pre Hc _ IH].
  - cbn [app]. assert (prefix_of p (p ++ s) = true) as Hpre.
    { clear. induction p as [|x p IH]; [done|]. cbn [app prefix_of]. by rewrite Z.eqb_refl. }
    destruct (p ++ s) eqn:E; cbn [strstr]; by rewrite Hpre.
  - cbn [app strstr]. destruct p as [|x p]; [done|]. cbn [prefix_of].
    rewrite (proj2 (Z.eqb_neq x c)) by (intros ->; by apply Hc). exact IH.
Qed.

Lemma cpsi_tokens_line mode op u w tail fuel :
  mode <> [] -> CH "," ∉ mode -> op <> [] -> CH "," ∉ op ->
  0 <= mcc u <= 999 -> 0 <= mnc u <= 999 -> in_u 32 (tac u) -> in_u 32 (cell_id u) -> (5 <= fuel)%nat ->
  cpsi_tokens fuel 0 (mode ++ STR "," ++ op ++ STR "," ++
    (dec_digits (mcc u) ++ STR "-" ++ pad0 w (dec_digits (mnc u))) ++ STR "," ++
    (STR "0x" ++ hex_text (tac u)) ++ STR "," ++ dec_digits (cell_id u) ++ STR "," ++ tail) ue_zero =
  Ret (inr (mkUe (mcc u) (mnc u) (tac u) (cell_id u) false)).
Proof.
  unfold in_u. intros Hm Hmc Ho Hoc Hmcc Hmnc Htac Hcell Hf.
  destruct (dec_digits_spec (mcc u) ltac:(lia)) as (N1 & D1 & V1 & _).
  destruct (dec_digits_spec (mnc u) ltac:(lia)) as (N2 & D2 & V2 & _).
  destruct (dec_digits_spec (cell_id u) ltac:(lia)) as (N4 & D4 & _ & _).
  destruct (strtoul_hex (tac u) Htac) as (V3 & S3 & C3).
  assert (Forall (fun c => is_digit c = true) (pad0 w (dec_digits (mnc u)))) as D2'.
  { apply Forall_app. split; [|done]. apply Forall_forall. by intros c ->%list_elem_of_In%repeat_spec. }
  set (second := pad0 w _) in *.
  assert (digits_val 0 second = mnc u) as V2' by (unfold second, pad0; by rewrite digits_val_zeros).
  assert (second <> []) as N2' by (unfold second, pad0; by intros [_ ?]%app_eq_nil).
  assert (no_space (dec_digits (mcc u) ++ STR "-" ++ second)) as S2.
  { apply Forall_app. split; [by apply digits_no_space|]. constructor; [done|]. by apply digits_no_space. }
  assert (dec_digits (mcc u) ++ STR "-" ++ second <> []) as N12 by by intros [? _]%app_eq_nil.
  assert (STR "0x" ++ hex_text (tac u) <> []) as N3 by done.
  assert (CH "," ∉ dec_digits (mcc u) ++ STR "-" ++ second) as C2.
  { intros [Hin|Hin]%elem_of_app; [by apply (digits_not (CH ",") _ D1) in Hin|].
    apply elem_of_cons in Hin as [Hin|Hin]; [discriminate|]. by apply (digits_not (CH ",") _ D2') in Hin. }
  pose proof (fun t => strtok_app mode (CH ",") t Hm Hmc) as T0.
  pose proof (fun t => strtok_app op (CH ",") t Ho Hoc) as T1.
  pose proof (fun t => strtok_app _ (CH ",") t N12 C2) as T2. pose proof (fun t => strtok_app _ (CH ",") t N3 C3) as T3.
  pose proof (fun t => strtok_app _ (CH ",") t N4 (digits_not (CH ",") _ D4 eq_refl)) as T4.
  pose proof (trim_ws_id _ S2) as W2. pose proof (trim_ws_id _ S3) as W3.
  pose proof (strchr_app _ (CH "-") second (digits_not (CH "-") _ D1 eq_refl)) as K2.
  do 5 (destruct fuel as [|fuel]; [lia|]). cbn [app cpsi_tokens] in *.
  change (0 =? 2) with false. change (0 =? 3) with false. change (0 =? 4) with false. change (0 + 1) with 1.
  change (1 =? 2) with false. change (1 =? 3) with false. change (1 =? 4) with false. change (1 + 1) with 2.
  change (2 =? 2) with true. change (2 + 1) with 3. change (3 =? 2) with false. change (3 =? 3) with true.
  change (3 + 1) with 4. change (4 =? 2) with false. change (4 =? 3) with false. change (4 =? 4) with true.
  rewrite T0. cbv iota zeta. rewrite T1. cbv iota zeta. rewrite T2. cbv iota zeta.
  rewrite W2, K2, !trim_ws_id by by apply digits_no_space. rewrite !atoi_digits by (done || lia).
  rewrite !Ret_bind, V1, V2', T3. cbv iota zeta. rewrite W3, V3, T4. cbv iota zeta.
  rewrite trim_ws_id by by apply digits_no_space. rewrite strtoul_dec by done.
  unfold u32. cbn [mcc mnc tac cell_id valid ue_zero]. by rewrite !Z.mod_small.
Qed.

(** Without an early end, the loop gets through any text. *)
Lemma cpsi_tokens_safe fuel k s out :
  (length s < fuel)%nat -> in_u 32 (tac out) -> in_u 32 (cell_id out) -> valid out = false ->
  match cpsi_tokens fuel k s out with
  | Ret (inl o) => valid o = false
  | Ret (inr o) => valid o = false /\ in_u 32 (tac o) /\ in_u 32 (cell_id o)
  | Undef msg => msg = "atoi: out of range"%string
  | _ => False
  end.
Proof.
  revert k s out. induction fuel as [|fuel IH]; intros k s out Hl Ht Hc Hv; [lia|]. cbn [cpsi_tokens].
  destruct (strtok (CH ",") s) as [[tok rest]|] eqn:E; [|done]. apply strtok_length in E.
  assert (forall x, in_u 32 (u32 x)) as Hu by (intros x; unfold in_u, u32; by apply Z.mod_pos_bound).
  assert (forall t, match atoi t with Ret _ => True | Undef msg => msg = "atoi: out of range"%string | _ => False end) as Ha.
  { intros t. unfold atoi. destruct (drop_spaces _) as [|c t'];
      repeat first [destruct (c =? _)|destruct (take_digits _ _ _) as [[? ?] ?]|destruct (_ && _)]; done. }
  destruct (k =? 2).
  - destruct (strchr _ _) as [[a b]|]; [|done]. pose proof (Ha (trim_ws a)) as H1. pose proof (Ha (trim_ws b)) as H2.
    destruct (atoi (trim_ws a)) as [x| | |]; [|done..]. destruct (atoi (trim_ws b)) as [y| | |]; [|done..].
    rewrite !Ret_bind. apply IH; [lia|done..].
  - destruct (k =? 3); [apply IH; [lia|apply Hu|done..]|]. destruct (k =? 4); [by split_and!; [|apply Ht|apply Hu]|].
    apply IH; [lia|done..].
Qed.

(** ** Buffers that accumulate *)

(** The buffer of [n] bytes holds [s] as far as it fits, [k] characters of it,
    and a terminator. *)
Definition filled (n : nat) (s : bytes) (b : bytes) (k : Z) : Prop :=
  length b = n /\ k = Z.of_nat (length (take (n - 1) s)) /\ exists tl, b = take (n - 1) s ++ 0 :: tl.

Lemma take_more {A} n (s d : list A) : take n (s ++ d) = take n s ++ take (n - length (take n s)) d.
Proof. rewrite take_app, length_take. do 2 f_equal. lia. Qed.

(** What both callbacks do with a piece of text. *)
Lemma append_ok n s d b k :
  (0 < n)%nat -> filled n s b k ->
  let room := Z.of_nat n - k - 1 in
  let m := if Z.of_nat (length d) <? room then Z.of_nat (length d) else room in
  0 <= room /\
  (0 < m -> exists b1 b2, mem_write k (take (Z.to_nat m) d) b = Ret b1 /\ mem_write (k + m) [0] b1 = Ret b2 /\
            filled n (s ++ d) b2 (k + m)) /\
  (m <= 0 -> filled n (s ++ d) b k).
Proof.
  intros Hn (Hb & Hk & tl & Eb) room m. set (t := take (n - 1) s) in *.
  assert (length t <= n - 1)%nat as Ht by (unfold t; rewrite length_take; lia).
  assert (m = Z.min (Z.of_nat (length d)) room) as Em by (unfold m; destruct (Z.ltb_spec (Z.of_nat (length d)) room); lia).
  assert (take (n - 1) (s ++ d) = t ++ take (Z.to_nat m) d) as Etake.
  { rewrite take_more. fold t. f_equal. unfold room in Em.
    destruct (Z.min_spec (Z.of_nat (length d)) room) as [[? E]|[? E]]; unfold room in *.
    - rewrite !take_ge by lia. done.
    - f_equal. lia. }
  split; [unfold room; lia|]. split; [intros Hm|intros Hm].
  - assert (length (take (Z.to_nat m) d) = Z.to_nat m) as Hlm by (rewrite length_take; lia).
    destruct (mem_write_ok k (take (Z.to_nat m) d) b) as (b1 & E1 & L1 & B1); [lia|unfold room in *; lia|].
    destruct (mem_write_ok (k + m) [0] b1) as (b2 & E2 & L2 & B2); [lia|change (length [0%Z]) with 1%nat; unfold room in *; lia|].
    exists b1, b2. split; [done|]. split; [done|]. split; [lia|]. rewrite Etake. split; [rewrite length_app; lia|].
    rewrite B2. assert (take (Z.to_nat (k + m)) b1 = t ++ take (Z.to_nat m) d) as ->.
    { assert (take (Z.to_nat k) (t ++ 0 :: tl) = t) as Hk0 by (apply take_app_length'; lia).
      rewrite B1, Eb, Hk0. rewrite app_assoc, take_app_le by (rewrite length_app; lia).
      apply take_ge. rewrite length_app. lia. }
    by eexists.
  - assert (Z.to_nat m = 0%nat) as Hm0 by lia. rewrite Hm0 in Etake. cbn [take] in Etake. rewrite app_nil_r in Etake.
    split; [done|]. rewrite Etake. split; [done|]. by exists tl.
Qed.

Lemma filled_nil n : (0 < n)%nat -> filled n [] (zeros (Z.of_nat n)) 0.
Proof.
  intros Hn. unfold filled, zeros. rewrite Nat2Z.id, repeat_length, take_nil. split_and!; [done|done|].
  destruct n as [|n]; [lia|]. by eexists.
Qed.

Lemma filled_cstr n s b k : filled n s b k -> 0 ∉ s -> cstr b = Some (take (n - 1) s).
Proof. intros (_ & _ & tl & ->) Hs. apply cstr_app_nul. intros Hin. by apply elem_of_take in Hin as (i & Hi%list_elem_of_lookup_2 & _). Qed.

Lemma acc_data_ok n pieces s b k :
  (0 < n)%nat -> Z.of_nat n < 2 ^ 31 -> filled n s b k ->
  exists b' k', acc_data pieces (mkAcc (Some b) (Z.of_nat n) k) = Ret (mkAcc (Some b') (Z.of_nat n) k') /\
    filled n (s ++ concat pieces) b' k'.
Proof.
  intros Hn Hn31. revert s b k. induction pieces as [|d pieces IH]; intros s b k Hf.
  { exists b, k. by rewrite app_nil_r. }
  cbn [acc_data concat]. rewrite app_assoc. destruct (append_ok n s d b k Hn Hf) as (Hroom & Hpos & Hzero).
  assert (0 <= k) as Hk by (destruct Hf as (_ & -> & _); lia).
  unfold at_acc_cb. cbn [acc_buf acc_size acc_used].
  assert (u32 (Z.of_nat n - k - 1) = Z.of_nat n - k - 1) as -> by (unfold u32; rewrite Z.mod_small; lia).
  set (m := if _ <? _ then _ else _) in *. destruct (Z.ltb_spec 0 m) as [Hm|Hm].
  - destruct (Hpos Hm) as (b1 & b2 & -> & E2 & Hf2). rewrite Ret_bind.
    assert (0 <= k + m < 2 ^ 32) as Hr.
    { destruct Hf2 as (Hb2 & Hkm & _). rewrite Hkm, length_take. lia. }
    assert (u32 (k + m) = k + m) as -> by (unfold u32; by rewrite Z.mod_small). rewrite E2, !Ret_bind. by apply IH.
  - rewrite Ret_bind. apply IH. by apply Hzero.
Qed.

(** What the events of a response carry. *)
Definition event_data (e : http_event) : bytes := match e with HTTP_EVENT_ON_DATA (Some d) => d | _ => [] end.

Lemma ul_events_ok n evts s b k :
  (0 < n)%nat -> filled n s b k ->
  exists b' k', ul_events evts (mkUl b (Z.of_nat n) k) = Ret (mkUl b' (Z.of_nat n) k') /\
    filled n (s ++ (evts ≫= event_data)) b' k'.
Proof.
  intros Hn. revert s b k. induction evts as [|e evts IH]; intros s b k Hf.
  { exists b, k. by rewrite app_nil_r. }
  cbn [ul_events]. rewrite bind_cons, app_assoc.
  assert (exists b1 k1, ul_http_evt e (mkUl b (Z.of_nat n) k) = Ret (mkUl b1 (Z.of_nat n) k1) /\
            filled n (s ++ event_data e) b1 k1) as (b1 & k1 & -> & Hf1); [|rewrite Ret_bind; by apply IH].
  destruct e as [ | | | |[d|] | | | ]; try (exists b, k; cbn [event_data]; by rewrite app_nil_r).
  cbn [event_data ul_http_evt]. destruct (append_ok n s d b k Hn Hf) as (Hroom & Hpos & Hzero).
  destruct (Z.eqb_spec (Z.of_nat (length d)) 0) as [Hd|Hd].
  { destruct d; [|simpl in Hd; lia]. exists b, k. by rewrite app_nil_r. }
  cbn [ul_max ul_len ul_buf]. set (m := if _ <? _ then _ else _) in *. destruct (Z.ltb_spec 0 m) as [Hm|Hm].
  - destruct (Hpos Hm) as (b1 & b2 & E1 & E2 & Hf2). exists b2, (k + m). rewrite E1, Ret_bind, E2, Ret_bind. done.
  - exists b, k. split; [done|]. by apply Hzero.
Qed.

(** ** Text fields *)

(** A buffer of [n] bytes with a terminator. *)
Definition text_buf (n : nat) (b : bytes) : Prop := length b = n /\ is_Some (cstr b).

Lemma cstr_is_Some b : 0 ∈ b -> is_Some (cstr b).
Proof.
  induction b as [|c b IH]; [by intros ?%not_elem_of_nil|]. cbn [cstr].
  destruct (Z.eqb_spec c 0); [by eexists|]. intros [|Hb]%elem_of_cons; [congruence|].
  destruct (IH Hb) as [s ->]. by eexists.
Qed.

Lemma zeros_text_buf n : (0 < n)%nat -> text_buf n (zeros (Z.of_nat n)).
Proof.
  intros Hn. unfold text_buf, zeros. rewrite Nat2Z.id, repeat_length. split; [done|]. destruct n; [lia|]. by eexists.
Qed.

Lemma filled_text_buf n s b k : filled n s b k -> text_buf n b.
Proof.
  intros (Hl & _ & tl & ->). split; [done|]. apply cstr_is_Some, elem_of_app. right. apply list_elem_of_here.
Qed.

Lemma prefix_of_drop p s : prefix_of p s = true -> s = p ++ drop (length p) s.
Proof.
  revert s. induction p as [|x p IH]; intros s; [done|]. destruct s as [|y s]; [done|]. cbn [prefix_of].
  intros [->%Z.eqb_eq Hp]%andb_true_iff. cbn [app length drop]. f_equal. by apply IH.
Qed.

Lemma strstr_Some s p r : strstr s p = Some r -> exists a, s = a ++ r /\ r = p ++ drop (length p) r.
Proof.
  revert r. induction s as [|x s IH]; intros r; cbn [strstr].
  - destruct (prefix_of p []) eqn:E; [|done]. intros [= <-]. exists []. split; [done|by apply prefix_of_drop].
  - destruct (prefix_of p (x :: s)) eqn:E; [intros [= <-]; exists []; split; [done|by apply prefix_of_drop]|].
    intros (a & -> & Hr)%IH. by exists (x :: a).
Qed.

(** A terminated text written with its terminator in two steps. *)
Lemma write_twice t out :
  0 ∉ t -> (length t < length out)%nat ->
  exists b1 b2, mem_write 0 t out = Ret b1 /\ mem_write (Z.of_nat (length t)) [0] b1 = Ret b2 /\
    length b2 = length out /\ cstr b2 = Some t.
Proof.
  intros H0 Hl. destruct (mem_write_ok 0 t out) as (b1 & E1 & L1 & B1); [lia..|].
  destruct (mem_write_ok (Z.of_nat (length t)) [0] b1) as (b2 & E2 & L2 & B2);
    [lia|change (length [0%Z]) with 1%nat; lia|].
  exists b1, b2. split; [done|]. split; [done|]. split; [lia|]. rewrite B2, Nat2Z.id, B1.
  change (Z.to_nat 0) with 0%nat. rewrite !take_0. cbn [app]. rewrite take_app_length. by apply cstr_app_nul.
Qed.

(** The field [key] of [json]: a nonempty text between the pattern and the next
    quote. *)
Definition field_of (json key text : bytes) : Prop :=
  text <> [] /\ (dquote ∉ text) /\ exists a b, json = a ++ json_pattern key ++ text ++ [dquote] ++ b.

Lemma json_get_string_ok json key out n :
  0 ∉ json -> (0 < n)%nat -> text_buf n out ->
  exists ok out', json_get_string json key out (Z.of_nat n) = Ret (ok, out') /\ text_buf n out' /\
    if ok : bool then exists text, field_of json key text /\ cstr out' = Some (take (n - 1) text) else out' = out.
Proof.
  intros Hj Hn [Hl Hs]. unfold json_get_string. rewrite (proj2 (Z.eqb_neq _ _)) by lia.
  destruct (strstr json (json_pattern key)) as [p|] eqn:Ep; [|by exists false, out].
  apply strstr_Some in Ep as (a & Ea & Er). set (rest := drop _ p) in *.
  destruct (strchr rest dquote) as [[text b]|] eqn:Eb; [|by exists false, out].
  apply strchr_Some in Eb as [Eb Hq].
  destruct (bool_decide (text = [])) eqn:Et; [by exists false, out|]. apply bool_decide_eq_false in Et.
  assert (json = a ++ json_pattern key ++ text ++ [dquote] ++ b) as Ejson.
  { change ([dquote] ++ b) with (dquote :: b). by rewrite <- Eb, <- Er. }
  assert (0 ∉ text) as H0.
  { intros Hin. apply Hj. rewrite Ejson. apply elem_of_app. right. apply elem_of_app. right. apply elem_of_app. by left. }
  assert ((if Z.of_nat n <=? Z.of_nat (length text) then Z.of_nat n - 1 else Z.of_nat (length text)) =
          Z.of_nat (length (take (n - 1) text))) as ->.
  { rewrite length_take. destruct (Z.leb_spec (Z.of_nat n) (Z.of_nat (length text))); lia. }
  rewrite Nat2Z.id.
  assert (take (length (take (n - 1) text)) text = take (n - 1) text) as ->.
  { rewrite length_take. destruct (Nat.le_gt_cases (length text) (n - 1)); [by rewrite !take_ge by lia|f_equal; lia]. }
  destruct (write_twice (take (n - 1) text) out) as (b1 & b2 & E1 & E2 & L2 & C2).
  { by apply not_elem_take. } { rewrite length_take. lia. }
  cbv zeta. rewrite E1, Ret_bind, E2, Ret_bind. exists true, b2. split; [done|]. split; [split; [lia|by eexists]|].
  exists text. split; [|done]. split; [done|]. split; [done|]. by exists a, b.
Qed.

Lemma text_buf_nonempty n b : text_buf n b -> nth 0 b 0 <> 0 <-> exists c s, cstr b = Some (c :: s).
Proof.
  intros [_ [s Hs]]. rewrite Hs. destruct b as [|x b]; [done|]. cbn [nth cstr] in *.
  destruct (Z.eqb_spec x 0) as [->|Hx].
  - injection Hs as <-. split; [done|]. by intros (? & ? & ?).
  - destruct (cstr b) as [t|]; [|done]. injection Hs as <-. split; [intros _; by exists x, t|done].
Qed.

(** The answer leaves both buffers terminated; a city or a state was found
    exactly when one of them is not empty then. *)
Lemma read_answer_ok body city state nb n1 n2 :
  text_buf nb body -> (0 < n1)%nat -> (0 < n2)%nat -> text_buf n1 city -> text_buf n2 state ->
  exists found city' state', read_answer body city (Z.of_nat n1) state (Z.of_nat n2) = Ret (found, city', state') /\
    text_buf n1 city' /\ text_buf n2 state' /\
    (found = true -> (exists c s, cstr city' = Some (c :: s)) \/ exists c s, cstr state' = Some (c :: s)).
Proof.
  intros [_ [doc Hdoc]] Hn1 Hn2 Hc Hs. unfold read_answer, c_string. rewrite Hdoc, Ret_bind.
  assert (0 ∉ doc) as H0 by (by apply cstr_Some in Hdoc as (? & _ & ?)).
  destruct (json_get_string_ok doc (STR "status") (zeros 8) 8 H0) as (ok & st & E & [_ [s Hst]] & _); [lia|by apply (zeros_text_buf 8); lia|].
  change (Z.of_nat 8) with 8 in E. rewrite E, Ret_bind, Hst, Ret_bind.
  destruct (negb _); [by exists false, city, state|].
  assert (0 ∉ address_part doc) as Ha.
  { unfold address_part. assert (forall p r, strstr doc p = Some r -> 0 ∉ r) as Hsub.
    { intros p r (a & Er & _)%strstr_Some Hin. apply H0. rewrite Er. apply elem_of_app. by right. }
    destruct (strstr doc _) as [r|] eqn:E1; [by eapply Hsub|].
    destruct (strstr doc ([dquote] ++ STR "address_detail" ++ [dquote])) as [r|] eqn:E2; [by eapply Hsub|done]. }
  destruct (json_get_string_ok (address_part doc) (STR "city") city n1 Ha Hn1 Hc) as (o1 & city' & E1 & Hc' & _).
  rewrite E1, Ret_bind.
  destruct (json_get_string_ok (address_part doc) (STR "state") state n2 Ha Hn2 Hs) as (o2 & state' & E2 & Hs' & _).
  rewrite E2, Ret_bind. do 3 eexists. split; [reflexivity|]. split; [done|]. split; [done|].
  intros Hf. apply orb_true_iff in Hf as [Hf|Hf]; apply negb_true_iff, Z.eqb_neq in Hf.
  - left. by apply (text_buf_nonempty n1).
  - right. by apply (text_buf_nonempty n2).
Qed.

(** ** Programs of the modem *)

Section calculus.
Context `{Platform} (ok : call -> Prop) (cost : call -> nat).

Definition total_cost (h : list call) : nat := foldr Nat.add 0%nat (cost <$> h).

(** [m] returns, with calls that are all [ok] and cost at most [k]. *)
Definition wpm {A} (k : nat) (m : ST Modem A) (s : Modem) (Q : A -> Modem -> Prop) : Prop :=
  exists a s', m s = Ret (a, s') /\
    (exists h, md_trace s' = h ++ md_trace s /\ Forall ok h /\ (total_cost h <= k)%nat) /\ Q a s'.

Lemma wpm_ret {A} (a : A) s (Q : A -> Modem -> Prop) : Q a s -> wpm 0 (mret a) s Q.
Proof. intros HQ. exists a, s. split_and!; [done|by exists []|done]. Qed.

Lemma wpm_bind {A B} j k (m : ST Modem A) (f : A -> ST Modem B) s Q :
  wpm j m s (fun a s' => wpm k (f a) s' Q) -> wpm (j + k) (m ≫= f) s Q.
Proof.
  intros (a & s1 & E & (h1 & E1 & O1 & C1) & b & s2 & E' & (h2 & E2 & O2 & C2) & HQ).
  exists b, s2. rewrite (ST_bind_Ret _ _ _ _ _ E). split_and!; [done| |done].
  exists (h2 ++ h1). rewrite E2, E1, app_assoc. split_and!; [done|by apply Forall_app|].
  unfold total_cost in *. rewrite fmap_app, sum_app. lia.
Qed.

Lemma wpm_mono {A} j k (m : ST Modem A) s (P Q : A -> Modem -> Prop) :
  wpm j m s P -> (j <= k)%nat -> (forall a s', P a s' -> Q a s') -> wpm k m s Q.
Proof.
  intros (a & s' & E & (h & Eh & Hh & Hc) & HP) Hk HQ. exists a, s'. split_and!; [done| |auto].
  exists h. split_and!; [done|done|lia].
Qed.

Lemma wpm_get {A B} k (g : Modem -> A) (f : A -> ST Modem B) s Q : wpm k (f (g s)) s Q -> wpm k (get g ≫= f) s Q.
Proof. done. Qed.

Lemma wpm_put {B} k g (f : unit -> ST Modem B) s Q :
  md_trace (g s) = md_trace s -> wpm k (f tt) (g s) Q -> wpm k (put g ≫= f) s Q.
Proof. intros Ht (a & s' & E & (h & Eh & Hh) & HQ). exists a, s'. split_and!; [exact E| |done]. exists h. by rewrite <- Ht. Qed.

Lemma wpm_put_end k g s (Q : unit -> Modem -> Prop) : md_trace (g s) = md_trace s -> Q tt (g s) -> wpm k (put g) s Q.
Proof. intros Ht HQ. exists tt, (g s). split_and!; [done| |done]. exists []. split_and!; [done|done|unfold total_cost; simpl; lia]. Qed.

Lemma wpm_run {A B} k (o : outcome A) (f : A -> ST Modem B) s a Q :
  o = Ret a -> wpm k (f a) s Q -> wpm k (run o ≫= f) s Q.
Proof. intros ->. done. Qed.

(** The statics apart from the trace. *)
Definition traced (h : list call) (m : Modem) : Modem :=
  mkModem h (s_ppp_eg m) (s_ue_info m) (s_ue_valid m) (s_ppp_netif m) (s_acc m) (ul_body m).

Lemma wpm_call {A B} j k c (g : list call -> A) (f : A -> ST Modem B) s Q :
  ok c -> (cost c + j <= k)%nat ->
  wpm j (f (g (c :: md_trace s))) (traced (c :: md_trace s) s) Q -> wpm k (md_call c g ≫= f) s Q.
Proof.
  intros Hc Hle (a & s' & E & (h & Eh & Hh & Hk) & HQ). exists a, s'. split_and!; [exact E| |done].
  exists (h ++ [c]). cbn [traced md_trace] in Eh. rewrite Eh, <- app_assoc. split_and!; [done|apply Forall_app; by auto|].
  unfold total_cost in *. rewrite fmap_app, sum_app. simpl. lia.
Qed.

Lemma wpm_call_end {A} c (g : list call -> A) s (Q : A -> Modem -> Prop) :
  ok c -> Q (g (c :: md_trace s)) (traced (c :: md_trace s) s) -> wpm (cost c) (md_call c g) s Q.
Proof.
  intros Hc HQ. eexists _, _. split_and!; [reflexivity| |exact HQ]. exists [c]. split_and!; [done|by constructor|].
  unfold total_cost. simpl. lia.
Qed.
End calculus.

(** A call that is allowed, leaving cost [j] for the rest. *)
Ltac mcall j := eapply (wpm_call _ _ j); [done|simpl; lia|].

(** ** Geolocation *)

Section city.
Context `{Platform} (token : bytes).

Definition performs (c : call) : nat := match c with HttpPerform => 1 | _ => 0 end.

(** The requests of the geolocation: the payload of the cell, to one address;
    no task is created. *)
Definition ul_call (payload : bytes) (c : call) : Prop :=
  match c with
  | HttpSetPostField b => b = payload
  | UlHttpInit u _ => u = UNWIRED_URL
  | HttpSetUrl _ | HttpSetMethod _ | HttpInit _ | NewChar _ | ModemAt _ _ | ModemCommand _ _ => False
  | EspApi name _ => bytes_eqb name (STR "xTaskCreate sensor_task") = false
  | _ => True
  end.

(** The size of [ul_body]. *)
Definition ul_size : nat := Z.to_nat UL_BODY_MAX.
Lemma ul_size_Z : Z.of_nat ul_size = UL_BODY_MAX.
Proof. unfold ul_size, UL_BODY_MAX. lia. Qed.
Lemma ul_size_pos : (0 < ul_size)%nat.
Proof. unfold ul_size, UL_BODY_MAX. lia. Qed.
#[local] Opaque ul_size.

(** What a step keeps: the cell and the handles. *)
Definition same_cell (m m' : Modem) : Prop :=
  s_ue_info m' = s_ue_info m /\ s_ue_valid m' = s_ue_valid m /\ s_ppp_netif m' = s_ppp_netif m.

Context (payload : bytes).
#[local] Abbreviation wpu := (wpm (ul_call payload) performs).

Lemma dns_step s (Q : unit -> Modem -> Prop) :
  (forall h, Q tt (traced h s)) -> wpu 0 force_public_dns s Q.
Proof.
  intros HQ. unfold force_public_dns, esp. do 2 (mcall 0%nat). apply wpm_get.
  cbn [traced s_ppp_netif]. destruct (s_ppp_netif s); [|apply wpm_ret, HQ].
  do 2 (mcall 0%nat). apply wpm_ret, HQ.
Qed.

Lemma ul_request_ok s (Q : option (Z * Z * Z) -> Modem -> Prop) :
  (forall r s', same_cell s s' -> text_buf ul_size (ul_body s') -> Q r s') -> wpu 1 (ul_request payload) s Q.
Proof.
  intros HQ. unfold ul_request. pose proof (filled_nil ul_size ul_size_pos) as Hz0. rewrite ul_size_Z in Hz0.
  pose proof (filled_text_buf _ _ _ _ Hz0) as Hz. revert Hz0 Hz. generalize (zeros UL_BODY_MAX). intros z Hz0 Hz.
  apply wpm_put; [reflexivity|]. mcall 1%nat.
  apply (wpm_bind _ _ 0 1), dns_step. intros h. apply wpm_get. cbn [traced set_body_buf s_ppp_netif].
  apply (wpm_bind _ _ 0 1). eapply (wpm_mono _ _ 0 0 _ _ (fun _ s' => exists h', s' = traced h' (set_body_buf z s)));
    [|done|].
  { destruct (s_ppp_netif s); [mcall 0%nat|]; apply wpm_ret; by eexists. }
  intros _ s1 [h1 ->]. mcall 1%nat.
  match goal with |- context [negb ?b] => destruct b end; cbn [negb].
  2: { apply (wpm_mono _ _ 0 1 _ _ Q); [|lia|done]. apply wpm_ret, HQ; [done|exact Hz]. }
  mcall 1%nat. mcall 1%nat. mcall 1%nat.
  mcall 0%nat. destruct (http_perform _) as [evts err]. apply wpm_get.
  cbn [traced set_body_buf ul_body].
  destruct (ul_events_ok ul_size evts [] z 0 ul_size_pos Hz0) as (b & k & E & Hb).
  rewrite ul_size_Z in E.
  eapply wpm_run; [exact E|]. apply wpm_put; [reflexivity|].
  do 4 (mcall 0%nat). apply wpm_ret, HQ; [done|]. by eapply filled_text_buf.
Qed.

Context (n1 n2 : nat) (Hn1 : (0 < n1)%nat) (Hn2 : (0 < n2)%nat).

(** The verdict of the attempts, and the buffers. *)
Definition located (r : Z * bytes * bytes) : Prop :=
  let '(e, city, state) := r in
  text_buf n1 city /\ text_buf n2 state /\
  (e = ESP_OK -> (exists c s, cstr city = Some (c :: s)) \/ exists c s, cstr state = Some (c :: s)).

Lemma ul_loop_ok tries attempt last_err city state s :
  text_buf n1 city -> text_buf n2 state ->
  wpu tries (ul_loop tries attempt last_err payload city (Z.of_nat n1) state (Z.of_nat n2)) s
    (fun r s' => located r /\ same_cell s s').
Proof.
  revert attempt last_err city state s. induction tries as [|tries IH]; intros attempt last_err city state s Hc Hs.
  { apply wpm_ret. split; [|done]. split; [done|]. split; [done|]. destruct (Z.eqb_spec last_err 0); [done|].
    unfold ESP_OK. lia. }
  cbn [ul_loop]. apply (wpm_bind _ _ 1 tries), ul_request_ok. intros r s1 K1 Hb.
  assert (forall attempt last_err city state h, text_buf n1 city -> text_buf n2 state ->
    wpu tries (ul_loop tries attempt last_err payload city (Z.of_nat n1) state (Z.of_nat n2)) (traced h s1)
    (fun r s' => located r /\ same_cell s s')) as Hnext.
  { intros a l c t h Hc' Ht'. eapply wpm_mono; [by apply IH|done|]. intros r' s2 [Hr K2]. split; [done|].
    destruct K1 as (A1 & A2 & A3), K2 as (B1 & B2 & B3). unfold same_cell. rewrite B1, B2, B3. done. }
  destruct r as [[[err status] len]|].
  - apply wpm_get. set (b := ul_body s1) in *.
    assert (exists found city' state', (if (err =? ESP_OK) && (status =? 200) && (0 <? len)
              then read_answer b city (Z.of_nat n1) state (Z.of_nat n2) else Ret (false, city, state)) =
              Ret (found, city', state') /\ text_buf n1 city' /\ text_buf n2 state' /\
              (found = true -> (exists c s, cstr city' = Some (c :: s)) \/ exists c s, cstr state' = Some (c :: s)))
      as (found & city' & state' & E & Hc' & Hs' & Hf).
    { destruct (_ && _); [by eapply read_answer_ok|by exists false, city, state]. }
    eapply wpm_run; [exact E|]. destruct found.
    + apply (wpm_mono _ _ 0 tries _ _ (fun r s' => located r /\ same_cell s s')); [|lia|done].
      apply wpm_ret. split; [|done]. split; [done|]. split; [done|]. intros _. by apply Hf.
    + mcall tries. by apply Hnext.
  - mcall tries. by apply Hnext.
Qed.
End city.

(** ** AT commands *)

Section at_commands.
Context `{Platform}.

(** The texts [esp_modem_at] stores: shorter than the 128 bytes the C interface
    of the modem library guarantees, without NUL. *)
Definition answers_fit : Prop :=
  forall h t, (modem_at h).2 = Some t -> (length t < 128)%nat /\ 0 ∉ t.
Context (Hfit : answers_fit).

Definition asks (c : call) : nat := match c with ModemAt _ _ => 1 | _ => 0 end.

(** Only this command, and delays. *)
Definition only_asks (cmd : bytes) (c : call) : Prop :=
  match c with ModemAt x _ => x = cmd | TaskDelay _ => True | _ => False end.

Lemma esp_modem_at_ok cmd timeout n out s (Q : Z * bytes -> Modem -> Prop) :
  (128 <= n)%nat -> text_buf n out ->
  (forall e out' h, text_buf n out' -> Q (e, out') (traced h s)) ->
  wpm (only_asks cmd) asks 1 (esp_modem_at cmd timeout out) s Q.
Proof.
  intros Hn [Hl Ht] HQ. unfold esp_modem_at. mcall 0%nat. set (h := _ :: _).
  pose proof (Hfit h) as Ha. destruct (modem_at h) as [e [t|]]; [|by apply wpm_ret, HQ].
  destruct (Ha t eq_refl) as [Hlen H0]. destruct (write_text t out H0) as (b & E & Lb & Cb); [lia|].
  eapply wpm_run; [exact E|]. apply wpm_ret, HQ. split; [lia|by eexists].
Qed.

Lemma c_string_ok n b : text_buf n b -> exists s, c_string b = Ret s /\ cstr b = Some s.
Proof. intros [_ [s Hs]]. exists s. unfold c_string. by rewrite Hs. Qed.

Lemma cereg_loop_ok fuel k elapsed timeout_ms poll_ms out s :
  (k < fuel)%nat -> timeout_ms - elapsed <= Z.of_nat k * poll_ms -> 0 < poll_ms -> text_buf 128 out ->
  wpm (only_asks (STR "AT+CEREG?" ++ [13])) asks k (cereg_loop fuel elapsed timeout_ms poll_ms out) s
    (fun e s' => (e = ESP_OK \/ e = ESP_ERR_TIMEOUT) /\ exists h, s' = traced h s).
Proof.
  revert k elapsed out s. induction fuel as [|fuel IH]; intros k elapsed out s Hk Hle Hp Ht; [lia|]. cbn [cereg_loop].
  destruct (Z.ltb_spec elapsed timeout_ms) as [Hlt|Hge].
  - destruct k as [|k]; [lia|]. rewrite Nat2Z.inj_succ, Z.mul_succ_l in Hle.
    apply (wpm_bind _ _ 1 k), (esp_modem_at_ok _ 2000 128); [lia|done|].
    intros e out' h Ht'. destruct (c_string_ok 128 out' Ht') as (t & E & _). eapply wpm_run; [exact E|].
    destruct (_ && _).
    + eapply (wpm_mono _ _ 0); [apply wpm_ret with (Q := fun e s' => (e = ESP_OK \/ e = ESP_ERR_TIMEOUT) /\ exists h, s' = traced h s)|lia|done].
      split; [by left|by eexists].
    + mcall k. eapply wpm_mono; [apply (IH k); [lia|lia|done|done]|done|]. intros e' s' [He [h' ->]].
      split; [done|]. by exists h'.
  - destruct (c_string_ok 128 out Ht) as (t & E & _). eapply wpm_run; [exact E|].
    eapply (wpm_mono _ _ 0); [apply wpm_ret with (Q := fun e s' => (e = ESP_OK \/ e = ESP_ERR_TIMEOUT) /\ exists h, s' = traced h s)|lia|done].
    split; [by right|by exists (md_trace s); destruct s].
Qed.

(** What the retries leave: on success a text that looks valid, as far as it
    fits. *)
Definition cpsi_result (n : nat) (r : Z * bytes) : Prop :=
  text_buf n r.2 /\ (r.1 = ESP_OK -> exists t, cpsi_se_ve_valido t = true /\ cstr r.2 = Some (take (n - 1) t)).

Lemma strlcpy_ok n t out : text_buf n out -> (0 < n)%nat -> 0 ∉ t ->
  exists out', strlcpy (Z.of_nat n) t out = Ret out' /\ text_buf n out' /\ cstr out' = Some (take (n - 1) t).
Proof.
  intros [Hl _] Hn Ht. destruct (snprintf_ok t out) as (b & E & Lb & Cb); [by apply no_nul_elem|lia|].
  rewrite Hl in *. exists b. split; [exact E|]. split; [split; [done|by eexists]|done].
Qed.

Lemma cpsi_loop_ok tries i delay_ms last out out_final n s :
  (0 < n)%nat -> text_buf 256 out -> text_buf n out_final ->
  wpm (only_asks (STR "AT+CPSI?" ++ [13])) asks tries
    (cpsi_loop tries i delay_ms last out out_final (Z.of_nat n)) s
    (fun r s' => cpsi_result n r /\ exists h, s' = traced h s).
Proof.
  intros Hn. revert i last out s. induction tries as [|tries IH]; intros i last out s Ho Hf; cbn [cpsi_loop].
  - destruct (c_string_ok 256 out Ho) as (t & E & Ct). eapply wpm_run; [exact E|]. rewrite (proj2 (Z.eqb_neq (Z.of_nat n) 0)) by lia.
    destruct (strlcpy_ok n t out_final Hf Hn) as (out' & E' & Ht' & _); [by apply cstr_Some in Ct as (? & _ & ?)|].
    eapply wpm_run; [exact E'|]. apply wpm_ret. split; [|by exists (md_trace s); destruct s].
    split; [done|]. cbn [fst]. destruct (Z.eqb_spec last ESP_OK) as [|Hl]; [done|]. by intros ?%Hl.
  - apply (wpm_bind _ _ 1 tries), (esp_modem_at_ok _ 12000 256); [lia|by apply (zeros_text_buf 256); lia|].
    intros e out' h Ht'. destruct (c_string_ok 256 out' Ht') as (t & E & Ct). eapply wpm_run; [exact E|].
    destruct ((e =? ESP_OK) && cpsi_se_ve_valido t) eqn:Ev.
    + apply andb_true_iff in Ev as [_ Ev]. rewrite (proj2 (Z.eqb_neq (Z.of_nat n) 0)) by lia.
      destruct (strlcpy_ok n t out_final Hf Hn) as (o & E' & Ho' & Co); [by apply cstr_Some in Ct as (? & _ & ?)|].
      eapply wpm_run; [exact E'|].
      eapply (wpm_mono _ _ 0); [apply wpm_ret with (Q := fun r s' => cpsi_result n r /\ exists h, s' = traced h s)|lia|done].
      split; [|by eexists]. split; [done|]. intros _. by exists t.
    + mcall tries. eapply wpm_mono; [by apply IH|done|]. intros r s' [Hr [h' ->]]. split; [done|]. by exists h'.
Qed.
End at_commands.

(** The whole operation, from the two requests to clear the buffers on. *)
Lemma city_state_ok `{Platform} token city state n1 n2 m :
  (0 < n1)%nat -> (0 < n2)%nat -> length city = n1 -> length state = n2 ->
  exists e city' state' m',
    modem_unwiredlabs_city_state token city (Z.of_nat n1) state (Z.of_nat n2) m = Ret ((e, city', state'), m') /\
    text_buf n1 city' /\ text_buf n2 state' /\ same_cell m m' /\
    (exists h, md_trace m' = h ++ md_trace m /\ Forall (ul_call (ul_payload token (s_ue_info m))) h /\
               (total_cost performs h <= 5)%nat) /\
    (e = ESP_OK -> s_ue_valid m = true /\ token <> [] /\
       ((exists c s, cstr city' = Some (c :: s)) \/ exists c s, cstr state' = Some (c :: s))).
Proof.
  intros Hn1 Hn2 Hc Hs.
  assert (forall n b, (0 < n)%nat -> length b = n -> exists b', clear_first b (Z.of_nat n) = Ret b' /\ text_buf n b') as Hclear.
  { intros n b Hn Hb. unfold clear_first. rewrite (proj2 (Z.eqb_neq _ _)) by lia.
    destruct (mem_write_ok 0 [0] b) as (b' & E & L & B); [lia|change (length [0%Z]) with 1%nat; lia|].
    exists b'. split; [done|]. split; [lia|]. rewrite B. change (Z.to_nat 0) with 0%nat. rewrite take_0. by eexists. }
  destruct (Hclear n1 city Hn1 Hc) as (c0 & E1 & T1). destruct (Hclear n2 state Hn2 Hs) as (s0 & E2 & T2).
  assert (forall e, e <> ESP_OK -> exists e0 city' state' m', Ret ((e, c0, s0), m) = Ret ((e0, city', state'), m') /\
    text_buf n1 city' /\ text_buf n2 state' /\ same_cell m m' /\
    (exists h, md_trace m' = h ++ md_trace m /\ Forall (ul_call (ul_payload token (s_ue_info m))) h /\
               (total_cost performs h <= 5)%nat) /\
    (e0 = ESP_OK -> s_ue_valid m = true /\ token <> [] /\
       ((exists c s, cstr city' = Some (c :: s)) \/ exists c s, cstr state' = Some (c :: s)))) as Hearly.
  { intros e He. exists e, c0, s0, m. split_and!; [done..| |done]. exists []. split_and!; [done|done|unfold total_cost; simpl; lia]. }
  unfold modem_unwiredlabs_city_state.
  rewrite (ST_bind_Ret (run _) _ m c0 m) by (unfold run; by rewrite E1).
  rewrite (ST_bind_Ret (run _) _ m s0 m) by (unfold run; by rewrite E2). rewrite get_bind.
  destruct (s_ue_valid m) eqn:Ev; cbn [negb]; [|by apply Hearly].
  destruct (bool_decide (token = [])) eqn:Etok; [by apply Hearly|]. apply bool_decide_eq_false in Etok. cbv zeta.
  destruct (256 <=? _); [by apply Hearly|].
  destruct (ul_loop_ok (ul_payload token (s_ue_info m)) n1 n2 Hn1 Hn2 UL_ATTEMPTS 1 ESP_FAIL c0 s0 m T1 T2)
    as ([[e city'] state'] & m' & E & Htr & (Tc & Ts & Hok) & Hcell).
  exists e, city', state', m'. split_and!; [exact E|done|done|done|exact Htr|]. intros He. split_and!; [done|done|by apply Hok].
Qed.

(** ** Properties *)

(** A cell the firmware may use. *)
Definition cell_ok (u : modem_ue_info_t) : Prop :=
  100 <= mcc u <= 999 /\ 0 <= mnc u <= 999 /\ in_u 32 (tac u) /\ in_u 32 (cell_id u) /\ valid u = true.

Lemma parse_cpsi_cases line :
  match parse_cpsi_line line with
  | Ret (true, u) => cell_ok u
  | Ret (false, u) => valid u = false
  | Undef msg => msg = "atoi: out of range"%string
  | _ => False
  end.
Proof.
  unfold parse_cpsi_line. cbv zeta. set (s := match strstr _ _ with Some _ => _ | None => _ end).
  pose proof (cpsi_tokens_safe (S (length s)) 0 s ue_zero ltac:(lia) ltac:(unfold in_u; simpl; lia)
                ltac:(unfold in_u; simpl; lia) eq_refl) as Hs.
  destruct (cpsi_tokens _ _ _ _) as [[o|o]| | |]; [exact Hs| |done|exact Hs|done]. rewrite Ret_bind. destruct Hs as (Hv & Ht & Hc).
  destruct ((mcc o <? 100) || (999 <? mcc o)) eqn:E1; [exact Hv|].
  destruct ((mnc o <? 0) || (999 <? mnc o)) eqn:E2; [exact Hv|]. bool_to_prop. unfold cell_ok. simpl. lia || (split_and!; done || lia).
Qed.

(** The cell, from the answer to [AT+CPSI]. *)
Lemma read_cell_ok `{Platform} m :
  answers_fit ->
  match read_cell m with
  | Ret (_, m') =>
      (exists h, md_trace m' = h ++ md_trace m /\ Forall (only_asks (STR "AT+CPSI?" ++ [13])) h /\
                 (total_cost asks h <= 3)%nat) /\
      (s_ue_valid m' = true -> cell_ok (s_ue_info m') /\
         exists text, cpsi_se_ve_valido text = true /\ parse_cpsi_line text = Ret (true, s_ue_info m'))
  | Undef msg => msg = "atoi: out of range"%string
  | _ => False
  end.
Proof.
  intros Hfit. unfold read_cell.
  destruct (cpsi_loop_ok Hfit 3 0 700 ESP_FAIL (zeros 256) (zeros 128) 128 m) as ([e cpsi] & m1 & E & Htr & Hr & h1 & ->);
    [lia|by apply (zeros_text_buf 256); lia|by apply (zeros_text_buf 128); lia|].
  change (cpsi_loop 3 0 700 ESP_FAIL (zeros 256) (zeros 128) (Z.of_nat 128)) with
    (cpsi_con_reintentos (zeros 128) 128 3 700) in E.
  rewrite (ST_bind_Ret _ _ _ _ _ E). destruct Hr as [Ht Hok]. cbn [fst snd] in *.
  destruct (c_string_ok 128 cpsi Ht) as (text & Et & Ct).
  rewrite (ST_bind_Ret (run (c_string cpsi)) _ _ text (traced h1 m)) by (unfold run; by rewrite Et).
  destruct (Z.eqb_spec e ESP_OK) as [He|He].
  2: { split; [exact Htr|done]. }
  pose proof (parse_cpsi_cases text) as Hp. unfold run. unfold mbind at 1, ST_bind at 1.
  destruct (parse_cpsi_line text) as [[ok info]| | |] eqn:Ep; [|done|exact Hp|done]. rewrite !Ret_bind.
  destruct (ok && cpsi_se_ve_valido text) eqn:Ev.
  - apply andb_true_iff in Ev as [-> Ev]. split; [exact Htr|]. intros _. split; [exact Hp|]. by exists text.
  - split; [exact Htr|done].
Qed.

(** The wait for the registration. *)
Lemma esperar_cereg_ok `{Platform} timeout_ms poll_ms m :
  answers_fit -> 0 <= timeout_ms -> 0 < poll_ms ->
  exists e m', esperar_cereg timeout_ms poll_ms m = Ret (e, m') /\ (e = ESP_OK \/ e = ESP_ERR_TIMEOUT) /\
    exists h, m' = traced (h ++ md_trace m) m /\ Forall (only_asks (STR "AT+CEREG?" ++ [13])) h /\
      Z.of_nat (total_cost asks h) <= (timeout_ms + poll_ms - 1) / poll_ms.
Proof.
  intros Hfit Ht Hp. set (k := Z.to_nat ((timeout_ms + poll_ms - 1) / poll_ms)).
  assert (0 <= (timeout_ms + poll_ms - 1) / poll_ms) as Hk0 by (apply Z.div_pos; lia).
  assert ((timeout_ms + poll_ms - 1) / poll_ms <= timeout_ms / poll_ms + 1) as Hk1.
  { replace (timeout_ms / poll_ms + 1) with ((timeout_ms + 1 * poll_ms) / poll_ms) by (by rewrite Z.div_add by lia).
    apply Z.div_le_mono; lia. }
  assert (timeout_ms <= (timeout_ms + poll_ms - 1) / poll_ms * poll_ms) as Hk2.
  { pose proof (Z.div_mod (timeout_ms + poll_ms - 1) poll_ms ltac:(lia)).
    pose proof (Z.mod_pos_bound (timeout_ms + poll_ms - 1) poll_ms Hp). lia. }
  destruct (cereg_loop_ok Hfit (S (Z.to_nat (timeout_ms / poll_ms + 1))) k 0 timeout_ms poll_ms (zeros 128) m)
    as (e & m' & E & (h & Eh & Hh & Hc) & He & h' & ->);
    [unfold k; lia|unfold k; rewrite Z2Nat.id by done; lia|done|by apply (zeros_text_buf 128); lia|].
  exists e, (traced h' m). split; [exact E|]. split; [exact He|]. exists h. cbn [traced md_trace] in Eh. subst h'.
  split; [done|]. split; [exact Hh|]. unfold k in Hc. lia.
Qed.

(** C22: the cell of a [+CPSI] line is read exactly: whatever precedes the prefix
    and follows the cell, the country and network codes, the area code in
    hexadecimal and the cell number in decimal come back as they were printed,
    network codes with leading zeros included. *)
Theorem cpsi_line_read pre mode op u w tail :
  Forall (fun c => c <> CH "+") pre -> mode <> [] -> (CH "," ∉ mode) -> op <> [] -> (CH "," ∉ op) ->
  100 <= mcc u <= 999 -> 0 <= mnc u <= 999 -> in_u 32 (tac u) -> in_u 32 (cell_id u) ->
  (length (cpsi_line pre mode op u w tail) <= 255)%nat ->
  parse_cpsi_line (cpsi_line pre mode op u w tail) =
  Ret (true, mkUe (mcc u) (mnc u) (tac u) (cell_id u) true).
Proof.
  intros Hp Hm Hmc Ho Hoc Hmcc Hmnc Ht Hc Hl. unfold parse_cpsi_line. cbv zeta. rewrite take_ge by done.
  unfold cpsi_line. set (rest := mode ++ _).
  rewrite (strstr_skip pre (STR "+CPSI:") rest);
    [|eapply Forall_impl; [exact Hp|]; intros c Hcp [= E]; by apply Hcp|done].
  change (drop 6 (STR "+CPSI:" ++ rest)) with rest. unfold rest.
  rewrite cpsi_tokens_line; try done; [|lia|].
  - rewrite Ret_bind. cbn [mcc mnc tac cell_id valid]. zbool. done.
  - rewrite !length_app. cbn [length]. lia.
Qed.

Definition demo_cell : modem_ue_info_t := mkUe 334 20 0x232 43790378 false.

Lemma cpsi_line_read_witness :
  cpsi_line [13; 10] (STR " LTE") (STR "Online") demo_cell 3 (STR "55,EUTRAN-BAND5,2550,5,0,28,71") =
    [13; 10] ++ STR "+CPSI: LTE,Online,334-020,0x232,43790378,55,EUTRAN-BAND5,2550,5,0,28,71" /\
  parse_cpsi_line (cpsi_line [13; 10] (STR " LTE") (STR "Online") demo_cell 3 (STR "55,EUTRAN-BAND5,2550,5,0,28,71")) =
    Ret (true, mkUe 334 20 0x232 43790378 true).
Proof.
  split; [vm_compute; reflexivity|].
  apply (cpsi_line_read [13; 10] (STR " LTE") (STR "Online") demo_cell 3 (STR "55,EUTRAN-BAND5,2550,5,0,28,71")).
  - repeat constructor; discriminate.
  - discriminate.
  - intros Hin. by repeat (apply elem_of_cons in Hin as [Hin|Hin]; [discriminate|]); apply not_elem_of_nil in Hin.
  - discriminate.
  - intros Hin. by repeat (apply elem_of_cons in Hin as [Hin|Hin]; [discriminate|]); apply not_elem_of_nil in Hin.
  - simpl. lia.
  - simpl. lia.
  - vm_compute. split; [discriminate|reflexivity].
  - vm_compute. split; [discriminate|reflexivity].
  - vm_compute. lia.
Defined.

(** C39: reading the cell ends after at most three [AT+CPSI] commands and leaves
    a cell marked valid only when it is one: codes in their ranges, area and
    cell numbers of 32 bits, parsed from an answer that passed the validity
    test.  The only operation of it the language leaves undefined is [atoi] of
    a code beyond the range of [int]. *)
Theorem read_cell_spec `{Platform} m :
  answers_fit ->
  match read_cell m with
  | Ret (_, m') =>
      (exists h, md_trace m' = h ++ md_trace m /\ Forall (only_asks (STR "AT+CPSI?" ++ [13])) h /\
                 (total_cost asks h <= 3)%nat) /\
      (s_ue_valid m' = true -> cell_ok (s_ue_info m') /\
         exists text, cpsi_se_ve_valido text = true /\ parse_cpsi_line text = Ret (true, s_ue_info m'))
  | Undef msg => msg = "atoi: out of range"%string
  | _ => False
  end.
Proof. apply read_cell_ok. Qed.

(** A modem that is registered and sees one cell. *)
Definition demo_modem : Platform := {|
  http_init := fun _ => true;
  http_set := fun _ => ESP_OK;
  http_perform := fun _ => ([HTTP_EVENT_ON_DATA (Some (STR "{" ++ [dquote] ++ STR "status" ++ [dquote] ++ STR ":" ++ [dquote] ++ STR "ok" ++ [dquote] ++
                              STR "," ++ [dquote] ++ STR "address" ++ [dquote] ++ STR ":{" ++ [dquote] ++ STR "city" ++ [dquote] ++ STR ":" ++ [dquote] ++ STR "Leon, Gto" ++ [dquote] ++ STR "}}"))], ESP_OK);
  http_get_status_code := fun _ => 200;
  time := fun _ => 1700000000;
  timer_get_time := fun _ => 0;
  new_char := fun _ _ => 0;
  i2c_err := fun _ => ESP_OK;
  i2c_data := fun _ _ => 0;
  modem_at := fun h => match h with
                       | ModemAt (65 :: 84 :: 43 :: 67 :: 80 :: _) _ :: _ =>
                           (ESP_OK, Some (STR "+CPSI: LTE,Online,334-020,0x232,43790378,55,EUTRAN-BAND5,2550,5,0,28,71"))
                       | _ => (ESP_OK, Some (STR "+CEREG: 0,1"))
                       end;
  modem_command := fun _ => (ESP_OK, [STR "OK"]);
  dns_info := fun _ => (0, 1);
  api := fun _ => ESP_OK
|}.

Lemma demo_modem_fits : @answers_fit demo_modem.
Proof.
  assert (forall b : bytes, forallb (fun c => negb (c =? 0)) b = true -> 0 ∉ b) as Hnul.
  { intros b Hb Hin. rewrite forallb_forall in Hb. apply list_elem_of_In in Hin. by specialize (Hb 0 Hin). }
  assert (forall h, (@modem_at demo_modem h).2 = Some (STR "+CEREG: 0,1") \/
    (@modem_at demo_modem h).2 = Some (STR "+CPSI: LTE,Online,334-020,0x232,43790378,55,EUTRAN-BAND5,2550,5,0,28,71")) as Hc.
  { intros h. cbn [modem_at demo_modem]. repeat (case_match; try by left). by right. }
  intros h t Ht. destruct (Hc h) as [E|E]; rewrite E in Ht; injection Ht as <-;
    (split; [vm_compute; lia|by apply Hnul]).
Qed.

Lemma read_cell_spec_witness :
  let p := demo_modem in
  exists m', read_cell (modem_init []) = Ret (tt, m') /\ cell_ok (s_ue_info m') /\ tac (s_ue_info m') = 0x232.
Proof.
  intros p. pose proof (read_cell_spec (modem_init []) demo_modem_fits) as Hs.
  assert (match read_cell (modem_init []) with
          | Ret (_, m') => s_ue_valid m' && (tac (s_ue_info m') =? 0x232) | _ => false end = true) as Hv
    by (vm_compute; reflexivity).
  destruct (read_cell (modem_init [])) as [[[] m']| | |]; [|discriminate Hv..].
  apply andb_true_iff in Hv as [Hv Ht]. exists m'. split; [reflexivity|]. destruct Hs as [_ Hs].
  split; [exact (proj1 (Hs Hv))|by apply Z.eqb_eq].
Defined.

(** Waiting for the registration ends: [esperar_cereg] answers [ESP_OK] or
    [ESP_ERR_TIMEOUT] after at most [timeout_ms / poll_ms] questions, rounded
    up, whatever the modem says. *)
Theorem esperar_cereg_spec `{Platform} timeout_ms poll_ms m :
  answers_fit -> 0 <= timeout_ms -> 0 < poll_ms ->
  exists e m', esperar_cereg timeout_ms poll_ms m = Ret (e, m') /\ (e = ESP_OK \/ e = ESP_ERR_TIMEOUT) /\
    exists h, m' = traced (h ++ md_trace m) m /\ Forall (only_asks (STR "AT+CEREG?" ++ [13])) h /\
      Z.of_nat (total_cost asks h) <= (timeout_ms + poll_ms - 1) / poll_ms.
Proof. apply esperar_cereg_ok. Qed.

Lemma esperar_cereg_spec_witness :
  let p := demo_modem in
  exists e m', esperar_cereg 15000 500 (modem_init []) = Ret (e, m') /\ (e = ESP_OK \/ e = ESP_ERR_TIMEOUT).
Proof.
  intros p. destruct (esperar_cereg_spec 15000 500 (modem_init [])) as (e & m' & E & He & _).
  - exact demo_modem_fits.
  - lia.
  - lia.
  - exists e, m'. split; [exact E|exact He].
Defined.

(** C40: both receivers stay inside their buffers: after any pieces of an answer,
    [at_acc_cb] on its 64 bytes and [ul_http_evt] on its 4096 bytes have stored
    everything received as far as it fits, terminated. *)
Theorem receivers_accumulate pieces evts :
  (0 ∉ concat pieces) -> (0 ∉ evts ≫= event_data) ->
  (exists b used, acc_data pieces (mkAcc (Some (zeros 64)) 64 0) = Ret (mkAcc (Some b) 64 used) /\
     length b = 64%nat /\ cstr b = Some (take 63 (concat pieces))) /\
  (exists b len, ul_events evts (mkUl (zeros UL_BODY_MAX) UL_BODY_MAX 0) = Ret (mkUl b UL_BODY_MAX len) /\
     Z.of_nat (length b) = UL_BODY_MAX /\ cstr b = Some (take (Z.to_nat (UL_BODY_MAX - 1)) (evts ≫= event_data))).
Proof.
  intros Hp He. split.
  - destruct (acc_data_ok 64 pieces [] (zeros 64) 0) as (b & k & E & Hf); [lia|lia|by apply (filled_nil 64); lia|].
    exists b, k. split; [exact E|]. split; [exact (proj1 Hf)|]. exact (filled_cstr _ _ _ _ Hf Hp).
  - destruct (ul_events_ok ul_size evts [] (zeros UL_BODY_MAX) 0) as (b & k & E & Hf);
      [apply ul_size_pos|rewrite <- ul_size_Z; apply filled_nil, ul_size_pos|].
    rewrite ul_size_Z in E. exists b, k. split; [exact E|]. split; [by rewrite (proj1 Hf), ul_size_Z|].
    replace (Z.to_nat (UL_BODY_MAX - 1)) with (ul_size - 1)%nat by (rewrite <- ul_size_Z; lia).
    exact (filled_cstr _ _ _ _ Hf He).
Qed.

Lemma receivers_accumulate_witness :
  exists b used, acc_data [STR "AT"; repeat 65%Z 80] (mkAcc (Some (zeros 64)) 64 0) = Ret (mkAcc (Some b) 64 used) /\
    cstr b = Some (STR "AT" ++ repeat 65%Z 61).
Proof.
  destruct (receivers_accumulate [STR "AT"; repeat 65%Z 80] []) as [(b & used & E & _ & C) _].
  - intros Hin. apply list_elem_of_In in Hin. vm_compute in Hin.
    repeat (destruct Hin as [Hin|Hin]; [discriminate|]). done.
  - apply not_elem_of_nil.
  - exists b, used. split; [exact E|]. rewrite C. vm_compute. reflexivity.
Defined.

(** C11: the geolocation always ends: after at most five requests, each the
    payload of the cell sent to one address, with both texts terminated in
    their buffers; and it reports success only with a city or a state in them. *)
Theorem city_state_spec `{Platform} token city state n1 n2 m :
  (0 < n1)%nat -> (0 < n2)%nat -> length city = n1 -> length state = n2 ->
  exists e city' state' m',
    modem_unwiredlabs_city_state token city (Z.of_nat n1) state (Z.of_nat n2) m = Ret ((e, city', state'), m') /\
    text_buf n1 city' /\ text_buf n2 state' /\ same_cell m m' /\
    (exists h, md_trace m' = h ++ md_trace m /\ Forall (ul_call (ul_payload token (s_ue_info m))) h /\
               (total_cost performs h <= 5)%nat) /\
    (e = ESP_OK -> s_ue_valid m = true /\ token <> [] /\
       ((exists c s, cstr city' = Some (c :: s)) \/ exists c s, cstr state' = Some (c :: s))).
Proof. apply city_state_ok. Qed.

Lemma city_state_spec_witness :
  let p := demo_modem in
  let m := set_ue (mkUe 334 20 0x232 43790378 true) true (modem_init []) in
  exists e city' state' m',
    modem_unwiredlabs_city_state (STR "pk") (zeros 64) (Z.of_nat 64) (zeros 64) (Z.of_nat 64) m =
      Ret ((e, city', state'), m') /\ text_buf 64 city' /\ text_buf 64 state'.
Proof.
  intros p m. destruct (city_state_spec (STR "pk") (zeros 64) (zeros 64) 64 64 m) as (e & c & s & m' & E & Tc & Ts & _).
  - lia.
  - lia.
  - reflexivity.
  - reflexivity.
  - exists e, c, s, m'. split; [exact E|]. split; [exact Tc|exact Ts].
Defined.

(** The registration test looks for the digits anywhere: a modem that reports
    the code with its location (denied, in cell 1A2B) passes it. *)
Lemma cereg_accepts_denied : cereg_registrado (STR "+CEREG: 2,3,1A2B,00000001,7") = true.
Proof. reflexivity. Qed.
