(* ===== verification/Calendar.v ===== *)
(** * Calendar time: [localtime_r] and [strftime] of the C library

    The broken-down time of an epoch in a zone a fixed offset west of UTC (the
    firmware sets TZ to UTC6) and the conversions the firmware formats with.
    The order of times is the order of their broken-down forms, and, within a
    century, the order of the texts used as database keys. *)
From S2P Require Export CLib.
Open Scope Z_scope.

(** ** Broken-down time *)

Record tm := mkTm { tm_year : Z; tm_mon : Z; tm_mday : Z; tm_hour : Z; tm_min : Z; tm_sec : Z }.

Definition leap (y : Z) : bool := (y mod 4 =? 0) && (negb (y mod 100 =? 0) || (y mod 400 =? 0)).

Definition year_days (y : Z) : Z := if leap y then 366 else 365.

Definition month_days (y : Z) : list Z :=
  [31; if leap y then 29 else 28; 31; 30; 31; 30; 31; 31; 30; 31; 30; 31].

(** The year a day falls in, counting from the first day of [y], and the day of
    that year. *)
Fixpoint year_of (fuel : nat) (days y : Z) : Z * Z :=
  match fuel with
  | O => (y, days)
  | S fuel => if days <? year_days y then (y, days) else year_of fuel (days - year_days y) (y + 1)
  end.

(** The month (from 1) and the day of the month (from 1) of a day of the year. *)
Fixpoint month_of (months : list Z) (day m : Z) : Z * Z :=
  match months with
  | [] => (m, day + 1)
  | n :: months => if day <? n then (m, day + 1) else month_of months (day - n) (m + 1)
  end.

(** A day counted from 1970-01-01; the calendar repeats every 400 years. *)
Definition civil (days : Z) : Z * Z * Z :=
  let '(y, day) := year_of 400 (days mod 146097) (1970 + 400 * (days / 146097)) in
  let '(m, d) := month_of (month_days y) day 1 in
  (y, m, d).

(** [tm_year] and [tm_mon] here count from year 0 and month 1. *)
Definition localtime (offset t : Z) : tm :=
  let local := t - offset in
  let '(y, m, d) := civil (local / 86400) in
  let s := local mod 86400 in
  mkTm y m d (s / 3600) (s / 60 mod 60) (s mod 60).

(** ** Text *)

(** A number of two digits. *)
Definition two (n : Z) : bytes := [CH "0" + n / 10; CH "0" + n mod 10].

(** ["%H:%M:%S"] *)
Definition fmt_time (x : tm) : bytes := two (tm_hour x) ++ STR ":" ++ two (tm_min x) ++ STR ":" ++ two (tm_sec x).
(** ["%d-%m-%Y"] *)
Definition fmt_date (x : tm) : bytes :=
  two (tm_mday x) ++ STR "-" ++ two (tm_mon x) ++ STR "-" ++ dec_signed (tm_year x).
(** ["%y-%m-%d_%H-%M-%S"] *)
Definition fmt_key (x : tm) : bytes :=
  two (tm_year x mod 100) ++ STR "-" ++ two (tm_mon x) ++ STR "-" ++ two (tm_mday x) ++ STR "_" ++
  two (tm_hour x) ++ STR "-" ++ two (tm_min x) ++ STR "-" ++ two (tm_sec x).

(** [strftime(buf, max, ...)]: nothing can be said of the buffer when the text
    and its terminator do not fit. *)
Definition strftime (max : Z) (text : bytes) : outcome bytes :=
  if Z.of_nat (length text) <? max then Ret text else Undef "strftime: the text does not fit".

(** ** Ranges *)

Lemma year_days_bounds y : 365 <= year_days y <= 366.
Proof. unfold year_days. destruct (leap y); lia. Qed.

(** The days of [n] years from [y]. *)
Fixpoint span (n : nat) (y : Z) : Z :=
  match n with O => 0 | S n => year_days y + span n (y + 1) end.

Lemma leap_period y k : leap (y + 400 * k) = leap y.
Proof.
  unfold leap. assert (forall d, 0 < d -> 400 mod d = 0 -> (y + 400 * k) mod d = y mod d) as Hm.
  { intros d Hd H4. rewrite Z.add_mod, Z.mul_mod, H4, Z.mul_0_l, Z.mod_0_l, Z.add_0_r, Z.mod_mod by lia. done. }
  rewrite !Hm by (done || lia). done.
Qed.

Lemma span_period n y k : span n (y + 400 * k) = span n y.
Proof.
  revert y. induction n as [|n IH]; intros y; [done|]. cbn [span].
  unfold year_days. rewrite leap_period. replace (y + 400 * k + 1) with (y + 1 + 400 * k) by lia.
  by rewrite IH.
Qed.

Lemma span_400 k : span 400 (1970 + 400 * k) = 146097.
Proof. rewrite span_period. vm_compute. reflexivity. Qed.

Lemma year_of_spec fuel days y :
  0 <= days < span fuel y ->
  let '(y', d) := year_of fuel days y in
  y <= y' < y + Z.of_nat fuel /\ 0 <= d < year_days y'.
Proof.
  revert days y. induction fuel as [|fuel IH]; intros days y Hd; [simpl in Hd; lia|].
  cbn [year_of]. cbn [span] in Hd. destruct (Z.ltb_spec days (year_days y)) as [Hlt|Hge]; [lia|].
  specialize (IH (days - year_days y) (y + 1)). destruct (year_of _ _ _) as [y' d]. lia.
Qed.

(** Later days: later in the same year, or in a later year. *)
Lemma year_of_mono fuel d1 d2 y :
  0 <= d1 < d2 -> d2 < span fuel y ->
  let '(y1, n1) := year_of fuel d1 y in
  let '(y2, n2) := year_of fuel d2 y in
  y1 < y2 \/ y1 = y2 /\ n1 < n2.
Proof.
  revert d1 d2 y. induction fuel as [|fuel IH]; intros d1 d2 y H1 H2; [simpl in H2; lia|].
  cbn [span] in H2. cbn [year_of]. destruct (Z.ltb_spec d1 (year_days y)) as [Ha|Ha].
  - destruct (Z.ltb_spec d2 (year_days y)) as [Hb|Hb]; [lia|].
    pose proof (year_of_spec fuel (d2 - year_days y) (y + 1)) as Hs.
    destruct (year_of fuel (d2 - year_days y) (y + 1)) as [y2 n2]. lia.
  - rewrite (proj2 (Z.ltb_ge d2 _)) by lia. apply IH; lia.
Qed.

Lemma month_of_spec months day m :
  Forall (fun n => 28 <= n <= 31) months -> 0 <= day < foldr Z.add 0 months ->
  let '(m', d) := month_of months day m in m <= m' < m + Z.of_nat (length months) /\ 1 <= d <= 31.
Proof.
  intros Hf. revert day m. induction Hf as [|n months Hn Hf IH]; intros day m Hd; [simpl in Hd; lia|].
  cbn [month_of]. cbn [foldr] in Hd. destruct (Z.ltb_spec day n) as [Hlt|Hge]; [simpl length; lia|].
  specialize (IH (day - n) (m + 1)). destruct (month_of _ _ _) as [m' d]. simpl length. lia.
Qed.

Lemma month_of_mono months d1 d2 m :
  Forall (fun n => 28 <= n <= 31) months -> 0 <= d1 < d2 -> d2 < foldr Z.add 0 months ->
  let '(m1, n1) := month_of months d1 m in
  let '(m2, n2) := month_of months d2 m in
  m1 < m2 \/ m1 = m2 /\ n1 < n2.
Proof.
  intros Hf. revert d1 d2 m. induction Hf as [|n months Hn Hf IH]; intros d1 d2 m H1 H2; [simpl in H2; lia|].
  cbn [foldr] in H2. cbn [month_of]. destruct (Z.ltb_spec d1 n) as [Ha|Ha].
  - destruct (Z.ltb_spec d2 n) as [Hb|Hb]; [lia|].
    pose proof (month_of_spec months (d2 - n) (m + 1) Hf) as Hs.
    destruct (month_of months (d2 - n) (m + 1)) as [m2 n2]. lia.
  - rewrite (proj2 (Z.ltb_ge d2 _)) by lia. apply IH; lia.
Qed.

Lemma month_days_bounds y : Forall (fun n => 28 <= n <= 31) (month_days y).
Proof. unfold month_days. destruct (leap y); repeat constructor; lia. Qed.

Lemma month_days_sum y : foldr Z.add 0 (month_days y) = year_days y.
Proof. unfold month_days, year_days. by destruct (leap y). Qed.

(** Lexicographic order of lists of numbers. *)
Fixpoint lex (a b : list Z) : Prop :=
  match a, b with
  | x :: a, y :: b => x < y \/ x = y /\ lex a b
  | _, _ => False
  end.

Definition date_list (c : Z * Z * Z) : list Z := let '(y, m, d) := c in [y; m; d].

Lemma civil_range days :
  let '(y, m, d) := civil days in
  1970 + 400 * (days / 146097) <= y < 1970 + 400 * (days / 146097) + 400 /\ 1 <= m <= 12 /\ 1 <= d <= 31.
Proof.
  unfold civil. pose proof (Z.mod_pos_bound days 146097 ltac:(lia)) as Hm.
  pose proof (year_of_spec 400 (days mod 146097) (1970 + 400 * (days / 146097))) as Hy.
  rewrite span_400 in Hy. destruct (year_of _ _ _) as [y day]. destruct (Hy Hm) as [H1 H2].
  pose proof (month_of_spec (month_days y) day 1 (month_days_bounds y)) as Hmo.
  rewrite month_days_sum in Hmo. destruct (month_of _ _ _) as [m d]. specialize (Hmo H2). simpl length in Hmo. lia.
Qed.

(** Later days have later dates. *)
Lemma civil_mono d1 d2 : d1 < d2 -> lex (date_list (civil d1)) (date_list (civil d2)).
Proof.
  intros Hlt. pose proof (civil_range d1) as R1. pose proof (civil_range d2) as R2. revert R1 R2.
  assert (d1 / 146097 <= d2 / 146097) as Hq by (apply Z.div_le_mono; lia).
  destruct (Z.eq_dec (d1 / 146097) (d2 / 146097)) as [He|Hne].
  2: { destruct (civil d1) as [[y1 m1] n1], (civil d2) as [[y2 m2] n2]. simpl. lia. }
  intros _ _. unfold civil. rewrite He. set (y0 := 1970 + 400 * (d2 / 146097)).
  pose proof (Z.mod_pos_bound d1 146097 ltac:(lia)). pose proof (Z.mod_pos_bound d2 146097 ltac:(lia)).
  assert (d1 mod 146097 < d2 mod 146097) as Hmod.
  { pose proof (Z.div_mod d1 146097). pose proof (Z.div_mod d2 146097). lia. }
  pose proof (year_of_mono 400 (d1 mod 146097) (d2 mod 146097) y0) as Hy.
  pose proof (year_of_spec 400 (d1 mod 146097) y0) as S1. pose proof (year_of_spec 400 (d2 mod 146097) y0) as S2.
  unfold y0 in Hy, S1, S2. rewrite span_400 in Hy, S1, S2. fold y0 in Hy, S1, S2.
  destruct (year_of 400 (d1 mod 146097) y0) as [y1 n1], (year_of 400 (d2 mod 146097) y0) as [y2 n2].
  specialize (Hy ltac:(lia) ltac:(lia)). specialize (S1 ltac:(lia)). specialize (S2 ltac:(lia)).
  destruct Hy as [Hy|[-> Hn]].
  - destruct (month_of (month_days y1) n1 1), (month_of (month_days y2) n2 1). simpl. lia.
  - pose proof (month_of_mono (month_days y2) n1 n2 1 (month_days_bounds y2)) as Hmo.
    rewrite month_days_sum in Hmo. destruct (month_of (month_days y2) n1 1) as [m1 k1].
    destruct (month_of (month_days y2) n2 1) as [m2 k2]. simpl. lia.
Qed.

Definition tm_list (x : tm) : list Z := [tm_year x; tm_mon x; tm_mday x; tm_hour x; tm_min x; tm_sec x].

Lemma localtime_range offset t :
  let x := localtime offset t in
  1 <= tm_mon x <= 12 /\ 1 <= tm_mday x <= 31 /\ 0 <= tm_hour x < 24 /\ 0 <= tm_min x < 60 /\ 0 <= tm_sec x < 60.
Proof.
  unfold localtime. pose proof (civil_range ((t - offset) / 86400)) as Hc.
  destruct (civil _) as [[y m] d]. cbn [tm_mon tm_mday tm_hour tm_min tm_sec].
  pose proof (Z.mod_pos_bound (t - offset) 86400 ltac:(lia)) as Hs.
  set (s := (t - offset) mod 86400) in *.
  pose proof (Z.mod_pos_bound (s / 60) 60 ltac:(lia)). pose proof (Z.mod_pos_bound s 60 ltac:(lia)).
  assert (0 <= s / 3600) by (apply Z.div_pos; lia). assert (s / 3600 < 24) by (apply Z.div_lt_upper_bound; lia).
  lia.
Qed.

(** Later times have later broken-down forms. *)
Lemma localtime_mono offset t1 t2 :
  t1 < t2 -> lex (tm_list (localtime offset t1)) (tm_list (localtime offset t2)).
Proof.
  intros Hlt. unfold localtime. set (a := t1 - offset). set (b := t2 - offset).
  assert (a < b) as Hab by lia. assert (a / 86400 <= b / 86400) as Hq by (apply Z.div_le_mono; lia).
  destruct (Z.eq_dec (a / 86400) (b / 86400)) as [He|Hne].
  - rewrite He. destruct (civil (b / 86400)) as [[y m] d]. unfold tm_list.
    cbn [tm_year tm_mon tm_mday tm_hour tm_min tm_sec lex].
    assert (a mod 86400 < b mod 86400) as Hm.
    { pose proof (Z.div_mod a 86400). pose proof (Z.div_mod b 86400). lia. }
    set (s := a mod 86400) in *. set (u := b mod 86400) in *.
    do 3 (right; split; [done|]).
    assert (s / 3600 = s / 60 / 60 /\ u / 3600 = u / 60 / 60) as [-> ->] by (split; by rewrite Z.div_div by lia).
    pose proof (Z.div_mod s 60). pose proof (Z.div_mod u 60). pose proof (Z.div_mod (s / 60) 60).
    pose proof (Z.div_mod (u / 60) 60). pose proof (Z.mod_pos_bound s 60). pose proof (Z.mod_pos_bound u 60).
    pose proof (Z.mod_pos_bound (s / 60) 60). pose proof (Z.mod_pos_bound (u / 60) 60).
    destruct (Z.lt_trichotomy (s / 60 / 60) (u / 60 / 60)) as [|[E|]]; [by left| |lia].
    right. split; [done|].
    destruct (Z.lt_trichotomy ((s / 60) mod 60) ((u / 60) mod 60)) as [|[E2|]]; [by left| |lia].
    right. split; [done|]. left. lia.
  - pose proof (civil_mono (a / 86400) (b / 86400) ltac:(lia)) as Hc.
    destruct (civil (a / 86400)) as [[y1 m1] n1], (civil (b / 86400)) as [[y2 m2] n2].
    unfold tm_list. cbn [date_list lex tm_year tm_mon tm_mday] in *. tauto.
Qed.

(** Times of 32 bits, in zones within a day of UTC, fall in years of four
    digits. *)
Lemma localtime_year offset t :
  0 <= offset <= 86400 -> 0 <= t < 2 ^ 32 -> 1000 <= tm_year (localtime offset t) < 9999.
Proof.
  intros Ho Ht. unfold localtime. pose proof (civil_range ((t - offset) / 86400)) as Hc.
  destruct (civil _) as [[y m] d]. cbn [tm_year]. destruct Hc as [Hy _].
  assert (-1 <= (t - offset) / 86400 < 50000) as Hd.
  { split; [apply Z.div_le_lower_bound; lia|apply Z.div_lt_upper_bound; lia]. }
  set (q := (t - offset) / 86400) in *.
  assert (-1 <= q / 146097 < 1).
  { split; [apply Z.div_le_lower_bound; lia|apply Z.div_lt_upper_bound; lia]. }
  lia.
Qed.
