(* ===== verification/Main.v ===== *)
(** * The measurement task (main/main.c)

    [sensor_task]: it reads the sensors every minute, averages five readings,
    writes the average to the database, keeps the database small, and renews the
    token.  The task runs in [World]: the C interface of the database with the
    trace of calls, the statics of the sensors, and the variables of the task. *)
From S2P Require Export Rtdb Sensors Calendar.
Open Scope Z_scope.

(** ** State *)

Record Sums := mkSums {
  sum_pm1p0 : float64; sum_pm2p5 : float64; sum_pm4p0 : float64; sum_pm10p0 : float64;
  sum_voc : float64; sum_nox : float64; sum_avg_temp : float64; sum_avg_hum : float64;
  sum_co2 : Z
}.

Record Task := mkTask {
  data : SensorData;
  first_send : bool;
  inicio_str : bytes;
  sample_count : Z;
  sums : Sums;
  last_fecha_str : bytes;
  next_refresh_us : Z;
  avg_size : float64;
  approx_count : Z
}.

(** The trace is that of [shim]; [sens] gets it when the sensors run. *)
Record World := mkWorld { shim : Shim; sens : Sens; task : Task }.

Definition set_trace (h : list call) (s : Shim) : Shim := mkShim h (shim_output_len s) (g_app s) (g_rtdb s).
Definition set_sens_trace (h : list call) (s : Sens) : Sens :=
  mkSens h (s_i2c_bus s) (s_scd4x_dev s) (s_sen5x_dev s) (g_city_state s).

Definition on_shim {A} (m : ST Shim A) : ST World A := fun w =>
  '(a, s) ← m (shim w); Ret (a, mkWorld s (sens w) (task w)).
Definition on_sens {A} (m : ST Sens A) : ST World A := fun w =>
  '(a, s) ← m (set_sens_trace (shim_trace (shim w)) (sens w));
  Ret (a, mkWorld (set_trace (sens_trace s) (shim w)) s (task w)).
Definition on_task (f : Task -> Task) : ST World unit := put (fun w => mkWorld (shim w) (sens w) (f (task w))).

Definition set_data (d : SensorData) (t : Task) : Task :=
  mkTask d (first_send t) (inicio_str t) (sample_count t) (sums t) (last_fecha_str t) (next_refresh_us t)
    (avg_size t) (approx_count t).
Definition set_inicio (x : bytes) (t : Task) : Task :=
  mkTask (data t) (first_send t) x (sample_count t) (sums t) (last_fecha_str t) (next_refresh_us t)
    (avg_size t) (approx_count t).
Definition set_samples (n : Z) (s : Sums) (t : Task) : Task :=
  mkTask (data t) (first_send t) (inicio_str t) n s (last_fecha_str t) (next_refresh_us t)
    (avg_size t) (approx_count t).
Definition set_sent (last_fecha : bytes) (t : Task) : Task :=
  mkTask (data t) false (inicio_str t) (sample_count t) (sums t) last_fecha (next_refresh_us t)
    (avg_size t) (approx_count t).
Definition set_next_refresh (x : Z) (t : Task) : Task :=
  mkTask (data t) (first_send t) (inicio_str t) (sample_count t) (sums t) (last_fecha_str t) x
    (avg_size t) (approx_count t).
Definition set_retention (avg : float64) (count : Z) (t : Task) : Task :=
  mkTask (data t) (first_send t) (inicio_str t) (sample_count t) (sums t) (last_fecha_str t)
    (next_refresh_us t) avg count.

Definition SAMPLE_EVERY_MIN : Z := 1.
Definition SAMPLES_PER_BATCH : Z := 5.
Definition minutes_to_us (m : Z) : Z := i64 (m * 60 * 1000000).
Definition REFRESH_US : Z := minutes_to_us 50.
Definition MAX_BYTES : Z := 10 * 1024 * 1024.
(** [setenv("TZ", "UTC6")]: six hours west. *)
Definition TZ_OFFSET : Z := 6 * 3600.
Definition root_path : bytes := STR "/historial_mediciones".

Definition zero_sums : Sums :=
  let z := b64_of_Z 0 in mkSums z z z z z z z z 0.

(** [static double avg_size = 256.0], [static uint32_t approx_count = 0], and
    the locals at their declarations. *)
Definition task_init (junk : SensorData) : Task :=
  mkTask junk true [] 0 zero_sums (zeros 20) 0 (b64_of_Z 256) 0.

Section task.
Context `{Platform} (secrets : Secrets) (DEVICE_ID : bytes).

Definition world_call {A} (c : call) (answer : list call -> A) : ST World A := fun w =>
  let h := c :: shim_trace (shim w) in
  Ret (answer h, mkWorld (set_trace h (shim w)) (sens w) (task w)).

Definition delay (ms : Z) : ST World unit := world_call (TaskDelay ms) (fun _ => tt).

(** [time] and [localtime_r]. *)
Definition local_time : ST World tm :=
  now ← world_call Time time; mret (localtime TZ_OFFSET now).

(** An uninitialised buffer on the stack. *)
Definition uninit (size : nat) : ST World bytes :=
  h ← get (fun w => shim_trace (shim w)); mret (map (new_char h) (seq 0 size)).

(** [esp_timer_get_time() + REFRESH_US] is signed. *)
Definition add_i64 (a b : Z) : outcome Z :=
  if (- 2 ^ 63 <=? a + b) && (a + b <? 2 ^ 63) then Ret (a + b) else Undef "signed overflow".

(** ** One reading *)

Definition add_sample (d : SensorData) (s : Sums) : Sums :=
  let plus (sum : float64) (x : float32) := b64_add sum (b32_to_b64 x) in
  mkSums (plus (sum_pm1p0 s) (pm1p0 d)) (plus (sum_pm2p5 s) (pm2p5 d)) (plus (sum_pm4p0 s) (pm4p0 d))
    (plus (sum_pm10p0 s) (pm10p0 d)) (plus (sum_voc s) (voc d)) (plus (sum_nox s) (nox d))
    (plus (sum_avg_temp s) (avg_temp d)) (plus (sum_avg_hum s) (avg_hum d)) (u32 (sum_co2 s + co2 d)).

Definition read_sample : ST World unit :=
  d ← get (fun w => data (task w));
  '(ret, out) ← on_sens (sensors_read (Some d));
  _ ← on_task (set_data (default d out));
  if ret =? ESP_OK then
    on_task (fun t => set_samples (sample_count t + 1) (add_sample (data t) (sums t)) t)
  else mret tt.

(** ** One batch *)

Definition averages (count : Z) (s : Sums) : SensorData :=
  let mean (sum : float64) := b64_to_b32 (b64_div sum (b64_of_Z count)) in
  mkData (u16 (sum_co2 s / u32 count)) (mean (sum_avg_temp s)) (mean (sum_avg_hum s))
    (mean (sum_pm1p0 s)) (mean (sum_pm2p5 s)) (mean (sum_pm4p0 s)) (mean (sum_pm10p0 s))
    (mean (sum_voc s)) (mean (sum_nox s)) (mean (sum_avg_temp s)) (mean (sum_avg_hum s))
    (mean (sum_avg_temp s)) (mean (sum_avg_hum s)).

(** The two formats of the later batches. *)
Definition dated_text (d : SensorData) (fecha hora : bytes) : bytes :=
  jobject (reading_fields d ++ [jfield (STR "fecha") (jtext fecha); jfield (STR "hora") (jtext hora)]).
Definition plain_text (d : SensorData) (hora : bytes) : bytes :=
  jobject (reading_fields d ++ [jfield (STR "hora") (jtext hora)]).

(** [strncpy(last_fecha_str, fecha_actual, 19)] and the terminator. *)
Definition copy_fecha (fecha buf : bytes) : outcome bytes :=
  b ← strncpy 19 fecha buf; mem_write 19 [0] b.

(** The text of the batch, as the C string [json] holds it. *)
Definition batch_json (avg : SensorData) (fecha_actual hora_envio : bytes) : ST World bytes :=
  t ← get task;
  json ← uninit 384;
  if first_send t then
    json ← on_sens (sensors_format_json DEVICE_ID avg hora_envio fecha_actual (inicio_str t) json 384);
    last ← run (copy_fecha fecha_actual (last_fecha_str t));
    _ ← on_task (set_sent last);
    run (c_string json)
  else
    last ← run (c_string (last_fecha_str t));
    if negb (strncmp 20 last fecha_actual =? 0) then
      json ← run (snprintf 384 (dated_text avg fecha_actual hora_envio) json);
      last ← run (copy_fecha fecha_actual (last_fecha_str t));
      _ ← on_task (set_sent last);
      run (c_string json)
    else
      json ← run (snprintf 384 (plain_text avg hora_envio) json);
      run (c_string json).

(** [avg_size * 0.9 + 0.1 * item_len], the literals rounded to [double]. *)
Definition blend (avg : float64) (item_len : Z) : float64 :=
  b64_add (b64_mul avg (b64_div (b64_of_Z 9) (b64_of_Z 10)))
          (b64_mul (b64_div (b64_of_Z 1) (b64_of_Z 10)) (b64_of_Z item_len)).

Definition max_items (avg : float64) : outcome Z :=
  b64_to_u32 (b64_div (b64_of_Z MAX_BYTES) (if SFltb (b64_of_Z 1) avg then avg else b64_of_Z 1)).

(** The approximate retention: the number of entries deleted, if any. *)
Definition retention (json : bytes) : ST World unit :=
  t ← get task;
  let avg := blend (avg_size t) (Z.of_nat (length json)) in
  let count := u32 (approx_count t + 1) in
  _ ← on_task (set_retention avg count);
  max_items ← run (max_items avg);
  let high_water := u32 (max_items + 50) in
  if high_water <? count then
    deleted ← on_shim (firebase_trim_oldest_batch root_path 50);
    if 0 <? deleted then
      on_task (set_retention avg (if u32 deleted <? count then count - u32 deleted else 0))
    else mret tt
  else mret tt.

Definition send_batch : ST World unit :=
  now ← local_time;
  hora_envio ← run (strftime 16 (fmt_time now));
  fecha_actual ← run (strftime 20 (fmt_date now));
  t ← get task;
  json ← batch_json (averages (sample_count t) (sums t)) fecha_actual hora_envio;
  clave_min ← run (strftime 20 (fmt_key now));
  path ← uninit 64;
  path ← run (snprintf 64 (root_path ++ STR "/" ++ clave_min) path);
  path ← run (c_string path);
  _ ← on_shim (firebase_putData path json);
  _ ← retention json;
  on_task (set_samples 0 zero_sums).

(** ** The task *)

Definition refresh_tokens : ST World unit :=
  now_us ← world_call TimerGetTime timer_get_time;
  t ← get task;
  if next_refresh_us t <=? now_us then
    _ ← on_shim firebase_refresh_token;
    next ← run (add_i64 now_us REFRESH_US);
    on_task (set_next_refresh next)
  else mret tt.

(** One round of [while (1)]. *)
Definition task_round : ST World unit :=
  _ ← read_sample;
  t ← get task;
  _ ← (if SAMPLES_PER_BATCH <=? sample_count t then send_batch else mret tt);
  _ ← refresh_tokens;
  delay (SAMPLE_EVERY_MIN * 60000).

(** Before the loop: [false] when the task deletes itself. *)
Definition task_start : ST World bool :=
  start ← local_time;
  inicio ← run (strftime 20 (fmt_time start));
  _ ← on_task (set_inicio inicio);
  r ← on_shim (firebase_init secrets);
  if negb (r =? 0) then mret false
  else
    _ ← delay 1000;
    _ ← on_shim (firebase_delete root_path);
    now ← world_call TimerGetTime timer_get_time;
    next ← run (add_i64 now REFRESH_US);
    _ ← on_task (set_next_refresh next);
    mret true.

(** The first [rounds] rounds of the task. *)
Fixpoint task_loop (rounds : nat) : ST World unit :=
  match rounds with
  | O => mret tt
  | S rounds => _ ← task_round; task_loop rounds
  end.

Definition sensor_task (rounds : nat) : ST World unit :=
  started ← task_start;
  if started : bool then task_loop rounds else mret tt.
End task.
