(* ===== verification/BatchFacts.v ===== *)
(** * A batch: its averages, its texts, its key, the retention arithmetic

    Readings are in range whatever the sensors send, so their averages are, and
    the texts made of them fit their buffer; the keys sort by time; the floating
    point of the retention never leaves the range of its integer. *)
From S2P Require Import FloatBounds Main FirebaseAppFacts RtdbFacts SensorsFacts.
Open Scope Z_scope.

(** ** Sums and averages *)

Definition total (l : list SensorData) : Sums := fold_left (fun s d => add_sample d s) l zero_sums.

(** What the sensors deliver: magnitudes of at most [2^13], a 16-bit CO2 value. *)
Definition sample_ok (d : SensorData) : Prop :=
  Forall (le_pow 13) [pm1p0 d; pm2p5 d; pm4p0 d; pm10p0 d; voc d; nox d; avg_temp d; avg_hum d] /\ in_u 16 (co2 d).

Definition sums_le (k : Z) (s : Sums) : Prop :=
  Forall (le_pow k) [sum_pm1p0 s; sum_pm2p5 s; sum_pm4p0 s; sum_pm10p0 s; sum_voc s; sum_nox s;
                     sum_avg_temp s; sum_avg_hum s].

Lemma add_sample_le k d s :
  13 <= k <= 98 -> sample_ok d -> sums_le k s -> sums_le (k + 1) (add_sample d s).
Proof.
  intros Hk [Hd _] Hs. unfold sums_le in *. rewrite !Forall_cons in *.
  assert (forall a x, le_pow k a -> le_pow 13 x -> le_pow (k + 1) (b64_add a (b32_to_b64 x))) as Hadd.
  { intros a x Ha Hx. apply b64_add_le; [lia|done|]. apply (le_pow_mono 13); [lia|]. apply b32_to_b64_le; [lia|done]. }
  cbn [add_sample sum_pm1p0 sum_pm2p5 sum_pm4p0 sum_pm10p0 sum_voc sum_nox sum_avg_temp sum_avg_hum].
  repeat (split; [apply Hadd; tauto|]). done.
Qed.

Lemma zero_sums_le k : sums_le k zero_sums.
Proof. by repeat constructor. Qed.

Lemma total_snoc l d : total (l ++ [d]) = add_sample d (total l).
Proof. unfold total. by rewrite fold_left_app. Qed.

Lemma total_le l : Forall sample_ok l -> (length l <= 5)%nat -> sums_le (13 + Z.of_nat (length l)) (total l).
Proof.
  induction l as [|d l IH] using rev_ind; intros Hl Hn; [apply zero_sums_le|].
  rewrite length_app in *. cbn [length] in *. apply Forall_app in Hl as [Hl [Hd _]%Forall_cons].
  rewrite total_snoc. replace (13 + Z.of_nat (length l + 1)) with (13 + Z.of_nat (length l) + 1) by lia.
  apply add_sample_le; [lia|done|]. apply IH; [done|lia].
Qed.

Definition sum_of_co2 (l : list SensorData) : Z := foldr Z.add 0 (co2 <$> l).

Lemma total_co2 l : Forall sample_ok l -> (length l <= 5)%nat ->
  sum_co2 (total l) = sum_of_co2 l /\ 0 <= sum_of_co2 l <= Z.of_nat (length l) * 65535.
Proof.
  intros Hl Hn. induction l as [|d l IH] using rev_ind; [done|].
  rewrite length_app in *. cbn [length] in *. apply Forall_app in Hl as [Hl [[_ Hd] _]%Forall_cons].
  destruct (IH Hl ltac:(lia)) as [E Hb]. rewrite total_snoc. cbn [add_sample sum_co2]. rewrite E.
  assert (sum_of_co2 (l ++ [d]) = sum_of_co2 l + co2 d) as ->.
  { clear. unfold sum_of_co2. induction l as [|x l IH]; [simpl; lia|]. cbn [app]. rewrite fmap_cons.
    cbn [foldr]. rewrite fmap_cons. cbn [foldr]. lia. }
  unfold in_u in Hd. unfold u32. rewrite Z.mod_small by lia. lia.
Qed.

(** The average of five readings: bounded numbers, the exact mean of the CO2
    values rounded down. *)
Lemma averages_five l :
  Forall sample_ok l -> length l = 5%nat ->
  let d := averages 5 (total l) in
  Forall (le_pow 16) [pm1p0 d; pm2p5 d; pm4p0 d; pm10p0 d; voc d; nox d; avg_temp d; avg_hum d] /\
  co2 d = sum_of_co2 l / 5 /\ in_u 16 (co2 d).
Proof.
  intros Hl Hn. destruct (total_co2 l Hl ltac:(lia)) as [Ec Hc].
  pose proof (total_le l Hl ltac:(lia)) as Hs. rewrite Hn in Hs, Hc. unfold sums_le in Hs. rewrite !Forall_cons in Hs.
  change (13 + Z.of_nat 5) with 18 in Hs. intros d. unfold d. rewrite !Forall_cons.
  cbn [averages pm1p0 pm2p5 pm4p0 pm10p0 voc nox avg_temp avg_hum co2].
  assert (forall x, le_pow 18 x -> le_pow 16 (b64_to_b32 (b64_div x (b64_of_Z 5)))) as Hm.
  { intros x Hx. apply b64_to_b32_le; [lia|]. set (five := b64_of_Z 5). vm_compute in five. subst five.
    change 16 with (18 - 2). apply b64_div_le; [lia|lia|exact Hx|]. vm_compute. discriminate. }
  split; [repeat (split; [apply Hm; tauto|]); done|].
  rewrite Ec. change (u32 5) with 5. unfold u16, in_u.
  assert (0 <= sum_of_co2 l / 5 < 2 ^ 16) by (split; [apply Z.div_pos|apply Z.div_lt_upper_bound]; lia).
  by rewrite Z.mod_small.
Qed.

(** Readings are in range, whatever the sensors send. *)
Lemma b32_div_const j k n z s m e :
  b32_of_Z n = S754_finite s m e -> mant_ge j (Zpos m) e -> 0 <= j <= k -> k <= 100 -> Z.abs z <= 2 ^ k ->
  le_pow (k - j) (b32_div (b32_of_Z z) (b32_of_Z n)).
Proof. intros -> Hm Hj Hk Hz. apply b32_div_le; [done..| |done]. by apply b32_of_Z_le; [lia|]. Qed.

Ltac const_tac := first [vm_compute; reflexivity|vm_compute; discriminate|lia].

Lemma be16_range data i : in_u 16 (be16 data i).
Proof. unfold in_u, be16, u16. by apply Z.mod_pos_bound. Qed.

Lemma scd4x_decode_le data :
  let '(c, t, h) := scd4x_decode data in in_u 16 c /\ le_pow 10 t /\ le_pow 10 h.
Proof.
  unfold scd4x_decode. cbv zeta.
  assert (forall i, le_pow 1 (b32_div (b32_of_Z (be16 data i)) (b32_of_Z 65535))) as Hr.
  { intros i. pose proof (be16_range data i) as Hb. unfold in_u in Hb. change 1 with (16 - 15).
    eapply b32_div_const; [vm_compute; reflexivity|vm_compute; discriminate|lia..]. }
  split_and!; [apply be16_range| |].
  - change 10 with (9 + 1). apply b32_add_le; [lia| |].
    + apply b32_of_Z_le; [lia|]. vm_compute. discriminate.
    + change 9 with (8 + 1). apply b32_mul_le; [lia..| |apply Hr].
      apply b32_of_Z_le; [lia|]. vm_compute. discriminate.
  - apply (le_pow_mono 8); [lia|]. change 8 with (7 + 1). apply b32_mul_le; [lia..| |apply Hr].
    apply b32_of_Z_le; [lia|]. vm_compute. discriminate.
Qed.

Lemma sample_in_range data values :
  length values = 8%nat -> Forall (in_u 16) values -> sample_ok (Sensors.combine (scd4x_decode data) (measured_of values)).
Proof.
  intros Hn Hv. pose proof (scd4x_decode_le data) as Hs. destruct (scd4x_decode data) as [[c t] h].
  destruct Hs as (Hc & Ht & Hh).
  assert (forall i, Z.abs (nth i values 0) <= 2 ^ 16) as Hnth.
  { intros i. destruct (nth_in_or_default i values 0) as [Hin| ->]; [|done].
    rewrite Forall_forall in Hv. specialize (Hv _ (proj2 (list_elem_of_In _ _) Hin)). unfold in_u in Hv. lia. }
  assert (forall i, le_pow 13 (b32_div (b32_of_Z (nth i values 0)) (b32_of_Z 10))) as H10.
  { intros i. change 13 with (16 - 3).
    eapply b32_div_const; [vm_compute; reflexivity|vm_compute; discriminate|lia|lia|apply Hnth]. }
  assert (forall x y, le_pow 10 x -> le_pow 10 y -> le_pow 13 (b32_div (b32_add x y) (b32_of_Z 2))) as Havg.
  { intros x y Hx Hy. apply (le_pow_mono 10); [lia|]. change 10 with (11 - 1).
    assert (le_pow 11 (b32_add x y)) by (change 11 with (10 + 1); apply b32_add_le; [lia|done..]).
    set (two := b32_of_Z 2). vm_compute in two. subst two. apply b32_div_le; [lia|lia|done|]. vm_compute. discriminate. }
  assert (forall i n j s m e, b32_of_Z n = S754_finite s m e -> mant_ge j (Zpos m) e -> 6 <= j <= 16 ->
            le_pow 10 (b32_div (b32_of_Z (nth i values 0)) (b32_of_Z n))) as H100.
  { intros i n j s m e Hn' Hm Hj. apply (le_pow_mono (16 - j)); [lia|].
    eapply b32_div_const; [exact Hn'|exact Hm|lia|lia|apply Hnth]. }
  split; [|done]. unfold Sensors.combine, measured_of.
  cbn [pm1p0 pm2p5 pm4p0 pm10p0 voc nox avg_temp avg_hum m_pm1 m_pm25 m_pm4 m_pm10 m_voc m_nox m_temp m_rh].
  rewrite !Forall_cons. repeat (split; [apply H10|]).
  split; [apply Havg; [exact Ht|]|split; [apply Havg; [exact Hh|]|by apply Forall_nil]].
  - eapply (H100 _ 200 7); [vm_compute; reflexivity|vm_compute; discriminate|lia].
  - eapply (H100 _ 100 6); [vm_compute; reflexivity|vm_compute; discriminate|lia].
Qed.

(** ** The texts fit the buffer *)

Lemma ffix_length p L x : le_pow 16 x -> 2 ^ 16 * 10 ^ Z.of_nat p < 10 ^ Z.of_nat L -> (S p <= L)%nat ->
  (length (ffix p x) <= 2 + L)%nat.
Proof. intros Hx. apply (fmt_f_length 16); [lia|]. by apply b32_to_b64_le; [lia|]. Qed.

Definition text_sized (d : SensorData) : Prop :=
  Forall (le_pow 16) [pm1p0 d; pm2p5 d; pm4p0 d; pm10p0 d; voc d; nox d; avg_temp d; avg_hum d] /\ in_u 16 (co2 d).

(** The members of the measurement: at most 138 characters and their commas. *)
Lemma reading_fields_length d : text_sized d ->
  (foldr Nat.add 0 (length <$> reading_fields d) <= 138)%nat /\ length (reading_fields d) = 9%nat.
Proof.
  intros [Hd Hc]. rewrite !Forall_cons in Hd. split; [|done].
  assert (forall x, le_pow 16 x -> (length (ffix 2 x) <= 9)%nat) as H2
    by (intros x Hx; apply (ffix_length 2 7); [done|vm_compute; reflexivity|lia]).
  assert (forall x, le_pow 16 x -> (length (ffix 1 x) <= 8)%nat) as H1
    by (intros x Hx; apply (ffix_length 1 6); [done|vm_compute; reflexivity|lia]).
  assert (length (dec_digits (co2 d)) <= 5)%nat by (apply dec_digits_length; [unfold in_u in Hc|]; lia).
  pose proof (H2 (pm1p0 d) ltac:(tauto)). pose proof (H2 (pm2p5 d) ltac:(tauto)).
  pose proof (H2 (pm4p0 d) ltac:(tauto)). pose proof (H2 (pm10p0 d) ltac:(tauto)).
  pose proof (H1 (voc d) ltac:(tauto)). pose proof (H1 (nox d) ltac:(tauto)).
  pose proof (H2 (avg_temp d) ltac:(tauto)). pose proof (H2 (avg_hum d) ltac:(tauto)).
  unfold reading_fields, jfield. rewrite !fmap_cons, !length_app. cbn [length fmap list_fmap foldr]. lia.
Qed.

Lemma comma_list_length l : (length (comma_list l) <= foldr Nat.add 0 (length <$> l) + (length l - 1))%nat.
Proof.
  induction l as [|x [|y l] IH]; [done|simpl; lia|].
  change (comma_list (x :: y :: l)) with (x ++ STR "," ++ comma_list (y :: l)).
  rewrite !length_app, fmap_cons. cbn [foldr length] in *. lia.
Qed.

Lemma jobject_length d more :
  text_sized d ->
  (length (jobject (reading_fields d ++ more)) <= 148 + foldr Nat.add 0 (length <$> more) + length more)%nat.
Proof.
  intros Hd. destruct (reading_fields_length d Hd) as [Hr Hl]. unfold jobject.
  pose proof (comma_list_length (reading_fields d ++ more)) as Hc.
  rewrite fmap_app, sum_app, length_app in Hc. rewrite !length_app. cbn [length]. lia.
Qed.

(** Nothing is cut: the first text with a device id of up to 90 characters, the
    later ones always. *)
Lemma texts_fit d device_id fecha hora inicio city :
  text_sized d -> (length device_id <= 90)%nat -> (length fecha <= 10)%nat -> (length hora <= 8)%nat ->
  (length inicio <= 8)%nat -> (length city <= 63)%nat ->
  (length (format_text device_id d hora fecha inicio city) < 384)%nat /\
  (length (dated_text d fecha hora) < 384)%nat /\ (length (plain_text d hora) < 384)%nat.
Proof.
  intros Hd Hid Hf Hh Hi Hc. unfold format_text, dated_text, plain_text.
  split_and!; (eapply Nat.le_lt_trans; [apply jobject_length; exact Hd|]);
    unfold jfield, jtext; rewrite ?fmap_cons, ?fmap_nil, ?length_app; cbn [length foldr fmap list_fmap];
    rewrite ?length_app; cbn [length]; lia.
Qed.

(** ** Retention *)

Lemma blend_ge avg len : nonneg avg -> 16 <= len < 384 -> ge_pow 0 (blend avg len).
Proof.
  intros Ha Hl. unfold blend. apply SFadd_ge; [done|unfold emin; lia| |].
  - set (c := b64_div _ _). vm_compute in c. subst c. by apply SFmul_nonneg.
  - set (c := b64_div _ _). vm_compute in c. subst c.
    assert (forallb (fun n => match b64_mul (S754_finite false 7205759403792794 (-56)) (b64_of_Z (Z.of_nat n)) with
                              | S754_finite false m e => if 0 <=? e then true else 2 ^ (0 - e) <=? Zpos m
                              | _ => false end) (seq 16 368) = true) as Hall by (vm_compute; reflexivity).
    rewrite forallb_forall in Hall. specialize (Hall (Z.to_nat len) ltac:(apply in_seq; lia)).
    rewrite Z2Nat.id in Hall by lia. destruct (b64_mul _ _) as [| | |[] m e]; try done.
    unfold ge_pow, mant_ge. destruct (0 <=? e); [lia|]. by apply Z.leb_le.
Qed.

Lemma max_items_ok avg : ge_pow 0 avg -> exists n, max_items avg = Ret n /\ 0 <= n <= 2 ^ 24.
Proof.
  intros Ha. unfold max_items. set (big := b64_of_Z MAX_BYTES). vm_compute in big. subst big.
  set (d := if SFltb _ _ then _ else _). assert (ge_pow 0 d) as Hd.
  { unfold d. destruct (SFltb _ _); [done|]. vm_compute. discriminate. }
  destruct d as [|[]| |[] m e]; try done; [by exists 0|].
  apply b64_to_u32_ok; [lia| |apply SFdiv_nonneg].
  change 24 with (24 - 0). apply b64_div_le; [lia|lia| |exact Hd]. split; [lia|vm_compute; discriminate].
Qed.

(** ** Texts of times *)

Section times.
Context (t : Z) (Ht : 0 <= t < 2 ^ 32).
Let x := localtime TZ_OFFSET t.

Lemma two_no_nul n : 0 <= n -> no_nul (two n).
Proof.
  intros Hn. pose proof (Z.div_pos n 10 Hn ltac:(lia)). pose proof (Z.mod_pos_bound n 10 ltac:(lia)).
  repeat constructor; lia.
Qed.

#[local] Ltac nn := repeat first [apply no_nul_app | apply two_no_nul; lia | nul_tac].

Lemma fmt_time_ok : no_nul (fmt_time x) /\ length (fmt_time x) = 8%nat.
Proof. pose proof (localtime_range TZ_OFFSET t) as Hr. cbv zeta in Hr. fold x in Hr. split; [unfold fmt_time; nn|done]. Qed.

Lemma fmt_key_ok : no_nul (fmt_key x) /\ length (fmt_key x) = 17%nat.
Proof.
  pose proof (localtime_range TZ_OFFSET t) as Hr. cbv zeta in Hr. fold x in Hr.
  pose proof (Z.mod_pos_bound (tm_year x) 100 ltac:(lia)). split; [unfold fmt_key; nn|done].
Qed.

Lemma fmt_date_ok : no_nul (fmt_date x) /\ (length (fmt_date x) <= 10)%nat.
Proof.
  pose proof (localtime_range TZ_OFFSET t) as Hr. cbv zeta in Hr. fold x in Hr.
  pose proof (localtime_year TZ_OFFSET t ltac:(unfold TZ_OFFSET; lia) Ht) as Hy. fold x in Hy.
  assert (dec_signed (tm_year x) = dec_digits (tm_year x)) as Hd.
  { unfold dec_signed. by rewrite (proj2 (Z.ltb_ge _ _)) by lia. }
  unfold fmt_date. rewrite Hd. split; [nn; apply no_nul_dec_digits|].
  pose proof (dec_digits_length (tm_year x) 4 ltac:(lia) ltac:(lia)). rewrite !length_app. cbn [length two]. lia.
Qed.
End times.

Lemma strftime_ok max text : Z.of_nat (length text) < max -> strftime max text = Ret text.
Proof. intros Hl. unfold strftime. by rewrite (proj2 (Z.ltb_lt _ _)). Qed.

Lemma copy_fecha_ok fecha buf :
  no_nul fecha -> (length fecha < 19)%nat -> length buf = 20%nat ->
  exists b, copy_fecha fecha buf = Ret b /\ length b = 20%nat /\ cstr b = Some fecha.
Proof.
  intros Hf Hl Hb. unfold copy_fecha. destruct (strncpy_ok 19 fecha buf Hf) as (b1 & -> & L1 & tl & E1); [lia..|].
  rewrite Ret_bind. destruct (mem_write_ok 19 [0] b1) as (b & -> & L & E); [lia|simpl; lia|].
  exists b. split; [done|]. split; [lia|]. rewrite E, E1. change (Z.to_nat 19) with 19%nat.
  rewrite take_app_ge by lia. destruct (19 - length fecha)%nat as [|k] eqn:Ek; [lia|]. cbn [take].
  rewrite <- app_assoc. cbn [app]. by apply cstr_app_nul, no_nul_elem.
Qed.

(** ** The order of the keys *)

(** [k1] comes strictly before [k2]. *)
Definition str_before (k1 k2 : bytes) : Prop := str_le k2 k1 = false.

Lemma two_order a b s t :
  0 <= a < 100 -> 0 <= b < 100 -> a < b \/ a = b /\ str_before s t -> str_before (two a ++ s) (two b ++ t).
Proof.
  intros Ha Hb Hlt. unfold str_before, two. cbn [app str_le].
  pose proof (Z.div_mod a 10 ltac:(lia)). pose proof (Z.div_mod b 10 ltac:(lia)).
  pose proof (Z.mod_pos_bound a 10 ltac:(lia)). pose proof (Z.mod_pos_bound b 10 ltac:(lia)).
  destruct Hlt as [Hlt|[-> Hs]]; [|by rewrite !Z.ltb_irrefl].
  destruct (Z.ltb_spec (CH "0" + b / 10) (CH "0" + a / 10)); [lia|].
  destruct (Z.ltb_spec (CH "0" + a / 10) (CH "0" + b / 10)); [done|].
  destruct (Z.ltb_spec (CH "0" + b mod 10) (CH "0" + a mod 10)); [lia|].
  destruct (Z.ltb_spec (CH "0" + a mod 10) (CH "0" + b mod 10)); [done|lia].
Qed.

Lemma same_order c s t : str_before s t -> str_before (c :: s) (c :: t).
Proof. intros Hs. unfold str_before. cbn [str_le]. by rewrite Z.ltb_irrefl. Qed.

Lemma keys_order x y :
  (forall z, z = x \/ z = y -> 1 <= tm_mon z <= 12 /\ 1 <= tm_mday z <= 31 /\ 0 <= tm_hour z < 24 /\
     0 <= tm_min z < 60 /\ 0 <= tm_sec z < 60) ->
  tm_year x / 100 = tm_year y / 100 -> lex (tm_list x) (tm_list y) -> str_before (fmt_key x) (fmt_key y).
Proof.
  intros Hr Hc Hlex. pose proof (Hr x (or_introl eq_refl)). pose proof (Hr y (or_intror eq_refl)).
  pose proof (Z.div_mod (tm_year x) 100 ltac:(lia)). pose proof (Z.div_mod (tm_year y) 100 ltac:(lia)).
  pose proof (Z.mod_pos_bound (tm_year x) 100 ltac:(lia)). pose proof (Z.mod_pos_bound (tm_year y) 100 ltac:(lia)).
  unfold tm_list in Hlex. cbn [lex] in Hlex. unfold fmt_key.
  apply two_order; [lia..|]. destruct Hlex as [?|[Ey Hlex]]; [left; lia|right]. split; [congruence|]. cbn [app]. apply same_order.
  apply two_order; [lia..|]. destruct Hlex as [?|[-> Hlex]]; [by left|right]. split; [done|]. cbn [app]. apply same_order.
  apply two_order; [lia..|]. destruct Hlex as [?|[-> Hlex]]; [by left|right]. split; [done|]. cbn [app]. apply same_order.
  apply two_order; [lia..|]. destruct Hlex as [?|[-> Hlex]]; [by left|right]. split; [done|]. cbn [app]. apply same_order.
  apply two_order; [lia..|]. destruct Hlex as [?|[-> Hlex]]; [by left|right]. split; [done|]. cbn [app]. apply same_order.
  rewrite <- (app_nil_r (two (tm_sec x))), <- (app_nil_r (two (tm_sec y))).
  apply two_order; [lia..|]. left. tauto.
Qed.

(** ** Properties *)

(** C37: five readings of the sensors, whatever bytes they sent, have an average
    that the texts of [sensor_task] show in full: the CO2 value is the exact
    mean rounded down, and with a device id of up to 90 characters no text is
    cut at the 384 bytes of its buffer. *)
Theorem batch_text_whole l device_id fecha hora inicio city :
  Forall (fun d => exists raw values, length values = 8%nat /\ Forall (in_u 16) values /\
                   d = Sensors.combine (scd4x_decode raw) (measured_of values)) l ->
  length l = 5%nat -> (length device_id <= 90)%nat -> (length fecha <= 10)%nat -> (length hora <= 8)%nat ->
  (length inicio <= 8)%nat -> (length city <= 63)%nat ->
  let d := averages 5 (total l) in
  co2 d = foldr Z.add 0 (co2 <$> l) / 5 /\
  (length (format_text device_id d hora fecha inicio city) < 384)%nat /\
  (length (dated_text d fecha hora) < 384)%nat /\ (length (plain_text d hora) < 384)%nat.
Proof.
  intros Hl Hn Hid Hf Hh Hi Hc d. assert (Forall sample_ok l) as Hok.
  { eapply Forall_impl; [exact Hl|]. intros x (raw & values & Hv & Hu & ->). by apply sample_in_range. }
  destruct (averages_five l Hok Hn) as (Hb & Ec & Hu). split; [exact Ec|]. by apply texts_fit.
Qed.

Definition full_scale : SensorData :=
  Sensors.combine (scd4x_decode (repeat 255 9)) (measured_of (repeat 65535 8)).

Lemma batch_text_whole_witness :
  let d := averages 5 (total (repeat full_scale 5)) in
  co2 d = 65535 /\
  (length (format_text (repeat 65%Z 90) d (STR "23:59:59") (STR "31-12-2099") (STR "00:00:00") (repeat 65%Z 63)) < 384)%nat.
Proof.
  destruct (batch_text_whole (repeat full_scale 5) (repeat 65%Z 90) (STR "31-12-2099") (STR "23:59:59") (STR "00:00:00")
              (repeat 65%Z 63)) as (Hc & H1 & _).
  - apply Forall_forall. intros d Hd%list_elem_of_In%repeat_spec. subst d.
    exists (repeat 255 9), (repeat 65535 8). split; [reflexivity|]. split; [|reflexivity].
    repeat constructor; by vm_compute.
  - reflexivity.
  - vm_compute. lia.
  - vm_compute. lia.
  - vm_compute. lia.
  - vm_compute. lia.
  - vm_compute. lia.
  - split; [rewrite Hc; vm_compute; reflexivity|exact H1].
Defined.

(** Before the clock is set the keys are those of 1969, which sort after the keys
    of this century: such an entry is never the oldest. *)
Lemma clock_unset_key :
  fmt_key (localtime TZ_OFFSET 5) = STR "69-12-31_18-00-05" /\
  str_le (fmt_key (localtime TZ_OFFSET 5)) (fmt_key (localtime TZ_OFFSET 1735711200)) = false.
Proof. by vm_compute. Qed.

(** C38: the order of the keys, which is the order the database sorts its entries
    by, is the order of time: of two batches of the same century the earlier has
    the smaller key, so the entries [firebase_trim_oldest_batch] lists first are
    the oldest. *)
Theorem keys_chronological t1 t2 :
  t1 < t2 ->
  let x := localtime TZ_OFFSET t1 in let y := localtime TZ_OFFSET t2 in
  tm_year x / 100 = tm_year y / 100 ->
  str_le (fmt_key x) (fmt_key y) = true /\ fmt_key x <> fmt_key y.
Proof.
  intros Ht x y Hc. assert (str_before (fmt_key x) (fmt_key y)) as Hb.
  { apply keys_order; [|done|by apply localtime_mono]. intros z [-> | ->]; apply localtime_range. }
  unfold str_before in Hb. destruct (str_leq_total (fmt_key x) (fmt_key y)) as [Hle|Hle].
  - split; [exact Hle|]. intros E. rewrite E in *. unfold str_leq in Hle. congruence.
  - unfold str_leq in Hle. congruence.
Qed.

Lemma keys_chronological_witness :
  str_le (fmt_key (localtime TZ_OFFSET 1735711199)) (fmt_key (localtime TZ_OFFSET 1735711200)) = true /\
  fmt_key (localtime TZ_OFFSET 1735711199) = STR "24-12-31_23-59-59" /\
  fmt_key (localtime TZ_OFFSET 1735711200) = STR "25-01-01_00-00-00".
Proof.
  split; [|split; vm_compute; reflexivity].
  apply (keys_chronological 1735711199 1735711200); [lia|vm_compute; reflexivity].
Defined.

(** The retention arithmetic never makes an undefined conversion: the average
    size stays a nonnegative number whatever texts are sent, the divisor is at
    least one, and the number of entries allowed fits its 32 bits with the
    margin added. *)
Theorem retention_defined avg len :
  nonneg avg -> 16 <= len < 384 ->
  nonneg (blend avg len) /\
  exists n, max_items (blend avg len) = Ret n /\ 0 <= n <= 2 ^ 24 /\ u32 (n + 50) = n + 50.
Proof.
  intros Ha Hl. pose proof (blend_ge avg len Ha Hl) as Hb. split; [by apply (ge_pow_nonneg 0)|].
  destruct (max_items_ok _ Hb) as (n & E & Hn). exists n. split; [done|]. split; [done|].
  unfold u32. rewrite Z.mod_small; lia.
Qed.

Lemma retention_defined_witness :
  max_items (blend (b64_of_Z 256) 200) = Ret 41876 /\ exists n, max_items (blend (b64_of_Z 256) 200) = Ret n /\
  u32 (n + 50) = n + 50.
Proof.
  split; [vm_compute; reflexivity|].
  destruct (retention_defined (b64_of_Z 256) 200) as (_ & n & E & _ & Hu).
  - vm_compute. reflexivity.
  - lia.
  - exists n. split; [exact E|exact Hu].
Defined.
