(* ===== verification/BatchJson.v ===== *)
(** * The uploaded texts are JSON

    [sensor_task] prints its batches with [snprintf]; the parser of the
    repository reads each of the three texts as the object of the readings:
    every number as the double nearest to the average rounded to the decimals
    of the format, every text as it is. *)
From S2P Require Import JsonFields Modem Main BatchFacts.
Open Scope Z_scope.

(** ** The members, as values and as text *)

Definition field : Type := bytes * Value * bytes.
Definition as_member (f : field) : bytes * Value := (f.1.1, f.1.2).
Definition as_text (f : field) : bytes := jfield f.1.1 f.2.

Definition field_ok (f : field) : Prop :=
  plain f.1.1 /\ Z.of_nat (length f.1.1) < 2 ^ 30 /\ reads_value f.1.2 f.2 /\ norm f.1.2 = f.1.2 /\
  (depth f.1.2 <= 999)%nat.

Lemma fields_of_list l : l <> [] -> Forall field_ok l -> fields_text (as_member <$> l) (comma_list (as_text <$> l)).
Proof.
  intros Hne Hl. induction Hl as [|[[k x] t] l (Hk & Hkl & Hx & _) Hl IH]; [done|]. destruct l as [|y l].
  - by apply fields_one.
  - by apply fields_cons, IH.
Qed.

Lemma norm_members (l : list (bytes * Value)) :
  Forall (fun kv => norm kv.2 = kv.2) l -> norm (object_of l) = object_of l.
Proof.
  intros Hl. unfold object_of. simpl. rewrite om_map_enter. do 3 f_equal.
  induction Hl as [|[k x] l Hx _ IH]; [done|]. rewrite fmap_cons, IH. simpl in *. by rewrite Hx.
Qed.

(** A text printed from [l] is read as the object of [l]. *)
Lemma jobject_read l root collect s :
  l <> [] -> Forall field_ok l -> NoDup (as_member <$> l).*1 -> (length (jobject (as_text <$> l)) < 384)%nat ->
  exists s', parse (jobject (as_text <$> l)) root collect s = Ret (true, s') /\
    strip (root_ s') = object_of (as_member <$> l).
Proof.
  intros Hne Hl Hnd Hlen. destruct (parse_fields (as_member <$> l) (comma_list (as_text <$> l)) root collect s)
    as (s' & E & Hs); [by apply fields_of_list|done| | |].
  - apply Forall_fmap. eapply Forall_impl; [exact Hl|]. by intros f (_ & _ & _ & _ & Hd).
  - change (CH "{" :: comma_list (as_text <$> l) ++ [CH "}"]) with (jobject (as_text <$> l)). unfold maxInt. lia.
  - exists s'. split; [exact E|]. rewrite Hs, norm_members; [done|].
    apply Forall_fmap. eapply Forall_impl; [exact Hl|]. by intros f (_ & _ & _ & Hn & _).
Qed.

(** ** What is uploaded *)

(** A number with [p] decimals, a text, the CO2 value. *)
Definition real_field (name : bytes) (p : nat) (x : float32) : field :=
  (name, Value_double (rounded p (b32_to_b64 x)), ffix p x).
Definition text_field (name t : bytes) : field := (name, initBasic (PString t), jtext t).
Definition count_field (name : bytes) (n : Z) : field := (name, Value_int n, dec_digits n).

Definition reading_members (d : SensorData) : list field :=
  [real_field (STR "pm1p0") 2 (pm1p0 d); real_field (STR "pm2p5") 2 (pm2p5 d);
   real_field (STR "pm4p0") 2 (pm4p0 d); real_field (STR "pm10p0") 2 (pm10p0 d);
   real_field (STR "voc") 1 (voc d); real_field (STR "nox") 1 (nox d);
   real_field (STR "cTe") 2 (avg_temp d); real_field (STR "cHu") 2 (avg_hum d); count_field (STR "co2") (co2 d)].

(** Bytes that stand for themselves between quotes. *)
Definition verbatim (t : bytes) : Prop := Forall (fun c => c <> dquote /\ c <> CH "\") t.

Lemma real_field_ok name p x :
  plain name -> (length name <= 10)%nat -> (p = 1 \/ p = 2)%nat -> le_pow 16 x -> field_ok (real_field name p x).
Proof.
  intros Hn Hl Hp Hx. unfold field_ok, real_field. cbn [fst snd]. split_and!; [done|lia| |done|simpl; lia].
  assert (le_pow 16 (b32_to_b64 x)) as Hx' by (apply b32_to_b64_le; [lia|done]).
  apply reads_fixed; [lia| | |done].
  - destruct (b32_to_b64 x); simpl in Hx'; done.
  - assert (length (ffix p x) <= 2 + 8)%nat; [|unfold ffix in *; lia].
    apply ffix_length; [done| |lia]. by destruct Hp as [-> | ->].
Qed.

Lemma text_field_ok name t : plain name -> (length name <= 10)%nat -> verbatim t -> field_ok (text_field name t).
Proof.
  intros Hn Hl Ht. unfold field_ok, text_field. cbn [fst snd]. split_and!; [done|lia| |done|simpl; lia].
  by apply (reads_string_body _ t t); [apply body_verbatim|lia|].
Qed.

Lemma count_field_ok name n : plain name -> (length name <= 10)%nat -> in_u 16 n -> field_ok (count_field name n).
Proof.
  intros Hn Hl Hu. unfold in_u in Hu. unfold field_ok, count_field. cbn [fst snd].
  assert (norm_number n = PInt n) as Hnn by (unfold norm_number, maxInt; by rewrite (proj2 (Z.leb_le _ _)) by lia).
  split_and!; [done|lia| |simpl; by rewrite Hnn|simpl; lia].
  destruct (dec_digits_spec n ltac:(lia)) as (? & ? & ? & _).
  apply (reads_number _ false _ n); [done|done|done|unfold maxLargestUInt; lia|done].
Qed.

Lemma reading_members_ok d : text_sized d -> Forall field_ok (reading_members d).
Proof.
  intros [Hd Hc]. rewrite !Forall_cons in Hd. unfold reading_members. rewrite !Forall_cons.
  split_and!; try (apply real_field_ok; [done|simpl; lia|by auto|tauto]); [|done].
  by apply count_field_ok; [|simpl; lia|].
Qed.

Lemma reading_text d : as_text <$> reading_members d = reading_fields d.
Proof. done. Qed.

(** ** The three texts *)

Definition first_members (device_id : bytes) (d : SensorData) (hora fecha inicio city : bytes) : list field :=
  reading_members d ++ [text_field (STR "fecha") fecha; text_field (STR "inicio") inicio;
    text_field (STR "ciudad") city; text_field (STR "hora") hora; text_field (STR "id") device_id].
Definition dated_members (d : SensorData) (fecha hora : bytes) : list field :=
  reading_members d ++ [text_field (STR "fecha") fecha; text_field (STR "hora") hora].
Definition plain_members (d : SensorData) (hora : bytes) : list field :=
  reading_members d ++ [text_field (STR "hora") hora].

(** [text] is JSON for the object of [l], whatever the state of the reader. *)
Definition is_json_of (text : bytes) (l : list field) : Prop :=
  forall root collect s, exists s', parse text root collect s = Ret (true, s') /\
    strip (root_ s') = object_of (as_member <$> l).

Lemma members_read d more text :
  text_sized d -> Forall field_ok more -> NoDup ((as_member <$> (reading_members d ++ more)).*1) ->
  text = jobject (reading_fields d ++ (as_text <$> more)) -> (length text < 384)%nat ->
  is_json_of text (reading_members d ++ more).
Proof.
  intros Hd Hmore Hnd -> Hl root collect s. rewrite <- reading_text, <- fmap_app in Hl |- *.
  apply jobject_read; [done| |done|done]. apply Forall_app. split; [by apply reading_members_ok|done].
Qed.

(** C4: what a batch of five readings is uploaded as is JSON, whatever bytes the
    sensors sent, when the device id, the dates, the times and the city hold no
    quote and no backslash ([verbatim]; see [city_escape_breaks_json]) and fit
    their buffers.  The parser reads each of the three texts [sensor_task] prints
    as an object with one member for every field and nothing else: the eight
    averages as the doubles nearest to them rounded to the one or two decimals of
    the format, the CO2 value, which is the sum of the five readings' values
    divided by five and rounded down, and the texts as they are. *)
Theorem batch_json_read l device_id fecha hora inicio city :
  Forall (fun d => exists raw values, length values = 8%nat /\ Forall (in_u 16) values /\
                   d = Sensors.combine (scd4x_decode raw) (measured_of values)) l ->
  length l = 5%nat -> (length device_id <= 90)%nat -> (length fecha <= 10)%nat -> (length hora <= 8)%nat ->
  (length inicio <= 8)%nat -> (length city <= 63)%nat -> Forall verbatim [device_id; fecha; hora; inicio; city] ->
  let d := averages 5 (total l) in
  co2 d = foldr Z.add 0 (co2 <$> l) / 5 /\
  is_json_of (format_text device_id d hora fecha inicio city) (first_members device_id d hora fecha inicio city) /\
  is_json_of (dated_text d fecha hora) (dated_members d fecha hora) /\
  is_json_of (plain_text d hora) (plain_members d hora).
Proof.
  intros Hl Hn Hid Hf Hh Hi Hc Hv d. rewrite !Forall_cons in Hv. assert (Forall sample_ok l) as Hok.
  { eapply Forall_impl; [exact Hl|]. intros x (raw & values & Hvs & Hu & ->). by apply sample_in_range. }
  destruct (averages_five l Hok Hn) as (Hb & Ec & Hu). split; [exact Ec|]. assert (text_sized d) as Hd by done.
  destruct (texts_fit d device_id fecha hora inicio city Hd Hid Hf Hh Hi Hc) as (L1 & L2 & L3).
  split_and!; apply members_read; try done;
    try (rewrite !Forall_cons; split_and!; try apply text_field_ok; (done || tauto || (simpl; lia)));
    apply (bool_decide_unpack _); by vm_compute.
Qed.

Lemma batch_json_read_witness :
  let d := averages 5 (total (repeat full_scale 5)) in
  co2 d = 65535 /\ is_json_of (dated_text d (STR "31-12-2099") (STR "23:59:59")) (dated_members d (STR "31-12-2099") (STR "23:59:59")) /\
  dated_text d (STR "31-12-2099") (STR "23:59:59") =
    jobject [jfield (STR "pm1p0") (STR "6553.50"); jfield (STR "pm2p5") (STR "6553.50"); jfield (STR "pm4p0") (STR "6553.50");
      jfield (STR "pm10p0") (STR "6553.50"); jfield (STR "voc") (STR "6553.5"); jfield (STR "nox") (STR "6553.5");
      jfield (STR "cTe") (STR "228.84"); jfield (STR "cHu") (STR "377.67"); jfield (STR "co2") (STR "65535");
      jfield (STR "fecha") (jtext (STR "31-12-2099")); jfield (STR "hora") (jtext (STR "23:59:59"))] /\
  om_find (STR "cTe") (object_map (object_of (as_member <$> dated_members d (STR "31-12-2099") (STR "23:59:59")))) =
    Some (Value_double (b64_div (b64_of_Z 22884) (b64_of_Z 100))).
Proof.
  rewrite assoc by apply _. split; [|vm_compute; by split].
  destruct (batch_json_read (repeat full_scale 5) [] (STR "31-12-2099") (STR "23:59:59") [] []) as (Hc & _ & H & _).
  - apply Forall_forall. intros d Hd%list_elem_of_In%repeat_spec. subst d.
    exists (repeat 255 9), (repeat 65535 8). split; [reflexivity|]. split; [|reflexivity].
    repeat constructor; by vm_compute.
  - reflexivity.
  - vm_compute. lia.
  - vm_compute. lia.
  - vm_compute. lia.
  - vm_compute. lia.
  - vm_compute. lia.
  - repeat constructor; discriminate.
  - split; [rewrite Hc; vm_compute; reflexivity|exact H].
Defined.

(** The city is read up to the first quote, an escaped one included, and written
    between quotes as it is: an escape in the answer of the service is cut, and the
    first batch is not JSON. *)
Lemma city_escape_breaks_json :
  let answer := [dquote] ++ STR "city" ++ [dquote; CH ":"; dquote] ++ STR "a\" ++ [dquote] ++ STR "b" ++ [dquote] in
  let d := averages 5 (total (repeat full_scale 5)) in
  json_get_string answer (STR "city") (repeat 0 8) 8 = Ret (true, STR "a\" ++ repeat 0 6) /\
  match parse (format_text (STR "id") d (STR "23:59:59") (STR "31-12-2099") (STR "00:00:00") (STR "a\-b"))
          Value_null false (Reader_new Features_all) with
  | Ret (ok, _) => ok = false
  | _ => False
  end.
Proof. cbv zeta. split; vm_compute; reflexivity. Qed.
