(* ===== verification/MainFacts.v ===== *)
(** * The measurement task: batches of five, a task that goes on

    The accumulators of [sensor_task] are the sums of the readings since the
    last batch; every fifth reading is averaged and written to the database
    once; whatever the network answers, as long as the replies can be read, the
    task goes on. *)
From S2P Require Import FloatBounds Main FirebaseAppFacts RtdbFacts SensorsFacts BatchFacts.
Open Scope Z_scope.

(** ** Programs of the task *)

Section calculus.
Context `{Platform} (F : bytes -> Prop).

(** As [wpn], for programs over the whole state. *)
Definition wpw {A} (m : ST World A) (w : World) (Q : A -> World -> Prop) : Prop :=
  match m w with
  | Ret (a, w') => Q a w'
  | Abort msg => aborts_on F msg
  | Undef msg => overflows_on F msg
  | Fuel => False
  end.

Lemma wpw_ret {A} (a : A) w (Q : A -> World -> Prop) : Q a w -> wpw (mret a) w Q.
Proof. done. Qed.

Lemma wpw_bind {A B} (m : ST World A) (f : A -> ST World B) w Q :
  wpw m w (fun a w' => wpw (f a) w' Q) -> wpw (m ≫= f) w Q.
Proof. unfold wpw, mbind, ST_bind. destruct (m w) as [[a w']| | |]; simpl; done. Qed.

Lemma wpw_mono {A} (m : ST World A) w (P Q : A -> World -> Prop) :
  wpw m w P -> (forall a w', P a w' -> Q a w') -> wpw m w Q.
Proof. unfold wpw. destruct (m w) as [[a w']| | |]; auto. Qed.

Lemma wpw_get {A B} (g : World -> A) (f : A -> ST World B) w Q : wpw (f (g w)) w Q -> wpw (get g ≫= f) w Q.
Proof. done. Qed.

Lemma wpw_run {A B} (o : outcome A) (f : A -> ST World B) w a Q :
  o = Ret a -> wpw (f a) w Q -> wpw (run o ≫= f) w Q.
Proof. intros ->. done. Qed.

Lemma wpw_run_end {A} (o : outcome A) w a (Q : A -> World -> Prop) : o = Ret a -> Q a w -> wpw (run o) w Q.
Proof. intros ->. done. Qed.

Lemma wpw_call {A} c (g : list call -> A) w (Q : A -> World -> Prop) :
  (let h := c :: shim_trace (shim w) in Q (g h) (mkWorld (set_trace h (shim w)) (sens w) (task w))) ->
  wpw (world_call c g) w Q.
Proof. done. Qed.

Lemma wpw_task f w (Q : unit -> World -> Prop) : Q tt (mkWorld (shim w) (sens w) (f (task w))) -> wpw (on_task f) w Q.
Proof. done. Qed.

(** The object and the connection of a running task. *)
Definition net (w : World) (a : App) : Net := mkNet (shim_trace (shim w)) (shim_output_len (shim w)) a.

Lemma wpw_shim {A} (m : ST Net A) w a (Q : A -> World -> Prop) :
  g_app (shim w) = Some a ->
  wpn F m (net w a) (fun x n => Q x (mkWorld (mkShim (trace n) (output_len n) (Some (this n)) (g_rtdb (shim w)))
                                       (sens w) (task w))) ->
  wpw (on_shim (with_app m)) w Q.
Proof.
  intros Ha. unfold wpn, wpw, on_shim, with_app. rewrite Ha. fold (net w a).
  destruct (m (net w a)) as [[x n]| | |]; done.
Qed.

Lemma wpw_sens {A} (m : ST Sens A) w k Q (R : A -> World -> Prop) :
  wps k m (set_sens_trace (shim_trace (shim w)) (sens w)) Q ->
  (forall a s, Q a (sens_trace s) -> extends k (set_sens_trace (shim_trace (shim w)) (sens w)) s ->
     R a (mkWorld (set_trace (sens_trace s) (shim w)) s (task w))) ->
  wpw (on_sens m) w R.
Proof.
  intros (a & s & E & He & HQ) HR. unfold wpw, on_sens. rewrite E. by apply HR.
Qed.
End calculus.

(** ** Conversations *)

Section conversation.
Context `{Platform} (F : bytes -> Prop) `{!Delivers F} (url : bytes).

Definition exchange : Type := wire * http_ret_t.
Definition no_put (x : exchange) : Prop := w_method x.1 <> Some HTTP_METHOD_PUT.
Ltac quiet_tac := repeat (apply Forall_cons_2; [unfold no_put, account_request, token_request, request; cbn [fst w_method]; discriminate|]); first [assumption|constructor].

Lemma tokens_quiet reg account n n' e :
  tokens reg account n n' e -> exists c, Forall no_put c /\ talks c n n'.
Proof.
  destruct 1 as [r _ Ht _|r n1 v token r' _ _ Ht1 _ _ Ht2 _|r n1 v token r' n2 v' access expires _ _ Ht1 _ _ Ht2 _ _ _ Etr _ _].
  - eexists. split; [|exact Ht]. quiet_tac.
  - eexists. split; [|exact (talks_app _ _ _ _ _ Ht1 Ht2)]. quiet_tac.
  - eexists. split; [|eapply talks_change; [exact (talks_app _ _ _ _ _ Ht1 Ht2)|done|]]; [quiet_tac|].
    split_and!; rewrite Etr; [by apply suffix_cons_r|done..].
Qed.

Lemma refresh_quiet n n' e :
  refreshed n n' e \/ relogged n n' e -> exists c, Forall no_put c /\ talks c n n'.
Proof.
  intros [(r & n1 & _ & _ & Ht & _ & [v token expires _ _ _ Etr _])|(r & n1 & _ & Ht & _ & (c & Hc & Htc)%tokens_quiet)].
  - eexists. split; [|eapply talks_change; [exact Ht|done|]]; [quiet_tac|].
    split_and!; rewrite Etr; [by apply suffix_cons_r|done..].
  - eexists (_ :: c). split; [|exact (talks_app [_] c _ _ _ Ht Htc)]. quiet_tac.
Qed.

(** The requests of one upload: one, or two around a renewal of the token. *)
Definition is_upload (path body : bytes) (x : exchange) : Prop :=
  exists token, x.1 = request (url ++ path ++ STR ".json?auth=" ++ token) HTTP_METHOD_PUT body.

Inductive upload (path body : bytes) : list exchange -> Prop :=
  | upload_once u : is_upload path body u -> upload path body [u]
  | upload_twice u mid u' : is_upload path body u -> status_code u.2 = 401 -> Forall no_put mid ->
      is_upload path body u' -> upload path body (u :: mid ++ [u']).

Lemma authorized_upload path body n n' e :
  authorized (data_request url HTTP_METHOD_PUT path body) is_200 n n' e ->
  exists c, upload path body c /\ talks c n n'.
Proof.
  destruct 1 as [r _ Ht _|r n1 e n2 r' _ H401 Ht1 _ Href Ht2 _].
  - eexists. split; [|exact Ht]. constructor. by exists (auth_token (this n)).
  - destruct (refresh_quiet _ _ _ Href) as (mid & Hmid & Htm). set (w := data_request url HTTP_METHOD_PUT path body).
    exists ((w (this n), r) :: mid ++ [(w (this n2), r')]). split.
    + apply upload_twice; [by exists (auth_token (this n))|done|exact Hmid|by exists (auth_token (this n2))].
    + exact (talks_app [_] (mid ++ [_]) _ _ _ Ht1 (talks_app mid [_] _ _ _ Htm Ht2)).
Qed.

(** A stretch of the trace, and what was said in it. *)
Definition chat (c : list exchange) (h h' : list call) : Prop :=
  exists n n', trace n = h /\ trace n' = h' /\ talks c n n'.

Lemma chat_app c1 c2 h h1 h' : chat c1 h h1 -> chat c2 h1 h' -> chat (c1 ++ c2) h h'.
Proof.
  intros (n & n1 & <- & <- & H1) (m & m' & Em & <- & H2). exists n, m'. split_and!; [done..|].
  eapply talks_app; [exact H1|]. eapply talks_change; [exact H2|by apply same_talk_eq|done].
Qed.

Lemma chat_suffix c h h' : chat c h h' -> h `suffix_of` h'.
Proof. intros (n & n' & <- & <- & Ht). by eapply talks_suffix. Qed.

(** The trace of the task, and what was said between two of its states. *)
Definition wtrace (w : World) : list call := shim_trace (shim w).
Definition said (c : list exchange) (w w' : World) : Prop := chat c (wtrace w) (wtrace w').

Lemma said_app c1 c2 w w1 w2 : said c1 w w1 -> said c2 w1 w2 -> said (c1 ++ c2) w w2.
Proof. apply chat_app. Qed.

Lemma talks_said c w w' a n : talks c (net w a) n -> trace n = wtrace w' -> said c w w'.
Proof. intros Ht E. by exists (net w a), n. Qed.

Lemma chat_nothing h h' :
  Forall (fun c => match c with TaskDelay _ | I2cNewBus | I2cAddDevice _ | I2cTransmit _ _ | I2cReceive _ _
                            | Time | TimerGetTime => True | _ => False end) h ->
  chat [] h' (h ++ h').
Proof.
  intros Hh. exists (mkNet h' 0 bare_app), (mkNet (h ++ h') 0 bare_app). split_and!; [done..|]. constructor.
  split_and!; cbn [trace]; [by apply suffix_app_r| |].
  - induction Hh as [|c h Hc _ IH]; [done|]. by destruct c.
  - induction Hh as [|c h Hc _ IH]; [done|]. by destruct c.
Qed.

Lemma said_nothing w w' h :
  wtrace w' = h ++ wtrace w ->
  Forall (fun c => match c with TaskDelay _ | I2cNewBus | I2cAddDevice _ | I2cTransmit _ _ | I2cReceive _ _
                            | Time | TimerGetTime => True | _ => False end) h ->
  said [] w w'.
Proof. unfold said. intros -> Hh. by apply chat_nothing. Qed.
End conversation.

(** ** A running task *)

Section running.
Context `{Platform} (F : bytes -> Prop) `{!Delivers F}.
Context (secrets : Secrets) (DEVICE_ID url city inicio : bytes).

(** The text of a batch, by the date of the batch before it. *)
Definition batch_text (last : option bytes) (now : tm) (d : SensorData) : bytes :=
  match last with
  | None => format_text DEVICE_ID d (fmt_time now) (fmt_date now) inicio city
  | Some fecha => if decide (fecha = fmt_date now) then plain_text d (fmt_time now)
                  else dated_text d (fmt_date now) (fmt_time now)
  end.

(** The task between two rounds, with the readings [l] since the last batch and
    the date [last] of that batch. *)
Record holding (l : list SensorData) (last : option bytes) (w : World) : Prop := {
  holds_app : exists a, g_app (shim w) = Some a /\ net_ok F (net w a);
  holds_url : g_rtdb (shim w) = Some url;
  holds_city : cstr (g_city_state (sens w)) = Some city;
  holds_samples : Forall sample_ok l;
  holds_count : sample_count (task w) = Z.of_nat (length l);
  holds_sums : sums (task w) = total l;
  holds_inicio : inicio_str (task w) = inicio;
  holds_last : length (last_fecha_str (task w)) = 20%nat /\
    match last with
    | None => first_send (task w) = true
    | Some fecha => first_send (task w) = false /\ cstr (last_fecha_str (task w)) = Some fecha /\
                    (length fecha <= 10)%nat
    end;
  holds_avg : nonneg (avg_size (task w))
}.

(** What the rounds send: the batches, in order, one upload for each; nothing
    else is put into the database. *)
Inductive uploads : option bytes -> list (list SensorData) -> list exchange -> option bytes -> Prop :=
  | uploads_none last c : Forall no_put c -> uploads last [] c last
  | uploads_batch last b t c1 c c2 bs last' :
      let now := localtime TZ_OFFSET t in
      Forall no_put c1 ->
      upload url (root_path ++ STR "/" ++ fmt_key now) (batch_text last now (averages 5 (total b))) c ->
      uploads (Some (fmt_date now)) bs c2 last' ->
      uploads last (b :: bs) (c1 ++ c ++ c2) last'.

Lemma uploads_quiet last bs c1 c2 last' :
  Forall no_put c1 -> uploads last bs c2 last' -> uploads last bs (c1 ++ c2) last'.
Proof.
  intros Hc1. destruct 1 as [last c Hc|last b t c c' c'' bs last' now Hc Hu Hs].
  - constructor. by apply Forall_app.
  - rewrite app_assoc. econstructor; [by apply Forall_app|exact Hu|exact Hs].
Qed.

Lemma uploads_app last bs1 c1 last1 bs2 c2 last2 :
  uploads last bs1 c1 last1 -> uploads last1 bs2 c2 last2 -> uploads last (bs1 ++ bs2) (c1 ++ c2) last2.
Proof.
  induction 1 as [last c Hc|last b t c c' c'' bs last' now Hc Hu Hs IH]; intros H2; [by apply uploads_quiet|].
  rewrite <- !app_assoc. cbn [app]. econstructor; [exact Hc|exact Hu|by apply IH].
Qed.

(** Between two rounds: the trace, the readings since the last batch, the date
    of that batch. *)
Record stage := mkStage { st_trace : list call; st_held : list SensorData; st_date : option bytes }.

(** One round: the readings it got, the batches it sent, all that was said, and
    the stage after it.  The reading is the one the bus gave in this round; the
    batch is that reading and the four held before it, with the time of the look
    at the clock that follows the reading. *)
Inductive round (s : stage) : list SensorData -> list (list SensorData) -> list exchange -> stage -> Prop :=
  | round_failed h e c h' :
      reading (st_trace s) h (inl e) -> chat c h h' -> Forall no_put c ->
      round s [] [] c (mkStage h' (st_held s) (st_date s))
  | round_kept h d c h' :
      reading (st_trace s) h (inr d) -> (length (st_held s ++ [d]) < 5)%nat ->
      chat c h h' -> Forall no_put c ->
      round s [d] [] c (mkStage h' (st_held s ++ [d]) (st_date s))
  | round_batch h d c h2 c2 h' :
      let b := st_held s ++ [d] in
      let now := localtime TZ_OFFSET (time (Time :: h)) in
      reading (st_trace s) h (inr d) -> length b = 5%nat ->
      chat c (Time :: h) h2 ->
      upload url (root_path ++ STR "/" ++ fmt_key now) (batch_text (st_date s) now (averages 5 (total b))) c ->
      chat c2 h2 h' -> Forall no_put c2 ->
      round s [d] [b] (c ++ c2) (mkStage h' [] (Some (fmt_date now))).

(** The log of a number of rounds. *)
Inductive rounds : nat -> stage -> list SensorData -> list (list SensorData) -> list exchange -> stage -> Prop :=
  | rounds_none s : rounds 0 s [] [] [] s
  | rounds_more n s new bs c s1 new' bs' c' s' :
      round s new bs c s1 -> rounds n s1 new' bs' c' s' ->
      rounds (S n) s (new ++ new') (bs ++ bs') (c ++ c') s'.

(** What a log amounts to: the queue, the uploads and the conversation. *)
Definition served (n : nat) (s : stage) new bs c (s' : stage) : Prop :=
  (length new <= n)%nat /\ st_held s ++ new = concat bs ++ st_held s' /\
  Forall (fun b => length b = 5%nat) bs /\ (length (st_held s') < 5)%nat /\
  uploads (st_date s) bs c (st_date s') /\ chat c (st_trace s) (st_trace s').

Lemma reading_quiet h h' x : reading h h' x -> chat [] h h'.
Proof.
  assert (forall a cmd ms n h h' r, fetched a cmd ms n h h' r -> chat [] h h') as Hf.
  { intros a cmd ms n g g' r Hr. apply fetched_bus in Hr as (k & -> & Hk). apply chat_nothing.
    eapply Forall_impl; [exact Hk|]. by intros []. }
  assert (forall n h h' r, polled n h h' r -> chat [] h h') as Hp.
  { induction 1; eauto. - by apply (chat_nothing []). - eapply (chat_app [] []); eauto. }
  destruct 1; repeat first [by eauto|eapply (chat_app [] []); [by eauto|]].
Qed.

Lemma round_served s new bs c s' : (length (st_held s) < 5)%nat -> round s new bs c s' -> served 1 s new bs c s'.
Proof.
  intros Hl. destruct 1 as [h e c h' Hr Hc Hq|h d c h' Hr Hn Hc Hq|h d c h2 c2 h' b now Hr Hn Hc Hu Hc2 Hq];
    apply reading_quiet in Hr; unfold served; cbn [st_held st_date st_trace]; (split; [simpl; lia|]).
  - rewrite app_nil_r. split_and!; [done|constructor|done|by constructor|exact (chat_app [] c _ _ _ Hr Hc)].
  - split_and!; [done|constructor|done|by constructor|exact (chat_app [] c _ _ _ Hr Hc)].
  - split_and!; [by rewrite app_nil_r, concat_cons, app_nil_r|by constructor|simpl; lia| |].
    + apply (uploads_batch (st_date s) b (time (Time :: h)) [] c c2 [] (Some (fmt_date now)));
        [constructor|exact Hu|by constructor].
    + apply (chat_app [] _ _ h _ Hr), (chat_app [] _ _ (Time :: h) _); [by apply (chat_nothing [Time]); repeat constructor|].
      exact (chat_app c c2 _ _ _ Hc Hc2).
Qed.

Lemma rounds_served n s new bs c s' : (length (st_held s) < 5)%nat -> rounds n s new bs c s' -> served n s new bs c s'.
Proof.
  intros Hl Hr. induction Hr as [s|n s new bs c s1 new' bs' c' s' Hr _ IH].
  { unfold served. cbn [concat]. rewrite app_nil_r. split_and!; [done|done|constructor|done|by repeat constructor|].
    by apply (chat_nothing []). }
  destruct (round_served _ _ _ _ _ Hl Hr) as (N1 & E1 & B1 & L1 & U1 & C1).
  destruct (IH L1) as (N2 & E2 & B2 & L2 & U2 & C2). unfold served. split_and!.
  - rewrite length_app. lia.
  - by rewrite app_assoc, E1, <- app_assoc, E2, concat_app, app_assoc.
  - by apply Forall_app.
  - done.
  - by eapply uploads_app.
  - by eapply chat_app.
Qed.

(** Everything but the connection. *)
Lemma holds_net l last w w' a :
  holding l last w -> g_app (shim w') = Some a -> net_ok F (net w' a) -> g_rtdb (shim w') = g_rtdb (shim w) ->
  g_city_state (sens w') = g_city_state (sens w) -> task w' = task w -> holding l last w'.
Proof. intros [] Ha Hn Hr Hc Ht. split; rewrite ?Hr, ?Hc, ?Ht; try done. by exists a. Qed.

Lemma net_ok_trace w a h :
  net_ok F (net w a) -> net_ok F (net (mkWorld (set_trace h (shim w)) (sens w) (task w)) a).
Proof. done. Qed.

(** ** Reading *)

Lemma on_sens_said {A} (m : ST Sens A) w k (Q : A -> list call -> Prop) (R : A -> World -> Prop) :
  wps k m (set_sens_trace (wtrace w) (sens w)) Q ->
  (forall a w', Q a (wtrace w') -> said [] w w' -> shim w' = set_trace (wtrace w') (shim w) ->
     g_city_state (sens w') = g_city_state (sens w) -> task w' = task w -> R a w') ->
  wpw F (on_sens m) w R.
Proof.
  intros Hm HR. eapply wpw_sens; [exact Hm|]. intros a s Ha ((h & E & Hh) & _ & Hc & _). cbn [sens_trace] in E.
  apply HR; [done| |done|done|done]. apply (said_nothing w _ h); [done|].
  eapply Forall_impl; [exact Hh|]. by intros [].
Qed.

Lemma holds_same l last w w' :
  holding l last w -> shim w' = set_trace (wtrace w') (shim w) ->
  g_city_state (sens w') = g_city_state (sens w) -> task w' = task w -> holding l last w'.
Proof.
  intros Hw Hs Hc Ht. destruct (holds_app _ _ _ Hw) as (a & Ha & Hn).
  apply (holds_net l last w w' a Hw); [by rewrite Hs|unfold net; by rewrite Hs|by rewrite Hs|done|done].
Qed.

(** The sensors never fail. *)
Definition sensors_work : Prop :=
  forall d s, exists d' s', sensors_read (Some d) s = Ret ((ESP_OK, Some d'), s').

(** What a reading adds to the queue. *)
Definition sample (x : Z + SensorData) : list SensorData := match x with inl _ => [] | inr d => [d] end.

Lemma read_sample_ok l last w :
  holding l last w ->
  wpw F read_sample w (fun _ w' => exists x, reading (wtrace w) (wtrace w') x /\ said [] w w' /\
    holding (l ++ sample x) last w' /\ (sensors_work -> length (sample x) = 1%nat)).
Proof.
  intros Hw. unfold read_sample. apply wpw_get, wpw_bind.
  eapply (on_sens_said _ _ 30 (fun r h => (exists x, reading (wtrace w) h x /\ stored (data (task w)) x r) /\
                                          (sensors_work -> r.1 = ESP_OK))).
  { set (s := set_sens_trace _ _). destruct (sensors_read_wps (data (task w)) s) as (r & s1 & E & He & Hr).
    exists r, s1. split_and!; [exact E|exact He|exact Hr|]. intros Hok.
    destruct (Hok (data (task w)) s) as (d' & s2 & E2). rewrite E in E2. by injection E2 as -> _. }
  intros r w1 [(x & Hx & Hr) Hwork] Hs1 Hsh1 Hc1 Ht1. pose proof (holds_same l last w w1 Hw Hsh1 Hc1 Ht1) as K1.
  destruct x as [e|d]; cbn [stored] in Hr; [destruct Hr as [Hr ->]|subst r]; cbn [fst] in Hwork;
    apply wpw_bind, wpw_task.
  - rewrite (proj2 (Z.eqb_neq e ESP_OK)) by done. apply wpw_ret. exists (inl e). split_and!; [exact Hx|exact Hs1| |].
    + cbn [sample]. rewrite app_nil_r. destruct K1. by split.
    + intros Hok. by specialize (Hwork Hok).
  - rewrite Z.eqb_refl. apply wpw_task. exists (inr d). split_and!; [exact Hx|exact Hs1| |done]. cbn [sample].
    assert (sample_ok d) as Hd.
    { destruct (reading_bytes _ _ _ Hx) as (raw & values & _ & _ & Hn & Hv & ->). by apply sample_in_range. }
    destruct K1. split; try done; cbn [task set_samples set_data data sample_count sums default].
    + apply Forall_app. split; [done|by constructor].
    + rewrite holds_count0, length_app. cbn [length]. lia.
    + by rewrite total_snoc, holds_sums0.
Qed.

(** ** The text of a batch *)

Lemma text_min d more : (16 <= length (jobject (reading_fields d ++ more)))%nat.
Proof.
  unfold jobject, reading_fields, jfield. cbn [app comma_list length]. rewrite <- !app_assoc, length_app. cbn [app length]. lia.
Qed.

Lemma no_nul_jobject d more : Forall no_nul more -> no_nul (jobject (reading_fields d ++ more)).
Proof.
  intros Hm. unfold jobject. apply no_nul_app; [nul_tac|]. apply no_nul_app; [|nul_tac].
  apply no_nul_comma_list, Forall_app. split; [apply no_nul_reading_fields|done].
Qed.

Context (Hid : no_nul DEVICE_ID) (Hidl : (length DEVICE_ID <= 90)%nat).
Context (Hini : no_nul inicio) (Hinil : (length inicio <= 8)%nat).
Context (Hcityl : (length city <= 63)%nat).

Lemma later_text_ok d more buf :
  Forall no_nul more -> length buf = 384%nat -> (length (jobject (reading_fields d ++ more)) < 384)%nat ->
  exists b, snprintf 384 (jobject (reading_fields d ++ more)) buf = Ret b /\
            c_string b = Ret (jobject (reading_fields d ++ more)).
Proof.
  intros Hm Hb Hl. destruct (snprintf_ok _ buf (no_nul_jobject d more Hm)) as (b & E & _ & Hc); [lia|].
  rewrite Hb in E. exists b. split; [exact E|]. unfold c_string. rewrite Hc, take_ge by lia. done.
Qed.

Lemma set_sent_holds l last w fecha buf :
  holding l last w -> length buf = 20%nat -> cstr buf = Some fecha -> (length fecha <= 10)%nat ->
  holding l (Some fecha) (mkWorld (shim w) (sens w) (set_sent buf (task w))).
Proof. intros [] Hb Hc Hl. by split. Qed.

Lemma batch_json_ok l last w t :
  holding l last w -> length l = 5%nat -> 0 <= t < 2 ^ 32 ->
  let now := localtime TZ_OFFSET t in
  let d := averages 5 (total l) in
  wpw F (batch_json DEVICE_ID d (fmt_date now) (fmt_time now)) w (fun json w' =>
    json = batch_text last now d /\ (16 <= length json < 384)%nat /\
    holding l (Some (fmt_date now)) w' /\ said [] w w').
Proof.
  intros Hw Hl Ht now d. pose proof (fmt_time_ok t) as [Htn Htl]. pose proof (fmt_date_ok t Ht) as [Hdn Hdl].
  fold now in Htn, Htl, Hdn, Hdl.
  assert (text_sized d) as Hd.
  { destruct (averages_five l (holds_samples _ _ _ Hw) Hl) as (H1 & _ & H2). by split. }
  destruct (texts_fit d DEVICE_ID (fmt_date now) (fmt_time now) inicio city Hd) as (L1 & L2 & L3); [lia..|].
  unfold batch_json. apply wpw_get, wpw_bind. unfold uninit. apply wpw_get, wpw_ret.
  set (buf := map _ _). assert (length buf = 384%nat) as Hbuf by (unfold buf; by rewrite length_map, length_seq).
  clearbody buf. destruct (holds_last _ _ _ Hw) as [H20 Hlast]. destruct last as [fecha|].
  - destruct Hlast as (-> & Hc & Hfl). cbn iota. eapply wpw_run; [unfold c_string; by rewrite Hc|].
    assert (no_nul fecha) as Hfn by (apply no_nul_elem; by apply cstr_Some in Hc as (? & _ & ?)).
    unfold batch_text. destruct (decide (fecha = fmt_date now)) as [He|Hne].
    + rewrite (proj2 (strncmp_eq 20 fecha _ Hfn Hdn ltac:(lia) ltac:(lia)) He). cbn [negb Z.eqb].
      destruct (later_text_ok d [jfield (STR "hora") (jtext (fmt_time now))] buf) as (b & E & Ec); [|done|done|].
      { constructor; [|done]. apply no_nul_jfield; [nul_tac|by apply no_nul_jtext]. }
      eapply wpw_run; [exact E|]. eapply wpw_run_end; [exact Ec|]. split; [done|].
      split; [split; [apply (text_min d [_])|exact L3]|]. subst fecha. split; [done|]. by apply (said_nothing w w []).
    + destruct (Z.eqb_spec (strncmp 20 fecha (fmt_date now)) 0) as [He|_].
      { by apply strncmp_eq in He; [|done|done|lia..]. }
      cbn [negb].
      destruct (later_text_ok d [jfield (STR "fecha") (jtext (fmt_date now)); jfield (STR "hora") (jtext (fmt_time now))]
                  buf) as (b & E & Ec); [|done|done|].
      { repeat (apply Forall_cons_2; [apply no_nul_jfield; [nul_tac|by apply no_nul_jtext]|]). constructor. }
      eapply wpw_run; [exact E|]. destruct (copy_fecha_ok _ _ Hdn ltac:(lia) H20) as (b2 & E2 & L & C2).
      eapply wpw_run; [exact E2|]. apply wpw_bind, wpw_task. eapply wpw_run_end; [exact Ec|]. split; [done|].
      split; [split; [apply (text_min d [_; _])|exact L2]|]. split; [by apply (set_sent_holds l (Some fecha))|].
      by apply (said_nothing w _ []).
  - rewrite Hlast. apply wpw_bind. rewrite (holds_inicio _ _ _ Hw).
    assert (no_nul (format_text DEVICE_ID d (fmt_time now) (fmt_date now) inicio city)) as Hnn.
    { apply no_nul_format_text; try done. apply no_nul_elem.
      pose proof (holds_city _ _ _ Hw) as Hcc. by apply cstr_Some in Hcc as (? & _ & ?). }
    eapply (on_sens_said _ w 0 (fun b _ => length b = 384%nat /\
      cstr b = Some (format_text DEVICE_ID d (fmt_time now) (fmt_date now) inicio city))).
    { destruct (format_json_ok DEVICE_ID d (fmt_time now) (fmt_date now) inicio city buf
                  (set_sens_trace (shim_trace (shim w)) (sens w))) as (b & E & Lb & Cb);
        [exact (holds_city _ _ _ Hw)|lia|exact Hnn|].
      rewrite Hbuf in E. exists b, (set_sens_trace (shim_trace (shim w)) (sens w)). split; [exact E|].
      split; [apply extends_refl|]. split; [lia|]. rewrite Cb, take_ge by lia. done. }
    intros b w1 [Lb Cb] Hs1 Hsh1 Hc1 Ht1. pose proof (holds_same l None w w1 Hw Hsh1 Hc1 Ht1) as K1.
    destruct (copy_fecha_ok _ _ Hdn ltac:(lia) (proj1 (holds_last _ _ _ K1))) as (b2 & E2 & L & C2).
    assert (last_fecha_str (task w1) = last_fecha_str (task w)) as Hlf by by rewrite Ht1.
    rewrite Hlf in E2. eapply wpw_run; [exact E2|]. apply wpw_bind, wpw_task.
    eapply wpw_run_end; [unfold c_string; by rewrite Cb|]. split; [done|]. split; [split; [apply (text_min d [_; _; _; _; _])|exact L1]|].
    split; [by apply (set_sent_holds l None)|].
    exact Hs1.
Qed.

(** ** The network steps of a round *)

(** A database operation leaves the rest of the task alone. *)
Lemma database_step l last w (f : bytes -> ST Net Z) (Q : list exchange -> Prop) :
  holding l last w ->
  (forall n, net_ok F n -> wpn F (f url) n (fun _ n' => net_ok F n' /\ exists c, Q c /\ talks c n n')) ->
  wpw F (on_shim (with_rtdb f)) w (fun _ w' => holding l last w' /\ task w' = task w /\
    exists c, Q c /\ said c w w').
Proof.
  intros Hw Hf. destruct (holds_app _ _ _ Hw) as (a & Ha & Hn).
  assert (on_shim (with_rtdb f) w = on_shim (with_app (f url)) w) as E.
  { unfold on_shim, with_rtdb. by rewrite get_bind, (holds_url _ _ _ Hw). }
  unfold wpw. rewrite E. apply (wpw_shim F _ w a _ Ha). eapply wpn_mono; [by apply Hf|].
  intros z n (Hn' & c & Hc & Ht). split; [|split; [done|]].
  - destruct n. by eapply (holds_net l last w _ _ Hw).
  - exists c. split; [done|]. by eapply talks_said.
Qed.

Lemma putData_step l last w path body :
  holding l last w ->
  wpw F (on_shim (firebase_putData path body)) w (fun _ w' => holding l last w' /\ task w' = task w /\
    exists c, upload url path body c /\ said c w w').
Proof.
  intros Hw. apply (database_step l last w _ _ Hw). intros n Hn. apply wpn_bind.
  eapply wpn_mono; [by apply send_data_wp|]. intros e n' (Hn' & _ & Ha). apply wpn_ret. split; [done|].
  by apply authorized_upload in Ha.
Qed.

Lemma trim_step l last w n :
  0 < n -> holding l last w ->
  wpw F (on_shim (firebase_trim_oldest_batch root_path n)) w (fun _ w' => holding l last w' /\ task w' = task w /\
    exists c, Forall no_put c /\ said c w w').
Proof.
  intros Hpos Hw. apply (database_step l last w _ _ Hw). intros m Hm.
  eapply wpn_mono; [by apply trimOldestBatch_wp|]. intros e n' (Hn' & _ & _ & r & n1 & Ht & Hcase).
  split; [done|].
  assert (forall m', same_talk n1 m' -> exists c, Forall no_put c /\ talks c m m') as Hone.
  { intros m' Hs. eexists. split; [|eapply talks_change; [exact Ht|done|exact Hs]].
    apply Forall_cons_2; [unfold no_put, oldest_listing, request; cbn [fst w_method]; discriminate|constructor]. }
  destruct Hcase as [(_ & _ & Hs)|(_ & v & _ & [(_ & _ & Hs)|(_ & r2 & Ht2 & _)])]; [by apply Hone..|].
  eexists. split; [|exact (talks_app [_] [_] _ _ _ Ht Ht2)].
  apply Forall_cons_2; [unfold no_put, oldest_listing, request; cbn [fst w_method]; discriminate|].
  apply Forall_cons_2; [unfold no_put, null_patch, request; cbn [fst w_method]; discriminate|constructor].
Qed.

Lemma refresh_step l last w :
  holding l last w ->
  wpw F (on_shim firebase_refresh_token) w (fun _ w' => holding l last w' /\ task w' = task w /\
    exists c, Forall no_put c /\ said c w w').
Proof.
  intros Hw. destruct (holds_app _ _ _ Hw) as (a & Ha & Hn).
  assert (on_shim firebase_refresh_token w =
          on_shim (with_app (e ← forceRefreshAuth; mret (if e =? ESP_OK then 0 else -2))) w) as E.
  { unfold on_shim, firebase_refresh_token. rewrite get_bind, Ha. cbn [is_null]. unfold with_app.
    unfold mbind, mret, ST_bind, ST_ret. rewrite Ha. destruct (forceRefreshAuth _) as [[e n]| | |]; done. }
  unfold wpw. rewrite E. apply (wpw_shim F _ w a _ Ha). apply wpn_bind.
  eapply wpn_mono; [by apply forceRefreshAuth_wp|]. intros e n (Hn' & Hr). apply wpn_ret.
  destruct (refresh_quiet _ _ _ Hr) as (c & Hc & Ht). split; [|split; [done|]].
  - destruct n. by eapply (holds_net l last w _ _ Hw).
  - exists c. split; [done|]. by eapply talks_said.
Qed.

Lemma set_retention_holds l last w avg count :
  holding l last w -> nonneg avg -> holding l last (mkWorld (shim w) (sens w) (set_retention avg count (task w))).
Proof. intros [] Ha. by split. Qed.

Lemma retention_ok l last w json :
  holding l last w -> (16 <= length json < 384)%nat ->
  wpw F (retention json) w (fun _ w' => holding l last w' /\ exists c, Forall no_put c /\ said c w w').
Proof.
  intros Hw Hl. unfold retention. apply wpw_get, wpw_bind, wpw_task.
  set (avg := blend _ _). set (count := u32 _). set (w1 := mkWorld _ _ _).
  assert (ge_pow 0 avg) as Ha by (apply blend_ge; [exact (holds_avg _ _ _ Hw)|lia]).
  assert (holding l last w1) as K1 by (apply set_retention_holds; [done|by apply (ge_pow_nonneg 0)]).
  destruct (max_items_ok avg Ha) as (n & En & _). eapply wpw_run; [exact En|].
  destruct (_ <? count).
  - apply wpw_bind. eapply wpw_mono; [apply (trim_step l last w1 50); [lia|done]|].
    intros deleted w2 (K2 & Ht2 & c & Hc & Hs).
    destruct (0 <? deleted); [apply wpw_task|apply wpw_ret].
    + split; [|exists c; split; [done|exact Hs]].
      apply set_retention_holds; [done|by apply (ge_pow_nonneg 0)].
    + split; [done|]. by exists c.
  - apply wpw_ret. split; [done|]. exists []. split; [constructor|]. by apply (said_nothing w w1 []).
Qed.

Context (Htime : forall h, 0 <= time h < 2 ^ 32) (Htimer : forall h, 0 <= timer_get_time h < 2 ^ 62).

Lemma call_holds l last w c :
  holding l last w -> holding l last (mkWorld (set_trace (c :: shim_trace (shim w)) (shim w)) (sens w) (task w)).
Proof. intros Hw. by apply (holds_same l last w). Qed.

Lemma said_call w c :
  match c with TaskDelay _ | Time | TimerGetTime => True | _ => False end ->
  said [] w (mkWorld (set_trace (c :: shim_trace (shim w)) (shim w)) (sens w) (task w)).
Proof. intros Hc. apply (said_nothing _ _ [c]); [done|]. constructor; [by destruct c|constructor]. Qed.

Lemma send_batch_ok l last w :
  holding l last w -> length l = 5%nat ->
  let now := localtime TZ_OFFSET (time (Time :: wtrace w)) in
  wpw F (send_batch DEVICE_ID) w (fun _ w' => holding [] (Some (fmt_date now)) w' /\ exists c h2 c2,
    chat c (Time :: wtrace w) h2 /\
    upload url (root_path ++ STR "/" ++ fmt_key now) (batch_text last now (averages 5 (total l))) c /\
    chat c2 h2 (wtrace w') /\ Forall no_put c2).
Proof.
  intros Hw Hl now. unfold send_batch, local_time. apply wpw_bind, wpw_bind, wpw_call. cbv zeta.
  change (shim_trace (shim w)) with (wtrace w). set (h := Time :: wtrace w) in *.
  pose proof (Htime h) as Ht. set (t := time h) in *. clearbody t.
  pose proof (call_holds l last w Time Hw) as K0. change (Time :: shim_trace (shim w)) with h in K0.
  set (w0 := mkWorld (set_trace h _) _ _) in *. assert (wtrace w0 = h) as Eh by done. clearbody w0. apply wpw_ret. clear Hw.
  fold now. pose proof (fmt_time_ok t) as [Htn Htl]. pose proof (fmt_key_ok t) as [Hkn Hkl].
  pose proof (fmt_date_ok t Ht) as [Hdn Hdl]. fold now in Htn, Htl, Hkn, Hkl, Hdn, Hdl.
  eapply wpw_run; [apply strftime_ok; lia|]. eapply wpw_run; [apply strftime_ok; lia|].
  apply wpw_get, wpw_bind. rewrite (holds_count _ _ _ K0), (holds_sums _ _ _ K0), Hl.
  eapply wpw_mono; [by apply (batch_json_ok l last w0 t)|].
  intros json w1 (Hj & Hjl & K1 & Hs1). fold now in Hj, K1.
  eapply wpw_run; [apply strftime_ok; lia|]. apply wpw_bind. unfold uninit. apply wpw_get, wpw_ret.
  set (buf := map _ _). assert (length buf = 64%nat) as Hbuf by (unfold buf; by rewrite length_map, length_seq).
  clearbody buf. set (path := root_path ++ STR "/" ++ fmt_key now).
  assert (no_nul path) as Hpn by (apply no_nul_app; [nul_tac|]; apply no_nul_app; [nul_tac|done]).
  assert (length path = 39%nat) as Hpl by (unfold path; by rewrite !length_app, Hkl).
  destruct (snprintf_ok path buf Hpn ltac:(lia)) as (b & Eb & _ & Cb). rewrite Hbuf in Eb.
  eapply wpw_run; [exact Eb|]. eapply wpw_run; [unfold c_string; rewrite Cb, take_ge by lia; done|].
  apply wpw_bind. eapply wpw_mono; [by apply (putData_step l (Some (fmt_date now)) w1 path json)|].
  intros _ w2 (K2 & _ & c2 & Hc2 & Hs2). apply wpw_bind.
  eapply wpw_mono; [by apply (retention_ok l (Some (fmt_date now)) w2 json)|].
  intros _ w3 (K3 & c3 & Hc3 & Hs3). apply wpw_task.
  split; [destruct K3; by split|]. exists c2, (wtrace w2), c3. split_and!; [| |exact Hs3|done].
  - rewrite <- Eh. exact (said_app [] c2 w0 w1 w2 Hs1 Hs2).
  - fold path. by rewrite <- Hj.
Qed.

Lemma refresh_tokens_ok l last w :
  holding l last w ->
  wpw F refresh_tokens w (fun _ w' => holding l last w' /\ exists c, Forall no_put c /\ said c w w').
Proof.
  intros Hw. unfold refresh_tokens. apply wpw_bind, wpw_call. cbv zeta. set (h := TimerGetTime :: _).
  pose proof (Htimer h) as Ht. pose proof (said_call w TimerGetTime I) as Hs0. fold h in Hs0.
  pose proof (call_holds l last w TimerGetTime Hw) as K0. fold h in K0.
  set (w0 := mkWorld (set_trace h _) _ _) in *. apply wpw_get. destruct (_ <=? _).
  - apply wpw_bind. eapply wpw_mono; [by apply (refresh_step l last w0)|].
    intros _ w1 (K1 & _ & c & Hc & Hs1). eapply wpw_run.
    { unfold add_i64. change REFRESH_US with 3000000000. zbool. reflexivity. }
    apply wpw_task. split; [destruct K1; by split|]. exists c. split; [done|].
    exact (said_app [] c w w0 w1 Hs0 Hs1).
  - apply wpw_ret. split; [done|]. exists []. split; [constructor|exact Hs0].
Qed.

(** One round of the task is one round of the queue. *)
Lemma task_round_ok l last w :
  holding l last w -> (length l < 5)%nat ->
  wpw F (task_round DEVICE_ID) w (fun _ w' => exists new bs c l' last',
    round (mkStage (wtrace w) l last) new bs c (mkStage (wtrace w') l' last') /\ holding l' last' w' /\
    (sensors_work -> length new = 1%nat)).
Proof.
  intros Hw Hl. unfold task_round. apply wpw_bind. eapply wpw_mono; [by apply read_sample_ok|].
  intros _ w1 (x & Hx & _ & K1 & Hwork). apply wpw_get, wpw_bind.
  rewrite (holds_count _ _ _ K1). unfold SAMPLES_PER_BATCH.
  (* the rest of the round, after the batch *)
  assert (forall l2 last2 w2 (Q : World -> Prop), holding l2 last2 w2 ->
    (forall w', holding l2 last2 w' -> forall c, Forall no_put c -> said c w2 w' -> Q w') ->
    wpw F (_ ← refresh_tokens; delay (SAMPLE_EVERY_MIN * 60000)) w2 (fun _ w' => Q w')) as Hrest.
  { intros l2 last2 w2 Q K2 HQ. apply wpw_bind. eapply wpw_mono; [by apply refresh_tokens_ok|].
    intros _ w3 (K3 & c & Hc & Hs). unfold delay. apply wpw_call. cbv zeta.
    apply (HQ _ (call_holds _ _ _ _ K3) (c ++ [])); [by rewrite app_nil_r|].
    apply (said_app c [] w2 w3 _ Hs). by apply said_call. }
  destruct (_ <=? Z.of_nat (length (l ++ sample x))) eqn:E; [apply Z.leb_le in E as Hge|apply Z.leb_gt in E as Hlt].
  - destruct x as [e|d]; cbn [sample] in *; [rewrite app_nil_r in Hge; lia|].
    assert (length (l ++ [d]) = 5%nat) as H5 by (rewrite length_app in *; cbn [length] in *; lia).
    eapply wpw_mono; [by apply (send_batch_ok (l ++ [d]) last w1)|]. cbv zeta.
    intros _ w2 (K2 & c & h2 & c2 & Hc & Hu & Hc2 & Hq2). apply (Hrest _ _ _ _ K2).
    intros w' K' c3 Hq3 Hs3. eexists _, _, _, _, _. split; [|split; [exact K'|done]].
    apply (round_batch (mkStage (wtrace w) l last) (wtrace w1) d c h2 (c2 ++ c3)); try done.
    + exact (chat_app c2 c3 _ _ _ Hc2 Hs3).
    + by apply Forall_app.
  - apply wpw_ret, (Hrest _ _ _ _ K1). intros w' K' c Hq Hs.
    destruct x as [e|d]; cbn [sample] in *; eexists _, _, _, _, _; (split; [|split; [exact K'|exact Hwork]]).
    + rewrite app_nil_r. by apply (round_failed (mkStage (wtrace w) l last) (wtrace w1) e c).
    + apply (round_kept (mkStage (wtrace w) l last) (wtrace w1) d c); [done| |done|done]. cbn [st_held]. lia.
Qed.

Lemma task_loop_ok n l last w :
  holding l last w -> (length l < 5)%nat ->
  wpw F (task_loop DEVICE_ID n) w (fun _ w' => exists new bs c l' last',
    rounds n (mkStage (wtrace w) l last) new bs c (mkStage (wtrace w') l' last') /\ holding l' last' w' /\
    (sensors_work -> length new = n)).
Proof.
  revert l last w. induction n as [|n IH]; intros l last w Hw Hl.
  { apply wpw_ret. exists [], [], [], l, last. split_and!; [constructor|done|done]. }
  cbn [task_loop]. apply wpw_bind. eapply wpw_mono; [by apply task_round_ok|].
  intros _ w1 (new1 & bs1 & c1 & l1 & last1 & R1 & K1 & W1).
  destruct (round_served (mkStage (wtrace w) l last) _ _ _ _ Hl R1) as (_ & _ & _ & Hl1 & _).
  eapply wpw_mono; [by apply IH|]. intros _ w2 (new2 & bs2 & c2 & l2 & last2 & R2 & K2 & W2).
  exists (new1 ++ new2), (bs1 ++ bs2), (c1 ++ c2), l2, last2. split_and!; [by eapply rounds_more|done|].
  intros Hok. rewrite length_app, (W1 Hok), (W2 Hok). done.
Qed.
End running.

(** ** The start of the task *)

Section start.
Context `{Platform} (F : bytes -> Prop) `{!Delivers F}.
Context (secrets : Secrets) (url city : bytes) (Htimer : forall h, 0 <= timer_get_time h < 2 ^ 62).

Lemma delete_step inicio l last w path :
  holding F url city inicio l last w ->
  wpw F (on_shim (firebase_delete path)) w (fun _ w' => holding F url city inicio l last w' /\ task w' = task w /\
    exists c, Forall no_put c /\ said c w w').
Proof.
  intros Hw. eapply (database_step F url city inicio l last w); [exact Hw|]. intros n Hn. apply wpn_bind.
  eapply wpn_mono; [by apply deleteData_wp|]. intros e n' (Hn' & _ & Ha & _). apply wpn_ret. split; [done|].
  assert (forall a, no_put (delete_request url path (this a), mkRet 0 0)) as Hq by (intros a; by intros [=]).
  destruct Ha as [r _ Ht _|r n1 e' n2 r' _ _ Ht1 _ Href Ht2 _].
  - eexists. split; [|exact Ht]. constructor; [exact (Hq n)|constructor].
  - destruct (refresh_quiet _ _ _ Href) as (mid & Hmid & Htm).
    eexists. split; [|exact (talks_app [_] (mid ++ [_]) _ _ _ Ht1 (talks_app mid [_] _ _ _ Htm Ht2))].
    apply Forall_cons_2; [exact (Hq n)|]. apply Forall_app. split; [done|].
    constructor; [exact (Hq n2)|constructor].
Qed.

(** The state after a [firebase_init] that succeeded. *)
Definition logged_in (s : Shim) : Prop :=
  g_rtdb s = Some url /\ exists a, g_app s = Some a /\ net_ok F (mkNet (shim_trace s) (shim_output_len s) a).

(** The task as it is created: nothing sent yet, the statics at their initial
    values, an average size that is a number. *)
Definition fresh_task (w : World) : Prop :=
  first_send (task w) = true /\ sample_count (task w) = 0 /\ sums (task w) = zero_sums /\
  length (last_fecha_str (task w)) = 20%nat /\ nonneg (avg_size (task w)) /\
  cstr (g_city_state (sens w)) = Some city.

Lemma task_start_ok w s' :
  fresh_task w ->
  let h := Time :: shim_trace (shim w) in
  firebase_init secrets (set_trace h (shim w)) = Ret (0, s') -> logged_in s' ->
  wpw F (task_start secrets) w (fun started w' => started = true /\
    holding F url city (fmt_time (localtime TZ_OFFSET (time h))) [] None w' /\
    exists c, Forall no_put c /\ said c (mkWorld s' (sens w) (task w)) w').
Proof.
  intros (Hf & Hn & Hs & Hl & Ha & Hc) h Hi [Hurl (a & Happ & Hnet)]. unfold task_start, local_time.
  apply wpw_bind, wpw_bind, wpw_call. cbv zeta. fold h. apply wpw_ret.
  set (inicio := fmt_time (localtime TZ_OFFSET (time h))).
  destruct (fmt_time_ok (time h)) as [_ Hil]. fold inicio in Hil.
  eapply wpw_run; [apply strftime_ok; lia|]. apply wpw_bind, wpw_task. apply wpw_bind.
  unfold wpw at 1, on_shim. cbn [shim]. rewrite Hi, Ret_bind. cbn [negb Z.eqb].
  set (w1 := mkWorld s' _ _).
  assert (holding F url city inicio [] None w1) as K1.
  { split; try done. by exists a. }
  apply wpw_bind, wpw_call. cbv zeta. pose proof (call_holds F url city inicio [] None w1 (TaskDelay 1000) K1) as K2.
  pose proof (said_call w1 (TaskDelay 1000) I) as S2.
  set (w2 := mkWorld (set_trace (TaskDelay 1000 :: _) _) _ _) in *.
  apply wpw_bind. eapply wpw_mono; [by apply (delete_step inicio [] None w2)|].
  intros _ w3 (K3 & _ & c & Hcq & S3). apply wpw_bind, wpw_call. cbv zeta. set (h3 := TimerGetTime :: _).
  pose proof (Htimer h3) as Ht3. pose proof (call_holds F url city inicio [] None w3 TimerGetTime K3) as K4. fold h3 in K4.
  pose proof (said_call w3 TimerGetTime I) as S4. fold h3 in S4.
  set (w4 := mkWorld (set_trace h3 _) _ _) in *. eapply wpw_run.
  { unfold add_i64. change REFRESH_US with 3000000000. zbool. reflexivity. }
  apply wpw_bind, wpw_task, wpw_ret. split; [done|]. split; [destruct K4; by split|].
  exists (c ++ []). split; [by rewrite app_nil_r|].
  destruct (said_app [] c _ _ _ S2 S3) as (b & b' & Hs'). refine (said_app c [] _ w3 _ _ S4). by exists b, b'.
Qed.
End start.

(** ** Properties *)

Lemma wpw_no_text `{Platform} {A} (m : ST World A) w Q :
  wpw no_text m w Q -> exists a w', m w = Ret (a, w') /\ Q a w'.
Proof.
  unfold wpw. destruct (m w) as [[a w']| | |]; [by exists a, w'|by intros ?%aborts_on_none|by intros ?%overflows_on_none|done].
Qed.

Lemma concat_fives (bs : list (list SensorData)) :
  Forall (fun b => length b = 5%nat) bs -> (length (concat bs) = 5 * length bs)%nat.
Proof. induction 1 as [|b bs Hb _ IH]; [done|]. cbn [concat length]. rewrite length_app. lia. Qed.

(** C1: the measurement task is a queue of readings served in fives.  After a
    successful [firebase_init], and as long as the server's replies can be read
    (objects or null, with scalar tokens and lifetimes of an [int]), the task
    runs any number of rounds without stopping, and each is a [round] of its
    queue.  In a round the bus gives a reading or an error, as the trace of this
    round shows; a reading joins the queue; when it is the fifth, the task looks
    at the clock, sends one PUT, repeated once under a new token after a 401, of
    the whole text of the averages of exactly these five, under the key of the
    time the clock showed, and starts again from an empty queue.  Nothing else is
    put into the database.  So the readings [new] are the batches [bs], in order,
    followed by the fewer than five [l'] that the accumulators still hold.
    Working sensors give a reading in every round. *)
Theorem sensor_task_spec `{Platform} secrets DEVICE_ID url city n w s' :
  Delivers no_text -> no_nul DEVICE_ID -> (length DEVICE_ID <= 90)%nat -> (length city <= 63)%nat ->
  (forall h, 0 <= time h < 2 ^ 32) -> (forall h, 0 <= timer_get_time h < 2 ^ 62) ->
  fresh_task city w ->
  let h := Time :: shim_trace (shim w) in
  firebase_init secrets (set_trace h (shim w)) = Ret (0, s') -> logged_in no_text url s' ->
  exists w' h0 c0 new bs c l' last', sensor_task secrets DEVICE_ID n w = Ret (tt, w') /\
    chat c0 (shim_trace s') h0 /\ Forall no_put c0 /\
    rounds DEVICE_ID url city (fmt_time (localtime TZ_OFFSET (time h))) n
      (mkStage h0 [] None) new bs c (mkStage (wtrace w') l' last') /\
    new = concat bs ++ l' /\ Forall (fun b => length b = 5%nat) bs /\ (length l' < 5)%nat /\
    sums (task w') = total l' /\ sample_count (task w') = Z.of_nat (length l') /\
    (length new <= n)%nat /\ (sensors_work -> length new = n).
Proof.
  intros Hd Hid Hidl Hcity Ht Hti Hw h Hi Hl. set (inicio := fmt_time _).
  destruct (fmt_time_ok (time h)) as [Hin Hil]. fold inicio in Hin, Hil.
  cut (wpw no_text (sensor_task secrets DEVICE_ID n) w (fun _ w' => exists h0 c0 new bs c l' last',
    chat c0 (shim_trace s') h0 /\ Forall no_put c0 /\
    rounds DEVICE_ID url city inicio n (mkStage h0 [] None) new bs c (mkStage (wtrace w') l' last') /\
    holding no_text url city inicio l' last' w' /\ (sensors_work -> length new = n))).
  { intros ([] & w' & E & h0 & c0 & new & bs & c & l' & last' & Hc0 & Hq & R & K & Hwk)%wpw_no_text.
    destruct (rounds_served DEVICE_ID url city inicio n (mkStage h0 [] None) _ _ _ _ ltac:(simpl; lia) R)
      as (Hn & En & Hb & Hl' & _).
    exists w', h0, c0, new, bs, c, l', last'. split_and!; try done; by destruct K. }
  unfold sensor_task. apply wpw_bind.
  eapply wpw_mono; [by eapply (task_start_ok no_text secrets url city Hti w s')|].
  intros started w1 (-> & K1 & c1 & Hc1 & S1). fold h inicio in K1.
  eapply wpw_mono; [eapply (task_loop_ok no_text DEVICE_ID url city inicio); [done|done|done|lia|done|done|done|exact K1|simpl; lia]|].
  intros _ w' (new & bs & c & l' & last' & R & K & Hwk). by exists (wtrace w1), c1, new, bs, c, l', last'.
Qed.

(** A task that logs in to a server that answers everything, with sensors that
    always deliver. *)
Definition demo_world : World :=
  mkWorld (mkShim [] 0 None None) (sens_init []) (task_init zero_data).

Definition cleared_app (s : Shim) : bool :=
  match g_app s, g_rtdb s with
  | Some a, Some base => bool_decide (local_response_buffer a = zeros HTTP_RECV_BUFFER_SIZE) &&
                         (shim_output_len s =? 0) && bool_decide (client a = Some true) &&
                         bytes_eqb base demo_base
  | _, _ => false
  end.

Lemma cleared_app_logged_in `{Platform} s : cleared_app s = true -> logged_in no_text demo_base s.
Proof.
  unfold cleared_app, logged_in. destruct (g_app s) as [a|]; [|done]. destruct (g_rtdb s) as [base|]; [|done].
  intros [[[Hb Hz]%andb_true_iff Hc]%andb_true_iff Hu]%andb_true_iff.
  apply bool_decide_eq_true in Hb, Hc. apply Z.eqb_eq in Hz. apply bool_decide_eq_true in Hu.
  subst base. split; [done|]. exists a. split; [done|]. unfold net_ok. cbn [this output_len]. rewrite Hb, Hz.
  split; [apply zeros_buf_ok|]. split; [apply zeros_bytes|]. split; [|done].
  exists []. split; [reflexivity|right; apply text_ok_nil].
Qed.

Lemma demo_fresh : fresh_task (STR "----") demo_world.
Proof. repeat split. Qed.

Lemma server_sensors_work doc : @sensors_work (server doc).
Proof. intros d s. eexists _, _. vm_compute. reflexivity. Qed.

Lemma server_times doc :
  (forall h, 0 <= @time (server doc) h < 2 ^ 32) /\ (forall h, 0 <= @timer_get_time (server doc) h < 2 ^ 62).
Proof.
  split; intros h; cbn [time timer_get_time server]; pose proof (Z.mod_pos_bound (Z.of_nat (length h)) (2 ^ 20) ltac:(lia)); lia.
Qed.

Lemma demo_init : let p := server token_doc in
  exists s', firebase_init demo_secrets (set_trace [Time] (shim demo_world)) = Ret (0, s') /\ cleared_app s' = true.
Proof.
  intros p.
  assert (match firebase_init demo_secrets (set_trace [Time] (shim demo_world)) with
          | Ret (z, s') => (z =? 0) && cleared_app s' | _ => false end = true) as Hi by (vm_compute; reflexivity).
  destruct (firebase_init _ _) as [[z s']| | |]; [|discriminate Hi..]. bool_to_prop. subst z. by exists s'.
Qed.

(** Twelve rounds with working sensors: two batches, two readings held. *)
Lemma sensor_task_spec_witness :
  let p := server token_doc in
  exists w' h0 new bs c l' last', sensor_task demo_secrets (STR "esp-1") 12 demo_world = Ret (tt, w') /\
    rounds (STR "esp-1") demo_base (STR "----") (fmt_time (localtime TZ_OFFSET (time [Time]))) 12
      (mkStage h0 [] None) new bs c (mkStage (wtrace w') l' last') /\
    length new = 12%nat /\ length bs = 2%nat /\ length l' = 2%nat.
Proof.
  intros p. destruct demo_init as (s' & Hi & Hs').
  destruct (sensor_task_spec demo_secrets (STR "esp-1") demo_base (STR "----") 12 demo_world s')
    as (w' & h0 & c0 & new & bs & c & l' & last' & E & _ & _ & R & En & Hb & Hl & _ & _ & _ & Hn).
  - apply token_server_delivers.
  - nul_tac.
  - simpl. lia.
  - simpl. lia.
  - apply server_times.
  - apply server_times.
  - exact demo_fresh.
  - exact Hi.
  - by apply cleared_app_logged_in.
  - specialize (Hn (server_sensors_work token_doc)).
    assert (length (concat bs) = 5 * length bs)%nat as Hc by by apply concat_fives.
    apply (f_equal length) in En. rewrite length_app, Hn in En.
    exists w', h0, new, bs, c, l', last'. split; [exact E|]. split; [exact R|]. split; [exact Hn|]. lia.
Defined.

(** C9: with working sensors the next batch always comes, as long as the
    server's replies can be read: a task that holds [l] readings uploads, in the
    next [5 - length l] rounds, exactly one batch, made of these readings and the
    new ones, and holds none then. *)
Theorem next_batch_comes `{Platform} DEVICE_ID url city inicio l last w :
  Delivers no_text -> no_nul DEVICE_ID -> (length DEVICE_ID <= 90)%nat -> (length city <= 63)%nat ->
  no_nul inicio -> (length inicio <= 8)%nat ->
  (forall h, 0 <= time h < 2 ^ 32) -> (forall h, 0 <= timer_get_time h < 2 ^ 62) ->
  sensors_work -> holding no_text url city inicio l last w -> (length l < 5)%nat ->
  exists w' new c last', task_loop DEVICE_ID (5 - length l) w = Ret (tt, w') /\
    length new = (5 - length l)%nat /\ uploads DEVICE_ID url city inicio last [l ++ new] c last' /\
    rounds DEVICE_ID url city inicio (5 - length l) (mkStage (wtrace w) l last) new [l ++ new] c
      (mkStage (wtrace w') [] last') /\
    said c w w' /\ holding no_text url city inicio [] last' w'.
Proof.
  intros Hd Hid Hidl Hcity Hin Hil Ht Hti Hwork Hw Hl.
  pose proof (task_loop_ok no_text DEVICE_ID url city inicio Hid Hidl Hin Hil Hcity Ht Hti (5 - length l) l last w Hw Hl)
    as Hloop.
  apply wpw_no_text in Hloop as ([] & w' & E & new & bs & c & l' & last' & R & K & Hn). specialize (Hn Hwork).
  destruct (rounds_served DEVICE_ID url city inicio _ (mkStage (wtrace w) l last) _ _ _ _ Hl R) as (_ & El & Hb & Hl' & U & S).
  cbn [st_held st_date st_trace] in *. pose proof (concat_fives bs Hb) as Hc.
  apply (f_equal length) in El as Elen. rewrite !length_app in Elen.
  destruct bs as [|b [|b2 bs]]; cbn [length] in Hc; [lia| |lia].
  destruct l' as [|d l']; [|cbn [length] in Elen; lia]. cbn [concat] in El. rewrite !app_nil_r in El. subst b.
  by exists w', new, c, last'.
Qed.

Lemma next_batch_comes_witness :
  let p := server token_doc in
  let held := mkWorld (mkShim [] 0 (Some (this (ready bare_app))) (Some demo_base)) (sens_init [])
                (set_inicio (STR "09:00:00") (task_init zero_data)) in
  exists w' new c last', task_loop (STR "esp-1") 5 held = Ret (tt, w') /\ length new = 5%nat /\
    uploads (STR "esp-1") demo_base (STR "----") (STR "09:00:00") None [new] c last' /\ said c held w'.
Proof.
  intros p held.
  destruct (next_batch_comes (STR "esp-1") demo_base (STR "----") (STR "09:00:00") [] None held)
    as (w' & new & c & last' & E & Hn & U & _ & S & _).
  - apply token_server_delivers.
  - nul_tac.
  - simpl. lia.
  - simpl. lia.
  - nul_tac.
  - simpl. lia.
  - apply server_times.
  - apply server_times.
  - apply server_sensors_work.
  - split; try done.
    exists (this (ready bare_app)). split; [done|]. apply (ready_ok no_text bare_app).
  - simpl. lia.
  - exists w', new, c, last'. split; [exact E|]. split; [exact Hn|]. split; [exact U|exact S].
Defined.
