(* ===== verification/AppMain.v ===== *)
(** * Start-up (main/main.c: [app_main])

    From power-on to the creation of the measurement task: the flash and the
    network interfaces, PPP, the clock, the city of the device, the sensors. *)
From S2P Require Export Main Modem.
Open Scope Z_scope.

(** The statics of main.c, modem_ppp.c and sensors.c; the trace is the modem's. *)
Record Boot := mkBoot { boot_modem : Modem; boot_sens : Sens; g_city : bytes }.

Definition set_md_trace (h : list call) (m : Modem) : Modem :=
  mkModem h (s_ppp_eg m) (s_ue_info m) (s_ue_valid m) (s_ppp_netif m) (s_acc m) (ul_body m).

Definition boot_init : Boot :=
  mkBoot (modem_init []) (sens_init []) (STR "----" ++ zeros 60).

Definition on_modem {A} (m : ST Modem A) : ST Boot A := fun b =>
  '(a, s) ← m (boot_modem b); Ret (a, mkBoot s (boot_sens b) (g_city b)).
Definition boot_sensors {A} (m : ST Sens A) : ST Boot A := fun b =>
  '(a, s) ← m (set_sens_trace (md_trace (boot_modem b)) (boot_sens b));
  Ret (a, mkBoot (set_md_trace (sens_trace s) (boot_modem b)) s (g_city b)).
Definition set_g_city (c : bytes) (b : Boot) : Boot := mkBoot (boot_modem b) (boot_sens b) c.

(** ** The city *)

Definition hyphen (c : Z) : Z := if (c =? CH ",") || (c =? CH ";") || (c =? CH "|") then CH "-" else c.

(** What the text is before the separators are replaced; [None]: a null
    pointer. *)
Definition city_text (city state : option bytes) : bytes :=
  let c := match city with Some (x :: s) => x :: s | _ => STR "----" end in
  match state with Some (x :: s) => c ++ STR "-" ++ x :: s | _ => c end.

Definition build_city_hyphen (dst : bytes) (dstlen : Z) (city state : option bytes) : outcome bytes :=
  if dstlen =? 0 then Ret dst
  else
    dst ← snprintf dstlen (city_text city state) dst;
    s ← c_string dst;
    mem_write 0 (map hyphen s) dst.

Inductive boot_end := Restarted | NoSensors (e : Z) | TaskCreated.

Section boot.
Context `{Platform} (UNWIREDLABS_TOKEN : bytes).

Definition boot_esp (name : bytes) (args : list Z) : ST Boot Z := on_modem (esp name args).
Definition boot_delay (ms : Z) : ST Boot unit := on_modem (md_delay ms).
Definition boot_check (e : Z) : ST Boot unit := on_modem (ESP_ERROR_CHECK e).

Definition destroy_netif (key : bytes) : ST Boot unit :=
  netif ← boot_esp (STR "esp_netif_get_handle_from_ifkey " ++ key) [];
  if netif =? 0 then mret tt else _ ← boot_esp (STR "esp_netif_destroy") [netif]; mret tt.

Definition wifi_hard_off : ST Boot unit :=
  _ ← boot_esp (STR "esp_wifi_stop") [];
  _ ← boot_esp (STR "esp_wifi_deinit") [];
  _ ← destroy_netif (STR "WIFI_STA_DEF");
  destroy_netif (STR "WIFI_AP_DEF").

Definition SNTP_READY : Z := 1609459200.

(** The loop that waits for the clock. *)
Fixpoint wait_time (tries : nat) : ST Boot unit :=
  match tries with
  | O => mret tt
  | S tries =>
      now ← on_modem (md_call Time time);
      if SNTP_READY <? now then mret tt
      else _ ← boot_delay 100; wait_time tries
  end.

Definition init_sntp_and_time : ST Boot unit :=
  _ ← boot_esp (STR "esp_sntp_setoperatingmode") [];
  _ ← boot_esp (STR "esp_sntp_setservername") [];
  _ ← boot_esp (STR "esp_sntp_set_sync_mode") [];
  _ ← boot_esp (STR "esp_sntp_init") [];
  wait_time 100.

(** Step 3: the city of the cell, in [g_city] and in the sensors. *)
Definition locate : ST Boot unit :=
  if bool_decide (UNWIREDLABS_TOKEN = []) then boot_sensors (sensors_set_city_state (STR "----"))
  else
    '(e, city, state) ← on_modem (modem_unwiredlabs_city_state UNWIREDLABS_TOKEN (zeros 64) 64 (zeros 64) 64);
    g ← get g_city;
    g ← run (if e =? ESP_OK then
               city ← c_string city;
               state ← c_string state;
               build_city_hyphen g 64 (Some city) (Some state)
             else
               g ← strncpy 64 (STR "----") g; mem_write 63 [0] g);
    _ ← put (set_g_city g);
    s ← run (c_string g);
    boot_sensors (sensors_set_city_state s).

Definition ESP_ERR_NVS_NO_FREE_PAGES : Z := 0x110d.
Definition ESP_ERR_NVS_NEW_VERSION_FOUND : Z := 0x1110.

Definition app_config : modem_ppp_config_t :=
  mkConfig 26 27 (-1) (-1) 25 5 4 12 true 200 (Some (STR "internet.itelcel.com")) [] false.

Definition app_main : ST Boot boot_end :=
  ret ← boot_esp (STR "nvs_flash_init") [];
  _ ← (if (ret =? ESP_ERR_NVS_NO_FREE_PAGES) || (ret =? ESP_ERR_NVS_NEW_VERSION_FOUND) then
         e ← boot_esp (STR "nvs_flash_erase") [];
         _ ← boot_check e;
         e ← boot_esp (STR "nvs_flash_init") [];
         boot_check e
       else mret tt);
  e ← boot_esp (STR "esp_netif_init") [];
  _ ← boot_check e;
  e ← boot_esp (STR "esp_event_loop_create_default") [];
  _ ← boot_check e;
  _ ← wifi_hard_off;
  mret_ ← on_modem (modem_ppp_start_blocking (Some app_config) 150000);
  if negb (mret_ =? ESP_OK) then
    _ ← boot_delay 3000;
    _ ← boot_esp (STR "esp_restart") [];
    mret Restarted
  else
    _ ← init_sntp_and_time;
    _ ← locate;
    _ ← boot_delay 1500;
    sret ← boot_sensors sensors_init_all;
    if negb (sret =? ESP_OK) then mret (NoSensors sret)
    else
      _ ← boot_esp (STR "xTaskCreate sensor_task") [10240; 5];
      mret TaskCreated.
End boot.
