(* ===== verification/AppMainFacts.v ===== *)
(** * Start-up: the city text, and that start-up hands the task a good state

    Whatever the geolocation answers, the sensors get a city text without
    separators that fits the measurement; start-up ends, and it creates the
    measurement task, once and as its last act, only when everything the task
    needs is in place. *)
From S2P Require Import AppMain ModemFacts SensorsFacts MainFacts.
Open Scope Z_scope.

(** ** The city *)

Definition separator (c : Z) : bool := (c =? CH ",") || (c =? CH ";") || (c =? CH "|").

Lemma hyphen_not_separator c : separator (hyphen c) = false.
Proof. unfold hyphen. destruct (separator c) eqn:E; unfold separator in E; rewrite E; [done|exact E]. Qed.

Lemma hyphen_no_nul s : no_nul s -> no_nul (map hyphen s).
Proof.
  intros Hs. apply Forall_map. eapply Forall_impl; [exact Hs|]. intros c Hc. cbv beta. unfold hyphen.
  by destruct (_ || _ || _).
Qed.

(** The text [build_city_hyphen] leaves. *)
Definition city_result (n : nat) (city state : option bytes) : bytes := map hyphen (take (n - 1) (city_text city state)).

Lemma build_city_ok dst n city state :
  length dst = n -> (0 < n)%nat -> no_nul (default [] city) -> no_nul (default [] state) ->
  exists b, build_city_hyphen dst (Z.of_nat n) city state = Ret b /\ length b = n /\
            cstr b = Some (city_result n city state).
Proof.
  intros Hd Hn Hc Hs. unfold build_city_hyphen. rewrite (proj2 (Z.eqb_neq _ _)) by lia.
  assert (no_nul (city_text city state)) as Ht.
  { unfold city_text. assert (no_nul (match city with Some (x :: s) => x :: s | _ => STR "----" end)) as H1.
    { destruct city as [[|x s]|]; [nul_tac|exact Hc|nul_tac]. }
    destruct state as [[|x s]|]; [exact H1| |exact H1]. apply no_nul_app; [exact H1|]. constructor; [done|exact Hs]. }
  destruct (snprintf_ok (city_text city state) dst Ht ltac:(lia)) as (b1 & E1 & L1 & C1). rewrite Hd in *.
  rewrite E1, Ret_bind. unfold c_string. rewrite C1, Ret_bind. set (t := take (n - 1) (city_text city state)) in *.
  assert (no_nul t) as Htn by by apply Forall_take.
  destruct (mem_write_ok 0 (map hyphen t) b1) as (b2 & E2 & L2 & B2).
  { lia. } { rewrite length_map. unfold t. rewrite length_take. lia. }
  exists b2. split; [exact E2|]. split; [lia|]. apply cstr_Some in C1 as (tl & Eb & _).
  rewrite B2, Eb. change (Z.to_nat 0) with 0%nat. rewrite take_0, length_map. cbn [app Nat.add].
  rewrite drop_app_length. apply cstr_app_nul, no_nul_elem. by apply hyphen_no_nul.
Qed.

(** ** Boot *)

Section boot.
Context `{Platform} (token : bytes).

(** The statics the city is kept in. *)
Definition boot_ok (b : Boot) : Prop := length (AppMain.g_city b) = 64%nat /\ length (g_city_state (boot_sens b)) = 64%nat.

(** The creation of the measurement task, and histories without it. *)
Definition creates (c : call) : bool :=
  match c with EspApi name _ => bytes_eqb name (STR "xTaskCreate sensor_task") | _ => false end.
Definition no_task (h : list call) : bool := forallb (fun c => negb (creates c)) h.

Lemma no_task_app h1 h2 : no_task (h1 ++ h2) = no_task h1 && no_task h2.
Proof. apply forallb_app. Qed.

Lemma no_task_Forall (ok : call -> Prop) h : (forall c, ok c -> creates c = false) -> Forall ok h -> no_task h = true.
Proof. intros Hok Hh. apply forallb_forall. intros c Hc%list_elem_of_In. rewrite Forall_forall in Hh. by rewrite Hok by auto. Qed.

Lemma ul_call_creates payload c : ul_call payload c -> creates c = false.
Proof. by destruct c. Qed.

Lemma only_asks_creates cmd c : only_asks cmd c -> creates c = false.
Proof. by destruct c. Qed.

(** The buffers are whole and no task was created. *)
Definition idle (b : Boot) : Prop := boot_ok b /\ no_task (md_trace (boot_modem b)) = true.
(** The SDK handles of the sensors and their statics, apart from the city. *)
Definition same_sensors (b b' : Boot) : Prop :=
  s_i2c_bus (boot_sens b') = s_i2c_bus (boot_sens b) /\ s_scd4x_dev (boot_sens b') = s_scd4x_dev (boot_sens b) /\
  s_sen5x_dev (boot_sens b') = s_sen5x_dev (boot_sens b).

(** A city fit for the measurement. *)
Definition city_fits (city : bytes) : Prop :=
  city <> [] /\ (length city <= 63)%nat /\ no_nul city /\ Forall (fun c => separator c = false) city.

Lemma dashes_fit : city_fits (STR "----").
Proof. split; [done|]. split; [simpl; lia|]. split; [nul_tac|by repeat constructor]. Qed.

Lemma city_result_fits city state :
  no_nul (default [] city) -> no_nul (default [] state) -> city_fits (city_result 64 city state).
Proof.
  intros Hc Hs. unfold city_fits, city_result. split_and!.
  - unfold city_text. destruct city as [[|x s]|], state as [[|y t]|]; done.
  - rewrite length_map, length_take. lia.
  - apply hyphen_no_nul, Forall_take. unfold city_text.
    destruct city as [[|x s]|], state as [[|y t]|]; try exact Hc; try nul_tac;
      (apply no_nul_app; [exact Hc || nul_tac|constructor; [done|exact Hs]]).
  - apply Forall_map, Forall_forall. intros c _. apply hyphen_not_separator.
Qed.

(** What [sensors_set_city_state] does in [boot_sensors]. *)
Lemma set_city_boot city b :
  idle b -> city_fits city ->
  exists b', boot_sensors (sensors_set_city_state city) b = Ret (tt, b') /\ idle b' /\ same_sensors b b' /\
    cstr (g_city_state (boot_sens b')) = Some city.
Proof.
  intros [[Hg Hs] Hq] (_ & Hl & Hn & _). unfold boot_sensors.
  destruct (set_city_ok city (set_sens_trace (md_trace (boot_modem b)) (boot_sens b)) Hs Hn) as (g & E & Lg & Cg).
  rewrite E, Ret_bind. eexists. split; [reflexivity|]. split; [by split|]. split; [done|].
  rewrite take_ge in Cg by lia. exact Cg.
Qed.

Lemma locate_ok b :
  idle b ->
  exists b' city, locate token b = Ret (tt, b') /\ idle b' /\ same_sensors b b' /\
    cstr (g_city_state (boot_sens b')) = Some city /\ city_fits city.
Proof.
  intros Hb. unfold locate. destruct (bool_decide (token = [])).
  { destruct (set_city_boot (STR "----") b Hb dashes_fit) as (b' & E & Hb' & Hsame & Hc).
    exists b', (STR "----"). split; [exact E|]. split; [exact Hb'|]. split; [exact Hsame|]. split; [exact Hc|apply dashes_fit]. }
  destruct (city_state_ok token (zeros 64) (zeros 64) 64 64 (boot_modem b))
    as (e & city & state & m' & E & Tc & Ts & _ & (h & Eh & Hh & _) & _);
    [lia|lia|done|done|].
  unfold mbind at 1, ST_bind at 1, on_modem at 1. change (Z.of_nat 64) with 64 in E. rewrite E, !Ret_bind. rewrite get_bind.
  set (b1 := mkBoot m' _ _).
  destruct Hb as [[Hg Hsl] Hq]. assert (idle b1) as Hb1.
  { split; [by split|]. cbn [b1 boot_modem]. rewrite Eh, no_task_app, Hq.
    by rewrite (no_task_Forall _ h (ul_call_creates _) Hh). }
  assert (exists g c, (if e =? ESP_OK then
               city ← c_string city; state ← c_string state;
               build_city_hyphen (AppMain.g_city b1) 64 (Some city) (Some state)
             else g ← strncpy 64 (STR "----") (AppMain.g_city b1); mem_write 63 [0] g) = Ret g /\
            length g = 64%nat /\ cstr g = Some c /\ city_fits c) as (g & c & Eg & Lg & Cg & Hc).
  { destruct (e =? ESP_OK).
    - destruct Tc as [_ [sc Esc]], Ts as [_ [ss Ess]]. unfold c_string. rewrite Esc, Ess, !Ret_bind.
      assert (no_nul sc) as N1 by (apply no_nul_elem; by apply cstr_Some in Esc as (? & _ & ?)).
      assert (no_nul ss) as N2 by (apply no_nul_elem; by apply cstr_Some in Ess as (? & _ & ?)).
      destruct (build_city_ok (AppMain.g_city b1) 64 (Some sc) (Some ss)) as (g & Eg & Lg & Cg); [done|lia|done|done|].
      exists g, (city_result 64 (Some sc) (Some ss)). split_and!; [exact Eg|done|done|by apply city_result_fits].
    - destruct (strncpy_ok 64 (STR "----") (AppMain.g_city b1)) as (g1 & E1 & L1 & tl & G1);
        [nul_tac|simpl; lia|cbn [AppMain.g_city b1]; lia|].
      rewrite E1, Ret_bind. destruct (mem_write_ok 63 [0] g1) as (g & E2 & L2 & G2);
        [lia|change (length [0%Z]) with 1%nat; cbn [AppMain.g_city b1] in *; lia|].
      exists g, (STR "----"). split_and!; [exact E2|cbn [AppMain.g_city b1] in *; lia| |apply dashes_fit].
      rewrite G2, G1. reflexivity. }
  rewrite (ST_bind_Ret (run _) _ b1 g b1) by (unfold run; by rewrite Eg). rewrite put_bind.
  assert (idle (set_g_city g b1)) as Hb2 by (split; [by split|exact (proj2 Hb1)]).
  rewrite (ST_bind_Ret (run _) _ (set_g_city g b1) c (set_g_city g b1)) by (unfold run, c_string; by rewrite Cg).
  destruct (set_city_boot c (set_g_city g b1) Hb2 Hc) as (b' & E' & Hb' & Hsame & Hc').
  exists b', c. split; [exact E'|]. split; [exact Hb'|]. split; [exact Hsame|]. by split.
Qed.
End boot.

(** ** Start-up *)

(** [m] returns with [Q], or the process stops in one of the two ways start-up
    knows. *)
Definition wpb {S A} (m : ST S A) (s : S) (Q : A -> S -> Prop) : Prop :=
  match m s with
  | Ret (a, s') => Q a s'
  | Abort msg => msg = "ESP_ERROR_CHECK failed"%string
  | Undef msg => msg = "atoi: out of range"%string
  | Fuel => False
  end.

Section calculus.
Context {S A B : Type}.

Lemma wpb_ret (a : A) (s : S) Q : Q a s -> wpb (mret a) s Q.
Proof. done. Qed.

Lemma wpb_bind (m : ST S A) (f : A -> ST S B) s Q : wpb m s (fun a s' => wpb (f a) s' Q) -> wpb (m ≫= f) s Q.
Proof. unfold wpb, mbind, ST_bind. by destruct (m s) as [[a s']| | |]. Qed.

Lemma wpb_mono (m : ST S A) s (P Q : A -> S -> Prop) : wpb m s P -> (forall a s', P a s' -> Q a s') -> wpb m s Q.
Proof. unfold wpb. destruct (m s) as [[a s']| | |]; auto. Qed.

Lemma wpb_Ret (m : ST S A) s a s' (Q : A -> S -> Prop) : m s = Ret (a, s') -> Q a s' -> wpb m s Q.
Proof. unfold wpb. by intros ->. Qed.
End calculus.

Section start.
Context `{Platform}.

(** [m] creates no task. *)
Definition keeps {A} (m : ST Modem A) : Prop :=
  forall s, no_task (md_trace s) = true -> wpb m s (fun _ s' => no_task (md_trace s') = true).

Lemma keeps_ret {A} (a : A) : keeps (mret a).
Proof. intros s Hs. exact Hs. Qed.

Lemma keeps_bind {A B} (m : ST Modem A) (f : A -> ST Modem B) : keeps m -> (forall a, keeps (f a)) -> keeps (m ≫= f).
Proof. intros Hm Hf s Hs. apply wpb_bind. eapply wpb_mono; [by apply Hm|]. intros a s' Hs'. by apply Hf. Qed.

Lemma keeps_call {A} c (g : list call -> A) : creates c = false -> keeps (md_call c g).
Proof. intros Hc s Hs. unfold wpb, md_call. cbn [md_trace no_task forallb]. by rewrite Hc. Qed.

Lemma keeps_get {A} (g : Modem -> A) : keeps (get g).
Proof. intros s Hs. exact Hs. Qed.

Lemma keeps_put g : (forall s, md_trace (g s) = md_trace s) -> keeps (put g).
Proof. intros Hg s Hs. unfold wpb, put. by rewrite Hg. Qed.

Lemma keeps_check e : keeps (ESP_ERROR_CHECK e).
Proof. intros s Hs. unfold ESP_ERROR_CHECK, run. by destruct (e =? ESP_OK). Qed.

(** What a program with allowed calls only keeps. *)
Lemma keeps_wpm {A} ok cost k (m : ST Modem A) (Q : A -> Modem -> Prop) :
  (forall c, ok c -> creates c = false) -> (forall s, wpm ok cost k m s Q) -> keeps m.
Proof.
  intros Hok Hm s Hs. destruct (Hm s) as (a & s' & E & (h & Eh & Hh & _) & _). eapply wpb_Ret; [exact E|].
  cbv beta. by rewrite Eh, no_task_app, Hs, (no_task_Forall ok h).
Qed.
End start.

Create HintDb boot.
#[export] Hint Resolve keeps_ret keeps_get keeps_check : boot.
#[export] Hint Extern 1 (keeps (md_call _ _)) => apply keeps_call; reflexivity : boot.
#[export] Hint Extern 1 (keeps (put _)) => apply keeps_put; reflexivity : boot.

(** Follows the text of an operation. *)
Ltac keeps_step :=
  match goal with
  | |- keeps (mbind _ _) => apply keeps_bind; [|intros]
  | |- keeps (if ?b then _ else _) => destruct b
  | |- keeps (match ?x with (_, _) => _ end) => destruct x
  end.
Ltac keeps := repeat first [keeps_step | solve [auto with boot]].

Section ppp.
Context `{Platform} (Hfit : answers_fit).

Lemma keeps_esp name args : bytes_eqb name (STR "xTaskCreate sensor_task") = false -> keeps (esp name args).
Proof. intros Hn. by apply keeps_call. Qed.
#[local] Hint Extern 1 (keeps (esp _ _)) => apply keeps_esp; reflexivity : boot.
#[local] Hint Extern 1 (keeps (md_delay _)) => apply keeps_call; reflexivity : boot.

Lemma keeps_hw_boot c : keeps (hw_boot c).
Proof. unfold hw_boot, gpio_output, gpio_level. keeps. Qed.

Lemma keeps_set_mode target : keeps (set_mode_if_needed target).
Proof. unfold set_mode_if_needed, esp_modem_set_mode. keeps. Qed.

Lemma keeps_send_at cmd timeout : keeps (modem_send_at_and_log cmd timeout).
Proof.
  unfold modem_send_at_and_log, esp_modem_set_mode. apply keeps_bind; [auto with boot|]. intros _.
  eapply (keeps_wpm (only_asks (cmd_cr cmd)) asks 1 _ (fun _ _ => True)); [apply only_asks_creates|]. intros s.
  apply (wpm_bind _ _ 1 0), (esp_modem_at_ok Hfit _ timeout 256); [lia|by apply (zeros_text_buf 256); lia|].
  intros e out h Ht. destruct (c_string_ok 256 out Ht) as (t & E & _). eapply wpm_run; [exact E|]. by apply wpm_ret.
Qed.

Lemma keeps_cereg timeout_ms poll_ms : 0 <= timeout_ms -> 0 < poll_ms -> keeps (esperar_cereg timeout_ms poll_ms).
Proof.
  intros Ht Hp s Hs. destruct (esperar_cereg_ok timeout_ms poll_ms s Hfit Ht Hp) as (e & s' & E & _ & h & -> & Hh & _).
  eapply wpb_Ret; [exact E|]. cbn [traced md_trace]. by rewrite no_task_app, Hs, (no_task_Forall _ h (only_asks_creates _) Hh).
Qed.

Lemma keeps_read_cell : keeps read_cell.
Proof.
  intros s Hs. pose proof (read_cell_ok s Hfit) as Hr. unfold wpb. destruct (read_cell s) as [[[] s']| | |]; try done.
  destruct Hr as [(h & -> & Hh & _) _]. by rewrite no_task_app, Hs, (no_task_Forall _ h (only_asks_creates _) Hh).
Qed.

(** The receiver of [esp_modem_command] is set up. *)
Definition receiving (s : Modem) : Prop :=
  no_task (md_trace s) = true /\
  exists n t b k, (0 < n)%nat /\ Z.of_nat n < 2 ^ 31 /\ filled n t b k /\ s_acc s = mkAcc (Some b) (Z.of_nat n) k.

Lemma command_ok cmd timeout s : receiving s -> wpb (esp_modem_command cmd timeout) s (fun _ s' => receiving s').
Proof.
  intros (Hs & n & t & b & k & Hn & Hn31 & Hf & Ea). unfold esp_modem_command. apply wpb_bind.
  eapply wpb_Ret; [reflexivity|]. destruct (modem_command _) as [e pieces]. rewrite ?get_bind. apply wpb_bind.
  eapply wpb_Ret; [reflexivity|]. cbn [s_acc]. rewrite Ea.
  destruct (acc_data_ok n pieces t b k Hn Hn31 Hf) as (b' & k' & E & Hf').
  apply wpb_bind. eapply wpb_Ret; [unfold run; by rewrite E|]. apply wpb_bind. eapply wpb_Ret; [reflexivity|].
  apply wpb_ret. split; [exact Hs|]. by exists n, (t ++ concat pieces), b', k'.
Qed.

Lemma keeps_online cfg timeout_ms : keeps (go_online cfg timeout_ms).
Proof.
  unfold go_online, ensure_dns. apply keeps_bind; [apply keeps_set_mode|]. intros e1.
  apply keeps_bind; [destruct (_ && _); [apply keeps_set_mode|auto with boot]|]. intros e2. keeps.
Qed.

#[local] Hint Resolve keeps_hw_boot keeps_set_mode keeps_send_at keeps_read_cell : boot.
#[local] Hint Extern 1 (keeps (esperar_cereg _ _)) => apply keeps_cereg; lia : boot.

Lemma keeps_start cfg timeout_ms : keeps (modem_ppp_start_blocking cfg timeout_ms).
Proof.
  unfold modem_ppp_start_blocking. destruct cfg as [cfg|]; [|auto with boot]. destruct (apn cfg); [|auto with boot].
  do 20 (keeps_step; [solve [keeps]|]).
  intros s Hs. apply wpb_bind. eapply wpb_Ret; [reflexivity|].
  apply wpb_bind. eapply wpb_mono.
  { apply command_ok. split; [exact Hs|]. exists 64%nat, [], (zeros 64), 0. split; [lia|]. split; [lia|].
    split; [by apply (filled_nil 64); lia|done]. }
  intros e s1 [Hs1 Hr]. destruct (negb _); [exact Hs1|]. apply wpb_bind. eapply wpb_mono; [by apply command_ok|].
  intros _ s2 [Hs2 _]. revert s2 Hs2. change (keeps (_ ← md_delay 500; go_online cfg timeout_ms)).
  keeps_step; [auto with boot|]. apply keeps_online.
Qed.
End ppp.

Section firmware.
Context `{Platform} (token : bytes) (Hfit : answers_fit).

(** [m] leaves the buffers whole and the sensors alone, and creates no task. *)
Definition stays_idle {A} (m : ST Boot A) : Prop :=
  forall b, idle b -> wpb m b (fun _ b' => idle b' /\ same_sensors b b').

Lemma same_sensors_trans a b c : same_sensors a b -> same_sensors b c -> same_sensors a c.
Proof. intros (A1 & A2 & A3) (B1 & B2 & B3). unfold same_sensors. rewrite B1, B2, B3. by split. Qed.

Lemma idle_ret {A} (a : A) : stays_idle (mret a).
Proof. intros b Hb. by split. Qed.

Lemma idle_bind {A B} (m : ST Boot A) (f : A -> ST Boot B) :
  stays_idle m -> (forall a, stays_idle (f a)) -> stays_idle (m ≫= f).
Proof.
  intros Hm Hf b Hb. apply wpb_bind. eapply wpb_mono; [by apply Hm|]. intros a b' [Hb' Hs].
  eapply wpb_mono; [by apply (Hf a b')|]. intros c b'' [Hb'' Hs']. split; [done|]. by eapply same_sensors_trans.
Qed.

Lemma idle_modem {A} (m : ST Modem A) : keeps m -> stays_idle (on_modem m).
Proof.
  intros Hm [m0 s0 g0] [Hb Hq]. unfold wpb, on_modem. cbn [boot_modem boot_sens AppMain.g_city] in *.
  specialize (Hm m0 Hq). unfold wpb in Hm. destruct (m m0) as [[a m']| | |]; [|exact Hm..].
  rewrite Ret_bind. split; [by split|done].
Qed.

Lemma idle_esp name args : bytes_eqb name (STR "xTaskCreate sensor_task") = false -> stays_idle (boot_esp name args).
Proof. intros Hn. by apply idle_modem, keeps_call. Qed.

Lemma idle_delay ms : stays_idle (boot_delay ms).
Proof. by apply idle_modem, keeps_call. Qed.

Lemma idle_check e : stays_idle (boot_check e).
Proof. apply idle_modem, keeps_check. Qed.

Lemma idle_locate : stays_idle (locate token).
Proof.
  intros b Hb. destruct (locate_ok token b Hb) as (b' & city & E & Hb' & Hs & _). by eapply wpb_Ret; [exact E|].
Qed.
End firmware.

#[export] Hint Resolve idle_ret idle_delay idle_check idle_locate : boot.
#[export] Hint Extern 1 (stays_idle (boot_esp _ _)) => apply idle_esp; reflexivity : boot.

Ltac idle_step :=
  match goal with
  | |- stays_idle (mbind _ _) => apply idle_bind; [|intros]
  | |- stays_idle (if ?b then _ else _) => destruct b
  end.
Ltac idles := repeat first [idle_step | solve [auto with boot]].

Section app_main.
Context `{Platform} (token : bytes) (Hfit : answers_fit).

Lemma idle_wifi : stays_idle wifi_hard_off.
Proof. unfold wifi_hard_off, destroy_netif. idles. Qed.

Lemma idle_wait tries : stays_idle (wait_time tries).
Proof.
  induction tries as [|tries IH]; cbn [wait_time]; [idles|].
  apply idle_bind; [by apply idle_modem, keeps_call|]. intros now. idles.
Qed.

Lemma idle_sntp : stays_idle init_sntp_and_time.
Proof. unfold init_sntp_and_time. pose proof (idle_wait 100). idles. Qed.

(** The devices are known when [sensors_init_all] reports success, if it starts
    from nothing. *)
Definition sensors_on (s : Sens) : Prop := s_i2c_bus s = true /\ s_scd4x_dev s = true /\ s_sen5x_dev s = true.

Lemma sensors_init_ok s :
  s_i2c_bus s = false -> no_task (sens_trace s) = true ->
  exists e s', sensors_init_all s = Ret (e, s') /\ g_city_state s' = g_city_state s /\
    no_task (sens_trace s') = true /\ (e = ESP_OK -> sensors_on s').
Proof.
  intros Hb Hq. unfold sensors_init_all, sens_delay, i2c_transmit.
  cbv [mbind ST_bind outcome_bind sens_call get put set_bus set_scd4x set_sen5x sen5x_device_reset sen5x_start_measurement
       scd4x_start_measurement i2c_transmit sens_delay mret ST_ret].
  cbn [s_i2c_bus sens_trace s_scd4x_dev s_sen5x_dev g_city_state]. rewrite Hb.
  repeat (case_match; [eexists _, _; split; [reflexivity|]; split; [reflexivity|]; split; [exact Hq|];
    try (intros E; bool_to_prop; done)|]).
  eexists _, _. split; [reflexivity|]. split; [reflexivity|]. split; [exact Hq|]. by intros _.
Qed.

(** What the task finds when it is created: the statics of start-up, no database
    yet, and its own variables over [junk]. *)
Definition world_of (b : Boot) (junk : SensorData) : World :=
  mkWorld (mkShim (md_trace (boot_modem b)) 0 None None) (boot_sens b) (task_init junk).

(** How start-up ends. *)
Definition booted (r : boot_end) (b : Boot) : Prop :=
  match r with
  | Restarted => no_task (md_trace (boot_modem b)) = true /\
                 head (md_trace (boot_modem b)) = Some (EspApi (STR "esp_restart") [])
  | NoSensors e => e <> ESP_OK /\ no_task (md_trace (boot_modem b)) = true
  | TaskCreated =>
      exists h city, md_trace (boot_modem b) = EspApi (STR "xTaskCreate sensor_task") [10240; 5] :: h /\
        no_task h = true /\ sensors_on (boot_sens b) /\ city_fits city /\
        forall junk, fresh_task city (world_of b junk)
  end.

(** Steps 3 and 4: the city, the sensors, the task. *)
Lemma boot_tail_ok b :
  idle b -> s_i2c_bus (boot_sens b) = false ->
  wpb (_ ← locate token;
       _ ← boot_delay 1500;
       sret ← boot_sensors sensors_init_all;
       if negb (sret =? ESP_OK) then mret (NoSensors sret)
       else _ ← boot_esp (STR "xTaskCreate sensor_task") [10240; 5]; mret TaskCreated) b booted.
Proof.
  intros Hb Hbus. destruct (locate_ok token b Hb) as (b1 & city & E1 & Hb1 & (Hs1 & _) & Hc & Hfits).
  apply wpb_bind. eapply wpb_Ret; [exact E1|]. apply wpb_bind.
  destruct b1 as [m1 s1 g1]. destruct Hb1 as [[_ Hl] Hq]. cbn [boot_modem boot_sens] in *.
  eapply wpb_Ret; [reflexivity|]. set (h := TaskDelay 1500 :: _). apply wpb_bind.
  destruct (sensors_init_ok (set_sens_trace h s1)) as (e & s2 & E & Hg & Hq2 & Hon).
  { cbn [set_sens_trace s_i2c_bus]. by rewrite Hs1. } { exact Hq. }
  eapply wpb_Ret; [unfold boot_sensors; cbn [boot_modem boot_sens AppMain.g_city md_trace]; by rewrite E|].
  destruct (Z.eqb_spec e ESP_OK) as [He|He]; cbn [negb]; [|by split].
  apply wpb_bind. eapply wpb_Ret; [reflexivity|]. apply wpb_ret.
  exists (sens_trace s2), city. split; [done|]. split; [exact Hq2|]. split; [by apply Hon|]. split; [exact Hfits|].
  intros junk. repeat split. cbn [world_of sens boot_sens]. rewrite Hg. exact Hc.
Qed.
End app_main.

(** C8: start-up always ends, in one of five ways, for a modem whose answers are
    texts below 128 bytes without NUL, as its library promises.  Three returns:
    the device restarts because PPP did not come up, the sensors did not start,
    or the measurement task was created - once, as the last act, with the
    sensors started, the city text fit for the measurement and the variables of
    the task in the state the task starts from.  Two stops: an [ESP_ERROR_CHECK]
    on a call of the SDK that failed, and an [atoi], undefined beyond the range
    of [int], on the codes of the cell. *)
Theorem app_main_spec `{Platform} token :
  answers_fit ->
  match app_main token boot_init with
  | Ret (r, b) => booted r b
  | Abort msg => msg = "ESP_ERROR_CHECK failed"%string
  | Undef msg => msg = "atoi: out of range"%string
  | Fuel => False
  end.
Proof.
  intros Hfit. enough (wpb (app_main token) boot_init booted) as Hw by exact Hw. revert Hfit.
  intros Hfit. unfold app_main. assert (idle boot_init) as H0 by by repeat split.
  assert (s_i2c_bus (boot_sens boot_init) = false) as Hbus by done. revert H0 Hbus. generalize boot_init. intros b H0 Hbus.
  assert (forall A B (m : ST Boot A) (f : A -> ST Boot B) b Q,
    stays_idle m -> idle b -> s_i2c_bus (boot_sens b) = false ->
    (forall a b', idle b' -> s_i2c_bus (boot_sens b') = false -> wpb (f a) b' Q) -> wpb (m ≫= f) b Q) as Hstep.
  { intros A B m f b0 Q Hm Hb Hbs Hf. apply wpb_bind. eapply wpb_mono; [by apply Hm|].
    intros a b' [Hb' [Hs _]]. apply Hf; [done|]. by rewrite Hs. }
  apply Hstep; [idles|done|done|]. clear b H0 Hbus. intros ret b H0 Hbus.
  do 5 (apply Hstep; [idles|done|done|]; clear b H0 Hbus; intros ? b H0 Hbus).
  apply Hstep; [apply idle_wifi|done|done|]. clear b H0 Hbus. intros _ b H0 Hbus.
  apply Hstep; [by apply idle_modem, keeps_start|done|done|]. clear b H0 Hbus. intros e b H0 Hbus.
  destruct (negb _).
  - apply Hstep; [idles|done|done|]. clear b H0 Hbus. intros _ b [_ Hq] _. apply wpb_bind.
    eapply wpb_Ret; [reflexivity|]. apply wpb_ret. by split.
  - apply Hstep; [apply idle_sntp|done|done|]. clear b H0 Hbus. intros _ b H0 Hbus. by apply boot_tail_ok.
Qed.

(** The modem of [demo_modem] on a board where everything comes up: handles are
    not null and PPP gets its address. *)
Definition demo_board : Platform := {|
  http_init := @http_init demo_modem; http_set := @http_set demo_modem; http_perform := @http_perform demo_modem;
  http_get_status_code := @http_get_status_code demo_modem; time := @time demo_modem;
  timer_get_time := @timer_get_time demo_modem; new_char := @new_char demo_modem;
  i2c_err := @i2c_err demo_modem; i2c_data := @i2c_data demo_modem; modem_at := @modem_at demo_modem;
  modem_command := @modem_command demo_modem; dns_info := @dns_info demo_modem;
  api := fun h => match h with
                  | EspApi name _ :: _ =>
                      if bytes_eqb name (STR "esp_netif_new") || bytes_eqb name (STR "esp_modem_new_dev") ||
                         bytes_eqb name (STR "xEventGroupWaitBits") then 1 else 0
                  | _ => 0
                  end
|}.

Lemma demo_boot : let p := demo_board in
  exists b, app_main (STR "pk") boot_init = Ret (TaskCreated, b) /\
    cstr (g_city_state (boot_sens b)) = Some (STR "Leon- Gto").
Proof.
  intros p.
  assert (match app_main (STR "pk") boot_init with
          | Ret (TaskCreated, b) => bool_decide (cstr (g_city_state (boot_sens b)) = Some (STR "Leon- Gto"))
          | _ => false end = true) as Hv by (vm_compute; reflexivity).
  destruct (app_main _ _) as [[[|e|] b]| | |]; try discriminate Hv.
  apply bool_decide_eq_true in Hv. by exists b.
Qed.

Lemma demo_board_fits : @answers_fit demo_board.
Proof. exact demo_modem_fits. Qed.

Lemma app_main_spec_witness :
  let p := demo_board in
  exists b, app_main (STR "pk") boot_init = Ret (TaskCreated, b) /\ city_fits (STR "Leon- Gto") /\
    forall junk, fresh_task (STR "Leon- Gto") (world_of b junk).
Proof.
  intros p. destruct demo_boot as (b & E & Hc). exists b. split; [exact E|].
  pose proof (app_main_spec (STR "pk") demo_board_fits) as Hb. rewrite E in Hb.
  destruct Hb as (h & city & _ & _ & _ & Hfit & Hf).
  assert (city = STR "Leon- Gto") as <-.
  { destruct (Hf zero_data)
      as (_ & _ & _ & _ & _ & Ec). cbn [world_of sens] in Ec. congruence. }
  split; [exact Hfit|exact Hf].
Defined.
